(** * Sequence sampling and batching engine of [common/data.py]

    A shallow embedding of [random_subsamples], [DnaSequenceGenerator] and
    [DnaSampleGenerator], with the numpy operations they call written out
    on lists and integers, followed by the properties of the sampling
    engine.

    Conventions.
    - A numpy array is a list (of lists); an [int32]/[int64] cell is a [Z]
      with the wrap-around written out where the code computes in that type.
    - A float64 cell is carried by its exact value: a dyadic fraction
      ([f64]) for the uniform draws, an integer for integral values; the
      float64 operations used by the code (conversion, product, truncation)
      round to nearest-even on 53 significant bits.
    - A Python exception is a [Raise]; a method body runs in a state and
      exception monad over the generator object and the store of
      [numpy.random.Generator] objects, so that a raised exception keeps
      the mutations done before it.
    - A call of the attribute [augment_offset_fn] carries the way its
      index is passed, positionally or by keyword: one of the two
      functions that [__init__] may store there takes no keyword.
    - Array extents ([batch_size], [batches_per_epoch], [sequence_length],
      [kmer], [subsample_length]) are naturals: numpy refuses negative
      extents. *)

From Stdlib.Strings Require Import Byte.
From stdpp Require Import base list gmap strings pretty numbers functions.

Local Open Scope Z_scope.

(** ** Python exceptions *)

Inductive exn := IndexError | KeyError | ValueError | AttributeError | TypeError.

Inductive result (A : Type) :=
  | Ok (a : A)
  | Raise (e : exn).
Arguments Ok {A} a.
Arguments Raise {A} e.

Definition is_ok {A} (r : result A) : bool :=
  match r with Ok _ => true | Raise _ => false end.

Definition rbind {A B} (r : result A) (k : A -> result B) : result B :=
  match r with Ok a => k a | Raise e => Raise e end.

(** ** Machine integers *)

Definition wrap64 (z : Z) : Z := (z + 2 ^ 63) mod 2 ^ 64 - 2 ^ 63.
Definition wrap32 (z : Z) : Z := (z + 2 ^ 31) mod 2 ^ 32 - 2 ^ 31.
Definition add64 (a b : Z) : Z := wrap64 (a + b).
Definition mul64 (a b : Z) : Z := wrap64 (a * b).

(** ** float64 *)

(** Nearest float64 to a non-negative integer [p]: [p] is kept when it has
    at most 53 bits, else it is rounded to a multiple of [2^e], where
    [e = bits(p) - 53], ties going to the even multiple. *)
Definition round53 (p : Z) : Z :=
  if p <? 2 ^ 53 then p
  else
    let e := Z.log2 p - 52 in
    let q := p / 2 ^ e in
    let r := p mod 2 ^ e in
    let half := 2 ^ (e - 1) in
    if r <? half then q * 2 ^ e
    else if half <? r then (q + 1) * 2 ^ e
    else if Z.even q then q * 2 ^ e
    else (q + 1) * 2 ^ e.

(** Value of the float64 an integer converts to ([ndarray.astype(float)],
    storing an integer into a float64 array, [float(int)]). *)
Definition f64_of_int (z : Z) : Z := Z.sgn z * round53 (Z.abs z).

(** A float64 as the dyadic fraction [f_num / 2^f_exp]. *)
Record f64 := F64 { f_num : Z; f_exp : Z }.

(** The float64 values of the half-open unit interval: every such value is
    [m / 2^e] with [0 <= m < 2^53] and [53 <= e]. *)
Definition in_unit (u : f64) : Prop :=
  0 <= f_num u < 2 ^ 53 /\ 53 <= f_exp u.

(** [u * n] for a float64 [u >= 0] and an integer [n]: the integer is
    converted to float64, and the exact product is rounded. *)
Definition f64_mul_int (u : f64) (n : Z) : f64 :=
  F64 (Z.sgn n * round53 (f_num u * round53 (Z.abs n))) (f_exp u).

(** [int(x)], [x.astype(int)]: truncation toward zero. *)
Definition f64_trunc (x : f64) : Z := f_num x ÷ 2 ^ f_exp x.

(** [floor(x)]. *)
Definition f64_floor (x : f64) : Z := f_num x / 2 ^ f_exp x.

(** ** numpy and Python indexing *)

(** [a[i]] on the first axis of an array, or on a Python list: a negative
    index counts from the end. *)
Definition np_index {A} (a : list A) (i : Z) : result A :=
  let n := Z.of_nat (length a) in
  let j := if i <? 0 then i + n else i in
  if (0 <=? j) && (j <? n) then
    match a !! Z.to_nat j with
    | Some x => Ok x
    | None => Raise IndexError
    end
  else Raise IndexError.

(** [s[a:b]] on a sequence. *)
Definition py_slice {A} (s : list A) (a b : Z) : list A :=
  let n := Z.of_nat (length s) in
  let norm x := if x <? 0 then Z.max (x + n) 0 else Z.min x n in
  let a' := norm a in
  let b' := norm b in
  take (Z.to_nat (b' - a')) (drop (Z.to_nat a') s).

(** [row[...] = v] for a row of extent [n] and a one-dimensional [v]: the
    extents agree, or [v] has one element and is broadcast. *)
Definition assign_row {A} (n : nat) (v : list A) : result (list A) :=
  if decide (length v = n) then Ok v
  else match v with
       | [x] => Ok (replicate n x)
       | _ => Raise ValueError
       end.

(** [np.frombuffer(b, dtype=np.uint8)]. *)
Definition frombuffer (b : list byte) : list Z :=
  map (fun c => Z.of_N (Byte.to_N c)) b.

(** Rows of extent [cols] cut from a flat array in C order. *)
Definition reshape {A} (rows cols : nat) (flat : list A) : list (list A) :=
  map (fun i => take cols (drop (i * cols) flat)) (seq 0 rows).

(** ** K-mer encoding *)

(** Inner product accumulated in int64. *)
Fixpoint dot64 (a v : list Z) : Z :=
  match a, v with
  | x :: a', y :: v' => add64 (mul64 x y) (dot64 a' v')
  | _, _ => 0
  end.

(** [np.correlate(a, v, mode="valid")] for [len(v) <= len(a)]. *)
Definition correlate_valid (a v : list Z) : list Z :=
  map (fun i => dot64 (drop i a) v)
      (seq 0 (length a - length v + 1)).

(** [np.convolve(a, v, mode="valid")]: the longer argument comes first,
    an empty argument is refused, and the shorter one is reversed. *)
Definition np_convolve_valid (a v : list Z) : result (list Z) :=
  let '(a, v) := if (length a <? length v)%nat then (v, a) else (a, v) in
  match a, v with
  | [], _ => Raise ValueError
  | _, [] => Raise ValueError
  | _, _ => Ok (correlate_valid a (rev v))
  end.

(** [5**np.arange(k)], an int64 array. *)
Definition kmer_kernel (k : nat) : list Z :=
  map (fun j => wrap64 (5 ^ Z.of_nat j)) (seq 0 k).

(** [self.to_kmers], selected in [__init__] by [self.kmer > 1]. *)
Definition to_kmers (k : nat) (x : list Z) : result (list Z) :=
  if (1 <? k)%nat then np_convolve_valid x (kmer_kernel k) else Ok x.

(** Exact inner product, and the positional weights [5^0 .. 5^(k-1)]. *)
Fixpoint dot (a v : list Z) : Z :=
  match a, v with
  | x :: a', y :: v' => x * y + dot a' v'
  | _, _ => 0
  end.

Definition weights (k : nat) : list Z :=
  map (fun j => 5 ^ Z.of_nat j) (seq 0 k).

Definition base_code (c : Z) : Prop := 0 <= c < 5.

(** ** Archives *)

(** An opened [Lmdb] handle: a read-only store of byte strings under byte
    string keys; [len(handle)] is its number of entries. *)
Abbreviation archive := (gmap string (list byte)).

Definition archive_len (a : archive) : Z := Z.of_nat (size a).

(** [handle[str(key).encode()]] (and [handle[str(key)]], which the store
    encodes to the same bytes). *)
Definition archive_get (a : archive) (key : Z) : result (list byte) :=
  match a !! pretty key with
  | Some b => Ok b
  | None => Raise KeyError
  end.

(** ** numpy.random.Generator *)

(** The three draws the code makes, as transitions of the bit generator's
    state [S]:
    - [rng_integers high n]: [rng.integers(high, size=.., dtype=np.int32)]
      for [n] cells in all;
    - [rng_uniform n]: [rng.uniform(size=..)] for [n] cells in all;
    - [rng_choice n k]: [rng.choice(np.arange(n), k, replace=False)]. *)
Class Generator (S : Type) := {
  rng_integers : Z -> nat -> S -> result (list Z) * S;
  rng_uniform : nat -> S -> list f64 * S;
  rng_choice : Z -> nat -> S -> result (list Z) * S
}.

(** What numpy documents of these draws. *)
Class GeneratorSpec (S : Type) `{Generator S} : Prop := {
  integers_ok : forall high n s,
    0 < high <= 2 ^ 31 -> is_ok (rng_integers high n s).1 = true;
  integers_range : forall high n s l,
    (rng_integers high n s).1 = Ok l ->
    length l = n /\ Forall (fun x => 0 <= x < high) l;
  uniform_range : forall n s,
    length (rng_uniform n s).1 = n /\ Forall in_unit (rng_uniform n s).1;
  choice_ok : forall n k s,
    Z.of_nat k <= n -> is_ok (rng_choice n k s).1 = true;
  choice_range : forall n k s l,
    (rng_choice n k s).1 = Ok l ->
    length l = k /\ NoDup l /\ Forall (fun x => 0 <= x < n) l
}.

(** ** Method bodies *)

(** A method runs on the store of generator objects and on [self]; an
    exception leaves both as they were when it was raised. *)
Definition M (S Self A : Type) : Type :=
  (nat -> S) * Self -> result A * ((nat -> S) * Self).

#[global] Instance M_ret {S Self} : MRet (M S Self) :=
  fun A a st => (Ok a, st).

#[global] Instance M_bind {S Self} : MBind (M S Self) :=
  fun A B k m st =>
    match m st with
    | (Ok a, st') => k a st'
    | (Raise e, st') => (Raise e, st')
    end.

#[global] Instance result_ret : MRet result := fun A a => Ok a.
#[global] Instance result_bind : MBind result := fun A B k r => rbind r k.

Section primitives.
Context {S Self : Type} (rng_of : Self -> nat).

(** [self.f] *)
Definition gets {A} (f : Self -> A) : M S Self A :=
  fun st => (Ok (f st.2), st).

(** [self.f = v] *)
Definition modify (f : Self -> Self) : M S Self unit :=
  fun st => (Ok tt, (st.1, f st.2)).

(** A pure step that may raise. *)
Definition lift {A} (r : result A) : M S Self A :=
  fun st => (r, st).

(** A draw from [self.rng], which advances that generator object. *)
Definition draw {A} (op : S -> result A * S) : M S Self A :=
  fun st =>
    let r := rng_of st.2 in
    let '(x, s') := op (st.1 r) in
    (x, (<[r := s']> st.1, st.2)).

(** [for i in range(n): body(i)] *)
Fixpoint for_each (l : list nat) (body : nat -> M S Self unit) : M S Self unit :=
  match l with
  | [] => mret tt
  | i :: l' => body i ≫= fun _ => for_each l' body
  end.

Definition for_range (n : nat) (body : nat -> M S Self unit) : M S Self unit :=
  for_each (seq 0 n) body.
End primitives.

(** [a[i, j]] and [a[i, j, k]] *)
Definition np_index2 {A} (a : list (list A)) (ix : Z * Z) : result A :=
  row ← np_index a ix.1; np_index row ix.2.

Definition np_index3 {A} (a : list (list (list A))) (ix : Z * Z * Z) : result A :=
  plane ← np_index a ix.1.1; row ← np_index plane ix.1.2; np_index row ix.2.

(** [self.clip_sequence] *)
Definition clip_sequence {A} (sequence_length : nat) (sequence : list A) (offset : Z) : list A :=
  py_slice sequence offset (offset + Z.of_nat sequence_length).

(** The body of [compute_augmented_offset] once the fraction is read. *)
Definition augmented_offset (u : f64) (sequence_len : Z) (sequence_length : nat) : Z :=
  f64_trunc (f64_mul_int u (sequence_len - Z.of_nat sequence_length + 1)).

Inductive DnaLabelType := SampleIds | OneMer | KMer.

(** How a call passes [augment_index] to [self.augment_offset_fn]:
    positionally, as [DnaSampleGenerator.generate_batch] does, or by
    keyword ([augment_index=...]), as [DnaSequenceGenerator.generate_batch]
    does. *)
Inductive passing := Positional | Keyword.

(** What accompanies the features of a batch. *)
Inductive label (F B : Type) :=
  | SampleIdLabels (ids : list Z)
  | OneMerLabels (batch : B)
  | KMerLabels (kmers : F).
Arguments SampleIdLabels {F B} ids.
Arguments OneMerLabels {F B} batch.
Arguments KMerLabels {F B} kmers.

(** [np.min(a)]: an empty array has no minimum. *)
Definition np_min (a : list Z) : result Z :=
  match a with
  | [] => Raise ValueError
  | n :: ns => Ok (foldr Z.min n ns)
  end.

(** The effective lengths: with [balance],
    [self.sample_lengths[:] = np.min(self.sample_lengths)]. *)
Definition balance_lengths (balance : bool) (lengths : list Z) : result (list Z) :=
  if balance then rbind (np_min lengths) (fun m => Ok (replicate (length lengths) m))
  else Ok lengths.

(** ** DnaSequenceGenerator *)

Module DnaSequenceGenerator.

Record t := Build {
  samples : list archive;
  sample_lengths : list Z;
  num_samples : nat;
  sequence_length : nat;
  kmer : nat;
  augment : bool;
  batch_size : nat;
  batches_per_epoch : nat;
  balance : bool;
  labels : option DnaLabelType;
  rng : nat;
  sample_indices : list (list Z);
  sequence_indices : list (list Z);
  augment_offsets : option (list (list f64))
}.

Definition set_sample_indices (v : list (list Z)) (self : t) : t :=
  Build (samples self) (sample_lengths self) (num_samples self)
    (sequence_length self) (kmer self) (augment self) (batch_size self)
    (batches_per_epoch self) (balance self) (labels self) (rng self)
    v (sequence_indices self) (augment_offsets self).

Definition set_sequence_indices (v : list (list Z)) (self : t) : t :=
  Build (samples self) (sample_lengths self) (num_samples self)
    (sequence_length self) (kmer self) (augment self) (batch_size self)
    (batches_per_epoch self) (balance self) (labels self) (rng self)
    (sample_indices self) v (augment_offsets self).

Definition set_augment_offsets (v : list (list f64)) (self : t) : t :=
  Build (samples self) (sample_lengths self) (num_samples self)
    (sequence_length self) (kmer self) (augment self) (batch_size self)
    (batches_per_epoch self) (balance self) (labels self) (rng self)
    (sample_indices self) (sequence_indices self) (Some v).

(** A batch of windows, and what [__getitem__] returns. *)
Definition batch := list (list Z).
Definition features := list (list Z).
Definition item : Type := features * option (label features batch).

Section methods.
Context {S : Type} `{Generator S}.

Local Abbreviation M := (M S t).
Local Abbreviation draw := (draw rng).

Definition shuffle : M unit :=
  rows ← gets batches_per_epoch;
  cols ← gets batch_size;
  n ← gets num_samples;
  flat ← draw (rng_integers (Z.of_nat n) (rows * cols));
  modify (set_sample_indices (reshape rows cols flat));;
  table ← gets sample_lengths;
  picked ← gets sample_indices;
  lengths ← lift (mapM (mapM (np_index table)) picked);
  us ← draw (fun s => let '(u, s') := rng_uniform (rows * cols) s in (Ok u, s'));
  modify (set_sequence_indices
            (zip_with (zip_with (fun n u => f64_trunc (f64_mul_int u n)))
                      lengths (reshape rows cols us)));;
  aug ← gets augment;
  if aug : bool then
    us ← draw (fun s => let '(u, s') := rng_uniform (rows * cols) s in (Ok u, s'));
    modify (set_augment_offsets (reshape rows cols us))
  else mret tt.

Definition compute_augmented_offset (sequence_len : Z) (augment_index : Z * Z) : M Z :=
  table ← gets augment_offsets;
  match table with
  | None => lift (Raise AttributeError)
  | Some table =>
      offset ← lift (np_index2 table augment_index);
      window ← gets sequence_length;
      mret (augmented_offset offset sequence_len window)
  end.

(** [self.augment_offset_fn], selected in [__init__] by [self.augment]:
    the bound method [compute_augmented_offset], which takes
    [augment_index] either way, or [lambda *_: 0], which takes positional
    arguments only and refuses a keyword with [TypeError]. *)
Definition augment_offset_fn (how : passing) (sequence_len : Z)
    (augment_index : Z * Z) : M Z :=
  aug ← gets augment;
  if aug : bool then compute_augmented_offset sequence_len augment_index
  else match how with
       | Positional => mret 0
       | Keyword => lift (Raise TypeError)
       end.

Definition batch_to_kmers (b : batch) : M features :=
  window ← gets sequence_length;
  k ← gets kmer;
  if Z.of_nat window - Z.of_nat k + 1 <? 0 then lift (Raise ValueError)
  else
    mapM (fun sequence =>
            codes ← lift (to_kmers k sequence);
            row ← lift (assign_row (Z.to_nat (Z.of_nat window - Z.of_nat k + 1)) codes);
            mret (map f64_of_int row)) b.

Definition generate_batch (batch_index : Z) : M batch :=
  rows ← gets sample_indices;
  sample_indices ← lift (np_index rows batch_index);
  rows ← gets sequence_indices;
  sequence_indices ← lift (np_index rows batch_index);
  cols ← gets batch_size;
  window ← gets sequence_length;
  mapM (fun i : nat =>
          sample_index ← lift (np_index sample_indices (Z.of_nat i));
          archives ← gets samples;
          sample ← lift (np_index archives sample_index);
          key ← lift (np_index sequence_indices (Z.of_nat i));
          sequence ← lift (archive_get sample key);
          offset ← augment_offset_fn Keyword (Z.of_nat (length sequence))
                                     (batch_index, Z.of_nat i);
          lift (assign_row window (frombuffer (clip_sequence window sequence offset))))
       (seq 0 cols).

(** [self.post_process_batch], selected in [__init__] by [self.labels]. *)
Definition post_process_batch (b : batch) (batch_index : Z) : M item :=
  mode ← gets labels;
  match mode with
  | Some SampleIds =>
      x ← batch_to_kmers b;
      rows ← gets sample_indices;
      ids ← lift (np_index rows batch_index);
      mret (x, Some (SampleIdLabels ids))
  | Some OneMer =>
      x ← batch_to_kmers b;
      mret (x, Some (OneMerLabels b))
  | Some KMer =>
      x ← batch_to_kmers b;
      mret (x, Some (KMerLabels x))
  | None =>
      x ← batch_to_kmers b;
      mret (x, None)
  end.

Definition getitem (batch_index : Z) : M item :=
  b ← generate_batch batch_index;
  post_process_batch b batch_index.

Definition len : M nat := gets batches_per_epoch.

Definition on_epoch_end : M unit := shuffle.

(** [__init__]: the object exists for the caller only when the body
    returns. *)
Definition init (samples : list archive) (sequence_length kmer batch_size
                 batches_per_epoch : nat) (augment balance : bool)
                (labels : option DnaLabelType) (rng : nat)
                (h : nat -> S) : result t * (nat -> S) :=
  match balance_lengths balance (map archive_len samples) with
  | Raise e => (Raise e, h)
  | Ok lengths =>
      let self := Build samples lengths (length samples) sequence_length kmer
                        augment batch_size batches_per_epoch balance labels
                        rng [] [] None in
      match shuffle (h, self) with
      | (Ok _, (h', self')) => (Ok self', h')
      | (Raise e, (h', _)) => (Raise e, h')
      end
  end.
End methods.
End DnaSequenceGenerator.

(** ** DnaSampleGenerator *)

Module DnaSampleGenerator.

Record t := Build {
  subsample_length : nat;
  samples : list archive;
  sample_lengths : list Z;
  num_samples : nat;
  sequence_length : nat;
  kmer : nat;
  augment : bool;
  batch_size : nat;
  batches_per_epoch : nat;
  balance : bool;
  labels : option DnaLabelType;
  rng : nat;
  sample_indices : list (list Z);
  sequence_indices : list (list (list Z));
  augment_offsets : option (list (list (list f64)))
}.

Definition set_sample_indices (v : list (list Z)) (self : t) : t :=
  Build (subsample_length self) (samples self) (sample_lengths self)
    (num_samples self) (sequence_length self) (kmer self) (augment self)
    (batch_size self) (batches_per_epoch self) (balance self) (labels self)
    (rng self) v (sequence_indices self) (augment_offsets self).

Definition set_sequence_indices (v : list (list (list Z))) (self : t) : t :=
  Build (subsample_length self) (samples self) (sample_lengths self)
    (num_samples self) (sequence_length self) (kmer self) (augment self)
    (batch_size self) (batches_per_epoch self) (balance self) (labels self)
    (rng self) (sample_indices self) v (augment_offsets self).

Definition set_augment_offsets (v : list (list (list f64))) (self : t) : t :=
  Build (subsample_length self) (samples self) (sample_lengths self)
    (num_samples self) (sequence_length self) (kmer self) (augment self)
    (batch_size self) (batches_per_epoch self) (balance self) (labels self)
    (rng self) (sample_indices self) (sequence_indices self) (Some v).

Definition batch := list (list (list Z)).
Definition features := list (list (list Z)).
Definition item : Type := features * option (label features batch).

Section methods.
Context {S : Type} `{Generator S}.

Local Abbreviation M := (M S t).
Local Abbreviation draw := (draw rng).

(** [self.sequence_indices[i,j] = v], an int32 table written in place. *)
Definition store_keys (i j : nat) (v : list Z) : M unit :=
  group ← gets subsample_length;
  row ← lift (assign_row group (map wrap32 v));
  modify (fun self =>
            set_sequence_indices
              (alter (fun plane => <[j := row]> plane) i (sequence_indices self))
              self).

(** The body of the loops of [shuffle]:
    [self.sequence_indices[i,j] = self.rng.choice(np.arange(lengths[i,j]),
    self.subsample_length, replace=False)]. *)
Definition draw_keys (lengths : list (list Z)) (i j : nat) : M unit :=
  n ← lift (np_index2 lengths (Z.of_nat i, Z.of_nat j));
  group ← gets subsample_length;
  keys ← draw (rng_choice n group);
  store_keys i j keys.

Definition shuffle : M unit :=
  rows ← gets batches_per_epoch;
  cols ← gets batch_size;
  group ← gets subsample_length;
  n ← gets num_samples;
  flat ← draw (rng_integers (Z.of_nat n) (rows * cols));
  modify (set_sample_indices (reshape rows cols flat));;
  table ← gets sample_lengths;
  picked ← gets sample_indices;
  lengths ← lift (mapM (mapM (np_index table)) picked);
  for_range rows (fun i => for_range cols (fun j => draw_keys lengths i j));;
  aug ← gets augment;
  if aug : bool then
    us ← draw (fun s => let '(u, s') := rng_uniform (rows * cols * group) s in (Ok u, s'));
    modify (set_augment_offsets
              (map (reshape cols group) (reshape rows (cols * group) us)))
  else mret tt.

(** Inherited; the index is a triple here. *)
Definition compute_augmented_offset (sequence_len : Z) (augment_index : Z * Z * Z) : M Z :=
  table ← gets augment_offsets;
  match table with
  | None => lift (Raise AttributeError)
  | Some table =>
      offset ← lift (np_index3 table augment_index);
      window ← gets sequence_length;
      mret (augmented_offset offset sequence_len window)
  end.

(** Inherited: the attribute that the inherited [__init__] has set. *)
Definition augment_offset_fn (how : passing) (sequence_len : Z)
    (augment_index : Z * Z * Z) : M Z :=
  aug ← gets augment;
  if aug : bool then compute_augmented_offset sequence_len augment_index
  else match how with
       | Positional => mret 0
       | Keyword => lift (Raise TypeError)
       end.

(** [super().batch_to_kmers] *)
Definition super_batch_to_kmers (b : list (list Z)) : M (list (list Z)) :=
  window ← gets sequence_length;
  k ← gets kmer;
  if Z.of_nat window - Z.of_nat k + 1 <? 0 then lift (Raise ValueError)
  else
    mapM (fun sequence =>
            codes ← lift (to_kmers k sequence);
            row ← lift (assign_row (Z.to_nat (Z.of_nat window - Z.of_nat k + 1)) codes);
            mret (map f64_of_int row)) b.

Definition batch_to_kmers (b : batch) : M features :=
  window ← gets sequence_length;
  k ← gets kmer;
  group ← gets subsample_length;
  if Z.of_nat window - Z.of_nat k + 1 <? 0 then lift (Raise ValueError)
  else
    mapM (fun subsample =>
            rows ← super_batch_to_kmers subsample;
            lift (assign_row group rows)) b.

Definition generate_batch (batch_index : Z) : M batch :=
  rows ← gets sample_indices;
  sample_indices ← lift (np_index rows batch_index);
  planes ← gets sequence_indices;
  sequence_indices ← lift (np_index planes batch_index);
  cols ← gets batch_size;
  group ← gets subsample_length;
  window ← gets sequence_length;
  mapM (fun i : nat =>
          sample_index ← lift (np_index sample_indices (Z.of_nat i));
          archives ← gets samples;
          sample ← lift (np_index archives sample_index);
          mapM (fun j : nat =>
                  key ← lift (np_index2 sequence_indices (Z.of_nat i, Z.of_nat j));
                  sequence ← lift (archive_get sample key);
                  offset ← augment_offset_fn Positional (Z.of_nat (length sequence))
                                             (batch_index, Z.of_nat i, Z.of_nat j);
                  lift (assign_row window
                          (frombuffer (clip_sequence window sequence offset))))
               (seq 0 group))
       (seq 0 cols).

Definition post_process_batch (b : batch) (batch_index : Z) : M item :=
  mode ← gets labels;
  match mode with
  | Some SampleIds =>
      x ← batch_to_kmers b;
      rows ← gets sample_indices;
      ids ← lift (np_index rows batch_index);
      mret (x, Some (SampleIdLabels ids))
  | Some OneMer =>
      x ← batch_to_kmers b;
      mret (x, Some (OneMerLabels b))
  | Some KMer =>
      x ← batch_to_kmers b;
      mret (x, Some (KMerLabels x))
  | None =>
      x ← batch_to_kmers b;
      mret (x, None)
  end.

Definition getitem (batch_index : Z) : M item :=
  b ← generate_batch batch_index;
  post_process_batch b batch_index.

Definition on_epoch_end : M unit := shuffle.

(** [__init__]: [sequence_indices] is allocated first (its cells are
    unspecified until [shuffle] writes them; they are zero here), then
    the inherited constructor runs, ending in this class's [shuffle]. *)
Definition init (samples : list archive) (subsample_length sequence_length kmer
                 batch_size batches_per_epoch : nat) (augment balance : bool)
                (labels : option DnaLabelType) (rng : nat)
                (h : nat -> S) : result t * (nat -> S) :=
  let empty := replicate batches_per_epoch
                 (replicate batch_size (replicate subsample_length 0)) in
  match balance_lengths balance (map archive_len samples) with
  | Raise e => (Raise e, h)
  | Ok lengths =>
      let self := Build subsample_length samples lengths (length samples)
                        sequence_length kmer augment batch_size
                        batches_per_epoch balance labels rng [] empty None in
      match shuffle (h, self) with
      | (Ok _, (h', self')) => (Ok self', h')
      | (Raise e, (h', _)) => (Raise e, h')
      end
  end.
End methods.
End DnaSampleGenerator.

(** ** random_subsamples *)

(** [sample_lengths] is an int64 array, rebound to a numpy scalar by
    [np.min] when [balance] is set. *)
Inductive lengths_value :=
  | LengthArray (v : list Z)
  | LengthScalar (n : Z).

(** [sample_lengths[i]]: a numpy scalar cannot be indexed. *)
Definition lengths_index (l : lengths_value) (i : Z) : result Z :=
  match l with
  | LengthArray v => np_index v i
  | LengthScalar _ => Raise IndexError
  end.

(** [augments] is the three-dimensional array of uniform draws, or
    [np.zeros_like(result.shape[:-1])], which is the one-dimensional array
    of as many zeros as the shape tuple has entries. *)
Inductive augments_value :=
  | AugmentDraws (a : list (list (list f64)))
  | AugmentZerosLike (v : list Z).

(** [augments[i,j,k]]: a one-dimensional array takes one index. *)
Definition augments_index (a : augments_value) (ix : Z * Z * Z) : result f64 :=
  match a with
  | AugmentDraws a => np_index3 a ix
  | AugmentZerosLike _ => Raise IndexError
  end.

Section random_subsamples.
Context {S : Type} `{Generator S}.

Local Abbreviation M := (M S unit).

Definition random_subsamples (samples : list archive)
    (sequence_length subsample_size subsamples_per_sample : nat)
    (augment balance : bool) (rng : nat)
  : M (list (list (list (list Z)))) :=
  let draw {A} := @draw S unit (fun _ => rng) A in
  let lengths := map archive_len samples in
  sample_lengths ← lift (if balance
                         then rbind (np_min lengths) (fun m => Ok (LengthScalar m))
                         else Ok (LengthArray lengths));
  let count := length samples in
  augments ← (if augment then
                us ← draw (fun s =>
                             let '(u, s') :=
                               rng_uniform (count * subsamples_per_sample * subsample_size) s in
                             (Ok u, s'));
                mret (AugmentDraws
                        (map (reshape subsamples_per_sample subsample_size)
                             (reshape count (subsamples_per_sample * subsample_size) us)))
              else mret (AugmentZerosLike (replicate 3 0)));
  mapM (fun '(i, sample) =>
          n ← lift (lengths_index sample_lengths (Z.of_nat i));
          mapM (fun j : nat =>
                  indices ← draw (rng_choice n subsample_size);
                  rows ← mapM (fun '(k, sequence_index) =>
                                 if (k <? subsample_size)%nat then
                                   sequence ← lift (archive_get sample sequence_index);
                                   u ← lift (augments_index augments
                                               (Z.of_nat i, Z.of_nat j, Z.of_nat k));
                                   let offset := augmented_offset u
                                                   (Z.of_nat (length sequence)) sequence_length in
                                   row ← lift (assign_row sequence_length
                                                 (frombuffer
                                                    (clip_sequence sequence_length sequence offset)));
                                   mret (map f64_of_int row)
                                 else lift (Raise IndexError))
                              (imap pair indices);
                  mret (rows ++ replicate (subsample_size - length rows)
                                          (replicate sequence_length 0)))
               (seq 0 subsamples_per_sample))
       (imap pair samples).
End random_subsamples.

(** ** A generator for the examples *)

(** A bit generator whose state is a counter: the draws walk the counter
    through the requested range. It meets [GeneratorSpec]. *)
Module CounterRng.
Definition integers (high : Z) (n : nat) (s : Z) : result (list Z) * Z :=
  if 0 <? high
  then (Ok (map (fun i => (s + Z.of_nat i) mod high) (seq 0 n)), s + Z.of_nat n)
  else (Raise ValueError, s).

Definition uniform (n : nat) (s : Z) : list f64 * Z :=
  (map (fun i => F64 (((s + Z.of_nat i) * 2 ^ 51 + 1) mod 2 ^ 53) 53) (seq 0 n),
   s + Z.of_nat n).

Definition choice (n : Z) (k : nat) (s : Z) : result (list Z) * Z :=
  if Z.of_nat k <=? n
  then (Ok (map (fun i => (s + Z.of_nat i) mod n) (seq 0 k)), s + 1)
  else (Raise ValueError, s).

#[global] Instance generator : Generator Z :=
  {| rng_integers := integers; rng_uniform := uniform; rng_choice := choice |}.
End CounterRng.

(** * Properties *)

(** ** Machine arithmetic *)

Lemma wrap64_small z : - 2 ^ 63 <= z < 2 ^ 63 -> wrap64 z = z.
Proof.
  intros Hz. unfold wrap64.
  rewrite Z.mod_small by lia. lia.
Qed.

Lemma wrap32_small z : - 2 ^ 31 <= z < 2 ^ 31 -> wrap32 z = z.
Proof.
  intros Hz. unfold wrap32.
  rewrite Z.mod_small by lia. lia.
Qed.

Lemma round53_small p : p < 2 ^ 53 -> round53 p = p.
Proof.
  intros Hp. unfold round53.
  destruct (Z.ltb_spec p (2 ^ 53)); [done | lia].
Qed.

Lemma f64_of_int_small z : Z.abs z < 2 ^ 53 -> f64_of_int z = z.
Proof.
  intros Hz. unfold f64_of_int. rewrite round53_small by done.
  destruct z; simpl; lia.
Qed.

(** ** Inner products *)

Lemma dot_nonneg a v :
  Forall (fun x => 0 <= x) a -> Forall (fun x => 0 <= x) v -> 0 <= dot a v.
Proof.
  intros Ha. revert v.
  induction Ha as [|x a Hx Ha IH]; intros v Hv; [done|].
  destruct Hv as [|y v Hy Hv]; [done|].
  simpl. specialize (IH v Hv). nia.
Qed.

Lemma dot64_exact a v :
  Forall (fun x => 0 <= x) a -> Forall (fun x => 0 <= x) v ->
  dot a v < 2 ^ 63 -> dot64 a v = dot a v.
Proof.
  intros Ha. revert v.
  induction Ha as [|x a Hx Ha IH]; intros v Hv Hlt; [done|].
  destruct Hv as [|y v Hy Hv]; [done|].
  simpl in *.
  pose proof (dot_nonneg a v Ha Hv) as Hrest.
  assert (0 <= x * y) by nia.
  rewrite IH by (done || lia).
  unfold add64, mul64.
  rewrite (wrap64_small (x * y)) by lia.
  apply wrap64_small. lia.
Qed.

Lemma dot_zeros_l n v : dot (replicate n 0) v = 0.
Proof.
  revert v. induction n as [|n IH]; intros [|y v]; simpl; try done.
  rewrite IH. lia.
Qed.

Lemma dot64_zeros_l n v : dot64 (replicate n 0) v = 0.
Proof.
  revert v. induction n as [|n IH]; intros [|y v]; simpl; try done.
  rewrite IH. unfold add64, mul64. by rewrite Z.mul_0_l.
Qed.

Lemma dot_take_l a v : dot (take (length v) a) v = dot a v.
Proof.
  revert v. induction a as [|x a IH]; intros [|y v]; simpl; try done.
  by rewrite IH.
Qed.

Lemma dot64_take_l a v : dot64 (take (length v) a) v = dot64 a v.
Proof.
  revert v. induction a as [|x a IH]; intros [|y v]; simpl; try done.
  by rewrite IH.
Qed.

(** ** Positional weights *)

Lemma weights_length k : length (weights k) = k.
Proof. unfold weights. by rewrite length_map, length_seq. Qed.

Lemma kmer_kernel_length k : length (kmer_kernel k) = k.
Proof. unfold kmer_kernel. by rewrite length_map, length_seq. Qed.

Lemma weights_succ k : weights (S k) = weights k ++ [5 ^ Z.of_nat k].
Proof. unfold weights. by rewrite seq_S, map_app. Qed.

Lemma kmer_kernel_weights k : (k <= 28)%nat -> kmer_kernel k = weights k.
Proof.
  intros Hk. unfold kmer_kernel, weights.
  apply map_ext_in. intros j Hj%in_seq.
  apply wrap64_small.
  assert (0 < 5 ^ Z.of_nat j) by (apply Z.pow_pos_nonneg; lia).
  assert (5 ^ Z.of_nat j <= 5 ^ 27) by (apply Z.pow_le_mono_r; lia).
  lia.
Qed.

(** The code of a slice, most significant base first, is a [k]-digit
    numeral in base 5. *)
Lemma dot_rev_weights_range k slice :
  length slice = k -> Forall base_code slice ->
  0 <= dot (rev (weights k)) slice < 5 ^ Z.of_nat k.
Proof.
  revert slice. induction k as [|k IH]; intros slice Hlen Hcodes.
  - destruct slice; [simpl; lia | done].
  - destruct slice as [|d slice]; [done|].
    inversion Hcodes as [|? ? Hd Hcodes']; subst.
    rewrite weights_succ, rev_app_distr. simpl.
    specialize (IH slice ltac:(simpl in Hlen; lia) Hcodes').
    rewrite Nat2Z.inj_succ, Z.pow_succ_r by lia.
    unfold base_code in Hd. nia.
Qed.

Lemma rev_weights_nonneg k : Forall (fun x => 0 <= x) (rev (weights k)).
Proof.
  apply Forall_forall. intros x Hx.
  rewrite <- in_rev in Hx.
  unfold weights in Hx. apply in_map_iff in Hx as (j & <- & _).
  apply Z.pow_nonneg. lia.
Qed.

Lemma base_codes_nonneg l : Forall base_code l -> Forall (fun x => 0 <= x) l.
Proof. apply Forall_impl. unfold base_code. lia. Qed.

(** ** [np.convolve] and [to_kmers] *)

Lemma correlate_valid_length a v :
  length (correlate_valid a v) = (length a - length v + 1)%nat.
Proof. unfold correlate_valid. by rewrite length_map, length_seq. Qed.

Lemma correlate_valid_lookup a v i :
  (i < length a - length v + 1)%nat ->
  correlate_valid a v !! i = Some (dot64 (drop i a) v).
Proof.
  intros Hi. unfold correlate_valid.
  rewrite list_lookup_fmap, lookup_seq_lt by done. done.
Qed.

Lemma np_convolve_valid_long a v :
  (0 < length v <= length a)%nat ->
  np_convolve_valid a v = Ok (correlate_valid a (rev v)).
Proof.
  intros Hlen. unfold np_convolve_valid.
  destruct (Nat.ltb_spec (length a) (length v)); [lia|].
  destruct a; [simpl in Hlen; lia|].
  destruct v; [simpl in Hlen; lia|]. done.
Qed.

Lemma np_convolve_valid_short a v :
  (0 < length a < length v)%nat ->
  np_convolve_valid a v = Ok (correlate_valid v (rev a)).
Proof.
  intros Hlen. unfold np_convolve_valid.
  destruct (Nat.ltb_spec (length a) (length v)); [|lia].
  destruct v; [simpl in Hlen; lia|].
  destruct a; [simpl in Hlen; lia|]. done.
Qed.

Lemma np_convolve_valid_nil_l v : np_convolve_valid [] v = Raise ValueError.
Proof. unfold np_convolve_valid. by destruct v. Qed.

Lemma to_kmers_convolve k window :
  (2 <= k <= length window)%nat ->
  to_kmers k window = Ok (correlate_valid window (rev (kmer_kernel k))).
Proof.
  intros Hk. unfold to_kmers.
  destruct (Nat.ltb_spec 1 k); [|lia].
  apply np_convolve_valid_long. rewrite kmer_kernel_length. lia.
Qed.

Lemma to_kmers_length k window :
  (1 <= k <= length window)%nat ->
  exists out, to_kmers k window = Ok out /\
              length out = (length window - k + 1)%nat.
Proof.
  intros Hk. destruct (decide (k = 1%nat)) as [->|Hne].
  - exists window. split; [done|]. lia.
  - eexists. split; [apply to_kmers_convolve; lia|].
    by rewrite correlate_valid_length, length_rev, kmer_kernel_length.
Qed.

Lemma map_seq_const {A} (f : nat -> A) (c : A) j m :
  (forall i, (j <= i < j + m)%nat -> f i = c) ->
  map f (seq j m) = replicate m c.
Proof.
  revert j. induction m as [|m IH]; intros j Hf; [done|].
  simpl. rewrite Hf by lia. f_equal. apply IH. intros i Hi. apply Hf. lia.
Qed.

Lemma to_kmers_zeros k n :
  (1 <= k <= n)%nat ->
  to_kmers k (replicate n 0) = Ok (replicate (n - k + 1) 0).
Proof.
  intros Hk. destruct (decide (k = 1%nat)) as [->|Hne].
  - unfold to_kmers. simpl. do 2 f_equal. lia.
  - rewrite to_kmers_convolve by (rewrite length_replicate; lia).
    f_equal. unfold correlate_valid.
    rewrite length_replicate, length_rev, kmer_kernel_length.
    apply map_seq_const. intros i _.
    by rewrite drop_replicate, dot64_zeros_l.
Qed.

Lemma dot_comm a v : dot a v = dot v a.
Proof.
  revert v. induction a as [|x a IH]; intros [|y v]; simpl; try done.
  rewrite IH. lia.
Qed.

Lemma dot_app a1 a2 v1 v2 :
  length a1 = length v1 ->
  dot (a1 ++ a2) (v1 ++ v2) = dot a1 v1 + dot a2 v2.
Proof.
  revert v1. induction a1 as [|x a1 IH]; intros [|y v1] Hlen; simpl in *; try done.
  rewrite IH by lia. lia.
Qed.

Lemma dot_nil_r a : dot a [] = 0.
Proof. by destruct a. Qed.

Lemma dot_rev a v : length a = length v -> dot (rev a) (rev v) = dot a v.
Proof.
  revert v. induction a as [|x a IH]; intros [|y v] Hlen; simpl in *; try done.
  rewrite dot_app by (rewrite !length_rev; lia).
  rewrite IH by lia. simpl. lia.
Qed.

Lemma dot_scale c a v : dot (map (Z.mul c) a) v = c * dot a v.
Proof.
  revert v. induction a as [|x a IH]; intros [|y v]; simpl; try lia.
  rewrite IH. lia.
Qed.

Lemma map_seq_shift {A} (f : nat -> A) i j n :
  map f (seq (j + i) n) = map (fun x => f (x + i)%nat) (seq j n).
Proof.
  revert j. induction n as [|n IH]; intros j; [done|].
  simpl. f_equal. apply (IH (S j)).
Qed.

Lemma weights_drop i k :
  (i <= k)%nat ->
  drop i (weights k) = map (Z.mul (5 ^ Z.of_nat i)) (weights (k - i)).
Proof.
  intros Hi. unfold weights.
  rewrite skipn_map, skipn_seq, map_seq_shift, map_map.
  apply map_ext. intros j.
  rewrite Nat2Z.inj_add, Z.pow_add_r by lia. lia.
Qed.

Lemma weights_take n k : (n <= k)%nat -> take n (weights k) = weights n.
Proof.
  intros Hn. unfold weights.
  rewrite firstn_map, take_seq. do 2 f_equal. lia.
Qed.

(** A window shorter than the kernel: [np.convolve] slides the window
    along the kernel, and every output is the window's code shifted by a
    power of 5. *)
Lemma short_window_range k window i :
  (length window <= k)%nat -> (i + length window <= k)%nat ->
  Forall base_code window ->
  0 <= dot (drop i (weights k)) (rev window) < 5 ^ Z.of_nat k.
Proof.
  intros Hlen Hi Hcodes.
  rewrite weights_drop, dot_scale by lia.
  rewrite <- (dot_take_l (weights (k - i)) (rev window)).
  rewrite length_rev, weights_take by lia.
  rewrite <- (rev_involutive (weights (length window))).
  rewrite dot_rev by (rewrite length_rev, weights_length; done).
  pose proof (dot_rev_weights_range (length window) window eq_refl Hcodes) as Hr.
  assert (0 < 5 ^ Z.of_nat i) by (apply Z.pow_pos_nonneg; lia).
  assert (5 ^ Z.of_nat i * 5 ^ Z.of_nat (length window) <= 5 ^ Z.of_nat k).
  { rewrite <- Z.pow_add_r by lia. apply Z.pow_le_mono_r; lia. }
  nia.
Qed.

Lemma pow5_27_lt k : (k <= 27)%nat -> 5 ^ Z.of_nat k < 2 ^ 63.
Proof.
  intros Hk.
  assert (5 ^ Z.of_nat k <= 5 ^ 27) by (apply Z.pow_le_mono_r; lia).
  lia.
Qed.

Lemma weights_nonneg k : Forall (fun x => 0 <= x) (weights k).
Proof.
  apply Forall_forall. intros x Hx.
  unfold weights in Hx. apply in_map_iff in Hx as (j & <- & _).
  apply Z.pow_nonneg. lia.
Qed.

(** The claim of a least-significant-first code fails on [1; 0] with
    [k = 2], where the code is [5], not [1]; and for [k = 28] the int64
    accumulator wraps below zero. *)
Lemma to_kmers_least_significant_first_fails :
  (exists out, to_kmers 2 [1; 0] = Ok out /\ out !! 0%nat = Some 5 /\
               dot (weights 2) (take 2 (drop 0 [1; 0])) = 1) /\
  (exists out code, to_kmers 28 (2 :: replicate 27 0) = Ok out /\
                    out !! 0%nat = Some code /\ code < 0).
Proof.
  split.
  - exists [5]. by vm_compute.
  - exists [2 * 5 ^ 27 - 2 ^ 64], (2 * 5 ^ 27 - 2 ^ 64). by vm_compute.
Qed.

(** C1 (amended): for [2 <= k <= 27] and a window of base codes, the
    encoder returns, for every length-[k] slice of the window, the inner
    product of the slice with the weights [5^(k-1), ..., 5^1, 5^0] (weight
    [5^(k-1-j)] on the [j]-th base of the slice), and every output of the
    encoder, on a window of any length, lies in [[0, 5^k)]. *)
Theorem to_kmers_most_significant_first (k : nat) (window : list Z) :
  (2 <= k <= 27)%nat -> Forall base_code window ->
  (forall out, to_kmers k window = Ok out ->
               Forall (fun code => 0 <= code < 5 ^ Z.of_nat k) out) /\
  ((k <= length window)%nat ->
   exists out, to_kmers k window = Ok out /\
     length out = (length window - k + 1)%nat /\
     forall i, (i + k <= length window)%nat ->
               out !! i = Some (dot (rev (weights k)) (take k (drop i window)))).
Proof.
  intros Hk Hcodes.
  assert (Hslice : forall i, (i + k <= length window)%nat ->
            dot64 (drop i window) (rev (kmer_kernel k))
            = dot (rev (weights k)) (take k (drop i window)) /\
            0 <= dot (rev (weights k)) (take k (drop i window)) < 5 ^ Z.of_nat k).
  { intros i Hi.
    assert (Hsl : Forall base_code (take k (drop i window)))
      by (by apply Forall_take, Forall_drop).
    pose proof (dot_rev_weights_range k (take k (drop i window))) as Hr.
    rewrite length_take, length_drop in Hr.
    specialize (Hr ltac:(lia) Hsl). split; [|done].
    rewrite kmer_kernel_weights by lia.
    rewrite <- dot64_take_l, length_rev, weights_length.
    rewrite dot64_exact.
    - apply dot_comm.
    - by apply base_codes_nonneg.
    - apply rev_weights_nonneg.
    - rewrite dot_comm. pose proof (pow5_27_lt k). lia. }
  split.
  - intros out Hout.
    destruct (decide (length window = 0%nat)) as [Hnil|Hnil].
    { destruct window; [|done]. unfold to_kmers in Hout.
      destruct (Nat.ltb_spec 1 k); [|lia].
      by rewrite np_convolve_valid_nil_l in Hout. }
    destruct (Nat.ltb_spec (length window) k) as [Hshort|Hlong].
    + unfold to_kmers in Hout. destruct (Nat.ltb_spec 1 k); [|lia].
      rewrite np_convolve_valid_short in Hout
        by (rewrite kmer_kernel_length; lia).
      injection Hout as <-. unfold correlate_valid.
      rewrite Forall_forall. intros code Hcode.
      apply in_map_iff in Hcode as (i & <- & Hi%in_seq).
      rewrite kmer_kernel_length, length_rev in Hi.
      rewrite kmer_kernel_weights by lia.
      pose proof (short_window_range k window i) as Hr.
      specialize (Hr ltac:(lia) ltac:(lia) Hcodes).
      rewrite dot64_exact; [done| | |].
      * apply Forall_drop, weights_nonneg.
      * apply Forall_forall. intros x Hx. rewrite <- in_rev in Hx.
        rewrite Forall_forall in Hcodes. apply Hcodes in Hx.
        unfold base_code in Hx. lia.
      * pose proof (pow5_27_lt k). lia.
    + rewrite to_kmers_convolve in Hout by lia.
      injection Hout as <-. unfold correlate_valid.
      rewrite Forall_forall. intros code Hcode.
      apply in_map_iff in Hcode as (i & <- & Hi%in_seq).
      rewrite length_rev, kmer_kernel_length in Hi.
      destruct (Hslice i) as [-> Hr]; [lia | done].
  - intros Hlong. eexists. split; [apply to_kmers_convolve; lia|].
    split.
    + by rewrite correlate_valid_length, length_rev, kmer_kernel_length.
    + intros i Hi.
      rewrite correlate_valid_lookup
        by (rewrite length_rev, kmer_kernel_length; lia).
      f_equal. by apply Hslice.
Qed.

(** ** Running method bodies *)

Section monad_facts.
Context {S Self : Type}.

Local Abbreviation M := (M S Self).
Implicit Types st : (nat -> S) * Self.

Lemma bind_run {A B} (m : M A) (k : A -> M B) st a st1 :
  m st = (Ok a, st1) -> (m ≫= k) st = k a st1.
Proof. intros Hm. unfold mbind, M_bind. by rewrite Hm. Qed.

Lemma bind_raise {A B} (m : M A) (k : A -> M B) st e st1 :
  m st = (Raise e, st1) -> (m ≫= k) st = (Raise e, st1).
Proof. intros Hm. unfold mbind, M_bind. by rewrite Hm. Qed.

Lemma bind_ok_inv {A B} (m : M A) (k : A -> M B) st b st' :
  (m ≫= k) st = (Ok b, st') ->
  exists a st1, m st = (Ok a, st1) /\ k a st1 = (Ok b, st').
Proof.
  unfold mbind, M_bind. destruct (m st) as [[a|e] st1]; [|done].
  intros Hk. by exists a, st1.
Qed.

Lemma bind_inv {A B} (m : M A) (k : A -> M B) st r st' :
  (m ≫= k) st = (r, st') ->
  (exists a st1, m st = (Ok a, st1) /\ k a st1 = (r, st')) \/
  (exists e, m st = (Raise e, st') /\ r = Raise e).
Proof.
  unfold mbind, M_bind. destruct (m st) as [[a|e] st1].
  - intros Hk. left. by exists a, st1.
  - intros [= <- <-]. right. by exists e.
Qed.

(** A body that leaves the store and [self] as they are. *)
Definition readonly {A} (m : M A) : Prop := forall st, (m st).2 = st.

Lemma readonly_ret {A} (a : A) : readonly (mret a : M A).
Proof. done. Qed.

Lemma readonly_gets {A} (f : Self -> A) : readonly (gets f : M A).
Proof. done. Qed.

Lemma readonly_lift {A} (r : result A) : readonly (lift r : M A).
Proof. done. Qed.

Lemma readonly_bind {A B} (m : M A) (k : A -> M B) :
  readonly m -> (forall a, readonly (k a)) -> readonly (m ≫= k).
Proof.
  intros Hm Hk st. unfold mbind, M_bind.
  specialize (Hm st). destruct (m st) as [[a|e] st1]; simpl in *; subst.
  - apply Hk.
  - done.
Qed.

Lemma readonly_mapM {A B} (f : A -> M B) (l : list A) :
  (forall x, readonly (f x)) -> readonly (mapM f l).
Proof.
  intros Hf. induction l as [|x l IH]; simpl.
  - apply readonly_ret.
  - apply readonly_bind; [apply Hf|]. intros y.
    apply readonly_bind; [apply IH|]. intros ys. apply readonly_ret.
Qed.

Lemma readonly_run {A} (m : M A) st :
  readonly m -> m st = ((m st).1, st).
Proof. intros Hm. specialize (Hm st). destruct (m st). simpl in *. by subst. Qed.

(** Outcome of a loop whose body leaves the state alone. *)
Lemma mapM_readonly_ok {A B} (f : A -> M B) (l : list A) st ys st' :
  (forall x, readonly (f x)) ->
  mapM f l st = (Ok ys, st') ->
  st' = st /\ Forall2 (fun x y => (f x st).1 = Ok y) l ys.
Proof.
  intros Hf. revert ys. induction l as [|x l IH]; simpl; intros ys Hrun.
  - injection Hrun as <- <-. by split.
  - apply bind_ok_inv in Hrun as (y & st1 & Hx & Hrun).
    apply bind_ok_inv in Hrun as (ys' & st2 & Hl & Hret).
    injection Hret as <- <-.
    pose proof (Hf x st) as Hst. rewrite Hx in Hst. simpl in Hst. subst st1.
    destruct (IH _ Hl) as [-> Htl]. split; [done|].
    constructor; [by rewrite Hx | done].
Qed.

Lemma mapM_readonly_run {A B} (f : A -> M B) (l : list A) st ys :
  (forall x, readonly (f x)) ->
  Forall2 (fun x y => (f x st).1 = Ok y) l ys ->
  mapM f l st = (Ok ys, st).
Proof.
  intros Hf Hall. induction Hall as [|x y l ys Hx _ IH]; simpl; [done|].
  erewrite bind_run; [|rewrite (readonly_run (f x) st (Hf x)), Hx; done].
  erewrite bind_run; [|exact IH]. done.
Qed.

Lemma mapM_readonly_raise {A B} (f : A -> M B) (l : list A) st e st' :
  (forall x, readonly (f x)) ->
  mapM f l st = (Raise e, st') ->
  exists x, x ∈ l /\ (f x st).1 = Raise e.
Proof.
  intros Hf. induction l as [|x l IH]; simpl; intros Hrun; [done|].
  apply bind_inv in Hrun as [(y & st1 & Hx & Hrun)|(e' & Hx & [= <-])].
  - pose proof (Hf x st) as Hst. rewrite Hx in Hst. simpl in Hst. subst st1.
    apply bind_inv in Hrun as [(ys & st2 & Hl & Hret)|(e' & Hl & [= <-])];
      [done|].
    destruct (IH Hl) as (x' & Hin & Hx').
    exists x'. split; [by right | done].
  - exists x. split; [by left | by rewrite Hx].
Qed.
(** The exceptions a body may raise from a state. *)
Definition raises_in {A} (P : exn -> Prop) (m : M A) st : Prop :=
  forall e, (m st).1 = Raise e -> P e.

Lemma raises_ret {A} P (a : A) st : raises_in P (mret a : M A) st.
Proof. by intros e. Qed.

Lemma raises_gets {A} P (f : Self -> A) st : raises_in P (gets f : M A) st.
Proof. by intros e. Qed.

Lemma raises_lift {A} (P : exn -> Prop) (r : result A) st :
  (forall e, r = Raise e -> P e) -> raises_in P (lift r : M A) st.
Proof. intros Hr e. apply Hr. Qed.

Lemma raises_bind {A B} P (m : M A) (k : A -> M B) st :
  readonly m ->
  raises_in P m st ->
  (forall a, (m st).1 = Ok a -> raises_in P (k a) st) ->
  raises_in P (m ≫= k) st.
Proof.
  intros Hro Hm Hk e. unfold mbind, M_bind.
  pose proof (Hro st) as Hst. specialize (Hm e).
  destruct (m st) as [[a|e'] st1]; simpl in *; subst st1.
  - by apply Hk.
  - intros [= ->]. by apply Hm.
Qed.

Lemma raises_mapM {A B} P (f : A -> M B) (l : list A) st :
  (forall x, readonly (f x)) ->
  (forall x, x ∈ l -> raises_in P (f x) st) ->
  raises_in P (mapM f l) st.
Proof.
  intros Hro Hf e He.
  destruct (mapM f l st) as [r st'] eqn:Hrun. simpl in He. subst r.
  destruct (mapM_readonly_raise f l st e st' Hro Hrun) as (x & Hin & Hx).
  by eapply Hf.
Qed.

Lemma mapM_ext_run {A B} (f g : A -> M B) (l : list A) st :
  (forall x, readonly (f x)) ->
  (forall x, x ∈ l -> f x st = g x st) ->
  mapM f l st = mapM g l st.
Proof.
  intros Hro Hfg. induction l as [|x l IH]; [done|].
  change (mapM f (x :: l)) with (f x ≫= fun y => mapM f l ≫= fun ys => mret (y :: ys)).
  change (mapM g (x :: l)) with (g x ≫= fun y => mapM g l ≫= fun ys => mret (y :: ys)).
  pose proof (Hfg x ltac:(by left)) as Hx. symmetry in Hx.
  pose proof (Hro x st) as Hst.
  assert (IH' : mapM f l st = mapM g l st).
  { apply IH. intros x' Hx'. apply Hfg. by right. }
  destruct (f x st) as [[y|e] st1] eqn:Hf; simpl in Hst; subst st1.
  - rewrite (bind_run _ _ _ _ _ Hf), (bind_run _ _ _ _ _ Hx).
    symmetry in IH'.
    destruct (mapM f l st) as [[ys|e] st2] eqn:Hl.
    + by rewrite (bind_run _ _ _ _ _ Hl), (bind_run _ _ _ _ _ IH').
    + by rewrite (bind_raise _ _ _ _ _ Hl), (bind_raise _ _ _ _ _ IH').
  - by rewrite (bind_raise _ _ _ _ _ Hf), (bind_raise _ _ _ _ _ Hx).
Qed.
Lemma bind_ext_run {A B} (m1 m2 : M A) (k1 k2 : A -> M B) st :
  m1 st = m2 st ->
  (forall a st1, m1 st = (Ok a, st1) -> k1 a st1 = k2 a st1) ->
  (m1 ≫= k1) st = (m2 ≫= k2) st.
Proof.
  intros Hm Hk. unfold mbind, M_bind. rewrite <- Hm.
  destruct (m1 st) as [[a|e] st1]; [by apply Hk | done].
Qed.
(** A loop invariant: [Inv done] holds after the iterations [done], and
    [Fail] after an iteration that raised. *)
Lemma for_each_inv (Inv : list nat -> (nat -> S) * Self -> Prop)
      (Fail : (nat -> S) * Self -> Prop) l body st :
  Inv [] st ->
  (forall done x st1,
      x ∈ l -> Inv done st1 ->
      match body x st1 with
      | (Ok _, st2) => Inv (done ++ [x]) st2
      | (Raise _, st2) => Fail st2
      end) ->
  match for_each l body st with
  | (Ok _, st') => Inv l st'
  | (Raise _, st') => Fail st'
  end.
Proof.
  intros Hinit Hstep.
  enough (Hgen : forall done st0,
             Inv done st0 ->
             match for_each l body st0 with
             | (Ok _, st') => Inv (done ++ l) st'
             | (Raise _, st') => Fail st'
             end) by (apply (Hgen [] st Hinit)).
  clear Hinit. induction l as [|x l IH]; intros done st0 Hinv.
  - simpl. by rewrite app_nil_r.
  - simpl. unfold mbind, M_bind.
    pose proof (Hstep done x st0 ltac:(by left) Hinv) as Hx.
    destruct (body x st0) as [[[]|e] st2]; [|done].
    assert (Hstep' : forall done x st1,
               x ∈ l -> Inv done st1 ->
               match body x st1 with
               | (Ok _, st2) => Inv (done ++ [x]) st2
               | (Raise _, st2) => Fail st2
               end).
    { intros done' x' st1 Hin. apply Hstep. by right. }
    specialize (IH Hstep' (done ++ [x]) st2 Hx).
    by rewrite <- app_assoc in IH.
Qed.
Lemma mapM_readonly_total {A B} (f : A -> M B) (l : list A) st :
  (forall x, readonly (f x)) ->
  (forall x, x ∈ l -> exists y, (f x st).1 = Ok y) ->
  exists ys, mapM f l st = (Ok ys, st) /\
             Forall2 (fun x y => (f x st).1 = Ok y) l ys.
Proof.
  intros Hro Hall. induction l as [|x l IH].
  - exists []. split; [done | constructor].
  - destruct (Hall x ltac:(by left)) as [y Hy].
    destruct IH as (ys & Hrun & Hrel).
    { intros x' Hx'. apply Hall. by right. }
    exists (y :: ys).
    assert (Hrel' : Forall2 (fun x y => (f x st).1 = Ok y) (x :: l) (y :: ys))
      by (by constructor).
    split; [by apply mapM_readonly_run | done].
Qed.
End monad_facts.

Ltac readonly :=
  repeat first
    [ apply readonly_ret
    | apply readonly_gets
    | apply readonly_lift
    | apply readonly_bind; [|intros ?]
    | apply readonly_mapM; intros ?
    | match goal with
      | |- readonly (match ?x with _ => _ end) => destruct x
      | |- readonly (let '(_, _) := ?x in _) => destruct x
      end ].

Section readonly_methods.
Context {S : Type} `{Generator S}.

Lemma sequence_augment_offset_fn_readonly how n ix :
  readonly (DnaSequenceGenerator.augment_offset_fn (S := S) how n ix).
Proof.
  unfold DnaSequenceGenerator.augment_offset_fn,
    DnaSequenceGenerator.compute_augmented_offset. readonly.
Qed.

Lemma sequence_batch_to_kmers_readonly b :
  readonly (DnaSequenceGenerator.batch_to_kmers (S := S) b).
Proof. unfold DnaSequenceGenerator.batch_to_kmers. readonly. Qed.

Lemma sequence_generate_batch_readonly i :
  readonly (DnaSequenceGenerator.generate_batch (S := S) i).
Proof.
  unfold DnaSequenceGenerator.generate_batch. readonly.
Qed.

Lemma sequence_getitem_readonly i :
  readonly (DnaSequenceGenerator.getitem (S := S) i).
Proof.
  unfold DnaSequenceGenerator.getitem, DnaSequenceGenerator.post_process_batch.
  apply readonly_bind; [apply sequence_generate_batch_readonly|]. intros b.
  apply readonly_bind; [apply readonly_gets|]. intros mode.
  destruct mode as [[]|];
    (apply readonly_bind; [apply sequence_batch_to_kmers_readonly|]);
    intros x; readonly.
Qed.

Lemma sample_augment_offset_fn_readonly how n ix :
  readonly (DnaSampleGenerator.augment_offset_fn (S := S) how n ix).
Proof.
  unfold DnaSampleGenerator.augment_offset_fn,
    DnaSampleGenerator.compute_augmented_offset. readonly.
Qed.

Lemma sample_super_batch_to_kmers_readonly b :
  readonly (DnaSampleGenerator.super_batch_to_kmers (S := S) b).
Proof. unfold DnaSampleGenerator.super_batch_to_kmers. readonly. Qed.

Lemma sample_batch_to_kmers_readonly b :
  readonly (DnaSampleGenerator.batch_to_kmers (S := S) b).
Proof.
  unfold DnaSampleGenerator.batch_to_kmers. readonly.
Qed.

Lemma sample_generate_batch_readonly i :
  readonly (DnaSampleGenerator.generate_batch (S := S) i).
Proof.
  unfold DnaSampleGenerator.generate_batch. readonly.
Qed.

Lemma sample_getitem_readonly i :
  readonly (DnaSampleGenerator.getitem (S := S) i).
Proof.
  unfold DnaSampleGenerator.getitem, DnaSampleGenerator.post_process_batch.
  apply readonly_bind; [apply sample_generate_batch_readonly|]. intros b.
  apply readonly_bind; [apply readonly_gets|]. intros mode.
  destruct mode as [[]|];
    (apply readonly_bind; [apply sample_batch_to_kmers_readonly|]);
    intros x; readonly.
Qed.

(** C3: [__getitem__] leaves the generator object and every
    [numpy.random.Generator] of the store as they are (it draws nothing
    and writes nothing), so a second call with the same batch index
    returns the same item or raises the same exception, in
    [DnaSequenceGenerator] and in [DnaSampleGenerator]. *)
Theorem getitem_twice_identical :
  (forall (batch_index : Z) (st : (nat -> S) * DnaSequenceGenerator.t),
      (DnaSequenceGenerator.getitem batch_index st).2 = st /\
      DnaSequenceGenerator.getitem batch_index
        (DnaSequenceGenerator.getitem batch_index st).2
      = DnaSequenceGenerator.getitem batch_index st) /\
  (forall (batch_index : Z) (st : (nat -> S) * DnaSampleGenerator.t),
      (DnaSampleGenerator.getitem batch_index st).2 = st /\
      DnaSampleGenerator.getitem batch_index
        (DnaSampleGenerator.getitem batch_index st).2
      = DnaSampleGenerator.getitem batch_index st).
Proof.
  split; intros i st.
  - pose proof (sequence_getitem_readonly i st) as Hro.
    split; [done | by rewrite Hro].
  - pose proof (sample_getitem_readonly i st) as Hro.
    split; [done | by rewrite Hro].
Qed.
End readonly_methods.

(** ** Arrays *)

Lemma np_index_nonneg {A} (a : list A) i :
  0 <= i < Z.of_nat (length a) ->
  exists x, np_index a i = Ok x /\ a !! Z.to_nat i = Some x.
Proof.
  intros Hi. unfold np_index.
  destruct (Z.ltb_spec i 0); [lia|].
  destruct (Z.leb_spec 0 i); [|lia].
  destruct (Z.ltb_spec i (Z.of_nat (length a))); [|lia]. simpl.
  destruct (lookup_lt_is_Some_2 a (Z.to_nat i)) as [x Hx]; [lia|].
  exists x. by rewrite Hx.
Qed.

Lemma np_index_negative {A} (a : list A) i :
  - Z.of_nat (length a) <= i < 0 ->
  np_index a i = np_index a (i + Z.of_nat (length a)).
Proof.
  intros Hi. unfold np_index.
  destruct (Z.ltb_spec i 0); [|lia].
  destruct (Z.ltb_spec (i + Z.of_nat (length a)) 0); [lia | done].
Qed.

Lemma np_index_in_range {A} (a : list A) i :
  - Z.of_nat (length a) <= i < Z.of_nat (length a) ->
  exists x, np_index a i = Ok x /\ x ∈ a.
Proof.
  intros Hi. destruct (Z.ltb_spec i 0) as [Hneg|Hpos].
  - rewrite np_index_negative by lia.
    destruct (np_index_nonneg a (i + Z.of_nat (length a))) as (x & Hx & Hl); [lia|].
    exists x. split; [done|]. by eapply list_elem_of_lookup_2.
  - destruct (np_index_nonneg a i) as (x & Hx & Hl); [lia|].
    exists x. split; [done|]. by eapply list_elem_of_lookup_2.
Qed.

Lemma np_index_out_of_range {A} (a : list A) i :
  i < - Z.of_nat (length a) \/ Z.of_nat (length a) <= i ->
  np_index a i = Raise IndexError.
Proof.
  intros Hi. unfold np_index.
  destruct (Z.ltb_spec i 0).
  - destruct (Z.leb_spec 0 (i + Z.of_nat (length a))); [lia | done].
  - destruct (Z.leb_spec 0 i); [|done].
    destruct (Z.ltb_spec i (Z.of_nat (length a))); [lia | done].
Qed.

Lemma np_index_ok_elem {A} (a : list A) i x :
  np_index a i = Ok x -> x ∈ a.
Proof.
  unfold np_index. destruct (_ && _); [|done].
  destruct (a !! _) eqn:Hl; [|done].
  intros [= <-]. by eapply list_elem_of_lookup_2.
Qed.

Lemma np_index_raise {A} (a : list A) i e :
  np_index a i = Raise e -> e = IndexError.
Proof.
  unfold np_index. destruct (_ && _); [|congruence].
  destruct (a !! _); congruence.
Qed.

(** A table of [rows] rows of [cols] cells. *)
Definition table_shape {A} (rows cols : nat) (t : list (list A)) : Prop :=
  length t = rows /\ Forall (fun r => length r = cols) t.

Lemma reshape_shape {A} rows cols (flat : list A) :
  length flat = (rows * cols)%nat -> table_shape rows cols (reshape rows cols flat).
Proof.
  intros Hlen. unfold table_shape, reshape. split.
  - by rewrite length_map, length_seq.
  - apply Forall_forall. intros r Hr.
    apply in_map_iff in Hr as (i & <- & Hi%in_seq).
    rewrite length_take, length_drop. nia.
Qed.

Lemma reshape_Forall {A} (P : A -> Prop) rows cols (flat : list A) :
  Forall P flat -> Forall (Forall P) (reshape rows cols flat).
Proof.
  intros Hall. unfold reshape. apply Forall_forall. intros r Hr.
  apply in_map_iff in Hr as (i & <- & _).
  by apply Forall_take, Forall_drop.
Qed.

Lemma table_shape_lookup {A} rows cols (t : list (list A)) i r :
  table_shape rows cols t -> t !! i = Some r -> length r = cols.
Proof.
  intros [_ Hrows] Hl. rewrite Forall_forall in Hrows.
  apply Hrows. apply list_elem_of_In. by eapply list_elem_of_lookup_2.
Qed.

(** Elementwise indexing in the exception monad. *)
Lemma mapM_result_cons {A B} (f : A -> result B) x (l : list A) :
  mapM f (x :: l) = rbind (f x) (fun y => rbind (mapM f l) (fun ys => Ok (y :: ys))).
Proof. done. Qed.

Lemma mapM_result_ok {A B} (f : A -> result B) (l : list A) :
  Forall (fun x => is_ok (f x) = true) l ->
  exists ys, mapM f l = Ok ys /\ Forall2 (fun x y => f x = Ok y) l ys.
Proof.
  induction 1 as [|x l Hx _ (ys & Hys & Hall)].
  - by exists [].
  - destruct (f x) as [y|] eqn:Hfx; [|done].
    exists (y :: ys). rewrite mapM_result_cons, Hfx, Hys. simpl.
    split; [done|]. by constructor.
Qed.

Lemma mapM_result_inv {A B} (f : A -> result B) (l : list A) ys :
  mapM f l = Ok ys -> Forall2 (fun x y => f x = Ok y) l ys.
Proof.
  revert ys. induction l as [|x l IH]; intros ys Hrun.
  - injection Hrun as <-. constructor.
  - rewrite mapM_result_cons in Hrun.
    destruct (f x) as [y|] eqn:Hfx; [|done]. simpl in Hrun.
    destruct (mapM f l) as [ys'|] eqn:Hl; [|done]. simpl in Hrun.
    injection Hrun as <-. constructor; [done | by apply IH].
Qed.


(** ** float64 products *)

Lemma round53_spec p :
  2 ^ 53 <= p ->
  exists q e, round53 p = q * 2 ^ e /\ 1 <= e /\
              2 ^ 52 <= q <= 2 * 2 ^ 52 /\
              2 ^ e * 2 ^ 52 <= p < 2 ^ e * (2 * 2 ^ 52) /\
              - 2 ^ e <= 2 * (q * 2 ^ e) - 2 * p <= 2 ^ e.
Proof.
  intros Hp.
  assert (Hlog : 53 <= Z.log2 p).
  { change 53 with (Z.log2 (2 ^ 53)). apply Z.log2_le_mono. lia. }
  destruct (Z.log2_spec p ltac:(lia)) as [Hlo Hhi].
  unfold round53. destruct (Z.ltb_spec p (2 ^ 53)); [lia|].
  set (e := Z.log2 p - 52) in *.
  assert (He : 1 <= e) by lia.
  assert (HE : 0 < 2 ^ e) by (apply Z.pow_pos_nonneg; lia).
  assert (Hlo' : 2 ^ e * 2 ^ 52 <= p).
  { rewrite <- Z.pow_add_r by lia. replace (e + 52) with (Z.log2 p) by lia. exact Hlo. }
  assert (Hhi' : p < 2 ^ e * (2 * 2 ^ 52)).
  { change (2 * 2 ^ 52) with (2 ^ 53). rewrite <- Z.pow_add_r by lia.
    replace (e + 53) with (Z.succ (Z.log2 p)) by lia. exact Hhi. }
  assert (Hhalf : 2 * 2 ^ (e - 1) = 2 ^ e).
  { rewrite <- Z.pow_succ_r by lia. f_equal. lia. }
  pose proof (Z.div_mod p (2 ^ e) ltac:(lia)) as Hdm.
  pose proof (Z.mod_pos_bound p (2 ^ e) HE) as Hr.
  clear Hlo Hhi Hlog H Hp.
  assert (Hgoal : forall q',
             (q' = p / 2 ^ e /\ 2 * (p mod 2 ^ e) <= 2 ^ e) \/
             (q' = p / 2 ^ e + 1 /\ 2 ^ e <= 2 * (p mod 2 ^ e)) ->
             2 ^ 52 <= q' <= 2 * 2 ^ 52 /\
             - 2 ^ e <= 2 * (q' * 2 ^ e) - 2 * p <= 2 ^ e).
  { intros q'.
    generalize dependent (p mod 2 ^ e). intros r Hdm Hr.
    generalize dependent (p / 2 ^ e). intros q Hdm.
    generalize dependent (2 ^ e). intros E HE Hlo' Hhi' _ Hdm Hr.
    generalize dependent (2 ^ 52). intros T Hlo' Hhi'.
    assert (Hq : T <= q < 2 * T) by nia.
    intros [[-> Hle]|[-> Hle]]; split; nia. }
  destruct (Z.ltb_spec (p mod 2 ^ e) (2 ^ (e - 1))).
  { exists (p / 2 ^ e), e. destruct (Hgoal (p / 2 ^ e)) as [? ?]; [left; lia|].
    repeat split; lia. }
  destruct (Z.ltb_spec (2 ^ (e - 1)) (p mod 2 ^ e)).
  { exists (p / 2 ^ e + 1), e. destruct (Hgoal (p / 2 ^ e + 1)) as [? ?]; [right; lia|].
    repeat split; lia. }
  destruct (Z.even (p / 2 ^ e)).
  { exists (p / 2 ^ e), e. destruct (Hgoal (p / 2 ^ e)) as [? ?]; [left; lia|].
    repeat split; lia. }
  { exists (p / 2 ^ e + 1), e. destruct (Hgoal (p / 2 ^ e + 1)) as [? ?]; [right; lia|].
    repeat split; lia. }
Qed.

Lemma round53_pos p : 0 < p -> 0 < round53 p.
Proof.
  intros Hp. destruct (Z.ltb_spec p (2 ^ 53)).
  - by rewrite round53_small.
  - destruct (round53_spec p) as (q & e & -> & He & Hq & _); [assumption|].
    assert (0 < 2 ^ e) by (apply Z.pow_pos_nonneg; lia).
    assert (0 < 2 ^ 52) by lia. nia.
Qed.

Lemma round53_mul_lt m N :
  0 <= m < 2 ^ 53 -> 1 <= N -> round53 (m * N) < N * 2 ^ 53.
Proof.
  intros Hm HN. destruct (Z.ltb_spec (m * N) (2 ^ 53)).
  - rewrite round53_small by assumption. nia.
  - destruct (round53_spec (m * N)) as (q & e & -> & He & Hq & Hp & Herr); [assumption|].
    assert (HE : 0 < 2 ^ e) by (apply Z.pow_pos_nonneg; lia).
    change (2 ^ 53) with (2 * 2 ^ 52) in *.
    assert (HT : 0 < 2 ^ 52) by lia.
    generalize dependent (2 ^ e). intros E. intros.
    generalize dependent (2 ^ 52). intros T. intros.
    nia.
Qed.

Lemma pow2_step a b : 0 <= a -> a < b -> 2 * 2 ^ a <= 2 ^ b.
Proof.
  intros Ha Hab. rewrite <- Z.pow_succ_r by assumption.
  apply Z.pow_le_mono_r; lia.
Qed.

Lemma round53_unit_product_lt m n :
  0 <= m < 2 ^ 53 -> 1 <= n -> round53 (m * round53 n) < n * 2 ^ 53.
Proof.
  intros Hm Hn. destruct (Z.ltb_spec n (2 ^ 53)) as [Hsmall|Hbig].
  { rewrite (round53_small n) by assumption. apply round53_mul_lt; assumption. }
  destruct (round53_spec n Hbig) as (c & s & HN & Hs & Hc & Hnr & Herr).
  assert (HS : 0 < 2 ^ s) by (apply Z.pow_pos_nonneg; lia).
  assert (HT : 0 < 2 ^ 52) by lia.
  assert (HN1 : 1 <= round53 n) by (pose proof (round53_pos n); lia).
  pose proof (round53_mul_lt m (round53 n) Hm HN1) as Hlt.
  destruct (Z.le_gt_cases (round53 n) n) as [Hle|Hgt].
  { change (2 ^ 53) with (2 * 2 ^ 52) in *. nia. }
  assert (Hc' : 2 ^ 52 < c).
  { rewrite HN in Hgt. clear Hlt Hm. generalize dependent (2 ^ s). intros.
    generalize dependent (2 ^ 52). intros. nia. }
  enough (Hen : round53 (m * round53 n) <= (c - 1) * 2 ^ s * 2 ^ 53).
  { rewrite HN in Hgt. clear Hlt Hm HN1.
    change (2 ^ 53) with (2 * 2 ^ 52) in *.
    generalize dependent (round53 (m * round53 n)). intros R. intros.
    generalize dependent (2 ^ s). intros.
    generalize dependent (2 ^ 52). intros. nia. }
  destruct (Z.ltb_spec (m * round53 n) (2 ^ 53)) as [Hps|Hpb].
  { rewrite round53_small by assumption.
    change (2 ^ 53) with (2 * 2 ^ 52) in *.
    generalize dependent (m * round53 n). intros.
    generalize dependent (2 ^ s). intros.
    generalize dependent (2 ^ 52). intros. nia. }
  destruct (round53_spec _ Hpb) as (q & e & HR & He & Hq & Hpr & Herr').
  assert (HE : 0 < 2 ^ e) by (apply Z.pow_pos_nonneg; lia).
  rewrite HR in *. rewrite HN in *.
  clear HR HN HN1 Hpb Hbig Hn.
  change (2 ^ 53) with (2 * 2 ^ 52) in *.
  destruct (Z.lt_trichotomy e (s + 53)) as [Hlow|[Heq|Hhigh]].
  - pose proof (pow2_step e (s + 53) ltac:(lia) Hlow) as Hpw.
    rewrite Z.pow_add_r in Hpw by lia.
    change (2 ^ 53) with (2 * 2 ^ 52) in *.
    generalize dependent (2 ^ e). intros E. intros.
    generalize dependent (2 ^ s). intros S. intros.
    generalize dependent (2 ^ 52). intros T. intros.
    nia.
  - subst e. rewrite Z.pow_add_r in * by lia.
    change (2 ^ 53) with (2 * 2 ^ 52) in *.
    generalize dependent (2 ^ s). intros S. intros.
    generalize dependent (2 ^ 52). intros T. intros.
    replace (c * S * (2 * T)) with (c * (S * (2 * T))) in Hlt by lia.
    replace ((c - 1) * S * (2 * T)) with ((c - 1) * (S * (2 * T))) by lia.
    clear Herr' Hpr Herr Hnr.
    generalize dependent (S * (2 * T)). intros W. intros.
    assert (q < c) by nia. nia.
  - pose proof (pow2_step (s + 53) e ltac:(lia) Hhigh) as Hpw.
    rewrite Z.pow_add_r in Hpw by lia.
    change (2 ^ 53) with (2 * 2 ^ 52) in *.
    generalize dependent (2 ^ e). intros E. intros.
    generalize dependent (2 ^ s). intros S. intros.
    generalize dependent (2 ^ 52). intros T. intros.
    exfalso.
    assert (0 < c * S) by nia.
    assert (m * (c * S) < 2 * T * (c * S)) by nia.
    assert (c * S <= 2 * T * S) by nia.
    assert (E * T < 2 * T * (2 * T * S)) by nia.
    assert (E < 2 * (2 * T * S)) by nia.
    nia.
Qed.

(** [int(u * n)] for a fraction [u] of the unit interval and an integer
    [n >= 1]: truncation and floor agree, and the result is below [n]. *)
Lemma unit_product_trunc u n :
  in_unit u -> 1 <= n ->
  f64_trunc (f64_mul_int u n) = f64_floor (f64_mul_int u n) /\
  0 <= f64_trunc (f64_mul_int u n) <= n - 1.
Proof.
  intros [Hm He] Hn. unfold f64_trunc, f64_floor, f64_mul_int. simpl.
  rewrite Z.sgn_pos, Z.abs_eq, Z.mul_1_l by lia.
  pose proof (round53_unit_product_lt (f_num u) n Hm Hn) as Hlt.
  assert (Hpos : 0 <= round53 (f_num u * round53 n)).
  { destruct (Z.eq_dec (f_num u * round53 n) 0) as [->|Hne]; [done|].
    pose proof (round53_pos n ltac:(lia)).
    pose proof (round53_pos (f_num u * round53 n) ltac:(nia)). lia. }
  assert (Hpow : 2 ^ 53 <= 2 ^ f_exp u) by (apply Z.pow_le_mono_r; lia).
  rewrite Z.quot_div_nonneg by lia. split; [done|]. split.
  - apply Z.div_pos; lia.
  - enough (round53 (f_num u * round53 n) / 2 ^ f_exp u < n) by lia.
    apply Z.div_lt_upper_bound; [lia|].
    generalize dependent (round53 (f_num u * round53 n)). intros R. intros.
    generalize dependent (2 ^ f_exp u). intros E. intros.
    generalize dependent (2 ^ 53). intros T. intros. nia.
Qed.

Lemma unit_product_zero u : f64_trunc (f64_mul_int u 0) = 0.
Proof. unfold f64_trunc, f64_mul_int. simpl. by destruct (2 ^ f_exp u). Qed.

(** ** Index tables *)

(** Cell [(b, i)] of a table, and cell [(b, i, j)] of a three-dimensional
    one. *)
Definition cell {A} (t : list (list A)) (b i : nat) : option A :=
  t !! b ≫= fun row => row !! i.

Definition cell3 {A} (t : list (list (list A))) (b i j : nat) : option A :=
  t !! b ≫= fun plane => cell plane i j.

Lemma cell_Some {A} (t : list (list A)) b i x :
  cell t b i = Some x <-> exists row, t !! b = Some row /\ row !! i = Some x.
Proof.
  unfold cell. destruct (t !! b) as [row|]; simpl.
  - split; [intros Hx; by exists row | by intros (? & [= <-] & ?)].
  - split; [done | by intros (? & ? & _)].
Qed.

Lemma cell_shape {A} rows cols (t : list (list A)) b i :
  table_shape rows cols t -> (b < rows)%nat -> (i < cols)%nat ->
  is_Some (cell t b i).
Proof.
  intros Hshape Hb Hi.
  destruct (lookup_lt_is_Some_2 t b) as [row Hrow]; [destruct Hshape; lia|].
  pose proof (table_shape_lookup _ _ _ _ _ Hshape Hrow) as Hlen.
  destruct (lookup_lt_is_Some_2 row i) as [x Hx]; [lia|].
  exists x. apply cell_Some. by exists row.
Qed.

Lemma cell_Forall {A} (P : A -> Prop) (t : list (list A)) b i x :
  Forall (Forall P) t -> cell t b i = Some x -> P x.
Proof.
  intros Hall (row & Hrow & Hx)%cell_Some.
  eapply Forall_lookup_1 in Hall; [|done].
  by eapply Forall_lookup_1 in Hall.
Qed.

Lemma cell_zip_with {A B C} (f : A -> B -> C) t1 t2 b i z :
  cell (zip_with (zip_with f) t1 t2) b i = Some z ->
  exists x y, cell t1 b i = Some x /\ cell t2 b i = Some y /\ z = f x y.
Proof.
  intros (row & Hrow & Hz)%cell_Some.
  apply lookup_zip_with_Some in Hrow as (r1 & r2 & -> & Hr1 & Hr2).
  apply lookup_zip_with_Some in Hz as (x & y & -> & Hx & Hy).
  exists x, y. split; [|split; [|done]]; apply cell_Some; eauto.
Qed.

Lemma cell_Forall2 {A B} (R : A -> B -> Prop) t1 t2 b i x :
  Forall2 (Forall2 R) t1 t2 -> cell t1 b i = Some x ->
  exists y, cell t2 b i = Some y /\ R x y.
Proof.
  intros Hall (row & Hrow & Hx)%cell_Some.
  destruct (Forall2_lookup_l _ _ _ _ _ Hall Hrow) as (row' & Hrow' & Hrows).
  destruct (Forall2_lookup_l _ _ _ _ _ Hrows Hx) as (y & Hy & HR).
  exists y. split; [|done]. apply cell_Some. eauto.
Qed.

Lemma cell_Forall2_r {A B} (R : A -> B -> Prop) t1 t2 b i y :
  Forall2 (Forall2 R) t1 t2 -> cell t2 b i = Some y ->
  exists x, cell t1 b i = Some x /\ R x y.
Proof.
  intros Hall (row & Hrow & Hy)%cell_Some.
  destruct (Forall2_lookup_r _ _ _ _ _ Hall Hrow) as (row' & Hrow' & Hrows).
  destruct (Forall2_lookup_r _ _ _ _ _ Hrows Hy) as (x & Hx & HR).
  exists x. split; [|done]. apply cell_Some. eauto.
Qed.

Lemma table_shape_Forall2 {A B} (R : A -> B -> Prop) rows cols t1 t2 :
  Forall2 (Forall2 R) t1 t2 -> table_shape rows cols t1 -> table_shape rows cols t2.
Proof.
  intros Hall [Hlen Hrows]. split.
  - apply Forall2_length in Hall. lia.
  - clear Hlen. induction Hall as [|r1 r2 t1 t2 Hr _ IH]; [done|].
    inversion Hrows as [|? ? Hr1 Hrows']; subst.
    constructor; [apply Forall2_length in Hr; lia | by apply IH].
Qed.

Lemma table_shape_zip_with {A B C} (f : A -> B -> C) rows cols t1 t2 :
  table_shape rows cols t1 -> table_shape rows cols t2 ->
  table_shape rows cols (zip_with (zip_with f) t1 t2).
Proof.
  intros [Hl1 Hr1] [Hl2 Hr2]. split.
  - rewrite length_zip_with. lia.
  - apply Forall_forall. intros row Hrow.
    apply list_elem_of_In, list_elem_of_lookup in Hrow as (b & Hrow).
    apply lookup_zip_with_Some in Hrow as (r1 & r2 & -> & Hb1 & Hb2).
    eapply Forall_lookup_1 in Hr1; [|done].
    eapply Forall_lookup_1 in Hr2; [|done].
    rewrite length_zip_with. lia.
Qed.

(** [table[index_array]] succeeds when every index is in range. *)
Lemma fancy_index_ok (table : list Z) (picked : list (list Z)) :
  Forall (Forall (fun a => 0 <= a < Z.of_nat (length table))) picked ->
  exists lengths,
    mapM (mapM (np_index table)) picked = Ok lengths /\
    Forall2 (Forall2 (fun a len => np_index table a = Ok len)) picked lengths.
Proof.
  intros Hall.
  destruct (mapM_result_ok (mapM (np_index table)) picked) as (lengths & Hrun & Hrel).
  - eapply Forall_impl; [|exact Hall]. intros row Hrow. simpl in Hrow.
    destruct (mapM_result_ok (np_index table) row) as (ys & -> & _); [|done].
    eapply Forall_impl; [|exact Hrow]. intros a Ha. simpl in Ha.
    by destruct (np_index_nonneg table a Ha) as (x & -> & _).
  - exists lengths. split; [done|].
    eapply Forall2_impl; [|exact Hrel]. intros row lens Hrow. simpl in Hrow.
    by apply mapM_result_inv.
Qed.

Lemma cell_shape_inv {A} rows cols (t : list (list A)) b i x :
  table_shape rows cols t -> cell t b i = Some x -> (b < rows)%nat /\ (i < cols)%nat.
Proof.
  intros Hshape (row & Hrow & Hx)%cell_Some.
  pose proof (table_shape_lookup _ _ _ _ _ Hshape Hrow) as Hlen.
  apply lookup_lt_Some in Hrow, Hx. destruct Hshape. lia.
Qed.

Lemma table_shape_elem {A} rows cols (t : list (list A)) row :
  table_shape rows cols t -> row ∈ t -> length row = cols.
Proof.
  intros Hshape (i & Hi)%list_elem_of_lookup.
  by eapply table_shape_lookup.
Qed.

Lemma np_index2_shape {A} rows cols (t : list (list A)) b i :
  table_shape rows cols t ->
  - Z.of_nat rows <= b < Z.of_nat rows -> - Z.of_nat cols <= i < Z.of_nat cols ->
  exists row x, np_index t b = Ok row /\ np_index row i = Ok x /\
                np_index2 t (b, i) = Ok x /\ row ∈ t /\ x ∈ row.
Proof.
  intros Hshape Hb Hi.
  destruct (np_index_in_range t b) as (row & Hrow & Hin);
    [destruct Hshape; lia|].
  pose proof (table_shape_elem _ _ _ _ Hshape Hin) as Hlen.
  destruct (np_index_in_range row i) as (x & Hx & Hinx); [lia|].
  exists row, x. unfold np_index2. simpl. rewrite Hrow. simpl.
  change (row ← Ok row; np_index row i) with (np_index row i).
  by rewrite Hx.
Qed.

Lemma np_min_spec a m :
  np_min a = Ok m -> m ∈ a /\ Forall (fun x => m <= x) a.
Proof.
  destruct a as [|n ns]; [done|]. simpl. intros [= <-].
  induction ns as [|x ns [IHin IHle]]; simpl.
  - split; [by left | by constructor].
  - inversion IHle as [|? ? Hn Hns]; subst. split.
    + destruct (Z.min_spec x (foldr Z.min n ns)) as [[_ ->]|[_ ->]].
      * right. by left.
      * apply list_elem_of_In in IHin. apply list_elem_of_In.
        destruct IHin as [<-|Hin]; [by left | right; by right].
    + constructor; [lia|]. constructor; [lia|].
      eapply Forall_impl; [|exact Hns]. simpl. intros. lia.
Qed.

Lemma balance_lengths_length b lengths v :
  balance_lengths b lengths = Ok v -> length v = length lengths.
Proof.
  unfold balance_lengths. destruct b.
  - destruct (np_min lengths); [|done]. simpl. intros [= <-].
    by rewrite length_replicate.
  - by intros [= <-].
Qed.

Lemma balance_lengths_true lengths v :
  balance_lengths true lengths = Ok v ->
  exists m, np_min lengths = Ok m /\ v = replicate (length lengths) m.
Proof.
  unfold balance_lengths. destruct (np_min lengths) as [m|]; [|done].
  simpl. intros [= <-]. by exists m.
Qed.

Lemma assign_row_raise {A} n (v : list A) e :
  assign_row n v = Raise e -> e = ValueError.
Proof.
  unfold assign_row. destruct (decide _); [done|].
  destruct v as [|x [|y v]]; congruence.
Qed.

Lemma assign_row_ok {A} n (v row : list A) :
  assign_row n v = Ok row -> length row = n.
Proof.
  unfold assign_row. destruct (decide _) as [Hlen|Hlen]; [congruence|].
  destruct v as [|x [|y v]]; try done.
  intros [= <-]. by rewrite length_replicate.
Qed.

Lemma assign_row_same {A} n (v : list A) :
  length v = n -> assign_row n v = Ok v.
Proof. intros Hlen. unfold assign_row. by destruct (decide _). Qed.

Lemma archive_get_raise a key e : archive_get a key = Raise e -> e = KeyError.
Proof. unfold archive_get. destruct (a !! _); congruence. Qed.

Lemma np_convolve_valid_raise a v e :
  np_convolve_valid a v = Raise e -> e = ValueError.
Proof.
  unfold np_convolve_valid.
  destruct (length a <? length v)%nat; [destruct v, a | destruct a, v];
    congruence.
Qed.

Lemma to_kmers_raise k x e : to_kmers k x = Raise e -> e = ValueError.
Proof.
  unfold to_kmers. destruct (1 <? k)%nat; [|done].
  apply np_convolve_valid_raise.
Qed.

(** The exceptions of a data error: a key that the archive lacks, or a
    sequence or window whose extent does not fit. *)
Definition data_error (e : exn) : Prop := e = KeyError \/ e = ValueError.

Lemma np_index2_negative {A} (t : list (list A)) b i :
  - Z.of_nat (length t) <= b < 0 ->
  np_index2 t (b, i) = np_index2 t (b + Z.of_nat (length t), i).
Proof. intros Hb. unfold np_index2. simpl. by rewrite np_index_negative. Qed.

Lemma np_index2_unfold {A} (t : list (list A)) b i :
  np_index2 t (b, i) = rbind (np_index t b) (fun row => np_index row i).
Proof. done. Qed.

Lemma np_index_nat_lookup {A} (a : list A) (i : nat) x :
  np_index a (Z.of_nat i) = Ok x <-> a !! i = Some x.
Proof.
  split.
  - unfold np_index. destruct (Z.ltb_spec (Z.of_nat i) 0); [lia|].
    destruct (_ && _); [|done]. rewrite Nat2Z.id.
    destruct (a !! i); [|done]. by intros [= <-].
  - intros Hx.
    destruct (np_index_nonneg a (Z.of_nat i)) as (x' & -> & Hx').
    { apply lookup_lt_Some in Hx. lia. }
    rewrite Nat2Z.id in Hx'. congruence.
Qed.

Lemma np_index2_cell {A} (t : list (list A)) (b i : nat) x :
  np_index2 t (Z.of_nat b, Z.of_nat i) = Ok x <-> cell t b i = Some x.
Proof.
  rewrite np_index2_unfold, cell_Some. split.
  - destruct (np_index t (Z.of_nat b)) as [row|] eqn:Hrow; [|done]. simpl.
    intros Hx. exists row. split; by apply np_index_nat_lookup.
  - intros (row & Hrow & Hx). rewrite <- np_index_nat_lookup in Hrow.
    rewrite <- np_index_nat_lookup in Hx. by rewrite Hrow.
Qed.

(** [t[x, j] = r] on a table whose cells are rows. *)
Lemma cell_store_eq {A} (t : list (list A)) x j r :
  (x < length t)%nat ->
  (forall plane, t !! x = Some plane -> (j < length plane)%nat) ->
  cell (alter (fun plane => <[j := r]> plane) x t) x j = Some r.
Proof.
  intros Hx Hj. unfold cell. rewrite list_lookup_alter.
  destruct (decide (x = x)); [|done].
  destruct (lookup_lt_is_Some_2 t x Hx) as [plane Hplane].
  rewrite Hplane. simpl. apply list_lookup_insert_eq. by apply Hj.
Qed.

Lemma cell_store_ne {A} (t : list (list A)) x j r b i :
  (b, i) <> (x, j) ->
  cell (alter (fun plane => <[j := r]> plane) x t) b i = cell t b i.
Proof.
  intros Hne. unfold cell. rewrite list_lookup_alter.
  destruct (decide (x = b)) as [->|Hxb]; [|done].
  destruct (t !! b) as [plane|]; [|done]. simpl.
  apply list_lookup_insert_ne. congruence.
Qed.

Lemma table_shape_store {A} rows cols (t : list (list A)) x j r :
  table_shape rows cols t ->
  table_shape rows cols (alter (fun plane => <[j := r]> plane) x t).
Proof.
  intros [Hlen Hrows]. split.
  - by rewrite length_alter.
  - apply Forall_alter; [done|]. intros plane _ Hp. by rewrite length_insert.
Qed.

Lemma wrap32_inj x y :
  0 <= x < 2 ^ 31 -> 0 <= y < 2 ^ 31 -> wrap32 x = wrap32 y -> x = y.
Proof. intros Hx Hy. by rewrite !wrap32_small by lia. Qed.

Lemma map_wrap32_small l :
  Forall (fun x => 0 <= x < 2 ^ 31) l -> map wrap32 l = l.
Proof.
  induction 1 as [|x l Hx _ IH]; [done|]. simpl.
  by rewrite IH, wrap32_small by lia.
Qed.

Lemma np_index3_unfold {A} (t : list (list (list A))) b i j :
  np_index3 t (b, i, j)
  = rbind (np_index t b) (fun plane => np_index2 plane (i, j)).
Proof.
  unfold np_index3, np_index2. simpl.
  destruct (np_index t b) as [plane|]; [|done]. simpl.
  change (plane ← Ok plane; ?k plane) with (k plane). done.
Qed.

Lemma np_index3_negative {A} (t : list (list (list A))) b i j :
  - Z.of_nat (length t) <= b < 0 ->
  np_index3 t (b, i, j) = np_index3 t (b + Z.of_nat (length t), i, j).
Proof. intros Hb. rewrite !np_index3_unfold. by rewrite np_index_negative. Qed.

Lemma np_index3_shape {A} rows cols group (t : list (list (list A))) b i j :
  table_shape rows cols t ->
  Forall (Forall (fun row => length row = group)) t ->
  - Z.of_nat rows <= b < Z.of_nat rows ->
  - Z.of_nat cols <= i < Z.of_nat cols ->
  - Z.of_nat group <= j < Z.of_nat group ->
  exists plane row x,
    np_index3 t (b, i, j) = Ok x /\ plane ∈ t /\ row ∈ plane /\ x ∈ row.
Proof.
  intros Hshape Hrows Hb Hi Hj. rewrite np_index3_unfold.
  destruct (np_index_in_range t b) as (plane & Hplane & Hin);
    [destruct Hshape; lia|].
  rewrite Hplane. simpl.
  pose proof (table_shape_elem _ _ _ _ Hshape Hin) as Hlen.
  rewrite Forall_forall in Hrows.
  pose proof (Hrows plane ltac:(by apply list_elem_of_In)) as Hgroup.
  destruct (np_index2_shape (length plane) group plane i j)
    as (row & x & _ & _ & Hx & Hrow & Hxin); [done|lia|lia|].
  exists plane, row, x. by rewrite Hx.
Qed.

Lemma reshape3_Forall {A} (P : A -> Prop) rows cols group (flat : list A) :
  Forall P flat ->
  Forall (Forall (Forall P))
         (map (reshape cols group) (reshape rows (cols * group) flat)).
Proof.
  intros Hall. apply Forall_forall. intros plane Hplane.
  apply in_map_iff in Hplane as (chunk & <- & Hchunk).
  apply reshape_Forall.
  pose proof (reshape_Forall P rows (cols * group) flat Hall) as Hchunks.
  rewrite Forall_forall in Hchunks. by apply Hchunks.
Qed.

Lemma replicate3_shape {A} rows cols group (x : A) :
  table_shape rows cols (replicate rows (replicate cols (replicate group x))) /\
  Forall (Forall (fun row => length row = group))
         (replicate rows (replicate cols (replicate group x))).
Proof.
  split; [split|].
  - by rewrite length_replicate.
  - apply Forall_forall. intros plane Hp.
    apply list_elem_of_In, elem_of_replicate in Hp as [-> _].
    by rewrite length_replicate.
  - apply Forall_forall. intros plane Hp.
    apply list_elem_of_In, elem_of_replicate in Hp as [-> _].
    apply Forall_forall. intros row Hr.
    apply list_elem_of_In, elem_of_replicate in Hr as [-> _].
    by rewrite length_replicate.
Qed.

(** ** DnaSequenceGenerator: epoch tables *)

Module SequenceFacts.
Import DnaSequenceGenerator.

(** The attributes that only [__init__] assigns. *)
Definition same_config (g g' : t) : Prop :=
  samples g' = samples g /\ sample_lengths g' = sample_lengths g /\
  num_samples g' = num_samples g /\ sequence_length g' = sequence_length g /\
  kmer g' = kmer g /\ augment g' = augment g /\
  batch_size g' = batch_size g /\ batches_per_epoch g' = batches_per_epoch g /\
  balance g' = balance g /\ labels g' = labels g /\ rng g' = rng g.

Definition static_ok (g : t) : Prop :=
  num_samples g = length (samples g) /\
  length (sample_lengths g) = num_samples g.

Section facts.
Context {S : Type} `{GeneratorSpec S}.

(** The tables of an epoch: their extents, archive indices within the
    list of archives, and the fractions of the augmentation offsets
    being one uniform draw of the generator. *)
Definition shaped (g : t) : Prop :=
  table_shape (batches_per_epoch g) (batch_size g) (sample_indices g) /\
  Forall (Forall (fun a => 0 <= a < Z.of_nat (num_samples g))) (sample_indices g) /\
  table_shape (batches_per_epoch g) (batch_size g) (sequence_indices g) /\
  (augment g = true ->
   exists s : S,
     augment_offsets g
     = Some (reshape (batches_per_epoch g) (batch_size g)
               (rng_uniform (batches_per_epoch g * batch_size g) s).1)).

(** Every sequence key is the truncated float64 product of a fraction
    of the unit interval with the effective length of the slot's
    archive. *)
Definition keyed (g : t) : Prop :=
  forall b i a key,
    cell (sample_indices g) b i = Some a ->
    cell (sequence_indices g) b i = Some key ->
    exists len u, np_index (sample_lengths g) a = Ok len /\ in_unit u /\
                  key = f64_trunc (f64_mul_int u len).

Lemma seq_same_config_refl g : same_config g g.
Proof. by repeat split. Qed.

Lemma seq_same_config_trans g1 g2 g3 :
  same_config g1 g2 -> same_config g2 g3 -> same_config g1 g3.
Proof. unfold same_config. intuition congruence. Qed.

Lemma seq_shuffle_post (h : nat -> S) g r h' g' :
  static_ok g ->
  shuffle (h, g) = (r, (h', g')) ->
  same_config g g' /\ (forall x, x <> rng g -> h' x = h x) /\
  match r with
  | Raise _ => g' = g
  | Ok _ => shaped g' /\ keyed g'
  end.
Proof.
  intros [Hn Hlen].
  unfold shuffle, mbind, M_bind, gets, modify, draw, lift. simpl.
  set (rows := batches_per_epoch g). set (cols := batch_size g).
  destruct (rng_integers _ _ _) as [[flat|e] s1] eqn:Hint; simpl;
    [|intros [= <- <- <-]; repeat split;
      intros; by rewrite fn_lookup_insert_ne].
  pose proof (integers_range _ _ _ flat ltac:(by rewrite Hint)) as [Hflat Hrange].
  destruct (fancy_index_ok (sample_lengths g) (reshape rows cols flat))
    as (lengths & -> & Hlens).
  { rewrite Hlen. by apply reshape_Forall. }
  rewrite fn_lookup_insert.
  pose proof (uniform_range (rows * cols) s1) as [Hus Hunit].
  destruct (rng_uniform (rows * cols) s1) as [us s2] eqn:Hu1. simpl in *.
  pose proof (reshape_shape rows cols flat Hflat) as Hpicked.
  pose proof (table_shape_Forall2 _ _ _ _ _ Hlens Hpicked) as Hlshape.
  pose proof (reshape_shape rows cols us Hus) as Hushape.
  assert (Hkeyed : forall g0,
             sample_indices g0 = reshape rows cols flat ->
             sample_lengths g0 = sample_lengths g ->
             sequence_indices g0
             = zip_with (zip_with (fun n u => f64_trunc (f64_mul_int u n)))
                 lengths (reshape rows cols us) ->
             keyed g0).
  { intros g0 E1 E2 E3 b i a key Ha Hkey. rewrite E1 in Ha.
    rewrite E3 in Hkey. rewrite E2.
    apply cell_zip_with in Hkey as (len & u & Hl & Hu & ->).
    destruct (cell_Forall2 _ _ _ _ _ _ Hlens Ha) as (len' & Hl' & Hidx).
    assert (len' = len) as -> by congruence.
    exists len, u. split; [done|]. split; [|done].
    eapply cell_Forall; [|exact Hu]. by apply reshape_Forall. }
  destruct (augment g) eqn:Haug.
  - simpl. rewrite fn_lookup_insert.
    destruct (rng_uniform (rows * cols) s2) as [us' s3] eqn:Hu2. simpl.
    intros [= <- <- <-]. split; [by repeat split|]. split.
    { intros x Hx. by rewrite !fn_lookup_insert_ne. }
    split; [|by apply Hkeyed].
    split; [exact Hpicked|]. split; [by apply reshape_Forall|].
    split; [by apply table_shape_zip_with|].
    intros _. exists s2. subst rows cols. simpl. by rewrite Hu2.
  - simpl. intros [= <- <- <-]. split; [by repeat split|]. split.
    { intros x Hx. by rewrite !fn_lookup_insert_ne. }
    split; [|by apply Hkeyed].
    split; [exact Hpicked|]. split; [by apply reshape_Forall|].
    split; [by apply table_shape_zip_with|].
    simpl. by rewrite Haug.
Qed.

(** [__init__] has computed the effective lengths from the archives. *)
Definition configured (g : t) : Prop :=
  num_samples g = length (samples g) /\
  balance_lengths (balance g) (map archive_len (samples g))
  = Ok (sample_lengths g).

Lemma seq_configured_static g : configured g -> static_ok g.
Proof.
  intros [Hn Hbal]. split; [done|].
  apply balance_lengths_length in Hbal.
  rewrite Hbal, length_map. done.
Qed.

Lemma seq_configured_same_config g g' :
  same_config g g' -> configured g -> configured g'.
Proof.
  unfold same_config, configured.
  intros (-> & -> & -> & _ & _ & _ & _ & _ & -> & _) Hc. exact Hc.
Qed.

(** The states of a generator object: what [__init__] returns, and
    what any later call of [on_epoch_end] leaves, whether it returns
    or raises, whatever other callers did to the generator objects of
    the store in between. *)
Inductive reachable : t -> Prop :=
  | reach_init samples window k cols rows aug bal mode r (h h' : nat -> S) g :
      init samples window k cols rows aug bal mode r h = (Ok g, h') ->
      reachable g
  | reach_epoch g (h h' : nat -> S) out g' :
      reachable g ->
      on_epoch_end (h, g) = (out, (h', g')) ->
      reachable g'.

Lemma seq_init_post samples window k cols rows aug bal mode r (h h' : nat -> S) g :
  init samples window k cols rows aug bal mode r h = (Ok g, h') ->
  (DnaSequenceGenerator.samples g = samples /\ sequence_length g = window /\ kmer g = k /\
   batch_size g = cols /\ batches_per_epoch g = rows /\ augment g = aug /\
   balance g = bal /\ labels g = mode /\ rng g = r) /\
  configured g /\ shaped g /\ keyed g.
Proof.
  unfold init.
  destruct (balance_lengths bal (map archive_len samples)) as [lens|] eqn:Hbal;
    [|done].
  match goal with
  | |- context [shuffle (h, ?g0)] => set (self := g0)
  end.
  destruct (shuffle (h, self)) as [[[]|e] [h1 g1]] eqn:Hrun; [|done].
  intros [= <- <-].
  assert (Hst : static_ok self).
  { split; [done|]. simpl. apply balance_lengths_length in Hbal.
    by rewrite Hbal, length_map. }
  destruct (seq_shuffle_post h self _ _ _ Hst Hrun) as (Hcfg & _ & Hshaped & Hkeyed).
  destruct Hcfg as (E1 & E2 & E3 & E4 & E5 & E6 & E7 & E8 & E9 & E10 & E11).
  split; [by repeat split|].
  split; [|done].
  split; [by rewrite E3, E1 | by rewrite E9, E1, E2].
Qed.

Lemma seq_reachable_inv g :
  reachable g -> configured g /\ shaped g /\ keyed g.
Proof.
  induction 1 as [samples window k cols rows aug bal mode r h h' g Hinit
                 |g h h' out g' _ (Hc & Hs & Hk) Hrun].
  - by apply seq_init_post in Hinit as (_ & ?).
  - unfold on_epoch_end in Hrun.
    destruct (seq_shuffle_post h g _ _ _ (seq_configured_static g Hc) Hrun)
      as (Hcfg & _ & Hout).
    destruct out as [[]|e].
    + destruct Hout. split; [by eapply seq_configured_same_config|done].
    + by subst g'.
Qed.

(** *** Balanced effective lengths *)


(** *** Clip offsets *)

Lemma seq_offset_eval g (h : nat -> S) how batch_index (i : nat) sequence_len :
  reachable g ->
  - Z.of_nat (batches_per_epoch g) <= batch_index < Z.of_nat (batches_per_epoch g) ->
  (i < batch_size g)%nat ->
  if augment g then
    exists table u,
      augment_offsets g = Some table /\
      np_index2 table (batch_index, Z.of_nat i) = Ok u /\ in_unit u /\
      augment_offset_fn how sequence_len (batch_index, Z.of_nat i) (h, g)
      = (Ok (augmented_offset u sequence_len (sequence_length g)), (h, g))
  else
    augment_offset_fn how sequence_len (batch_index, Z.of_nat i) (h, g)
    = (match how with Positional => Ok 0 | Keyword => Raise TypeError end, (h, g)).
Proof.
  intros (Hc & Hs & Hk)%seq_reachable_inv Hb Hi.
  unfold augment_offset_fn, compute_augmented_offset,
    mbind, M_bind, gets, lift. simpl.
  destruct (augment g) eqn:Haug.
  - destruct Hs as (_ & _ & _ & Hoff).
    destruct (Hoff Haug) as (s & Htable). simpl. rewrite Htable.
    pose proof (uniform_range (batches_per_epoch g * batch_size g) s)
      as [Hus Hunit].
    pose proof (reshape_shape _ _ _ Hus) as Hshape.
    destruct (np_index2_shape _ _ _ batch_index (Z.of_nat i) Hshape Hb
                ltac:(lia)) as (row & u & _ & _ & Hidx & Hrow & Hu).
    simpl. rewrite Hidx. simpl.
    assert (Hin : in_unit u).
    { pose proof (reshape_Forall in_unit (batches_per_epoch g) (batch_size g)
                    _ Hunit) as Hall.
      rewrite Forall_forall in Hall. apply list_elem_of_In in Hrow.
      apply Hall in Hrow. rewrite Forall_forall in Hrow.
      apply Hrow. by apply list_elem_of_In. }
    eexists _, u. split; [reflexivity|]. split; [exact Hidx|]. by split.
  - by destruct how.
Qed.

(** An offset that [augment_offset_fn] returns lies in the sequence. *)
Lemma seq_offset_in_window g (h : nat -> S) how batch_index (i : nat) sequence_len
      offset st' :
  reachable g ->
  - Z.of_nat (batches_per_epoch g) <= batch_index < Z.of_nat (batches_per_epoch g) ->
  (i < batch_size g)%nat ->
  Z.of_nat (sequence_length g) <= sequence_len ->
  augment_offset_fn how sequence_len (batch_index, Z.of_nat i) (h, g)
  = (Ok offset, st') ->
  0 <= offset <= sequence_len - Z.of_nat (sequence_length g).
Proof.
  intros Hg Hb Hi Hlen Hrun.
  pose proof (seq_offset_eval g h how batch_index i sequence_len Hg Hb Hi) as Hev.
  destruct (augment g) eqn:Haug.
  - destruct Hev as (table & u & Htable & Hidx & Hin & Hev).
    rewrite Hev in Hrun. injection Hrun as <- _.
    unfold augmented_offset.
    destruct (unit_product_trunc u
                (sequence_len - Z.of_nat (sequence_length g) + 1) Hin
                ltac:(lia)) as [_ Hrange].
    lia.
  - rewrite Hev in Hrun. destruct how; [|done].
    injection Hrun as <- _. lia.
Qed.

(** With [augment], the call returns. *)
Lemma seq_offset_returns g (h : nat -> S) how batch_index (i : nat) sequence_len :
  reachable g -> augment g = true ->
  - Z.of_nat (batches_per_epoch g) <= batch_index < Z.of_nat (batches_per_epoch g) ->
  (i < batch_size g)%nat ->
  exists offset,
    augment_offset_fn how sequence_len (batch_index, Z.of_nat i) (h, g)
    = (Ok offset, (h, g)).
Proof.
  intros Hg Haug Hb Hi.
  pose proof (seq_offset_eval g h how batch_index i sequence_len Hg Hb Hi) as Hev.
  rewrite Haug in Hev. destruct Hev as (table & u & _ & _ & _ & Hev).
  by eexists.
Qed.

(** *** Exceptions of [__getitem__] *)

Lemma seq_batch_to_kmers_raises b st :
  raises_in data_error (batch_to_kmers (S := S) b) st.
Proof.
  unfold batch_to_kmers.
  apply raises_bind; [readonly | apply raises_gets | intros window _].
  apply raises_bind; [readonly | apply raises_gets | intros k _].
  destruct (_ <? 0).
  { apply raises_lift. intros e [= <-]. by right. }
  apply raises_mapM; [intros; readonly|]. intros sequence _.
  apply raises_bind; [readonly | | intros codes _].
  { apply raises_lift. intros e ->%to_kmers_raise. by right. }
  apply raises_bind; [readonly | | intros row _; apply raises_ret].
  apply raises_lift. intros e ->%assign_row_raise. by right.
Qed.

(** What [__getitem__] may raise on an index of the range: a data error,
    or the [TypeError] of the keyword call of [lambda *_: 0]. *)
Definition served_error (g : t) (e : exn) : Prop :=
  data_error e \/ (e = TypeError /\ augment g = false).

Lemma seq_getitem_raises g (h : nat -> S) batch_index :
  reachable g ->
  - Z.of_nat (batches_per_epoch g) <= batch_index < Z.of_nat (batches_per_epoch g) ->
  raises_in (served_error g) (getitem batch_index) (h, g).
Proof.
  intros Hg Hb.
  pose proof (seq_reachable_inv g Hg) as (Hc & Hs & Hk).
  destruct Hs as (Hsi & Hrange & Hqi & _).
  destruct Hc as [Hn _].
  unfold getitem.
  apply raises_bind; [apply sequence_generate_batch_readonly| |].
  - unfold generate_batch.
    apply raises_bind; [readonly | apply raises_gets | intros rows1 [= <-]].
    destruct (np_index_in_range (sample_indices g) batch_index)
      as (srow & Hsrow & Hsin); [destruct Hsi; lia|].
    apply raises_bind; [readonly | | intros srow' Hsrow'].
    { apply raises_lift. intros e He. simpl in He. congruence. }
    simpl in Hsrow'. assert (srow' = srow) as -> by congruence.
    apply raises_bind; [readonly | apply raises_gets | intros rows2 [= <-]].
    destruct (np_index_in_range (sequence_indices g) batch_index)
      as (qrow & Hqrow & Hqin); [destruct Hqi; lia|].
    apply raises_bind; [readonly | | intros qrow' Hqrow'].
    { apply raises_lift. intros e He. simpl in He. congruence. }
    simpl in Hqrow'. assert (qrow' = qrow) as -> by congruence.
    apply raises_bind; [readonly | apply raises_gets | intros cols [= <-]].
    apply raises_bind; [readonly | apply raises_gets | intros window [= <-]].
    pose proof (table_shape_elem _ _ _ _ Hsi Hsin) as Hslen.
    pose proof (table_shape_elem _ _ _ _ Hqi Hqin) as Hqlen.
    apply raises_mapM; [intros; readonly|]. intros i Hi.
    apply list_elem_of_In, in_seq in Hi.
    destruct (np_index_nonneg srow (Z.of_nat i)) as (a & Ha & Hal); [lia|].
    apply raises_bind; [readonly | | intros a' Ha'].
    { apply raises_lift. intros e He. congruence. }
    simpl in Ha'. assert (a' = a) as -> by congruence.
    apply raises_bind; [readonly | apply raises_gets | intros archives [= <-]].
    assert (Har : 0 <= a < Z.of_nat (length (samples g))).
    { rewrite <- Hn. rewrite Forall_forall in Hrange.
      apply list_elem_of_In in Hsin. apply Hrange in Hsin.
      rewrite Forall_forall in Hsin. apply Hsin.
      apply list_elem_of_In. by eapply list_elem_of_lookup_2. }
    destruct (np_index_nonneg (samples g) a Har) as (sample & Hsample & _).
    apply raises_bind; [readonly | | intros sample' _].
    { apply raises_lift. intros e He. congruence. }
    destruct (np_index_nonneg qrow (Z.of_nat i)) as (key & Hkey & _); [lia|].
    apply raises_bind; [readonly | | intros key' _].
    { apply raises_lift. intros e He. congruence. }
    apply raises_bind; [readonly | | intros sequence _].
    { apply raises_lift. intros e ->%archive_get_raise. left. by left. }
    apply raises_bind; [apply sequence_augment_offset_fn_readonly| |].
    { intros e He.
      pose proof (seq_offset_eval g h Keyword batch_index i
                    (Z.of_nat (length sequence)) Hg Hb ltac:(lia)) as Hev.
      destruct (augment g) eqn:Haug.
      - destruct Hev as (table & u & _ & _ & _ & Hrun).
        rewrite Hrun in He. done.
      - rewrite Hev in He. injection He as <-. by right. }
    intros offset _.
    apply raises_lift. intros e ->%assign_row_raise. left. by right.
  - intros b _. unfold post_process_batch.
    apply raises_bind; [readonly | apply raises_gets | intros mode _].
    destruct (np_index_in_range (sample_indices g) batch_index)
      as (srow & Hsrow & Hsin); [destruct Hsi; lia|].
    destruct mode as [[]|];
      (apply raises_bind;
       [apply sequence_batch_to_kmers_readonly
       |intros e He; left; by apply (seq_batch_to_kmers_raises b (h, g))
       |intros x _]); try apply raises_ret.
    apply raises_bind; [readonly | apply raises_gets | intros rows [= <-]].
    apply raises_bind; [readonly | | intros ids _; apply raises_ret].
    apply raises_lift. intros e He. congruence.
Qed.

Lemma seq_getitem_out_of_range g (h : nat -> S) batch_index :
  reachable g ->
  batch_index < - Z.of_nat (batches_per_epoch g) \/
  Z.of_nat (batches_per_epoch g) <= batch_index ->
  getitem batch_index (h, g) = (Raise IndexError, (h, g)).
Proof.
  intros (Hc & Hs & Hk)%seq_reachable_inv Hb.
  destruct Hs as ([Hlen _] & _).
  unfold getitem, generate_batch, mbind, M_bind, gets, lift. simpl.
  rewrite np_index_out_of_range by lia. done.
Qed.

Lemma seq_getitem_negative g (h : nat -> S) batch_index :
  reachable g ->
  - Z.of_nat (batches_per_epoch g) <= batch_index < 0 ->
  getitem batch_index (h, g)
  = getitem (batch_index + Z.of_nat (batches_per_epoch g)) (h, g).
Proof.
  intros (Hc & Hs & Hk)%seq_reachable_inv Hb.
  destruct Hs as ([Hsl _] & _ & [Hql _] & Hoff).
  assert (Hsi : np_index (sample_indices g) batch_index
                = np_index (sample_indices g)
                    (batch_index + Z.of_nat (batches_per_epoch g))).
  { rewrite <- Hsl. apply np_index_negative. lia. }
  assert (Hqi : np_index (sequence_indices g) batch_index
                = np_index (sequence_indices g)
                    (batch_index + Z.of_nat (batches_per_epoch g))).
  { rewrite <- Hql. apply np_index_negative. lia. }
  assert (Haug : forall n i st, st.2 = g ->
             augment_offset_fn (S := S) Keyword n (batch_index, i) st
             = augment_offset_fn Keyword n
                 (batch_index + Z.of_nat (batches_per_epoch g), i) st).
  { intros n i [h0 g0] [= ->].
    unfold augment_offset_fn, compute_augmented_offset,
      mbind, M_bind, gets, lift. simpl.
    destruct (augment g) eqn:Ha; [|done]. simpl.
    destruct (Hoff eq_refl) as (s & Htable). rewrite Htable.
    pose proof (uniform_range (batches_per_epoch g * batch_size g) s)
      as [Hus _].
    destruct (reshape_shape _ _ _ Hus) as [Hlen _].
    rewrite np_index2_negative by lia. by rewrite Hlen. }
  unfold getitem. apply bind_ext_run.
  - unfold generate_batch.
    apply bind_ext_run; [done|]. intros rows1 st1 [= <- <-].
    apply bind_ext_run; [unfold lift; by rewrite Hsi|].
    intros srow st1 [= _ <-].
    apply bind_ext_run; [done|]. intros rows2 st1 [= <- <-].
    apply bind_ext_run; [unfold lift; by rewrite Hqi|].
    intros qrow st1 [= _ <-].
    apply bind_ext_run; [done|]. intros cols st1 [= <- <-].
    apply bind_ext_run; [done|]. intros window st1 [= <- <-].
    apply mapM_ext_run; [intros; readonly|]. intros i _.
    apply bind_ext_run; [done|]. intros a st1 [= _ <-].
    apply bind_ext_run; [done|]. intros archives st1 [= <- <-].
    apply bind_ext_run; [done|]. intros sample st1 [= _ <-].
    apply bind_ext_run; [done|]. intros key st1 [= _ <-].
    apply bind_ext_run; [done|]. intros sequence st1 [= _ <-].
    apply bind_ext_run; [by apply Haug | done].
  - intros b st1 Hrun.
    pose proof (sequence_generate_batch_readonly (S := S) batch_index (h, g))
      as Hst.
    rewrite Hrun in Hst. simpl in Hst. subst st1.
    unfold post_process_batch.
    apply bind_ext_run; [done|]. intros mode st1 [= <- <-].
    destruct (labels g) as [[]|]; try done.
    apply bind_ext_run; [done|]. intros x st1 Hx.
    pose proof (sequence_batch_to_kmers_readonly (S := S) b (h, g)) as Hst.
    rewrite Hx in Hst. simpl in Hst. subst st1.
    apply bind_ext_run; [done|]. intros rows st1 [= <- <-].
    apply bind_ext_run; [unfold lift; by rewrite Hsi | done].
Qed.
End facts.
End SequenceFacts.

(** ** DnaSampleGenerator: epoch tables *)

Module SampleFacts.
Import DnaSampleGenerator.

Definition same_config (g g' : t) : Prop :=
  subsample_length g' = subsample_length g /\
  samples g' = samples g /\ sample_lengths g' = sample_lengths g /\
  num_samples g' = num_samples g /\ sequence_length g' = sequence_length g /\
  kmer g' = kmer g /\ augment g' = augment g /\
  batch_size g' = batch_size g /\ batches_per_epoch g' = batches_per_epoch g /\
  balance g' = balance g /\ labels g' = labels g /\ rng g' = rng g.

Definition static_ok (g : t) : Prop :=
  num_samples g = length (samples g) /\
  length (sample_lengths g) = num_samples g.

(** Extents and range of the archive indices. *)
Definition sample_shape (g : t) : Prop :=
  table_shape (batches_per_epoch g) (batch_size g) (sample_indices g) /\
  Forall (Forall (fun a => 0 <= a < Z.of_nat (num_samples g))) (sample_indices g).

(** Extents of the table of sequence keys. *)
Definition seq_shape (g : t) : Prop :=
  table_shape (batches_per_epoch g) (batch_size g) (sequence_indices g) /\
  Forall (Forall (fun row => length row = subsample_length g)) (sequence_indices g).

(** The group of slot [(b, i)] is one draw without replacement from the
    effective index range of the slot's archive, stored as int32. *)
Definition group_ok (g : t) (b i : nat) : Prop :=
  exists a len keys,
    cell (sample_indices g) b i = Some a /\
    np_index (sample_lengths g) a = Ok len /\
    cell (sequence_indices g) b i = Some (map wrap32 keys) /\
    length keys = subsample_length g /\ NoDup keys /\
    Forall (fun key => 0 <= key < len) keys.

Definition keyed (g : t) : Prop :=
  forall b i, (b < batches_per_epoch g)%nat -> (i < batch_size g)%nat ->
              group_ok g b i.

Lemma grp_same_config_refl g : same_config g g.
Proof. by repeat split. Qed.

Lemma grp_same_config_trans g1 g2 g3 :
  same_config g1 g2 -> same_config g2 g3 -> same_config g1 g3.
Proof. unfold same_config. intuition congruence. Qed.

Lemma seq_shape_store g x j row :
  length row = subsample_length g ->
  seq_shape g ->
  seq_shape (set_sequence_indices
               (alter (fun plane => <[j := row]> plane) x (sequence_indices g)) g).
Proof.
  intros Hrow [Hshape Hrows]. split; simpl.
  - by apply table_shape_store.
  - apply Forall_alter; [done|]. intros plane _ Hplane.
    by apply Forall_insert.
Qed.

Section facts.
Context {S : Type} `{GeneratorSpec S}.

(** The fractions of the augmentation offsets are one uniform draw. *)
Definition offsets_drawn (g : t) : Prop :=
  augment g = true ->
  exists s : S,
    augment_offsets g
    = Some (map (reshape (batch_size g) (subsample_length g))
              (reshape (batches_per_epoch g)
                 (batch_size g * subsample_length g)
                 (rng_uniform (batches_per_epoch g * batch_size g
                               * subsample_length g) s).1)).

Definition shaped (g : t) : Prop :=
  sample_shape g /\ seq_shape g /\ offsets_drawn g.

(** What the loop of [shuffle] keeps, whether it returns or raises. *)
Definition loop_frame (h : nat -> S) (g : t) (picked : list (list Z))
           (st : (nat -> S) * t) : Prop :=
  same_config g st.2 /\ sample_indices st.2 = picked /\
  augment_offsets st.2 = augment_offsets g /\ seq_shape st.2 /\
  (forall x, x <> rng g -> st.1 x = h x).

Lemma store_step (h : nat -> S) g picked lengths (x j : nat) st1 :
  loop_frame h g picked st1 ->
  (x < batches_per_epoch g)%nat -> (j < batch_size g)%nat ->
  Forall2 (Forall2 (fun a len => np_index (sample_lengths g) a = Ok len))
          picked lengths ->
  match draw_keys lengths x j st1 with
  | (Ok _, st2) =>
      loop_frame h g picked st2 /\ group_ok st2.2 x j /\
      (forall b i, (b, i) <> (x, j) ->
                   cell (sequence_indices st2.2) b i
                   = cell (sequence_indices st1.2) b i)
  | (Raise _, st2) => loop_frame h g picked st2
  end.
Proof.
  destruct st1 as [h1 g1].
  intros Hframe Hx Hj Hlens.
  pose proof Hframe as (Hcfg & Hpicked & Hoff & Hshape & Hheap). simpl in *.
  pose proof Hcfg as (Egs & _ & Elens & _ & _ & _ & _ & Ebs & Erows & _ & _ & Erng).
  unfold draw_keys, store_keys, mbind, M_bind, lift, gets, draw, modify. simpl.
  destruct (np_index2 lengths (Z.of_nat x, Z.of_nat j)) as [n|e] eqn:Hn; simpl;
    [|exact Hframe].
  apply np_index2_cell in Hn.
  destruct (cell_Forall2_r _ _ _ _ _ _ Hlens Hn) as (a & Ha & Hlen).
  destruct (rng_choice n (subsample_length g1) (h1 (rng g1)))
    as [[keys|e] s'] eqn:Hch; simpl.
  2:{ split; [done|]. split; [done|]. split; [done|]. split; [done|].
      intros y Hy. simpl.
      rewrite fn_lookup_insert_ne by congruence. by apply Hheap. }
  pose proof (choice_range _ _ _ keys ltac:(by rewrite Hch))
    as (Hklen & Hnodup & Hrange).
  rewrite assign_row_same by (by rewrite length_map). simpl.
  split; [|split].
  - split; [done|]. split; [done|]. split; [done|]. split.
    + apply seq_shape_store; [by rewrite length_map | done].
    + intros y Hy. simpl. rewrite fn_lookup_insert_ne by congruence.
      by apply Hheap.
  - exists a, n, keys. simpl. rewrite Hpicked, Elens, Egs.
    split; [done|]. split; [done|]. split; [|by rewrite <- Egs].
    destruct Hshape as [[Hlen1 Hplanes] _].
    apply cell_store_eq; [lia|].
    intros plane Hplane. rewrite Forall_forall in Hplanes.
    rewrite (Hplanes plane); [lia|].
    apply list_elem_of_In. by eapply list_elem_of_lookup_2.
  - intros b i Hne. simpl. by apply cell_store_ne.
Qed.

Lemma group_ok_transfer g1 g2 b i :
  sample_indices g2 = sample_indices g1 ->
  sample_lengths g2 = sample_lengths g1 ->
  subsample_length g2 = subsample_length g1 ->
  cell (sequence_indices g2) b i = cell (sequence_indices g1) b i ->
  group_ok g1 b i -> group_ok g2 b i.
Proof.
  intros E1 E2 E3 E4 (a & len & keys & ?). exists a, len, keys.
  by rewrite E1, E2, E3, E4.
Qed.

Lemma loops_post (h : nat -> S) g picked lengths st0 :
  loop_frame h g picked st0 ->
  Forall2 (Forall2 (fun a len => np_index (sample_lengths g) a = Ok len))
          picked lengths ->
  match for_range (batches_per_epoch g)
          (fun i => for_range (batch_size g)
                      (fun j => draw_keys lengths i j)) st0 with
  | (Ok _, st') =>
      loop_frame h g picked st' /\
      forall b i, (b < batches_per_epoch g)%nat -> (i < batch_size g)%nat ->
                  group_ok st'.2 b i
  | (Raise _, st') => loop_frame h g picked st'
  end.
Proof.
  intros Hframe Hlens. unfold for_range.
  pose proof (for_each_inv
                (fun done st =>
                   loop_frame h g picked st /\
                   forall b i, b ∈ done -> (i < batch_size g)%nat ->
                               group_ok st.2 b i)
                (loop_frame h g picked)
                (seq 0 (batches_per_epoch g))
                (fun i => for_each (seq 0 (batch_size g))
                            (fun j => draw_keys lengths i j)) st0) as Houter.
  simpl in Houter.
  match type of Houter with
  | ?P -> ?Q -> _ => assert (Hinit : P); [|assert (Hstep : Q)]
  end.
  { split; [done|]. intros b i Hb. by apply not_elem_of_nil in Hb. }
  { intros done x st1 Hx%list_elem_of_In%in_seq [Hf1 Hdone].
    pose proof (for_each_inv
                  (fun done_j st =>
                     loop_frame h g picked st /\
                     (forall b i, b ∈ done -> (i < batch_size g)%nat ->
                                  group_ok st.2 b i) /\
                     forall j, j ∈ done_j -> group_ok st.2 x j)
                  (loop_frame h g picked)
                  (seq 0 (batch_size g))
                  (fun j => draw_keys lengths x j) st1) as Hinner.
    simpl in Hinner.
    match type of Hinner with
    | ?P -> ?Q -> _ => assert (Hinit' : P); [|assert (Hstep' : Q)]
    end.
    { split; [done|]. split; [done|].
      intros j Hj. by apply not_elem_of_nil in Hj. }
    { intros done_j j st2 Hj%list_elem_of_In%in_seq (Hf2 & Hrows & Hcols).
      pose proof (store_step h g picked lengths x j st2 Hf2
                    ltac:(lia) ltac:(lia) Hlens) as Hcell.
      destruct (draw_keys lengths x j st2) as [[[]|e] st3]; [|done].
      destruct Hcell as (Hf3 & Hnew & Hother).
      assert (Hkeep : forall b i, group_ok st2.2 b i -> group_ok st3.2 b i).
      { intros b i Hok.
        destruct (decide ((b, i) = (x, j))) as [[= -> ->]|Hne]; [done|].
        destruct Hf2 as (Hc2 & Hp2 & _), Hf3 as (Hc3 & Hp3 & _).
        destruct Hc2 as (G2 & _ & L2 & _), Hc3 as (G3 & _ & L3 & _).
        eapply group_ok_transfer; [| | | |exact Hok];
          [congruence | congruence | congruence | by apply Hother]. }
      split; [done|]. split.
      - intros b i Hb Hi. by apply Hkeep, Hrows.
      - intros j' [Hj'| ->%list_elem_of_singleton]%elem_of_app;
          [by apply Hkeep, Hcols | done]. }
    specialize (Hinner Hinit' Hstep').
    destruct (for_each (seq 0 (batch_size g))
                (fun j => draw_keys lengths x j) st1) as [[[]|e] st2];
      [|done].
    destruct Hinner as (Hf2 & Hrows & Hcols). split; [done|].
    intros b i [Hb| ->%list_elem_of_singleton]%elem_of_app Hi.
    - by apply Hrows.
    - apply Hcols. apply list_elem_of_In, in_seq. lia. }
  specialize (Houter Hinit Hstep).
  destruct (for_each (seq 0 (batches_per_epoch g)) _ st0) as [[[]|e] st'];
    [|done].
  destruct Houter as [Hf Hall]. split; [done|].
  intros b i Hb Hi. apply Hall; [|done].
  apply list_elem_of_In, in_seq. lia.
Qed.

Lemma reshape3_shape {A} rows cols group (flat : list A) :
  length flat = (rows * cols * group)%nat ->
  table_shape rows cols (map (reshape cols group) (reshape rows (cols * group) flat)) /\
  Forall (Forall (fun row => length row = group))
         (map (reshape cols group) (reshape rows (cols * group) flat)).
Proof.
  intros Hlen.
  destruct (reshape_shape rows (cols * group) flat) as [Hl Hrows]; [lia|].
  split; [split|].
  - by rewrite length_map.
  - apply Forall_forall. intros plane Hplane.
    apply in_map_iff in Hplane as (chunk & <- & Hchunk).
    unfold reshape at 1. by rewrite length_map, length_seq.
  - apply Forall_forall. intros plane Hplane.
    apply in_map_iff in Hplane as (chunk & <- & Hchunk).
    rewrite Forall_forall in Hrows. apply Hrows in Hchunk.
    by apply reshape_shape.
Qed.

Lemma grp_shuffle_post (h : nat -> S) g r h' g' :
  static_ok g -> seq_shape g ->
  shuffle (h, g) = (r, (h', g')) ->
  same_config g g' /\ (forall x, x <> rng g -> h' x = h x) /\ seq_shape g' /\
  match r with
  | Ok _ => sample_shape g' /\ offsets_drawn g' /\ keyed g'
  | Raise _ =>
      (sample_shape g -> sample_shape g') /\
      augment_offsets g' = augment_offsets g
  end.
Proof.
  intros [Hn Hlen] Hseq.
  unfold shuffle.
  unfold mbind at 1 2 3 4 5 6 7 8 9, M_bind at 1 2 3 4 5 6 7 8 9.
  unfold gets, modify, draw, lift. simpl.
  set (rows := batches_per_epoch g). set (cols := batch_size g).
  set (group := subsample_length g).
  destruct (rng_integers _ _ _) as [[flat|e] s1] eqn:Hint; simpl.
  2:{ intros [= <- <- <-]. split; [apply grp_same_config_refl|].
      split; [intros; by rewrite fn_lookup_insert_ne|].
      split; [exact Hseq|]. by split. }
  pose proof (integers_range _ _ _ flat ltac:(by rewrite Hint)) as [Hflat Hrange].
  destruct (fancy_index_ok (sample_lengths g) (reshape rows cols flat))
    as (lengths & -> & Hlens).
  { rewrite Hlen. by apply reshape_Forall. }
  pose proof (reshape_shape rows cols flat Hflat) as Hpicked.
  set (g0 := set_sample_indices (reshape rows cols flat) g).
  assert (Hframe : loop_frame h g (reshape rows cols flat)
                     (<[rng g := s1]> h, g0)).
  { split; [by repeat split|]. split; [done|]. split; [done|].
    split; [exact Hseq|]. intros x Hx. simpl. by rewrite fn_lookup_insert_ne. }
  pose proof (loops_post h g _ lengths _ Hframe Hlens) as Hloop.
  fold rows cols in Hloop.
  destruct (for_range rows _ _) as [[[]|e] [h1 g1]] eqn:Hrun.
  2:{ rewrite (bind_raise _ _ _ _ _ Hrun). intros [= <- <- <-].
      destruct Hloop as (Hcfg & Hp & Hoff & Hshape & Hheap). simpl in *.
      split; [done|]. split; [done|]. split; [done|]. split; [|done].
      intros _. destruct Hcfg as (_ & _ & _ & En & _ & _ & _ & Eb & Er & _).
      unfold sample_shape. rewrite Hp, En, Eb, Er.
      split; [done | by apply reshape_Forall]. }
  rewrite (bind_run _ _ _ _ _ Hrun).
  unfold mbind, M_bind. simpl.
  destruct Hloop as ((Hcfg & Hp & Hoff & Hshape & Hheap) & Hall). simpl in *.
  pose proof Hcfg as (Eg & _ & _ & En & _ & _ & Ea & Eb & Er & _ & _ & Erng).
  assert (Hsample : sample_shape g1).
  { unfold sample_shape. rewrite Hp, En, Eb, Er.
    split; [done | by apply reshape_Forall]. }
  assert (Hkeyed : forall g2, same_config g1 g2 ->
             sample_indices g2 = sample_indices g1 ->
             sequence_indices g2 = sequence_indices g1 -> keyed g2).
  { intros g2 Hc2 E1 E2 b i Hb Hi.
    destruct Hc2 as (G & _ & L & _ & _ & _ & _ & B2 & R2 & _).
    apply (group_ok_transfer g1); [done|done|done|by rewrite E2|].
    apply Hall; [rewrite R2, Er in Hb | rewrite B2, Eb in Hi]; done. }
  rewrite Ea. destruct (augment g) eqn:Haug.
  - simpl. rewrite Erng.
    destruct (rng_uniform _ _) as [us s3] eqn:Hu. simpl.
    intros [= <- <- <-].
    split; [eapply grp_same_config_trans; [exact Hcfg | by repeat split]|]. split.
    { intros x Hx. rewrite fn_lookup_insert_ne by done. by apply Hheap. }
    split; [exact Hshape|]. split; [exact Hsample|]. split.
    + intros _. exists (h1 (rng g)). simpl. rewrite Eb, Er, Eg.
      fold rows cols group. by rewrite Hu.
    + by apply Hkeyed.
  - simpl. intros [= <- <- <-]. split; [done|]. split; [done|].
    split; [done|]. split; [done|]. split.
    + intros Ht. congruence.
    + by apply Hkeyed.
Qed.

(** [__init__] has computed the effective lengths from the archives. *)
Definition configured (g : t) : Prop :=
  num_samples g = length (samples g) /\
  balance_lengths (balance g) (map archive_len (samples g))
  = Ok (sample_lengths g).

Lemma grp_configured_static g : configured g -> static_ok g.
Proof.
  intros [Hn Hbal]. split; [done|].
  apply balance_lengths_length in Hbal.
  rewrite Hbal, length_map. done.
Qed.

Lemma grp_configured_same_config g g' :
  same_config g g' -> configured g -> configured g'.
Proof.
  unfold same_config, configured.
  intros (_ & -> & -> & -> & _ & _ & _ & _ & _ & -> & _) Hc. exact Hc.
Qed.

(** The states of a generator object: what [__init__] returns, and
    what any later call of [on_epoch_end] leaves; the flag tells
    whether the last build of the tables returned ([true]) or raised
    part-way ([false]). *)
Inductive state : bool -> t -> Prop :=
  | state_init samples group window k cols rows aug bal mode r
               (h h' : nat -> S) g :
      init samples group window k cols rows aug bal mode r h = (Ok g, h') ->
      state true g
  | state_epoch fresh g (h h' : nat -> S) out g' :
      state fresh g ->
      on_epoch_end (h, g) = (out, (h', g')) ->
      state (is_ok out) g'.

Definition reachable (g : t) : Prop := exists fresh, state fresh g.
Definition built (g : t) : Prop := state true g.

Lemma grp_init_post samples group window k cols rows aug bal mode r
      (h h' : nat -> S) g :
  init samples group window k cols rows aug bal mode r h = (Ok g, h') ->
  (DnaSampleGenerator.samples g = samples /\ subsample_length g = group /\
   sequence_length g = window /\ kmer g = k /\
   batch_size g = cols /\ batches_per_epoch g = rows /\ augment g = aug /\
   balance g = bal /\ labels g = mode /\ rng g = r) /\
  configured g /\ shaped g /\ keyed g.
Proof.
  unfold init.
  destruct (balance_lengths bal (map archive_len samples)) as [lens|] eqn:Hbal;
    [|done].
  match goal with
  | |- context [shuffle (h, ?g0)] => set (self := g0)
  end.
  destruct (shuffle (h, self)) as [[[]|e] [h1 g1]] eqn:Hrun; [|done].
  intros [= <- <-].
  assert (Hst : static_ok self).
  { split; [done|]. simpl. apply balance_lengths_length in Hbal.
    by rewrite Hbal, length_map. }
  assert (Hseq : seq_shape self) by apply replicate3_shape.
  destruct (grp_shuffle_post h self _ _ _ Hst Hseq Hrun)
    as (Hcfg & _ & Hshape & Hsample & Hoff & Hkeyed).
  destruct Hcfg as (E0 & E1 & E2 & E3 & E4 & E5 & E6 & E7 & E8 & E9 & E10 & E11).
  split; [by repeat split|].
  split; [|done].
  split; [by rewrite E3, E1 | by rewrite E9, E1, E2].
Qed.

Lemma state_inv fresh g :
  state fresh g -> configured g /\ shaped g /\ (fresh = true -> keyed g).
Proof.
  induction 1 as [samples group window k cols rows aug bal mode r h h' g Hinit
                 |fresh g h h' out g' _ (Hc & (Hsa & Hsq & Hoff) & Hk) Hrun].
  - by apply grp_init_post in Hinit as (_ & ? & ? & ?).
  - unfold on_epoch_end in Hrun.
    destruct (grp_shuffle_post h g _ _ _ (grp_configured_static g Hc) Hsq Hrun)
      as (Hcfg & _ & Hseq' & Hout).
    split; [by eapply grp_configured_same_config|].
    destruct out as [[]|e]; simpl.
    + destruct Hout as (? & ? & ?). split; [by split|done].
    + destruct Hout as [Hsa' Hoff']. split; [|done].
      split; [by apply Hsa'|]. split; [done|].
      intros Haug.
      destruct Hcfg as (Eg & _ & _ & _ & _ & _ & Ea & Eb & Er & _).
      rewrite Ea in Haug. destruct (Hoff Haug) as (s & Hs).
      exists s. by rewrite Hoff', Eg, Eb, Er.
Qed.

Lemma built_reachable g : built g -> reachable g.
Proof. intros Hb. by exists true. Qed.

Lemma grp_reachable_inv g : reachable g -> configured g /\ shaped g.
Proof. intros [fresh (? & ? & _)%state_inv]. by split. Qed.

Lemma built_inv g : built g -> configured g /\ shaped g /\ keyed g.
Proof. intros (? & ? & Hk)%state_inv. split; [done|]. split; [done|]. by apply Hk. Qed.

(** *** Groups of sequence keys *)

Lemma group_keys g b i a row len :
  built g ->
  Forall (fun n => n <= 2 ^ 31) (sample_lengths g) ->
  cell (sample_indices g) b i = Some a ->
  cell (sequence_indices g) b i = Some row ->
  np_index (sample_lengths g) a = Ok len ->
  length row = subsample_length g /\ NoDup row /\
  Forall (fun key => 0 <= key < len) row.
Proof.
  intros (Hc & (Hsa & _) & Hk)%built_inv Hfit Ha Hrow Hlen.
  destruct Hsa as [Hshape _].
  destruct (cell_shape_inv _ _ _ _ _ _ Hshape Ha) as [Hb Hi].
  destruct (Hk b i Hb Hi) as (a' & len' & keys & Ha' & Hlen' & Hrow' & Hl & Hnd & Hr).
  assert (a' = a) as -> by congruence.
  assert (len' = len) as -> by congruence.
  assert (Hle : len <= 2 ^ 31).
  { apply np_index_ok_elem in Hlen. rewrite Forall_forall in Hfit.
    apply Hfit. by apply list_elem_of_In. }
  rewrite map_wrap32_small in Hrow'.
  - assert (row = keys) as -> by congruence. done.
  - eapply Forall_impl; [|exact Hr]. simpl. intros. lia.
Qed.


(** *** Clip offsets *)

Lemma grp_offset_eval g (h : nat -> S) batch_index (i j : nat) sequence_len :
  reachable g ->
  - Z.of_nat (batches_per_epoch g) <= batch_index < Z.of_nat (batches_per_epoch g) ->
  (i < batch_size g)%nat -> (j < subsample_length g)%nat ->
  exists offset,
    augment_offset_fn Positional sequence_len (batch_index, Z.of_nat i, Z.of_nat j) (h, g)
    = (Ok offset, (h, g)) /\
    (augment g = false -> offset = 0) /\
    (augment g = true ->
     exists table u,
       augment_offsets g = Some table /\
       np_index3 table (batch_index, Z.of_nat i, Z.of_nat j) = Ok u /\
       in_unit u /\
       offset = augmented_offset u sequence_len (sequence_length g)).
Proof.
  intros (Hc & Hsa & Hsq & Hoff)%grp_reachable_inv Hb Hi Hj.
  unfold augment_offset_fn, compute_augmented_offset,
    mbind, M_bind, gets, lift. simpl.
  destruct (augment g) eqn:Haug.
  - destruct (Hoff Haug) as (s & Htable). simpl. rewrite Htable.
    pose proof (uniform_range (batches_per_epoch g * batch_size g
                               * subsample_length g) s) as [Hus Hunit].
    destruct (reshape3_shape _ _ _ _ Hus) as [Hshape Hrows].
    destruct (np_index3_shape _ _ _ _ batch_index (Z.of_nat i) (Z.of_nat j)
                Hshape Hrows Hb ltac:(lia) ltac:(lia))
      as (plane & row & u & Hidx & Hplane & Hrow & Hu).
    simpl. rewrite Hidx. simpl.
    assert (Hin : in_unit u).
    { pose proof (reshape3_Forall in_unit (batches_per_epoch g) (batch_size g)
                    (subsample_length g) _ Hunit) as Hall.
      rewrite Forall_forall in Hall. apply list_elem_of_In in Hplane.
      apply Hall in Hplane. rewrite Forall_forall in Hplane.
      apply list_elem_of_In in Hrow. apply Hplane in Hrow.
      rewrite Forall_forall in Hrow. apply Hrow. by apply list_elem_of_In. }
    eexists. split; [done|]. split; [done|].
    intros _. eexists _, u. split; [reflexivity|]. split; [exact Hidx|].
    by split.
  - exists 0. split; [done|]. by split.
Qed.

Lemma grp_offset_in_window g (h : nat -> S) batch_index (i j : nat) sequence_len :
  reachable g ->
  - Z.of_nat (batches_per_epoch g) <= batch_index < Z.of_nat (batches_per_epoch g) ->
  (i < batch_size g)%nat -> (j < subsample_length g)%nat ->
  Z.of_nat (sequence_length g) <= sequence_len ->
  exists offset,
    augment_offset_fn Positional sequence_len (batch_index, Z.of_nat i, Z.of_nat j) (h, g)
    = (Ok offset, (h, g)) /\
    0 <= offset <= sequence_len - Z.of_nat (sequence_length g) /\
    (augment g = false -> offset = 0) /\
    (augment g = true ->
     exists table u,
       augment_offsets g = Some table /\
       np_index3 table (batch_index, Z.of_nat i, Z.of_nat j) = Ok u /\
       in_unit u /\
       offset = f64_floor
                  (f64_mul_int u (sequence_len - Z.of_nat (sequence_length g) + 1))).
Proof.
  intros Hg Hb Hi Hj Hlen.
  destruct (grp_offset_eval g h batch_index i j sequence_len Hg Hb Hi Hj)
    as (offset & Hrun & Hoff & Hon).
  exists offset. split; [done|].
  destruct (augment g) eqn:Haug.
  - destruct (Hon eq_refl) as (table & u & Htable & Hidx & Hin & ->).
    unfold augmented_offset.
    destruct (unit_product_trunc u
                (sequence_len - Z.of_nat (sequence_length g) + 1) Hin
                ltac:(lia)) as [Hfloor Hrange].
    split; [lia|]. split; [done|]. intros _.
    exists table, u. by rewrite <- Hfloor.
  - rewrite (Hoff eq_refl). split; [lia|]. by split.
Qed.

(** *** Exceptions of [__getitem__] *)

Lemma super_batch_to_kmers_raises b st :
  raises_in data_error (super_batch_to_kmers (S := S) b) st.
Proof.
  unfold super_batch_to_kmers.
  apply raises_bind; [readonly | apply raises_gets | intros window _].
  apply raises_bind; [readonly | apply raises_gets | intros k _].
  destruct (_ <? 0).
  { apply raises_lift. intros e [= <-]. by right. }
  apply raises_mapM; [intros; readonly|]. intros sequence _.
  apply raises_bind; [readonly | | intros codes _].
  { apply raises_lift. intros e ->%to_kmers_raise. by right. }
  apply raises_bind; [readonly | | intros row _; apply raises_ret].
  apply raises_lift. intros e ->%assign_row_raise. by right.
Qed.

Lemma grp_batch_to_kmers_raises b st :
  raises_in data_error (batch_to_kmers (S := S) b) st.
Proof.
  unfold batch_to_kmers.
  apply raises_bind; [readonly | apply raises_gets | intros window _].
  apply raises_bind; [readonly | apply raises_gets | intros k _].
  apply raises_bind; [readonly | apply raises_gets | intros group _].
  destruct (_ <? 0).
  { apply raises_lift. intros e [= <-]. by right. }
  apply raises_mapM; [intros; readonly|]. intros subsample _.
  apply raises_bind;
    [apply sample_super_batch_to_kmers_readonly
    |apply super_batch_to_kmers_raises
    |intros rows _].
  apply raises_lift. intros e ->%assign_row_raise. by right.
Qed.

Lemma grp_getitem_raises g (h : nat -> S) batch_index :
  reachable g ->
  - Z.of_nat (batches_per_epoch g) <= batch_index < Z.of_nat (batches_per_epoch g) ->
  raises_in data_error (getitem batch_index) (h, g).
Proof.
  intros Hg Hb.
  pose proof (grp_reachable_inv g Hg) as (Hc & (Hsi & Hrange) & (Hqi & Hrows) & _).
  destruct Hc as [Hn _].
  unfold getitem.
  apply raises_bind; [apply sample_generate_batch_readonly| |].
  - unfold generate_batch.
    apply raises_bind; [readonly | apply raises_gets | intros rows1 [= <-]].
    destruct (np_index_in_range (sample_indices g) batch_index)
      as (srow & Hsrow & Hsin); [destruct Hsi; lia|].
    apply raises_bind; [readonly | | intros srow' Hsrow'].
    { apply raises_lift. intros e He. simpl in He. congruence. }
    simpl in Hsrow'. assert (srow' = srow) as -> by congruence.
    apply raises_bind; [readonly | apply raises_gets | intros rows2 [= <-]].
    destruct (np_index_in_range (sequence_indices g) batch_index)
      as (plane & Hplane & Hpin); [destruct Hqi; lia|].
    apply raises_bind; [readonly | | intros plane' Hplane'].
    { apply raises_lift. intros e He. simpl in He. congruence. }
    simpl in Hplane'. assert (plane' = plane) as -> by congruence.
    apply raises_bind; [readonly | apply raises_gets | intros cols [= <-]].
    apply raises_bind; [readonly | apply raises_gets | intros group [= <-]].
    apply raises_bind; [readonly | apply raises_gets | intros window [= <-]].
    pose proof (table_shape_elem _ _ _ _ Hsi Hsin) as Hslen.
    pose proof (table_shape_elem _ _ _ _ Hqi Hpin) as Hplen.
    assert (Hprows : Forall (fun row => length row = subsample_length g) plane).
    { rewrite Forall_forall in Hrows. apply Hrows. by apply list_elem_of_In. }
    apply raises_mapM; [intros; readonly|]. intros i Hi.
    apply list_elem_of_In, in_seq in Hi.
    destruct (np_index_nonneg srow (Z.of_nat i)) as (a & Ha & Hal); [lia|].
    apply raises_bind; [readonly | | intros a' Ha'].
    { apply raises_lift. intros e He. congruence. }
    simpl in Ha'. assert (a' = a) as -> by congruence.
    apply raises_bind; [readonly | apply raises_gets | intros archives [= <-]].
    assert (Har : 0 <= a < Z.of_nat (length (samples g))).
    { rewrite <- Hn. rewrite Forall_forall in Hrange.
      apply list_elem_of_In in Hsin. apply Hrange in Hsin.
      rewrite Forall_forall in Hsin. apply Hsin.
      apply list_elem_of_In. by eapply list_elem_of_lookup_2. }
    destruct (np_index_nonneg (samples g) a Har) as (sample & Hsample & _).
    apply raises_bind; [readonly | | intros sample' _].
    { apply raises_lift. intros e He. congruence. }
    apply raises_mapM; [intros; readonly|]. intros j Hj.
    apply list_elem_of_In, in_seq in Hj.
    destruct (np_index2_shape (length plane) (subsample_length g) plane
                (Z.of_nat i) (Z.of_nat j))
      as (row & key & _ & _ & Hkey & _); [done|lia|lia|].
    apply raises_bind; [readonly | | intros key' _].
    { apply raises_lift. intros e He. congruence. }
    apply raises_bind; [readonly | | intros sequence _].
    { apply raises_lift. intros e ->%archive_get_raise. by left. }
    apply raises_bind; [apply sample_augment_offset_fn_readonly| |].
    { intros e He.
      destruct (grp_offset_eval g h batch_index i j (Z.of_nat (length sequence))
                  Hg Hb ltac:(lia) ltac:(lia)) as (offset & Hrun & _).
      rewrite Hrun in He. done. }
    intros offset _.
    apply raises_lift. intros e ->%assign_row_raise. by right.
  - intros b _. unfold post_process_batch.
    apply raises_bind; [readonly | apply raises_gets | intros mode _].
    destruct (np_index_in_range (sample_indices g) batch_index)
      as (srow & Hsrow & Hsin); [destruct Hsi; lia|].
    destruct mode as [[]|];
      (apply raises_bind;
       [apply sample_batch_to_kmers_readonly
       |apply grp_batch_to_kmers_raises
       |intros x _]); try apply raises_ret.
    apply raises_bind; [readonly | apply raises_gets | intros rows [= <-]].
    apply raises_bind; [readonly | | intros ids _; apply raises_ret].
    apply raises_lift. intros e He. congruence.
Qed.

Lemma grp_getitem_out_of_range g (h : nat -> S) batch_index :
  reachable g ->
  batch_index < - Z.of_nat (batches_per_epoch g) \/
  Z.of_nat (batches_per_epoch g) <= batch_index ->
  getitem batch_index (h, g) = (Raise IndexError, (h, g)).
Proof.
  intros (Hc & ([Hlen _] & _) & _)%grp_reachable_inv Hb.
  unfold getitem, generate_batch, mbind, M_bind, gets, lift. simpl.
  rewrite np_index_out_of_range by lia. done.
Qed.

Lemma grp_getitem_negative g (h : nat -> S) batch_index :
  reachable g ->
  - Z.of_nat (batches_per_epoch g) <= batch_index < 0 ->
  getitem batch_index (h, g)
  = getitem (batch_index + Z.of_nat (batches_per_epoch g)) (h, g).
Proof.
  intros (Hc & ([Hsl _] & _) & ([Hql _] & _) & Hoff)%grp_reachable_inv Hb.
  assert (Hsi : np_index (sample_indices g) batch_index
                = np_index (sample_indices g)
                    (batch_index + Z.of_nat (batches_per_epoch g))).
  { rewrite <- Hsl. apply np_index_negative. lia. }
  assert (Hqi : np_index (sequence_indices g) batch_index
                = np_index (sequence_indices g)
                    (batch_index + Z.of_nat (batches_per_epoch g))).
  { rewrite <- Hql. apply np_index_negative. lia. }
  assert (Haug : forall n i j st, st.2 = g ->
             augment_offset_fn (S := S) Positional n (batch_index, i, j) st
             = augment_offset_fn Positional n
                 (batch_index + Z.of_nat (batches_per_epoch g), i, j) st).
  { intros n i j [h0 g0] [= ->].
    unfold augment_offset_fn, compute_augmented_offset,
      mbind, M_bind, gets, lift. simpl.
    destruct (augment g) eqn:Ha; [|done]. simpl.
    destruct (Hoff Ha) as (s & Htable). rewrite Htable.
    pose proof (uniform_range (batches_per_epoch g * batch_size g
                               * subsample_length g) s) as [Hus _].
    destruct (reshape3_shape _ _ _ _ Hus) as [[Hlen _] _].
    rewrite np_index3_negative by lia. by rewrite Hlen. }
  unfold getitem. apply bind_ext_run.
  - unfold generate_batch.
    apply bind_ext_run; [done|]. intros rows1 st1 [= <- <-].
    apply bind_ext_run; [unfold lift; by rewrite Hsi|].
    intros srow st1 [= _ <-].
    apply bind_ext_run; [done|]. intros rows2 st1 [= <- <-].
    apply bind_ext_run; [unfold lift; by rewrite Hqi|].
    intros plane st1 [= _ <-].
    apply bind_ext_run; [done|]. intros cols st1 [= <- <-].
    apply bind_ext_run; [done|]. intros group st1 [= <- <-].
    apply bind_ext_run; [done|]. intros window st1 [= <- <-].
    apply mapM_ext_run; [intros; readonly|]. intros i _.
    apply bind_ext_run; [done|]. intros a st1 [= _ <-].
    apply bind_ext_run; [done|]. intros archives st1 [= <- <-].
    apply bind_ext_run; [done|]. intros sample st1 [= _ <-].
    apply mapM_ext_run; [intros; readonly|]. intros j _.
    apply bind_ext_run; [done|]. intros key st1 [= _ <-].
    apply bind_ext_run; [done|]. intros sequence st1 [= _ <-].
    apply bind_ext_run; [by apply Haug | done].
  - intros b st1 Hrun.
    pose proof (sample_generate_batch_readonly (S := S) batch_index (h, g))
      as Hst.
    rewrite Hrun in Hst. simpl in Hst. subst st1.
    unfold post_process_batch.
    apply bind_ext_run; [done|]. intros mode st1 [= <- <-].
    destruct (labels g) as [[]|]; try done.
    apply bind_ext_run; [done|]. intros x st1 Hx.
    pose proof (sample_batch_to_kmers_readonly (S := S) b (h, g)) as Hst.
    rewrite Hx in Hst. simpl in Hst. subst st1.
    apply bind_ext_run; [done|]. intros rows st1 [= <- <-].
    apply bind_ext_run; [unfold lift; by rewrite Hsi | done].
Qed.
End facts.
End SampleFacts.

(** ** The counter generator meets the specification *)

Lemma mod_eq_small a b n :
  0 < n -> Z.abs (a - b) < n -> a mod n = b mod n -> a = b.
Proof.
  intros Hn Hab Hmod.
  assert (Hdiv : (a - b) mod n = 0).
  { rewrite Zminus_mod, Hmod, Z.sub_diag. by apply Z.mod_0_l; lia. }
  apply Z.mod_divide in Hdiv as [c Hc]; [|lia].
  assert (c = 0) by nia. lia.
Qed.

#[global] Instance counter_rng_spec : GeneratorSpec Z.
Proof.
  split.
  - intros high n s Hhigh. simpl. unfold CounterRng.integers.
    by destruct (Z.ltb_spec 0 high); [|lia].
  - intros high n s l. simpl. unfold CounterRng.integers.
    destruct (Z.ltb_spec 0 high) as [Hhigh|]; [|done]. simpl.
    intros [= <-]. split; [by rewrite length_map, length_seq|].
    apply Forall_forall. intros x Hx.
    apply in_map_iff in Hx as (i & <- & _). by apply Z.mod_pos_bound.
  - intros n s. simpl. split; [by rewrite length_map, length_seq|].
    apply Forall_forall. intros u Hu.
    apply in_map_iff in Hu as (i & <- & _). split; simpl; [|lia].
    apply Z.mod_pos_bound. lia.
  - intros n k s Hk. simpl. unfold CounterRng.choice.
    by destruct (Z.leb_spec (Z.of_nat k) n); [|lia].
  - intros n k s l. simpl. unfold CounterRng.choice.
    destruct (Z.leb_spec (Z.of_nat k) n) as [Hk|]; [|done]. simpl.
    intros [= <-]. split; [by rewrite length_map, length_seq|]. split.
    + apply (NoDup_fmap_2_strong (fun i => (s + Z.of_nat i) mod n)).
      * intros i j Hi%list_elem_of_In%in_seq Hj%list_elem_of_In%in_seq Hmod.
        apply mod_eq_small in Hmod; lia.
      * apply NoDup_ListNoDup, seq_NoDup.
    + apply Forall_forall. intros x Hx.
      apply in_map_iff in Hx as (i & <- & Hi%in_seq).
      apply Z.mod_pos_bound. lia.
Qed.

(** ** Two small archives and the generators built on them *)

Definition sample_a : archive :=
  list_to_map [("0"%string, [x01; x02; x03; x04; x00; x01]);
               ("1"%string, [x04; x03; x02; x01; x00]);
               ("2"%string, [x00; x00; x01; x01; x02; x02; x03])].

Definition sample_b : archive :=
  list_to_map [("0"%string, [x02; x02; x02; x02]);
               ("1"%string, [x03; x03; x01; x03; x03])].

(** [DnaSequenceGenerator([a, b], sequence_length=4, kmer=2, batch_size=3,
    batches_per_epoch=2, augment=True, balance=True,
    labels=DnaLabelType.SampleIds, rng=...)] on the counter generator. *)
Definition sequence_example_run : result DnaSequenceGenerator.t * (nat -> Z) :=
  DnaSequenceGenerator.init [sample_a; sample_b] 4 2 3 2 true true
    (Some SampleIds) 0 (fun _ => 7).

Definition sequence_example : DnaSequenceGenerator.t :=
  match sequence_example_run.1 with
  | Ok g => g
  | Raise _ =>
      DnaSequenceGenerator.Build [] [] 0 0 0 false 0 0 false None 0 [] [] None
  end.

(** [DnaSampleGenerator([a, b], subsample_length=2, sequence_length=4,
    kmer=2, batch_size=3, batches_per_epoch=2, augment=True, balance=True,
    labels=DnaLabelType.SampleIds, rng=...)]. *)
Definition sample_example_run : result DnaSampleGenerator.t * (nat -> Z) :=
  DnaSampleGenerator.init [sample_a; sample_b] 2 4 2 3 2 true true
    (Some SampleIds) 0 (fun _ => 7).

Definition sample_example : DnaSampleGenerator.t :=
  match sample_example_run.1 with
  | Ok g => g
  | Raise _ =>
      DnaSampleGenerator.Build 0 [] [] 0 0 0 false 0 0 false None 0 [] [] None
  end.

(** [DnaSequenceGenerator([a, b], sequence_length=4, kmer=2, batch_size=3,
    batches_per_epoch=2, augment=False, rng=...)]. *)
Definition plain_example_run : result DnaSequenceGenerator.t * (nat -> Z) :=
  DnaSequenceGenerator.init [sample_a; sample_b] 4 2 3 2 false false None 0
    (fun _ => 7).

Definition plain_example : DnaSequenceGenerator.t :=
  match plain_example_run.1 with
  | Ok g => g
  | Raise _ =>
      DnaSequenceGenerator.Build [] [] 0 0 0 false 0 0 false None 0 [] [] None
  end.

Lemma sequence_example_reachable : SequenceFacts.reachable sequence_example.
Proof.
  eapply (SequenceFacts.reach_init [sample_a; sample_b] 4 2 3 2 true true
            (Some SampleIds) 0 (fun _ => 7) sequence_example_run.2).
  by vm_compute.
Qed.

Lemma sample_example_built : SampleFacts.built sample_example.
Proof.
  eapply (SampleFacts.state_init [sample_a; sample_b] 2 4 2 3 2 true true
            (Some SampleIds) 0 (fun _ => 7) sample_example_run.2).
  by vm_compute.
Qed.

Lemma plain_example_reachable : SequenceFacts.reachable plain_example.
Proof.
  eapply (SequenceFacts.reach_init [sample_a; sample_b] 4 2 3 2 false false
            None 0 (fun _ => 7) plain_example_run.2).
  by vm_compute.
Qed.

Example sequence_example_first_batch :
  (DnaSequenceGenerator.getitem 0 (sequence_example_run.2, sequence_example)).1
  = Ok ([[12; 12; 12]; [23; 17; 11]; [18; 16; 8]], Some (SampleIdLabels [1; 0; 1])).
Proof. by vm_compute. Qed.

(** Without [augment], the same request is refused: the first slot's
    sequence is fetched, and the keyword call of [lambda *_: 0] raises. *)
Example plain_example_first_batch :
  DnaSequenceGenerator.getitem 0 (plain_example_run.2, plain_example)
  = (Raise TypeError, (plain_example_run.2, plain_example)).
Proof. by vm_compute. Qed.


(** ** The float64 product against the exact one *)

(** [int(u * n)] for a fraction [u = m / 2^e] of the unit interval and an
    integer [1 <= n < 2^53], against the floor of the exact product
    [m * n / 2^e]: float64 rounds the product to 53 bits, so the code's
    value is that floor or, when the product rounds up to the next
    integer, one more; it is the floor when the product needs no
    rounding. *)
Lemma unit_product_floor u n :
  in_unit u -> 1 <= n < 2 ^ 53 ->
  f_num u * n / 2 ^ f_exp u <= f64_trunc (f64_mul_int u n)
    <= f_num u * n / 2 ^ f_exp u + 1 /\
  (f_num u * n < 2 ^ 53 ->
   f64_trunc (f64_mul_int u n) = f_num u * n / 2 ^ f_exp u).
Proof.
  intros [Hm He] Hn. unfold f64_trunc, f64_mul_int. simpl.
  rewrite Z.sgn_pos, Z.abs_eq, Z.mul_1_l, (round53_small n) by lia.
  assert (Hpow : 2 ^ 53 <= 2 ^ f_exp u) by (apply Z.pow_le_mono_r; lia).
  set (p := f_num u * n).
  assert (Hp : 0 <= p) by (unfold p; nia).
  destruct (Z.ltb_spec p (2 ^ 53)) as [Hsmall|Hbig].
  { rewrite round53_small by done. rewrite Z.quot_div_nonneg by lia. lia. }
  destruct (round53_spec p Hbig) as (q & s & -> & Hs & Hq & Hps & Herr).
  assert (HS : 0 < 2 ^ s) by (apply Z.pow_pos_nonneg; lia).
  rewrite Z.quot_div_nonneg by nia.
  split; [|lia].
  pose proof (Z.mul_div_le p (2 ^ f_exp u) ltac:(lia)) as Hlo.
  pose proof (Z.mul_succ_div_gt p (2 ^ f_exp u) ltac:(lia)) as Hhi.
  assert (HF : 0 <= p / 2 ^ f_exp u < n).
  { split; [apply Z.div_pos; lia|].
    apply Z.div_lt_upper_bound; [lia|]. unfold p. nia. }
  assert (Hse : s <= f_exp u).
  { destruct (Z.le_gt_cases s (f_exp u)) as [|Hgt]; [done|exfalso].
    pose proof (pow2_step (f_exp u) s ltac:(lia) ltac:(lia)) as Hstep.
    change (2 ^ 53) with (2 * 2 ^ 52) in *.
    generalize dependent (p / 2 ^ f_exp u). intros F. intros.
    generalize dependent (2 ^ f_exp u). intros E. intros.
    generalize dependent (2 ^ s). intros W. intros.
    generalize dependent (2 ^ 52). intros T. intros. nia. }
  assert (HE : 2 ^ f_exp u = 2 ^ s * 2 ^ (f_exp u - s)).
  { rewrite <- Z.pow_add_r by lia. f_equal. lia. }
  assert (HK : 0 < 2 ^ (f_exp u - s)) by (apply Z.pow_pos_nonneg; lia).
  rewrite HE in *.
  generalize dependent (2 ^ (f_exp u - s)). intros K. intros.
  generalize dependent (2 ^ s). intros W. intros.
  clear Hq Hps Hpow Hbig HE.
  split.
  - apply Z.div_le_lower_bound; [nia|].
    generalize dependent (p / (W * K)). intros F. intros.
    assert (F * K <= q) by nia. nia.
  - enough (q * W / (W * K) < p / (W * K) + 2) by lia.
    apply Z.div_lt_upper_bound; [nia|].
    generalize dependent (p / (W * K)). intros F. intros.
    assert (q <= (F + 1) * K) by nia. nia.
Qed.

(** The product does round up to the next integer: for
    [u = 5404319552844595 / 2^53], the float64 below [0.6], and [n = 5],
    the code computes [int(u * 5) = 3] where the exact product is below
    3. *)
Example unit_product_rounds_up :
  let u := F64 5404319552844595 53 in
  f64_trunc (f64_mul_int u 5) = 3 /\ f_num u * 5 / 2 ^ f_exp u = 2 /\
  f_num u * 5 < 3 * 2 ^ f_exp u.
Proof. by vm_compute. Qed.

(** * The sampling engine *)

Section engine.
Context {S : Type} `{GeneratorSpec S}.

(** C4: the clip offset of a slot, in every state that [__init__] or
    [on_epoch_end] leaves, for a sequence at least as long as the window.
    With [augment], [augment_offset_fn] returns, as each class calls it,
    [int(u * (len(sequence) - sequence_length + 1))] for the slot's
    fraction [u] of the unit interval, read from the table
    [augment_offsets] that the last [shuffle] filled with one uniform
    draw: the offset lies in [[0, len(sequence) - sequence_length]], and
    against the exact product it is [floor(u * n)] or, when the float64
    product rounds up to the next integer, one more ([floor(u * n)] when
    the product needs no rounding).  Without [augment] the positional call
    of [DnaSampleGenerator.generate_batch] gets 0, and the keyword call of
    [DnaSequenceGenerator.generate_batch] raises [TypeError]: no offset
    is computed there. *)
Theorem clip_offset_within_sequence :
  (forall (g : DnaSequenceGenerator.t) (h : nat -> S) batch_index (i : nat)
          sequence_len,
      SequenceFacts.reachable g ->
      - Z.of_nat (DnaSequenceGenerator.batches_per_epoch g) <= batch_index
        < Z.of_nat (DnaSequenceGenerator.batches_per_epoch g) ->
      (i < DnaSequenceGenerator.batch_size g)%nat ->
      Z.of_nat (DnaSequenceGenerator.sequence_length g) <= sequence_len ->
      let n := sequence_len - Z.of_nat (DnaSequenceGenerator.sequence_length g) + 1 in
      (DnaSequenceGenerator.augment g = true ->
       exists (s : S) table u offset,
         DnaSequenceGenerator.augment_offsets g = Some table /\
         table = reshape (DnaSequenceGenerator.batches_per_epoch g)
                   (DnaSequenceGenerator.batch_size g)
                   (rng_uniform (DnaSequenceGenerator.batches_per_epoch g
                                 * DnaSequenceGenerator.batch_size g) s).1 /\
         np_index2 table (batch_index, Z.of_nat i) = Ok u /\ in_unit u /\
         DnaSequenceGenerator.augment_offset_fn Keyword sequence_len
           (batch_index, Z.of_nat i) (h, g) = (Ok offset, (h, g)) /\
         0 <= offset
           <= sequence_len - Z.of_nat (DnaSequenceGenerator.sequence_length g) /\
         (n < 2 ^ 53 ->
          f_num u * n / 2 ^ f_exp u <= offset <= f_num u * n / 2 ^ f_exp u + 1 /\
          (f_num u * n < 2 ^ 53 -> offset = f_num u * n / 2 ^ f_exp u))) /\
      (DnaSequenceGenerator.augment g = false ->
       DnaSequenceGenerator.augment_offset_fn Keyword sequence_len
         (batch_index, Z.of_nat i) (h, g) = (Raise TypeError, (h, g)) /\
       DnaSequenceGenerator.augment_offset_fn Positional sequence_len
         (batch_index, Z.of_nat i) (h, g) = (Ok 0, (h, g)))) /\
  (forall (g : DnaSampleGenerator.t) (h : nat -> S) batch_index (i j : nat)
          sequence_len,
      SampleFacts.reachable g ->
      - Z.of_nat (DnaSampleGenerator.batches_per_epoch g) <= batch_index
        < Z.of_nat (DnaSampleGenerator.batches_per_epoch g) ->
      (i < DnaSampleGenerator.batch_size g)%nat ->
      (j < DnaSampleGenerator.subsample_length g)%nat ->
      Z.of_nat (DnaSampleGenerator.sequence_length g) <= sequence_len ->
      let n := sequence_len - Z.of_nat (DnaSampleGenerator.sequence_length g) + 1 in
      (DnaSampleGenerator.augment g = true ->
       exists (s : S) table u offset,
         DnaSampleGenerator.augment_offsets g = Some table /\
         table = map (reshape (DnaSampleGenerator.batch_size g)
                        (DnaSampleGenerator.subsample_length g))
                   (reshape (DnaSampleGenerator.batches_per_epoch g)
                      (DnaSampleGenerator.batch_size g
                       * DnaSampleGenerator.subsample_length g)
                      (rng_uniform (DnaSampleGenerator.batches_per_epoch g
                                    * DnaSampleGenerator.batch_size g
                                    * DnaSampleGenerator.subsample_length g) s).1) /\
         np_index3 table (batch_index, Z.of_nat i, Z.of_nat j) = Ok u /\
         in_unit u /\
         DnaSampleGenerator.augment_offset_fn Positional sequence_len
           (batch_index, Z.of_nat i, Z.of_nat j) (h, g) = (Ok offset, (h, g)) /\
         0 <= offset
           <= sequence_len - Z.of_nat (DnaSampleGenerator.sequence_length g) /\
         (n < 2 ^ 53 ->
          f_num u * n / 2 ^ f_exp u <= offset <= f_num u * n / 2 ^ f_exp u + 1 /\
          (f_num u * n < 2 ^ 53 -> offset = f_num u * n / 2 ^ f_exp u))) /\
      (DnaSampleGenerator.augment g = false ->
       DnaSampleGenerator.augment_offset_fn Positional sequence_len
         (batch_index, Z.of_nat i, Z.of_nat j) (h, g) = (Ok 0, (h, g)))).
Proof.
  split.
  - intros g h b i len Hg Hb Hi Hlen n.
    pose proof (SequenceFacts.seq_offset_eval g h Keyword b i len Hg Hb Hi) as Hkw.
    pose proof (SequenceFacts.seq_offset_eval g h Positional b i len Hg Hb Hi) as Hpos.
    split; intros Haug; rewrite Haug in Hkw, Hpos; [|done].
    destruct Hkw as (table & u & Ht & Hu & Hin & Hrun).
    apply SequenceFacts.seq_reachable_inv in Hg as (_ & (_ & _ & _ & Hdrawn) & _).
    destruct (Hdrawn Haug) as (s & Hs).
    exists s, table, u, (augmented_offset u len (DnaSequenceGenerator.sequence_length g)).
    split; [done|]. split; [congruence|]. split; [done|]. split; [done|].
    split; [done|]. unfold augmented_offset. fold n.
    pose proof (unit_product_trunc u n Hin ltac:(lia)) as [_ Hrange].
    split; [lia|]. intros Hn. apply unit_product_floor; [done | lia].
  - intros g h b i j len Hg Hb Hi Hj Hlen n.
    destruct (SampleFacts.grp_offset_eval g h b i j len Hg Hb Hi Hj)
      as (offset & Hrun & Hoff & Hon).
    split; intros Haug; [|by rewrite <- (Hoff Haug)].
    destruct (Hon Haug) as (table & u & Ht & Hu & Hin & Heq).
    apply SampleFacts.grp_reachable_inv in Hg as (_ & _ & _ & Hdrawn).
    destruct (Hdrawn Haug) as (s & Hs).
    exists s, table, u, offset.
    split; [done|]. split; [congruence|]. split; [done|]. split; [done|].
    split; [done|]. subst offset. unfold augmented_offset. fold n.
    pose proof (unit_product_trunc u n Hin ltac:(lia)) as [_ Hrange].
    split; [lia|]. intros Hn. apply unit_product_floor; [done | lia].
Qed.


(** C6: in [DnaSampleGenerator], once the tables of an epoch are built
    and the effective lengths fit the int32 table of keys, every slot
    [(b, i)] holds [subsample_length] keys that are pairwise distinct
    and lie in the effective index range of the slot's archive. *)
Theorem group_keys_distinct (g : DnaSampleGenerator.t) :
  SampleFacts.built g ->
  Forall (fun n => n <= 2 ^ 31) (DnaSampleGenerator.sample_lengths g) ->
  forall b i, (b < DnaSampleGenerator.batches_per_epoch g)%nat ->
              (i < DnaSampleGenerator.batch_size g)%nat ->
              exists a len row,
                cell (DnaSampleGenerator.sample_indices g) b i = Some a /\
                np_index (DnaSampleGenerator.sample_lengths g) a = Ok len /\
                cell (DnaSampleGenerator.sequence_indices g) b i = Some row /\
                length row = DnaSampleGenerator.subsample_length g /\
                NoDup row /\ Forall (fun key => 0 <= key < len) row.
Proof.
  intros Hg Hfit b i Hb Hi.
  pose proof (SampleFacts.built_inv g Hg) as (_ & _ & Hk).
  destruct (Hk b i Hb Hi) as (a & len & keys & Ha & Hlen & Hrow & _).
  exists a, len, (map wrap32 keys). split; [done|]. split; [done|].
  split; [done|]. by eapply SampleFacts.group_keys.
Qed.
End engine.

Lemma to_kmers_most_significant_first_witness :
  (forall out, to_kmers 3 [1; 2; 3; 4] = Ok out ->
               Forall (fun code => 0 <= code < 5 ^ Z.of_nat 3) out) /\
  ((3 <= length [1; 2; 3; 4])%nat ->
   exists out, to_kmers 3 [1; 2; 3; 4] = Ok out /\
     length out = (length [1; 2; 3; 4] - 3 + 1)%nat /\
     forall i, (i + 3 <= length [1; 2; 3; 4])%nat ->
               out !! i = Some (dot (rev (weights 3)) (take 3 (drop i [1; 2; 3; 4])))).
Proof.
  apply (to_kmers_most_significant_first 3 [1; 2; 3; 4]).
  - lia.
  - repeat constructor; unfold base_code; lia.
Defined.

Lemma clip_offset_within_sequence_witness :
  (exists offset,
      DnaSequenceGenerator.augment_offset_fn Keyword 6 (1, Z.of_nat 1)
        (fun _ => 0, sequence_example) = (Ok offset, (fun _ => 0, sequence_example)) /\
      0 <= offset <= 6 - Z.of_nat (DnaSequenceGenerator.sequence_length sequence_example) /\
      offset = 2) /\
  DnaSequenceGenerator.augment_offset_fn Keyword 6 (1, Z.of_nat 1)
    (fun _ => 0, plain_example) = (Raise TypeError, (fun _ => 0, plain_example)).
Proof.
  destruct (clip_offset_within_sequence (S := Z)) as [Hseq _]. split.
  - destruct (Hseq sequence_example (fun _ => 0) 1 1%nat 6
                sequence_example_reachable) as [Hon _].
    + by vm_compute.
    + vm_compute. lia.
    + by vm_compute.
    + destruct Hon as (s & table & u & offset & _ & _ & _ & _ & Hrun & Hrange & _);
        [by vm_compute|].
      exists offset. split; [done|]. split; [done|].
      vm_compute in Hrun. by injection Hrun as <-.
  - destruct (Hseq plain_example (fun _ => 0) 1 1%nat 6
                plain_example_reachable) as [_ Hoff].
    + by vm_compute.
    + vm_compute. lia.
    + by vm_compute.
    + by destruct (Hoff eq_refl) as [Hrun _].
Defined.


Lemma group_keys_distinct_witness :
  exists a len row,
    cell (DnaSampleGenerator.sample_indices sample_example) 1 2 = Some a /\
    np_index (DnaSampleGenerator.sample_lengths sample_example) a = Ok len /\
    cell (DnaSampleGenerator.sequence_indices sample_example) 1 2 = Some row /\
    length row = DnaSampleGenerator.subsample_length sample_example /\
    NoDup row /\ Forall (fun key => 0 <= key < len) row.
Proof.
  apply (group_keys_distinct (S := Z) sample_example sample_example_built).
  - replace (DnaSampleGenerator.sample_lengths sample_example) with [2; 2]
      by (by vm_compute).
    repeat constructor; lia.
  - vm_compute. lia.
  - vm_compute. lia.
Defined.

(** The claim of an index error outside [0 <= batch_index <
    batches_per_epoch] fails at [batch_index = -1]: on a generator of two
    batches per epoch, [__getitem__(-1)] returns the last batch. *)
Lemma getitem_minus_one_served :
  DnaSequenceGenerator.batches_per_epoch sequence_example = 2%nat /\
  ~ (0 <= -1 < 2) /\
  (DnaSequenceGenerator.getitem (-1) (fun _ => 0, sequence_example)).1
  = Ok ([[13; 19; 20]; [12; 12; 12]; [23; 17; 11]], Some (SampleIdLabels [0; 1; 0])) /\
  (DnaSequenceGenerator.getitem 1 (fun _ => 0, sequence_example)).1
  = Ok ([[13; 19; 20]; [12; 12; 12]; [23; 17; 11]], Some (SampleIdLabels [0; 1; 0])).
Proof.
  split; [by vm_compute|]. split; [lia|]. split; by vm_compute.
Qed.

Section engine_requests.
Context {S : Type} `{GeneratorSpec S}.

(** C7 (amended): in a generator of either class, [__getitem__] raises
    [IndexError] for every [batch_index >= batches_per_epoch] and every
    [batch_index < -batches_per_epoch]; for
    [-batches_per_epoch <= batch_index < batches_per_epoch] it raises no
    [IndexError] (only a data error, [KeyError] or [ValueError], or, in
    [DnaSequenceGenerator] without [augment], the [TypeError] of the
    keyword call of [augment_offset_fn]), and a negative index of that
    range is served as [batch_index + batches_per_epoch]. *)
Theorem getitem_index_error_range :
  (forall (g : DnaSequenceGenerator.t) (h : nat -> S) batch_index,
      SequenceFacts.reachable g ->
      let rows := Z.of_nat (DnaSequenceGenerator.batches_per_epoch g) in
      (batch_index < - rows \/ rows <= batch_index ->
       DnaSequenceGenerator.getitem batch_index (h, g)
       = (Raise IndexError, (h, g))) /\
      (- rows <= batch_index < rows ->
       forall e, (DnaSequenceGenerator.getitem batch_index (h, g)).1 = Raise e ->
                 e = KeyError \/ e = ValueError \/
                 (e = TypeError /\ DnaSequenceGenerator.augment g = false)) /\
      (- rows <= batch_index < 0 ->
       DnaSequenceGenerator.getitem batch_index (h, g)
       = DnaSequenceGenerator.getitem (batch_index + rows) (h, g))) /\
  (forall (g : DnaSampleGenerator.t) (h : nat -> S) batch_index,
      SampleFacts.reachable g ->
      let rows := Z.of_nat (DnaSampleGenerator.batches_per_epoch g) in
      (batch_index < - rows \/ rows <= batch_index ->
       DnaSampleGenerator.getitem batch_index (h, g)
       = (Raise IndexError, (h, g))) /\
      (- rows <= batch_index < rows ->
       forall e, (DnaSampleGenerator.getitem batch_index (h, g)).1 = Raise e ->
                 e = KeyError \/ e = ValueError) /\
      (- rows <= batch_index < 0 ->
       DnaSampleGenerator.getitem batch_index (h, g)
       = DnaSampleGenerator.getitem (batch_index + rows) (h, g))).
Proof.
  split; intros g h b Hg rows; subst rows.
  - split; [by apply SequenceFacts.seq_getitem_out_of_range|].
    split; [|by apply SequenceFacts.seq_getitem_negative].
    intros Hb e He.
    destruct (SequenceFacts.seq_getitem_raises g h b Hg Hb e He)
      as [[->| ->]|[-> Haug]]; auto.
  - split; [by apply SampleFacts.grp_getitem_out_of_range|].
    split; [|by apply SampleFacts.grp_getitem_negative].
    intros Hb e He. by apply (SampleFacts.grp_getitem_raises g h b Hg Hb e).
Qed.
End engine_requests.

Lemma getitem_index_error_range_witness :
  DnaSequenceGenerator.getitem 2 (fun _ => 0, sequence_example)
  = (Raise IndexError, (fun _ => 0, sequence_example)).
Proof.
  destruct (getitem_index_error_range (S := Z)) as [Hseq _].
  destruct (Hseq sequence_example (fun _ => 0) 2 sequence_example_reachable)
    as (Hout & _ & _).
  apply Hout. right. by vm_compute.
Defined.

(** ** Extents of the batches *)

Lemma kmer_row_total (S Self : Type) (window k : nat) (sequence : list Z)
      (st : (nat -> S) * Self) :
  length sequence = window -> (1 <= k <= window)%nat ->
  exists row,
    ((codes ← lift (to_kmers k sequence);
      row ← lift (assign_row (Z.to_nat (Z.of_nat window - Z.of_nat k + 1)) codes);
      mret (map f64_of_int row)) : M S Self (list Z)) st = (Ok row, st) /\
    length row = (window - k + 1)%nat.
Proof.
  intros Hlen Hk.
  destruct (to_kmers_length k sequence ltac:(lia)) as (out & Hout & Hl).
  exists (map f64_of_int out).
  unfold mbind, M_bind, lift. simpl. rewrite Hout. simpl.
  rewrite assign_row_same by lia. split; [done|].
  rewrite length_map. lia.
Qed.

Lemma kmer_row_shape (S Self : Type) (window k : nat) (sequence row : list Z)
      (st st' : (nat -> S) * Self) :
  ((codes ← lift (to_kmers k sequence);
    row ← lift (assign_row (Z.to_nat (Z.of_nat window - Z.of_nat k + 1)) codes);
    mret (map f64_of_int row)) : M S Self (list Z)) st = (Ok row, st') ->
  length row = Z.to_nat (Z.of_nat window - Z.of_nat k + 1).
Proof.
  unfold mbind, M_bind, lift. simpl.
  destruct (to_kmers k sequence) as [codes|]; [|done]. simpl.
  destruct (assign_row _ codes) as [r|] eqn:Hr; [|done]. simpl.
  intros [= <- _]. rewrite length_map. by apply assign_row_ok in Hr.
Qed.

Section batch_extents.
Context {S : Type} `{Generator S}.

Lemma sequence_batch_to_kmers_shape (st st' : (nat -> S) * DnaSequenceGenerator.t) b x :
  DnaSequenceGenerator.batch_to_kmers b st = (Ok x, st') ->
  length x = length b /\
  Forall (fun row => length row
                     = Z.to_nat (Z.of_nat (DnaSequenceGenerator.sequence_length st.2)
                                 - Z.of_nat (DnaSequenceGenerator.kmer st.2) + 1)) x.
Proof.
  unfold DnaSequenceGenerator.batch_to_kmers.
  intros (window & st1 & [= <- <-] & Hrun)%bind_ok_inv.
  apply bind_ok_inv in Hrun as (k & st1 & [= <- <-] & Hrun).
  destruct (_ <? 0); [done|].
  apply mapM_readonly_ok in Hrun as [_ Hall]; [|intros; readonly].
  split; [by apply Forall2_length in Hall|].
  induction Hall as [|sequence row b x Hrow _ IH]; [done|].
  constructor; [|done].
  match type of Hrow with
  | (?m st).1 = _ => destruct (m st) as [r st2] eqn:Hm
  end.
  simpl in Hrow. subst r. by eapply kmer_row_shape.
Qed.

Lemma sequence_batch_to_kmers_total (st : (nat -> S) * DnaSequenceGenerator.t) b :
  Forall (fun row => length row = DnaSequenceGenerator.sequence_length st.2) b ->
  (1 <= DnaSequenceGenerator.kmer st.2 <= DnaSequenceGenerator.sequence_length st.2)%nat ->
  exists x, DnaSequenceGenerator.batch_to_kmers b st = (Ok x, st).
Proof.
  intros Hrows Hk. unfold DnaSequenceGenerator.batch_to_kmers.
  unfold mbind at 1 2, M_bind at 1 2, gets. simpl.
  destruct (Z.ltb_spec (Z.of_nat (DnaSequenceGenerator.sequence_length st.2)
                        - Z.of_nat (DnaSequenceGenerator.kmer st.2) + 1) 0); [lia|].
  match goal with
  | |- exists x, mapM ?f b st = _ =>
      destruct (mapM_readonly_total f b st) as (x & Hx & _)
  end.
  - intros; readonly.
  - intros sequence Hin. rewrite Forall_forall in Hrows.
    destruct (kmer_row_total S DnaSequenceGenerator.t _ _ sequence st
                (Hrows _ ltac:(by apply list_elem_of_In)) Hk) as (row & Hrow & _).
    exists row. by rewrite Hrow.
  - by exists x.
Qed.

Lemma sequence_generate_batch_shape (st st' : (nat -> S) * DnaSequenceGenerator.t)
      batch_index b :
  DnaSequenceGenerator.generate_batch batch_index st = (Ok b, st') ->
  length b = DnaSequenceGenerator.batch_size st.2 /\
  Forall (fun row => length row = DnaSequenceGenerator.sequence_length st.2) b.
Proof.
  unfold DnaSequenceGenerator.generate_batch.
  intros (rows1 & st1 & [= <- <-] & Hrun)%bind_ok_inv.
  apply bind_ok_inv in Hrun as (srow & st1 & Hs & Hrun).
  injection Hs as _ <-.
  apply bind_ok_inv in Hrun as (rows2 & st1 & [= <- <-] & Hrun).
  apply bind_ok_inv in Hrun as (qrow & st1 & Hq & Hrun).
  injection Hq as _ <-.
  apply bind_ok_inv in Hrun as (cols & st1 & [= <- <-] & Hrun).
  apply bind_ok_inv in Hrun as (window & st1 & [= <- <-] & Hrun).
  apply mapM_readonly_ok in Hrun as [_ Hall]; [|intros; readonly].
  split; [apply Forall2_length in Hall; by rewrite length_seq in Hall|].
  induction Hall as [|i row l b Hrow _ IH]; [done|].
  constructor; [|done].
  match type of Hrow with
  | (?m st).1 = _ => destruct (m st) as [r st2] eqn:Hm
  end.
  simpl in Hrow. subst r.
  apply bind_ok_inv in Hm as (a & st1 & _ & Hm).
  apply bind_ok_inv in Hm as (archives & st3 & _ & Hm).
  apply bind_ok_inv in Hm as (sample & st4 & _ & Hm).
  apply bind_ok_inv in Hm as (key & st5 & _ & Hm).
  apply bind_ok_inv in Hm as (sequence & st6 & _ & Hm).
  apply bind_ok_inv in Hm as (offset & st7 & _ & Hm).
  unfold lift in Hm. injection Hm as Hm _. by apply assign_row_ok in Hm.
Qed.

Lemma sequence_getitem_shape (st st' : (nat -> S) * DnaSequenceGenerator.t)
      batch_index x label :
  DnaSequenceGenerator.getitem batch_index st = (Ok (x, label), st') ->
  length x = DnaSequenceGenerator.batch_size st.2 /\
  Forall (fun row => length row
                     = Z.to_nat (Z.of_nat (DnaSequenceGenerator.sequence_length st.2)
                                 - Z.of_nat (DnaSequenceGenerator.kmer st.2) + 1)) x.
Proof.
  unfold DnaSequenceGenerator.getitem.
  intros (b & st1 & Hb & Hrun)%bind_ok_inv.
  pose proof (sequence_generate_batch_readonly batch_index st) as Hst.
  rewrite Hb in Hst. simpl in Hst. subst st1.
  apply sequence_generate_batch_shape in Hb as [Hlen _].
  unfold DnaSequenceGenerator.post_process_batch in Hrun.
  apply bind_ok_inv in Hrun as (mode & st1 & [= <- <-] & Hrun).
  assert (Hx : exists st2, DnaSequenceGenerator.batch_to_kmers b st = (Ok x, st2)).
  { destruct (DnaSequenceGenerator.labels st.2) as [[]|];
      apply bind_ok_inv in Hrun as (x' & st2 & Hx & Hrun).
    - apply bind_ok_inv in Hrun as (rows & st3 & _ & Hrun).
      apply bind_ok_inv in Hrun as (ids & st4 & _ & Hrun).
      injection Hrun as <- _ _. by exists st2.
    - injection Hrun as <- _ _. by exists st2.
    - injection Hrun as <- _ _. by exists st2.
    - injection Hrun as <- _ _. by exists st2. }
  destruct Hx as [st2 Hx].
  apply sequence_batch_to_kmers_shape in Hx as [Hl Hrows].
  split; [congruence | done].
Qed.
End batch_extents.

Section group_extents.
Context {S : Type} `{Generator S}.

Lemma sample_super_batch_to_kmers_shape (st st' : (nat -> S) * DnaSampleGenerator.t) b x :
  DnaSampleGenerator.super_batch_to_kmers b st = (Ok x, st') ->
  length x = length b /\
  Forall (fun row => length row
                     = Z.to_nat (Z.of_nat (DnaSampleGenerator.sequence_length st.2)
                                 - Z.of_nat (DnaSampleGenerator.kmer st.2) + 1)) x.
Proof.
  unfold DnaSampleGenerator.super_batch_to_kmers.
  intros (window & st1 & [= <- <-] & Hrun)%bind_ok_inv.
  apply bind_ok_inv in Hrun as (k & st1 & [= <- <-] & Hrun).
  destruct (_ <? 0); [done|].
  apply mapM_readonly_ok in Hrun as [_ Hall]; [|intros; readonly].
  split; [by apply Forall2_length in Hall|].
  induction Hall as [|sequence row b x Hrow _ IH]; [done|].
  constructor; [|done].
  match type of Hrow with
  | (?m st).1 = _ => destruct (m st) as [r st2] eqn:Hm
  end.
  simpl in Hrow. subst r. by eapply kmer_row_shape.
Qed.

Lemma sample_super_batch_to_kmers_total (st : (nat -> S) * DnaSampleGenerator.t) b :
  Forall (fun row => length row = DnaSampleGenerator.sequence_length st.2) b ->
  (1 <= DnaSampleGenerator.kmer st.2 <= DnaSampleGenerator.sequence_length st.2)%nat ->
  exists x, DnaSampleGenerator.super_batch_to_kmers b st = (Ok x, st).
Proof.
  intros Hrows Hk. unfold DnaSampleGenerator.super_batch_to_kmers.
  unfold mbind at 1 2, M_bind at 1 2, gets. simpl.
  destruct (Z.ltb_spec (Z.of_nat (DnaSampleGenerator.sequence_length st.2)
                        - Z.of_nat (DnaSampleGenerator.kmer st.2) + 1) 0); [lia|].
  match goal with
  | |- exists x, mapM ?f b st = _ =>
      destruct (mapM_readonly_total f b st) as (x & Hx & _)
  end.
  - intros; readonly.
  - intros sequence Hin. rewrite Forall_forall in Hrows.
    destruct (kmer_row_total S DnaSampleGenerator.t _ _ sequence st
                (Hrows _ ltac:(by apply list_elem_of_In)) Hk) as (row & Hrow & _).
    exists row. by rewrite Hrow.
  - by exists x.
Qed.

(** The extents of a group of windows, and of its k-mer codes. *)
Definition group_extent (group cols : nat) (sub : list (list Z)) : Prop :=
  length sub = group /\ Forall (fun row => length row = cols) sub.

Lemma sample_batch_to_kmers_shape (st st' : (nat -> S) * DnaSampleGenerator.t) b x :
  DnaSampleGenerator.batch_to_kmers b st = (Ok x, st') ->
  length x = length b /\
  Forall (group_extent (DnaSampleGenerator.subsample_length st.2)
            (Z.to_nat (Z.of_nat (DnaSampleGenerator.sequence_length st.2)
                       - Z.of_nat (DnaSampleGenerator.kmer st.2) + 1))) x.
Proof.
  unfold DnaSampleGenerator.batch_to_kmers.
  intros (window & st1 & [= <- <-] & Hrun)%bind_ok_inv.
  apply bind_ok_inv in Hrun as (k & st1 & [= <- <-] & Hrun).
  apply bind_ok_inv in Hrun as (group & st1 & [= <- <-] & Hrun).
  destruct (_ <? 0); [done|].
  apply mapM_readonly_ok in Hrun as [_ Hall];
    [|intros; apply readonly_bind;
      [apply sample_super_batch_to_kmers_readonly | intros; readonly]].
  split; [by apply Forall2_length in Hall|].
  induction Hall as [|sub rows b x Hrow _ IH]; [done|].
  constructor; [|done].
  match type of Hrow with
  | (?m st).1 = _ => destruct (m st) as [r st2] eqn:Hm
  end.
  simpl in Hrow. subst r.
  apply bind_ok_inv in Hm as (codes & st3 & Hsuper & Hassign).
  pose proof (sample_super_batch_to_kmers_readonly sub st) as Hst.
  rewrite Hsuper in Hst. simpl in Hst. subst st3.
  apply sample_super_batch_to_kmers_shape in Hsuper as [_ Hcodes].
  unfold lift in Hassign. injection Hassign as Hassign _.
  split; [by apply assign_row_ok in Hassign|].
  unfold assign_row in Hassign. destruct (decide _); [congruence|].
  destruct codes as [|c [|c' codes]]; try done.
  injection Hassign as <-. inversion Hcodes; subst.
  apply Forall_forall. intros row Hin.
  by apply list_elem_of_In, elem_of_replicate in Hin as [-> _].
Qed.

Lemma sample_batch_to_kmers_total (st : (nat -> S) * DnaSampleGenerator.t) b :
  Forall (group_extent (DnaSampleGenerator.subsample_length st.2)
            (DnaSampleGenerator.sequence_length st.2)) b ->
  (1 <= DnaSampleGenerator.kmer st.2 <= DnaSampleGenerator.sequence_length st.2)%nat ->
  exists x, DnaSampleGenerator.batch_to_kmers b st = (Ok x, st).
Proof.
  intros Hsubs Hk. unfold DnaSampleGenerator.batch_to_kmers.
  unfold mbind at 1 2 3, M_bind at 1 2 3, gets. simpl.
  destruct (Z.ltb_spec (Z.of_nat (DnaSampleGenerator.sequence_length st.2)
                        - Z.of_nat (DnaSampleGenerator.kmer st.2) + 1) 0); [lia|].
  match goal with
  | |- exists x, mapM ?f b st = _ =>
      destruct (mapM_readonly_total f b st) as (x & Hx & _)
  end.
  - intros; apply readonly_bind;
      [apply sample_super_batch_to_kmers_readonly | intros; readonly].
  - intros sub Hin. rewrite Forall_forall in Hsubs.
    destruct (Hsubs sub ltac:(by apply list_elem_of_In)) as [Hlen Hrows].
    destruct (sample_super_batch_to_kmers_total st sub Hrows Hk) as (codes & Hcodes).
    pose proof Hcodes as Hshape.
    apply sample_super_batch_to_kmers_shape in Hshape as [Hl _].
    exists codes. erewrite bind_run; [|exact Hcodes].
    unfold lift. simpl. rewrite assign_row_same by lia. done.
  - by exists x.
Qed.

Lemma sample_generate_batch_shape (st st' : (nat -> S) * DnaSampleGenerator.t)
      batch_index b :
  DnaSampleGenerator.generate_batch batch_index st = (Ok b, st') ->
  length b = DnaSampleGenerator.batch_size st.2 /\
  Forall (group_extent (DnaSampleGenerator.subsample_length st.2)
            (DnaSampleGenerator.sequence_length st.2)) b.
Proof.
  unfold DnaSampleGenerator.generate_batch.
  intros (rows1 & st1 & [= <- <-] & Hrun)%bind_ok_inv.
  apply bind_ok_inv in Hrun as (srow & st1 & Hs & Hrun).
  injection Hs as _ <-.
  apply bind_ok_inv in Hrun as (rows2 & st1 & [= <- <-] & Hrun).
  apply bind_ok_inv in Hrun as (plane & st1 & Hq & Hrun).
  injection Hq as _ <-.
  apply bind_ok_inv in Hrun as (cols & st1 & [= <- <-] & Hrun).
  apply bind_ok_inv in Hrun as (group & st1 & [= <- <-] & Hrun).
  apply bind_ok_inv in Hrun as (window & st1 & [= <- <-] & Hrun).
  apply mapM_readonly_ok in Hrun as [_ Hall]; [|intros; readonly].
  split; [apply Forall2_length in Hall; by rewrite length_seq in Hall|].
  induction Hall as [|i sub l b Hsub _ IH]; [done|].
  constructor; [|done].
  match type of Hsub with
  | (?m st).1 = _ => destruct (m st) as [r st2] eqn:Hm
  end.
  simpl in Hsub. subst r.
  apply bind_ok_inv in Hm as (a & st1 & Ha & Hm). injection Ha as _ <-.
  apply bind_ok_inv in Hm as (archives & st3 & [= <- <-] & Hm).
  apply bind_ok_inv in Hm as (sample & st4 & Hsa & Hm). injection Hsa as _ <-.
  apply mapM_readonly_ok in Hm as [_ Hrows]; [|intros; readonly].
  split; [apply Forall2_length in Hrows; by rewrite length_seq in Hrows|].
  clear IH. induction Hrows as [|j row l' sub Hrow _ IH]; [done|].
  constructor; [|done].
  match type of Hrow with
  | (?m st).1 = _ => destruct (m st) as [r st2'] eqn:Hm
  end.
  simpl in Hrow. subst r.
  apply bind_ok_inv in Hm as (key & st5 & _ & Hm).
  apply bind_ok_inv in Hm as (sequence & st6 & _ & Hm).
  apply bind_ok_inv in Hm as (offset & st7 & _ & Hm).
  unfold lift in Hm. injection Hm as Hm _. by apply assign_row_ok in Hm.
Qed.

Lemma sample_getitem_shape (st st' : (nat -> S) * DnaSampleGenerator.t)
      batch_index x label :
  DnaSampleGenerator.getitem batch_index st = (Ok (x, label), st') ->
  length x = DnaSampleGenerator.batch_size st.2 /\
  Forall (group_extent (DnaSampleGenerator.subsample_length st.2)
            (Z.to_nat (Z.of_nat (DnaSampleGenerator.sequence_length st.2)
                       - Z.of_nat (DnaSampleGenerator.kmer st.2) + 1))) x.
Proof.
  unfold DnaSampleGenerator.getitem.
  intros (b & st1 & Hb & Hrun)%bind_ok_inv.
  pose proof (sample_generate_batch_readonly batch_index st) as Hst.
  rewrite Hb in Hst. simpl in Hst. subst st1.
  apply sample_generate_batch_shape in Hb as [Hlen _].
  unfold DnaSampleGenerator.post_process_batch in Hrun.
  apply bind_ok_inv in Hrun as (mode & st1 & [= <- <-] & Hrun).
  assert (Hx : exists st2, DnaSampleGenerator.batch_to_kmers b st = (Ok x, st2)).
  { destruct (DnaSampleGenerator.labels st.2) as [[]|];
      apply bind_ok_inv in Hrun as (x' & st2 & Hx & Hrun).
    - apply bind_ok_inv in Hrun as (rows & st3 & _ & Hrun).
      apply bind_ok_inv in Hrun as (ids & st4 & _ & Hrun).
      injection Hrun as <- _ _. by exists st2.
    - injection Hrun as <- _ _. by exists st2.
    - injection Hrun as <- _ _. by exists st2.
    - injection Hrun as <- _ _. by exists st2. }
  destruct Hx as [st2 Hx].
  apply sample_batch_to_kmers_shape in Hx as [Hl Hrows].
  split; [congruence | done].
Qed.

(** C9: for [1 <= k <= window_length] the encoder returns
    [window_length - k + 1] codes; for [k = 1] it returns the window
    itself; an all-zero window gives all-zero codes; and the features that
    [__getitem__] returns have the extents
    [(batch_size, window_length - k + 1)] in [DnaSequenceGenerator] and
    [(batch_size, subsample_length, window_length - k + 1)] in
    [DnaSampleGenerator], [batch_to_kmers] returning on every batch of
    windows of the generator's [sequence_length]. *)
Theorem kmer_encoder_extents :
  (forall k window,
      (1 <= k <= length window)%nat ->
      exists out, to_kmers k window = Ok out /\
                  length out = (length window - k + 1)%nat) /\
  (forall window, to_kmers 1 window = Ok window) /\
  (forall k n, (1 <= k <= n)%nat ->
               to_kmers k (replicate n 0) = Ok (replicate (n - k + 1) 0)) /\
  (forall (st : (nat -> S) * DnaSequenceGenerator.t) b,
      (1 <= DnaSequenceGenerator.kmer st.2
       <= DnaSequenceGenerator.sequence_length st.2)%nat ->
      Forall (fun row => length row = DnaSequenceGenerator.sequence_length st.2) b ->
      exists x, DnaSequenceGenerator.batch_to_kmers b st = (Ok x, st) /\
                length x = length b /\
                Forall (fun row =>
                          length row
                          = (DnaSequenceGenerator.sequence_length st.2
                             - DnaSequenceGenerator.kmer st.2 + 1)%nat) x) /\
  (forall (st st' : (nat -> S) * DnaSequenceGenerator.t) batch_index x label,
      (1 <= DnaSequenceGenerator.kmer st.2
       <= DnaSequenceGenerator.sequence_length st.2)%nat ->
      DnaSequenceGenerator.getitem batch_index st = (Ok (x, label), st') ->
      length x = DnaSequenceGenerator.batch_size st.2 /\
      Forall (fun row =>
                length row
                = (DnaSequenceGenerator.sequence_length st.2
                   - DnaSequenceGenerator.kmer st.2 + 1)%nat) x) /\
  (forall (st : (nat -> S) * DnaSampleGenerator.t) b,
      (1 <= DnaSampleGenerator.kmer st.2
       <= DnaSampleGenerator.sequence_length st.2)%nat ->
      Forall (group_extent (DnaSampleGenerator.subsample_length st.2)
                (DnaSampleGenerator.sequence_length st.2)) b ->
      exists x, DnaSampleGenerator.batch_to_kmers b st = (Ok x, st) /\
                length x = length b /\
                Forall (group_extent (DnaSampleGenerator.subsample_length st.2)
                          (DnaSampleGenerator.sequence_length st.2
                           - DnaSampleGenerator.kmer st.2 + 1)) x) /\
  (forall (st st' : (nat -> S) * DnaSampleGenerator.t) batch_index x label,
      (1 <= DnaSampleGenerator.kmer st.2
       <= DnaSampleGenerator.sequence_length st.2)%nat ->
      DnaSampleGenerator.getitem batch_index st = (Ok (x, label), st') ->
      length x = DnaSampleGenerator.batch_size st.2 /\
      Forall (group_extent (DnaSampleGenerator.subsample_length st.2)
                (DnaSampleGenerator.sequence_length st.2
                 - DnaSampleGenerator.kmer st.2 + 1)) x).
Proof.
  split; [exact to_kmers_length|]. split; [done|]. split; [exact to_kmers_zeros|].
  assert (En : forall window k : nat, (1 <= k <= window)%nat ->
             Z.to_nat (Z.of_nat window - Z.of_nat k + 1) = (window - k + 1)%nat)
    by (intros; lia).
  split; [|split; [|split]].
  - intros st b Hk Hrows.
    destruct (sequence_batch_to_kmers_total st b Hrows Hk) as (x & Hx).
    exists x. split; [done|].
    apply sequence_batch_to_kmers_shape in Hx. by rewrite En in Hx.
  - intros st st' i x label Hk Hrun.
    apply sequence_getitem_shape in Hrun. by rewrite En in Hrun.
  - intros st b Hk Hsubs.
    destruct (sample_batch_to_kmers_total st b Hsubs Hk) as (x & Hx).
    exists x. split; [done|].
    apply sample_batch_to_kmers_shape in Hx. by rewrite En in Hx.
  - intros st st' i x label Hk Hrun.
    apply sample_getitem_shape in Hrun. by rewrite En in Hrun.
Qed.
End group_extents.

Lemma kmer_encoder_extents_witness :
  (exists out, to_kmers 2 [1; 2; 3; 4] = Ok out /\
               length out = (length [1; 2; 3; 4] - 2 + 1)%nat) /\
  to_kmers 2 (replicate 4 0) = Ok (replicate (4 - 2 + 1) 0) /\
  (exists x,
      DnaSequenceGenerator.batch_to_kmers [[1; 2; 3; 4]; [0; 0; 0; 0]]
        (fun _ => 7, sequence_example) = (Ok x, (fun _ => 7, sequence_example)) /\
      length x = length [[1; 2; 3; 4]; [0; 0; 0; 0]] /\
      Forall (fun row =>
                length row
                = (DnaSequenceGenerator.sequence_length sequence_example
                   - DnaSequenceGenerator.kmer sequence_example + 1)%nat) x).
Proof.
  destruct (kmer_encoder_extents (S := Z)) as (Hlen & _ & Hzero & Hbatch & _).
  split; [apply Hlen; simpl; lia|].
  split; [apply Hzero; lia|].
  apply (Hbatch (fun _ => 7, sequence_example) [[1; 2; 3; 4]; [0; 0; 0; 0]]).
  - vm_compute. lia.
  - repeat constructor.
Defined.

(** ** random_subsamples *)

Section loops.
Context {S Self : Type}.

Lemma mapM_head_raise {A B} (f : A -> M S Self B) x l st e st' :
  f x st = (Raise e, st') -> mapM f (x :: l) st = (Raise e, st').
Proof.
  intros Hx.
  change (mapM f (x :: l)) with (f x ≫= fun y => mapM f l ≫= fun ys => mret (y :: ys)).
  by apply bind_raise.
Qed.

Lemma mapM_head_run {A B} (f : A -> M S Self B) x l st y st1 :
  f x st = (Ok y, st1) ->
  mapM f (x :: l) st = (mapM f l ≫= fun ys => mret (y :: ys)) st1.
Proof.
  intros Hx.
  change (mapM f (x :: l) st)
    with ((f x ≫= fun z => mapM f l ≫= fun zs => mret (z :: zs)) st).
  by rewrite (bind_run _ _ _ _ _ Hx).
Qed.

Lemma mapM_total {A B} (P : A -> B -> Prop) (f : A -> M S Self B) l :
  (forall x, x ∈ l -> forall st, exists y st', f x st = (Ok y, st') /\ P x y) ->
  forall st, exists ys st', mapM f l st = (Ok ys, st') /\ Forall2 P l ys.
Proof.
  intros Hf. induction l as [|x l IH]; intros st.
  - exists [], st. split; [done | constructor].
  - destruct (Hf x ltac:(by left) st) as (y & st1 & Hx & Hy).
    destruct (IH (fun z Hz => Hf z ltac:(by right)) st1) as (ys & st2 & Hl & Hys).
    exists (y :: ys), st2. split; [|by constructor].
    rewrite (mapM_head_run _ _ _ _ _ _ Hx).
    by rewrite (bind_run _ _ _ _ _ Hl).
Qed.

Lemma Forall2_imap_l {A B C} (Q : A -> B -> Prop) (f : nat -> A -> C) (g : C -> A)
      (l : list A) (ys : list B) :
  (forall i a, g (f i a) = a) ->
  Forall2 (fun p y => Q (g p) y) (imap f l) ys -> Forall2 Q l ys.
Proof.
  revert f ys. induction l as [|a l IH]; intros f ys Hg Hall.
  - inversion Hall. constructor.
  - simpl in Hall. inversion Hall as [|? y ? ys' Hy Hrest]; subst.
    constructor.
    + by rewrite Hg in Hy.
    + apply (IH (f ∘ Datatypes.S)); [|done]. intros i b. apply Hg.
Qed.
End loops.

Lemma clip_sequence_length {A} sequence_length (sequence : list A) offset :
  0 <= offset <= Z.of_nat (length sequence) - Z.of_nat sequence_length ->
  length (clip_sequence sequence_length sequence offset) = sequence_length.
Proof.
  intros Hoff. unfold clip_sequence, py_slice.
  destruct (Z.ltb_spec offset 0); [lia|].
  destruct (Z.ltb_spec (offset + Z.of_nat sequence_length) 0); [lia|].
  rewrite length_take, length_drop. lia.
Qed.

(** A row cut from the sequence stored under [key] in [a]. *)
Definition window_of (sequence_length : nat) (a : archive) (key : Z) (row : list Z) : Prop :=
  exists sequence offset,
    archive_get a key = Ok sequence /\
    0 <= offset <= Z.of_nat (length sequence) - Z.of_nat sequence_length /\
    row = map f64_of_int (frombuffer (clip_sequence sequence_length sequence offset)).

(** A group of [subsample_size] rows cut from sequences of [a] under
    pairwise distinct keys. *)
Definition subsample_of (sequence_length subsample_size : nat) (a : archive)
    (rows : list (list Z)) : Prop :=
  exists keys,
    length keys = subsample_size /\ NoDup keys /\
    Forall (fun key => 0 <= key < archive_len a) keys /\
    Forall2 (window_of sequence_length a) keys rows.

(** An archive [random_subsamples] can draw from: it has
    [subsample_size] sequences at least, stored under the keys
    [0 .. len-1], each [sequence_length] long at least. *)
Definition drawable (sequence_length subsample_size : nat) (a : archive) : Prop :=
  Z.of_nat subsample_size <= archive_len a /\
  forall key, 0 <= key < archive_len a ->
              exists sequence, archive_get a key = Ok sequence /\
                               (sequence_length <= length sequence)%nat.

Section subsamples.
Context {S : Type} `{GeneratorSpec S}.

(** With [balance], [sample_lengths] is a scalar when the loop indexes
    it. *)
Lemma random_subsamples_balance_raises samples sequence_length subsample_size
      subsamples_per_sample augment rng (st : (nat -> S) * unit) :
  exists st',
    random_subsamples samples sequence_length subsample_size subsamples_per_sample
      augment true rng st
    = (Raise (match samples with [] => ValueError | _ => IndexError end), st').
Proof.
  unfold random_subsamples. destruct samples as [|a samples].
  - exists st. by apply bind_raise.
  - erewrite bind_run; [|reflexivity].
    destruct augment.
    + match goal with
      | |- context [draw ?r ?op] =>
          destruct (draw (Self := unit) r op st) as [[us|e] st1] eqn:Hdraw
      end.
      * exists st1.
        erewrite bind_run; [|erewrite bind_run; [|exact Hdraw]; reflexivity].
        by apply mapM_head_raise, bind_raise.
      * unfold draw in Hdraw.
        destruct (rng_uniform _ _) in Hdraw. done.
    + exists st. erewrite bind_run; [|reflexivity].
      by apply mapM_head_raise, bind_raise.
Qed.

(** Without [augment], [augments] is one-dimensional when the innermost
    loop indexes it with three indices. *)
Lemma random_subsamples_zeros_like_raises a rest sequence_length subsample_size
      subsamples_per_sample rng (st : (nat -> S) * unit) :
  (1 <= subsamples_per_sample)%nat -> (1 <= subsample_size)%nat ->
  exists e st',
    random_subsamples (a :: rest) sequence_length subsample_size subsamples_per_sample
      false false rng st = (Raise e, st') /\
    (Z.of_nat subsample_size <= archive_len a ->
     (forall key, 0 <= key < archive_len a -> is_ok (archive_get a key) = true) ->
     e = IndexError).
Proof.
  intros Hreps Hsize. unfold random_subsamples.
  erewrite bind_run; [|reflexivity].
  erewrite bind_run; [|reflexivity].
  destruct subsamples_per_sample as [|reps]; [lia|].
  assert (Hlen : lengths_index (LengthArray (map archive_len (a :: rest))) (Z.of_nat 0)
                 = Ok (archive_len a)) by (by apply np_index_nat_lookup).
  match goal with
  | |- context [draw ?r (rng_choice ?n ?k)] => idtac
  | |- _ => idtac
  end.
  destruct (draw (Self := unit) (fun _ => rng)
              (rng_choice (archive_len a) subsample_size) st)
    as [[indices|e] st1] eqn:Hdraw.
  - assert (Hrange : length indices = subsample_size /\
                     Forall (fun x => 0 <= x < archive_len a) indices).
    { unfold draw in Hdraw. simpl in Hdraw.
      destruct (rng_choice (archive_len a) subsample_size (st.1 rng))
        as [r s'] eqn:Hchoice.
      injection Hdraw as -> _.
      pose proof (choice_range (archive_len a) subsample_size (st.1 rng) indices)
        as Hspec.
      rewrite Hchoice in Hspec. destruct (Hspec eq_refl) as (Hl & _ & Hall).
      by split. }
    destruct Hrange as [Hl Hall].
    destruct indices as [|key indices]; [simpl in Hl; lia|].
    inversion Hall as [|? ? Hkey _]; subst.
    destruct (archive_get a key) as [sequence|e] eqn:Hget.
    + exists IndexError, st1. split; [|done].
      apply mapM_head_raise.
      erewrite bind_run; [|rewrite Hlen; reflexivity].
      apply mapM_head_raise.
      erewrite bind_run; [|exact Hdraw].
      apply bind_raise.
      change (imap pair (key :: indices))
        with ((0%nat, key) :: imap (pair ∘ Datatypes.S) indices).
      apply mapM_head_raise.
      change (0 <? length (key :: indices))%nat with true. cbv iota.
      erewrite bind_run; [|rewrite Hget; reflexivity].
      by apply bind_raise.
    + exists e, st1. split.
      * apply mapM_head_raise.
        erewrite bind_run; [|rewrite Hlen; reflexivity].
        apply mapM_head_raise.
        erewrite bind_run; [|exact Hdraw].
        apply bind_raise.
        change (imap pair (key :: indices))
          with ((0%nat, key) :: imap (pair ∘ Datatypes.S) indices).
        apply mapM_head_raise.
        change (0 <? length (key :: indices))%nat with true. cbv iota.
        apply bind_raise. by rewrite Hget.
      * intros _ Hkeys. specialize (Hkeys key Hkey). by rewrite Hget in Hkeys.
  - exists e, st1. split.
    + apply mapM_head_raise.
      erewrite bind_run; [|rewrite Hlen; reflexivity].
      apply mapM_head_raise. by apply bind_raise.
    + intros Hfit _.
      unfold draw in Hdraw. simpl in Hdraw.
      pose proof (choice_ok (archive_len a) subsample_size (st.1 rng) Hfit) as Hok.
      destruct (rng_choice (archive_len a) subsample_size (st.1 rng)) as [r s'].
      injection Hdraw as -> _. done.
Qed.

(** With [augment] and without [balance] the loops run to the end. *)
Lemma random_subsamples_augmented_returns samples sequence_length subsample_size
      subsamples_per_sample rng (st : (nat -> S) * unit) :
  Forall (drawable sequence_length subsample_size) samples ->
  exists out st',
    random_subsamples samples sequence_length subsample_size subsamples_per_sample
      true false rng st = (Ok out, st') /\
    Forall2 (fun a plane =>
               length plane = subsamples_per_sample /\
               Forall (subsample_of sequence_length subsample_size a) plane)
            samples out.
Proof.
  intros Hsamples. unfold random_subsamples.
  erewrite bind_run; [|reflexivity].
  set (count := length samples).
  set (cells := (count * subsamples_per_sample * subsample_size)%nat).
  pose proof (uniform_range cells (st.1 rng)) as [Hul Hunit].
  destruct (rng_uniform cells (st.1 rng)) as [us s1] eqn:Hdraw. simpl in Hul, Hunit.
  set (augments := map (reshape subsamples_per_sample subsample_size)
                       (reshape count (subsamples_per_sample * subsample_size) us)).
  destruct (SampleFacts.reshape3_shape count subsamples_per_sample subsample_size us Hul)
    as [Hshape Hgroups].
  pose proof (reshape3_Forall in_unit count subsamples_per_sample subsample_size us Hunit)
    as Hfractions.
  fold augments in Hshape, Hgroups, Hfractions.
  erewrite bind_run;
    [|erewrite bind_run; [reflexivity | unfold draw; simpl; rewrite Hdraw; reflexivity]].
  fold augments.
  match goal with
  | |- context [mapM ?f (imap pair samples) ?st0] =>
      destruct (mapM_total
                  (fun p plane =>
                     length plane = subsamples_per_sample /\
                     Forall (subsample_of sequence_length subsample_size p.2) plane)
                  f (imap pair samples)) with (st := st0) as (out & st' & Hrun & Hout)
  end.
  2: { exists out, st'. split; [exact Hrun|].
       by apply (Forall2_imap_l _ pair snd). }
  intros [i a] Hin st0.
  apply elem_of_lookup_imap_1 in Hin as (i' & a' & [= <- <-] & Hia).
  assert (Hi : (i < count)%nat) by (by eapply lookup_lt_Some).
  assert (Ha : drawable sequence_length subsample_size a).
  { eapply Forall_forall; [exact Hsamples|]. apply list_elem_of_In.
    by eapply list_elem_of_lookup_2. }
  destruct Ha as [Hfit Hkeys].
  erewrite bind_run.
  2: { unfold lift. f_equal. apply np_index_nat_lookup.
       by rewrite list_lookup_fmap, Hia. }
  match goal with
  | |- context [mapM ?f (seq 0 subsamples_per_sample) st0] =>
      destruct (mapM_total
                  (fun (j : nat) rows =>
                     subsample_of sequence_length subsample_size a rows)
                  f (seq 0 subsamples_per_sample)) with (st := st0)
        as (plane & st1 & Hrun & Hplane)
  end.
  2: { exists plane, st1. split; [exact Hrun|]. simpl. split.
       - apply Forall2_length in Hplane. by rewrite length_seq in Hplane.
       - clear Hrun. induction Hplane; constructor; done. }
  intros j Hj st1. apply elem_of_seq in Hj.
  pose proof (choice_ok (archive_len a) subsample_size (st1.1 rng) Hfit) as Hok.
  pose proof (choice_range (archive_len a) subsample_size (st1.1 rng)) as Hrange.
  destruct (rng_choice (archive_len a) subsample_size (st1.1 rng))
    as [[indices|e] s2] eqn:Hchoice; [|done].
  destruct (Hrange indices eq_refl) as (Hl & Hnodup & Hall).
  erewrite bind_run; [|unfold draw; simpl; rewrite Hchoice; reflexivity].
  match goal with
  | |- context [mapM ?f (imap pair indices)] =>
      destruct (mapM_total
                  (fun p row => window_of sequence_length a p.2 row)
                  f (imap pair indices)) with (st := (<[rng := s2]> st1.1, st1.2))
        as (rows & st3 & Hrun & Hrows)
  end.
  2: { apply (Forall2_imap_l _ pair snd) in Hrows; [|done].
       pose proof Hrows as Hlen. apply Forall2_length in Hlen.
       exists rows, st3. split.
       - erewrite bind_run; [|exact Hrun].
         rewrite <- Hlen, Hl, Nat.sub_diag. simpl. by rewrite app_nil_r.
       - by exists indices. }
  intros [k key] Hin st2.
  apply elem_of_lookup_imap_1 in Hin as (k' & key' & [= <- <-] & Hk).
  assert (Hkl : (k < subsample_size)%nat).
  { rewrite <- Hl. by eapply lookup_lt_Some. }
  assert (Hkey : 0 <= key < archive_len a).
  { pose proof Hall as Hin. rewrite Forall_forall in Hin.
    apply Hin, list_elem_of_In. by eapply list_elem_of_lookup_2. }
  destruct (Hkeys key Hkey) as (sequence & Hget & Hlong).
  destruct (Nat.ltb_spec k subsample_size); [|lia].
  erewrite bind_run; [|unfold lift; rewrite Hget; reflexivity].
  destruct (np_index3_shape count subsamples_per_sample subsample_size augments
              (Z.of_nat i) (Z.of_nat j) (Z.of_nat k) Hshape Hgroups)
    as (pl & row & u & Hu & Hpl & Hrow & Hin); [lia..|].
  assert (Hunit_u : in_unit u).
  { pose proof Hfractions as Hf.
    rewrite Forall_forall in Hf. specialize (Hf pl ltac:(by apply list_elem_of_In)).
    rewrite Forall_forall in Hf. specialize (Hf row ltac:(by apply list_elem_of_In)).
    rewrite Forall_forall in Hf. apply Hf. by apply list_elem_of_In. }
  erewrite bind_run; [|unfold lift; simpl; rewrite Hu; reflexivity].
  destruct (unit_product_trunc u
              (Z.of_nat (length sequence) - Z.of_nat sequence_length + 1) Hunit_u)
    as [_ Hoffset]; [lia|].
  fold (augmented_offset u (Z.of_nat (length sequence)) sequence_length) in Hoffset.
  erewrite bind_run.
  2: { unfold lift. rewrite assign_row_same; [reflexivity|].
       unfold frombuffer. rewrite length_map. apply clip_sequence_length. lia. }
  eexists _, st2. split; [reflexivity|].
  exists sequence, (augmented_offset u (Z.of_nat (length sequence)) sequence_length).
  split; [done|]. split; [lia | done].
Qed.
End subsamples.

Section subsamples_claim.
Context {S : Type} `{GeneratorSpec S}.

(** C8.  What [random_subsamples] does for each setting of its two flags.
    With [augment=True, balance=False] and archives that hold
    [subsample_size] sequences at least, each [sequence_length] long at
    least, it returns an array of extents
    [(len(samples), subsamples_per_sample, subsample_size, sequence_length)]
    whose groups are windows of sequences stored under pairwise distinct
    keys of the archive of their row.  With [balance=True] it never returns:
    it raises [ValueError] on no archives and [IndexError] otherwise, for
    [sample_lengths] is then a scalar.  With [augment=False] (and
    [balance=False]) it raises as soon as one sequence is fetched, that is
    with one archive, one repetition and one key at least: [IndexError] on
    the archives above, for [augments] is then one-dimensional. *)
Theorem random_subsamples_by_flags :
  (forall samples sequence_length subsample_size subsamples_per_sample rng
          (st : (nat -> S) * unit),
      Forall (drawable sequence_length subsample_size) samples ->
      exists out st',
        random_subsamples samples sequence_length subsample_size subsamples_per_sample
          true false rng st = (Ok out, st') /\
        Forall2 (fun a plane =>
                   length plane = subsamples_per_sample /\
                   Forall (subsample_of sequence_length subsample_size a) plane)
                samples out) /\
  (forall samples sequence_length subsample_size subsamples_per_sample augment rng
          (st : (nat -> S) * unit),
      exists st',
        random_subsamples samples sequence_length subsample_size subsamples_per_sample
          augment true rng st
        = (Raise (match samples with [] => ValueError | _ => IndexError end), st')) /\
  (forall a rest sequence_length subsample_size subsamples_per_sample rng
          (st : (nat -> S) * unit),
      (1 <= subsamples_per_sample)%nat -> (1 <= subsample_size)%nat ->
      exists e st',
        random_subsamples (a :: rest) sequence_length subsample_size
          subsamples_per_sample false false rng st = (Raise e, st') /\
        (drawable sequence_length subsample_size a -> e = IndexError)).
Proof.
  split; [|split].
  - intros. by apply random_subsamples_augmented_returns.
  - intros. apply random_subsamples_balance_raises.
  - intros a rest sequence_length subsample_size subsamples_per_sample rng st Hreps Hsize.
    destruct (random_subsamples_zeros_like_raises a rest sequence_length subsample_size
                subsamples_per_sample rng st Hreps Hsize) as (e & st' & Hrun & He).
    exists e, st'. split; [done|]. intros [Hfit Hkeys]. apply He; [done|].
    intros key Hkey. destruct (Hkeys key Hkey) as (sequence & -> & _). done.
Qed.
End subsamples_claim.

Lemma sample_a_drawable : drawable 4 2 sample_a.
Proof.
  split; [by vm_compute|]. intros key Hkey.
  change (archive_len sample_a) with 3 in Hkey.
  assert (Hcases : key = 0 \/ key = 1 \/ key = 2) by lia.
  destruct Hcases as [->|[->| ->]]; eexists; (split; [by vm_compute | simpl; lia]).
Qed.

Lemma sample_b_drawable : drawable 4 2 sample_b.
Proof.
  split; [by vm_compute|]. intros key Hkey.
  change (archive_len sample_b) with 2 in Hkey.
  assert (Hcases : key = 0 \/ key = 1) by lia.
  destruct Hcases as [->| ->]; eexists; (split; [by vm_compute | simpl; lia]).
Qed.

(** [random_subsamples([a, b], 4, 2, balance=True, rng=...)] *)
Example random_subsamples_balance_example :
  (random_subsamples [sample_a; sample_b] 4 2 1 true true 0 (fun _ => 7, tt)).1
  = Raise IndexError.
Proof. by vm_compute. Qed.

(** [random_subsamples([a, b], 4, 2, augment=False, rng=...)] *)
Example random_subsamples_no_augment_example :
  (random_subsamples [sample_a; sample_b] 4 2 1 false false 0 (fun _ => 7, tt)).1
  = Raise IndexError.
Proof. by vm_compute. Qed.

(** [random_subsamples([a, b], 4, 2, rng=...)] *)
Example random_subsamples_default_example :
  (random_subsamples [sample_a; sample_b] 4 2 1 true false 0 (fun _ => 7, tt)).1
  = Ok [[[[1; 2; 2; 3]; [1; 2; 3; 4]]]; [[[2; 2; 2; 2]; [3; 1; 3; 3]]]].
Proof. by vm_compute. Qed.

Lemma random_subsamples_by_flags_witness :
  (exists out st',
      random_subsamples [sample_a; sample_b] 4 2 1 true false 0 (fun _ => 7, tt)
      = (Ok out, st') /\
      Forall2 (fun a plane =>
                 length plane = 1%nat /\ Forall (subsample_of 4 2 a) plane)
              [sample_a; sample_b] out) /\
  (exists e st',
      random_subsamples [sample_a; sample_b] 4 2 1 false false 0 (fun _ => 7, tt)
      = (Raise e, st') /\
      (drawable 4 2 sample_a -> e = IndexError)).
Proof.
  destruct (random_subsamples_by_flags (S := Z)) as (Hdefault & _ & Hzeros).
  split.
  - apply Hdefault.
    apply Forall_cons; [exact sample_a_drawable|].
    apply Forall_cons; [exact sample_b_drawable|]. apply Forall_nil.
  - apply Hzeros; lia.
Defined.

(** ** Batches of well-formed archives *)

Lemma np_index_fmap {A B} (f : A -> B) (l : list A) i :
  np_index (map f l) i
  = match np_index l i with Ok x => Ok (f x) | Raise e => Raise e end.
Proof.
  unfold np_index. rewrite length_map. destruct (_ && _); [|done].
  rewrite list_lookup_fmap. by destruct (l !! _).
Qed.

(** The effective length of an archive is within its length, and is
    positive when no archive is empty. *)
Lemma effective_length_within bal (archives : list archive) lengths a len sample :
  balance_lengths bal (map archive_len archives) = Ok lengths ->
  Forall (fun s => 1 <= archive_len s) archives ->
  np_index lengths a = Ok len -> np_index archives a = Ok sample ->
  1 <= len <= archive_len sample.
Proof.
  intros Hbal Hpos Hlen Hsample.
  pose proof (np_index_ok_elem _ _ _ Hsample) as Hin.
  rewrite Forall_forall in Hpos.
  destruct bal.
  - apply balance_lengths_true in Hbal as (m & Hmin & ->).
    apply np_index_ok_elem, elem_of_replicate in Hlen as [-> _].
    apply np_min_spec in Hmin as [Hm Hle].
    apply list_elem_of_In, in_map_iff in Hm as (s & <- & Hs).
    split; [by apply Hpos|].
    rewrite Forall_forall in Hle. apply Hle, in_map. by apply list_elem_of_In.
  - injection Hbal as <-. rewrite np_index_fmap, Hsample in Hlen.
    injection Hlen as <-. split; [|lia]. apply Hpos. by apply list_elem_of_In.
Qed.

Lemma drawable_nonempty window group archives :
  (1 <= group)%nat ->
  Forall (drawable window group) archives ->
  Forall (fun s => 1 <= archive_len s) archives.
Proof.
  intros Hgroup Hall. eapply Forall_impl; [|exact Hall].
  intros a [Hfit _]. lia.
Qed.

Module SequenceService.
Import DnaSequenceGenerator SequenceFacts.

Section service.
Context {S : Type} `{GeneratorSpec S}.

(** The exceptions of [generate_batch] are those of its slots, every
    table entry being found. *)
Lemma seq_generate_batch_slots (P : exn -> Prop) g (h : nat -> S) (b : nat) :
  reachable g ->
  (b < batches_per_epoch g)%nat ->
  (forall (i : nat) a sample key,
      (i < batch_size g)%nat ->
      cell (sample_indices g) b i = Some a ->
      np_index (samples g) a = Ok sample ->
      cell (sequence_indices g) b i = Some key ->
      raises_in P
        (sequence ← lift (archive_get sample key);
         offset ← augment_offset_fn Keyword (Z.of_nat (length sequence))
                    (Z.of_nat b, Z.of_nat i);
         lift (assign_row (sequence_length g)
                 (frombuffer (clip_sequence (sequence_length g) sequence offset))))
        (h, g)) ->
  raises_in P (generate_batch (Z.of_nat b)) (h, g).
Proof.
  intros Hg Hb Hslot.
  pose proof (seq_reachable_inv g Hg) as (Hc & Hs & Hk).
  destruct Hs as (Hsi & Hrange & Hqi & _).
  destruct Hc as [Hn Hbal].
  unfold generate_batch.
  apply raises_bind; [readonly | apply raises_gets | intros rows1 [= <-]].
  destruct (np_index_nonneg (sample_indices g) (Z.of_nat b))
    as (srow & Hsrow & Hsl); [destruct Hsi; lia|].
  rewrite Nat2Z.id in Hsl.
  apply raises_bind; [readonly | | intros srow' Hsrow'].
  { apply raises_lift. intros e He. simpl in He. congruence. }
  simpl in Hsrow'. assert (srow' = srow) as -> by congruence.
  apply raises_bind; [readonly | apply raises_gets | intros rows2 [= <-]].
  destruct (np_index_nonneg (sequence_indices g) (Z.of_nat b))
    as (qrow & Hqrow & Hql); [destruct Hqi; lia|].
  rewrite Nat2Z.id in Hql.
  apply raises_bind; [readonly | | intros qrow' Hqrow'].
  { apply raises_lift. intros e He. simpl in He. congruence. }
  simpl in Hqrow'. assert (qrow' = qrow) as -> by congruence.
  apply raises_bind; [readonly | apply raises_gets | intros cols [= <-]].
  apply raises_bind; [readonly | apply raises_gets | intros window [= <-]].
  pose proof (table_shape_lookup _ _ _ _ _ Hsi Hsl) as Hslen.
  pose proof (table_shape_lookup _ _ _ _ _ Hqi Hql) as Hqlen.
  apply raises_mapM; [intros; readonly|]. intros i Hi.
  apply list_elem_of_In, in_seq in Hi.
  destruct (np_index_nonneg srow (Z.of_nat i)) as (a & Ha & Hal); [lia|].
  rewrite Nat2Z.id in Hal.
  apply raises_bind; [readonly | | intros a' Ha'].
  { apply raises_lift. intros e He. congruence. }
  simpl in Ha'. assert (a' = a) as -> by congruence.
  apply raises_bind; [readonly | apply raises_gets | intros archives [= <-]].
  assert (Har : 0 <= a < Z.of_nat (length (samples g))).
  { rewrite <- Hn. apply (cell_Forall _ _ b i a Hrange).
    apply cell_Some. by exists srow. }
  destruct (np_index_nonneg (samples g) a Har) as (sample & Hsample & _).
  apply raises_bind; [readonly | | intros sample' Hsample'].
  { apply raises_lift. intros e He. congruence. }
  simpl in Hsample'. assert (sample' = sample) as -> by congruence.
  destruct (np_index_nonneg qrow (Z.of_nat i)) as (key & Hkey & Hkl); [lia|].
  rewrite Nat2Z.id in Hkl.
  apply raises_bind; [readonly | | intros key' Hkey'].
  { apply raises_lift. intros e He. congruence. }
  simpl in Hkey'. assert (key' = key) as -> by congruence.
  apply (Hslot i a sample key); [lia| |done|].
  - apply cell_Some. by exists srow.
  - apply cell_Some. by exists qrow.
Qed.

(** On well-formed archives every slot finds its sequence, at least
    [sequence_length] long. *)
Lemma seq_slot_sequence g (b i : nat) a sample key :
  reachable g ->
  Forall (drawable (sequence_length g) 1) (samples g) ->
  cell (sample_indices g) b i = Some a ->
  np_index (samples g) a = Ok sample ->
  cell (sequence_indices g) b i = Some key ->
  exists sequence, archive_get sample key = Ok sequence /\
                   (sequence_length g <= length sequence)%nat.
Proof.
  intros Hg Hdata Ha Hsample Hkey.
  pose proof (seq_reachable_inv g Hg) as ([Hn Hbal] & _ & Hk).
  pose proof (drawable_nonempty _ _ _ (le_n 1) Hdata) as Hpos.
  destruct (Hk b i a key Ha Hkey) as (len & u & Hlen & Hu & Hval).
  destruct (effective_length_within _ _ _ _ _ _ Hbal Hpos Hlen Hsample) as [Hl1 Hl2].
  pose proof (unit_product_trunc u len Hu Hl1) as [_ Hkr]. rewrite <- Hval in Hkr.
  assert (Hsd : drawable (sequence_length g) 1 sample).
  { rewrite Forall_forall in Hdata. apply Hdata, list_elem_of_In.
    by eapply np_index_ok_elem. }
  destruct Hsd as [_ Hkeys]. apply Hkeys. lia.
Qed.

Lemma seq_generate_batch_serves g (h : nat -> S) (b : nat) :
  reachable g -> augment g = true ->
  Forall (drawable (sequence_length g) 1) (samples g) ->
  (b < batches_per_epoch g)%nat ->
  raises_in (fun _ => False) (generate_batch (Z.of_nat b)) (h, g).
Proof.
  intros Hg Haug Hdata Hb.
  apply seq_generate_batch_slots; [done|done|].
  intros i a sample key Hi Ha Hsample Hkey.
  destruct (seq_slot_sequence g b i a sample key Hg Hdata Ha Hsample Hkey)
    as (sequence & Hget & Hlong).
  apply raises_bind; [readonly | | intros sequence' Hsequence'].
  { apply raises_lift. intros e He. congruence. }
  simpl in Hsequence'. assert (sequence' = sequence) as -> by congruence.
  destruct (seq_offset_returns g h Keyword (Z.of_nat b) i (Z.of_nat (length sequence))
              Hg Haug ltac:(lia) Hi) as (offset & Hrun).
  pose proof (seq_offset_in_window g h Keyword (Z.of_nat b) i
                (Z.of_nat (length sequence)) offset _
                Hg ltac:(lia) Hi ltac:(lia) Hrun) as Hoff.
  apply raises_bind; [apply sequence_augment_offset_fn_readonly| |].
  { intros e He. rewrite Hrun in He. done. }
  intros offset' Hoffset'. rewrite Hrun in Hoffset'. simpl in Hoffset'.
  assert (offset' = offset) as -> by congruence.
  apply raises_lift. intros e He.
  rewrite assign_row_same in He; [done|].
  unfold frombuffer. rewrite length_map. by apply clip_sequence_length.
Qed.

(** Without [augment] the keyword call of [augment_offset_fn] is refused:
    [generate_batch] raises [TypeError] at the first slot whose sequence
    is fetched, and [KeyError] if a key is missing before that. *)
Lemma seq_generate_batch_refused g (h : nat -> S) (b : nat) :
  reachable g -> augment g = false ->
  (b < batches_per_epoch g)%nat ->
  raises_in (fun e => e = KeyError \/ e = TypeError)
    (generate_batch (Z.of_nat b)) (h, g) /\
  (Forall (drawable (sequence_length g) 1) (samples g) ->
   raises_in (fun e => e = TypeError) (generate_batch (Z.of_nat b)) (h, g)).
Proof.
  intros Hg Haug Hb.
  assert (Hcall : forall (P : exn -> Prop) (i : nat) sequence,
             (i < batch_size g)%nat -> P TypeError ->
             raises_in P
               (offset ← augment_offset_fn Keyword (Z.of_nat (length sequence))
                          (Z.of_nat b, Z.of_nat i);
                lift (assign_row (sequence_length g)
                        (frombuffer (clip_sequence (sequence_length g) sequence offset))))
               (h, g)).
  { intros P i sequence Hi HP.
    pose proof (seq_offset_eval g h Keyword (Z.of_nat b) i (Z.of_nat (length sequence))
                  Hg ltac:(lia) Hi) as Hev.
    rewrite Haug in Hev.
    apply raises_bind; [apply sequence_augment_offset_fn_readonly| |].
    - intros e He. rewrite Hev in He. by injection He as <-.
    - intros offset Hoff. rewrite Hev in Hoff. done. }
  split; [|intros Hdata]; (apply seq_generate_batch_slots; [done|done|]);
    intros i a sample key Hi Ha Hsample Hkey.
  - apply raises_bind; [readonly | | intros sequence _].
    { apply raises_lift. intros e ->%archive_get_raise. by left. }
    apply Hcall; [done | by right].
  - destruct (seq_slot_sequence g b i a sample key Hg Hdata Ha Hsample Hkey)
      as (sequence & Hget & _).
    apply raises_bind; [readonly | | intros sequence' _].
    { apply raises_lift. intros e He. congruence. }
    by apply Hcall.
Qed.

(** ... and it never returns a batch that has a slot. *)
Lemma seq_generate_batch_never g (h : nat -> S) (b : nat) batch st' :
  reachable g -> augment g = false -> (1 <= batch_size g)%nat ->
  (b < batches_per_epoch g)%nat ->
  generate_batch (Z.of_nat b) (h, g) <> (Ok batch, st').
Proof.
  intros Hg Haug Hcols Hb Hrun.
  unfold generate_batch in Hrun.
  apply bind_ok_inv in Hrun as (rows1 & st1 & [= <- <-] & Hrun).
  apply bind_ok_inv in Hrun as (srow & st1 & Hs & Hrun).
  injection Hs as Hsrow <-.
  apply bind_ok_inv in Hrun as (rows2 & st1 & [= <- <-] & Hrun).
  apply bind_ok_inv in Hrun as (qrow & st1 & Hq & Hrun).
  injection Hq as Hqrow <-.
  apply bind_ok_inv in Hrun as (cols & st1 & [= <- <-] & Hrun).
  apply bind_ok_inv in Hrun as (window & st1 & [= <- <-] & Hrun).
  apply mapM_readonly_ok in Hrun as [_ Hall]; [|intros; readonly].
  destruct (batch_size g) as [|cols] eqn:Hsize; [lia|].
  inversion Hall as [|i row l rows Hbody _]; subst. simpl in Hbody.
  match type of Hbody with
  | (?m ?st).1 = _ => destruct (m st) as [r st2] eqn:Hm
  end.
  simpl in Hbody. subst r.
  apply bind_ok_inv in Hm as (a & st3 & Ha & Hm). injection Ha as Ha <-.
  apply bind_ok_inv in Hm as (archives & st3 & [= <- <-] & Hm).
  apply bind_ok_inv in Hm as (sample & st3 & Hsample & Hm).
  injection Hsample as Hsample <-.
  apply bind_ok_inv in Hm as (key & st3 & Hkey & Hm). injection Hkey as Hkey <-.
  apply bind_ok_inv in Hm as (sequence & st3 & Hget & Hm).
  injection Hget as Hget <-.
  apply bind_ok_inv in Hm as (offset & st3 & Hoff & Hm).
  pose proof (seq_offset_eval g h Keyword (Z.of_nat b) 0 (Z.of_nat (length sequence))
                Hg ltac:(lia) ltac:(lia)) as Hev.
  rewrite Haug in Hev. simpl in Hev, Hoff. rewrite Hev in Hoff. done.
Qed.

(** [__getitem__] returns on every batch index it accepts. *)
Lemma seq_getitem_serves g (h : nat -> S) batch_index :
  reachable g -> augment g = true ->
  Forall (drawable (sequence_length g) 1) (samples g) ->
  (1 <= kmer g <= sequence_length g)%nat ->
  - Z.of_nat (batches_per_epoch g) <= batch_index < Z.of_nat (batches_per_epoch g) ->
  exists item, getitem batch_index (h, g) = (Ok item, (h, g)).
Proof.
  intros Hg Haug Hdata Hk Hb.
  assert (Hnat : forall b : nat, (b < batches_per_epoch g)%nat ->
                   exists item, getitem (Z.of_nat b) (h, g) = (Ok item, (h, g))).
  { clear batch_index Hb. intros b Hb.
    enough (Hno : raises_in (fun _ => False) (getitem (Z.of_nat b)) (h, g)).
    { rewrite (readonly_run _ (h, g) (sequence_getitem_readonly (Z.of_nat b))).
      destruct (getitem (Z.of_nat b) (h, g)).1 as [item|e] eqn:Hout.
      - by exists item.
      - destruct (Hno e Hout). }
    pose proof (seq_reachable_inv g Hg) as (_ & (Hsi & _) & _).
    unfold getitem.
    apply raises_bind;
      [apply sequence_generate_batch_readonly
      |by apply seq_generate_batch_serves|].
    intros batch Hbatch.
    assert (Hrows : Forall (fun row => length row = sequence_length g) batch).
    { pose proof (readonly_run _ (h, g)
                    (sequence_generate_batch_readonly (Z.of_nat b))) as Hrun.
      rewrite Hbatch in Hrun.
      by apply sequence_generate_batch_shape in Hrun as [_ ?]. }
    destruct (sequence_batch_to_kmers_total (h, g) batch Hrows Hk) as (x & Hx).
    unfold post_process_batch.
    apply raises_bind; [readonly | apply raises_gets | intros mode _].
    destruct (np_index_nonneg (sample_indices g) (Z.of_nat b))
      as (srow & Hsrow & _); [destruct Hsi; lia|].
    destruct mode as [[]|];
      (apply raises_bind;
       [apply sequence_batch_to_kmers_readonly
       |intros e He; rewrite Hx in He; done
       |intros x' _]); try apply raises_ret.
    apply raises_bind; [readonly | apply raises_gets | intros rows [= <-]].
    apply raises_bind; [readonly | | intros ids _; apply raises_ret].
    apply raises_lift. intros e He. congruence. }
  destruct (Z.ltb_spec batch_index 0) as [Hneg|Hpos].
  - rewrite seq_getitem_negative by (done || lia).
    destruct (Hnat (Z.to_nat (batch_index + Z.of_nat (batches_per_epoch g))))
      as (item & Hitem); [lia|].
    rewrite Z2Nat.id in Hitem by lia. by exists item.
  - destruct (Hnat (Z.to_nat batch_index)) as (item & Hitem); [lia|].
    rewrite Z2Nat.id in Hitem by lia. by exists item.
Qed.

(** Without [augment], [__getitem__] raises on every batch index it
    accepts, a batch having one slot at least. *)
Lemma seq_getitem_refused g (h : nat -> S) batch_index :
  reachable g -> augment g = false -> (1 <= batch_size g)%nat ->
  - Z.of_nat (batches_per_epoch g) <= batch_index < Z.of_nat (batches_per_epoch g) ->
  exists e,
    getitem batch_index (h, g) = (Raise e, (h, g)) /\
    (e = KeyError \/ e = TypeError) /\
    (Forall (drawable (sequence_length g) 1) (samples g) -> e = TypeError).
Proof.
  intros Hg Haug Hcols Hb.
  assert (Hnat : forall b : nat, (b < batches_per_epoch g)%nat ->
             exists e,
               getitem (Z.of_nat b) (h, g) = (Raise e, (h, g)) /\
               (e = KeyError \/ e = TypeError) /\
               (Forall (drawable (sequence_length g) 1) (samples g) ->
                e = TypeError)).
  { clear batch_index Hb. intros b Hb.
    pose proof (readonly_run _ (h, g)
                  (sequence_generate_batch_readonly (Z.of_nat b))) as Hgen.
    destruct (seq_generate_batch_refused g h b Hg Haug Hb) as [Hany Hdata].
    destruct (generate_batch (Z.of_nat b) (h, g)).1 as [batch|e] eqn:Hout.
    - by destruct (seq_generate_batch_never g h b batch (h, g) Hg Haug Hcols Hb).
    - exists e. split; [unfold getitem; by apply bind_raise|].
      split; [by apply Hany|]. intros Hd. by apply (Hdata Hd). }
  destruct (Z.ltb_spec batch_index 0) as [Hneg|Hpos].
  - rewrite seq_getitem_negative by (done || lia).
    destruct (Hnat (Z.to_nat (batch_index + Z.of_nat (batches_per_epoch g))))
      as (e & He); [lia|].
    rewrite Z2Nat.id in He by lia. by exists e.
  - destruct (Hnat (Z.to_nat batch_index)) as (e & He); [lia|].
    rewrite Z2Nat.id in He by lia. by exists e.
Qed.
End service.
End SequenceService.

Module SampleService.
Import DnaSampleGenerator SampleFacts.

Section service.
Context {S : Type} `{GeneratorSpec S}.

Lemma grp_generate_batch_serves g (h : nat -> S) (b : nat) :
  built g ->
  Forall (drawable (sequence_length g) 1) (samples g) ->
  Forall (fun n => n <= 2 ^ 31) (sample_lengths g) ->
  (b < batches_per_epoch g)%nat ->
  raises_in (fun _ => False) (generate_batch (Z.of_nat b)) (h, g).
Proof.
  intros Hbuilt Hdata Hfit Hb.
  pose proof (built_reachable g Hbuilt) as Hg.
  pose proof (grp_reachable_inv g Hg) as (Hc & (Hsi & Hrange) & (Hqi & Hrows) & _).
  pose proof (grp_configured_static g Hc) as [_ Hlens].
  destruct Hc as [Hn Hbal].
  pose proof (drawable_nonempty _ _ _ (le_n 1) Hdata) as Hpos.
  unfold generate_batch.
  apply raises_bind; [readonly | apply raises_gets | intros rows1 [= <-]].
  destruct (np_index_nonneg (sample_indices g) (Z.of_nat b))
    as (srow & Hsrow & Hsl); [destruct Hsi; lia|].
  rewrite Nat2Z.id in Hsl.
  apply raises_bind; [readonly | | intros srow' Hsrow'].
  { apply raises_lift. intros e He. simpl in He. congruence. }
  simpl in Hsrow'. assert (srow' = srow) as -> by congruence.
  apply raises_bind; [readonly | apply raises_gets | intros rows2 [= <-]].
  destruct (np_index_nonneg (sequence_indices g) (Z.of_nat b))
    as (plane & Hplane & Hpl); [destruct Hqi; lia|].
  rewrite Nat2Z.id in Hpl.
  apply raises_bind; [readonly | | intros plane' Hplane'].
  { apply raises_lift. intros e He. simpl in He. congruence. }
  simpl in Hplane'. assert (plane' = plane) as -> by congruence.
  apply raises_bind; [readonly | apply raises_gets | intros cols [= <-]].
  apply raises_bind; [readonly | apply raises_gets | intros group [= <-]].
  apply raises_bind; [readonly | apply raises_gets | intros window [= <-]].
  pose proof (table_shape_lookup _ _ _ _ _ Hsi Hsl) as Hslen.
  pose proof (table_shape_lookup _ _ _ _ _ Hqi Hpl) as Hplen.
  apply raises_mapM; [intros; readonly|]. intros i Hi.
  apply list_elem_of_In, in_seq in Hi.
  destruct (np_index_nonneg srow (Z.of_nat i)) as (a & Ha & Hal); [lia|].
  rewrite Nat2Z.id in Hal.
  apply raises_bind; [readonly | | intros a' Ha'].
  { apply raises_lift. intros e He. congruence. }
  simpl in Ha'. assert (a' = a) as -> by congruence.
  apply raises_bind; [readonly | apply raises_gets | intros archives [= <-]].
  assert (Hcell : cell (sample_indices g) b i = Some a).
  { apply cell_Some. by exists srow. }
  assert (Har : 0 <= a < Z.of_nat (length (samples g))).
  { rewrite <- Hn. exact (cell_Forall _ _ b i a Hrange Hcell). }
  destruct (np_index_nonneg (samples g) a Har) as (sample & Hsample & _).
  apply raises_bind; [readonly | | intros sample' Hsample'].
  { apply raises_lift. intros e He. congruence. }
  simpl in Hsample'. assert (sample' = sample) as -> by congruence.
  destruct (np_index_nonneg (sample_lengths g) a) as (len & Hlen & _); [lia|].
  destruct (effective_length_within _ _ _ _ _ _ Hbal Hpos Hlen Hsample) as [Hl1 Hl2].
  destruct (lookup_lt_is_Some_2 plane i) as [row Hrow]; [lia|].
  destruct (group_keys g b i a row len Hbuilt Hfit Hcell) as (Hrl & _ & Hkeys);
    [apply cell_Some; by exists plane | done |].
  assert (Hsd : drawable (sequence_length g) 1 sample).
  { rewrite Forall_forall in Hdata. apply Hdata, list_elem_of_In.
    by eapply np_index_ok_elem. }
  destruct Hsd as [_ Hstored].
  apply raises_mapM; [intros; readonly|]. intros j Hj.
  apply list_elem_of_In, in_seq in Hj.
  destruct (lookup_lt_is_Some_2 row j) as [key Hkey]; [lia|].
  assert (Hidx : np_index2 plane (Z.of_nat i, Z.of_nat j) = Ok key).
  { apply np_index2_cell, cell_Some. by exists row. }
  apply raises_bind; [readonly | | intros key' Hkey'].
  { apply raises_lift. intros e He. congruence. }
  simpl in Hkey'. assert (key' = key) as -> by congruence.
  assert (Hkr : 0 <= key < len) by (by eapply Forall_lookup_1 in Hkeys).
  destruct (Hstored key ltac:(lia)) as (sequence & Hget & Hlong).
  apply raises_bind; [readonly | | intros sequence' Hsequence'].
  { apply raises_lift. intros e He. congruence. }
  simpl in Hsequence'. assert (sequence' = sequence) as -> by congruence.
  destruct (grp_offset_in_window g h (Z.of_nat b) i j (Z.of_nat (length sequence))
              Hg ltac:(lia) ltac:(lia) ltac:(lia) ltac:(lia))
    as (offset & Hrun & Hoff & _).
  apply raises_bind; [apply sample_augment_offset_fn_readonly| |].
  { intros e He. rewrite Hrun in He. done. }
  intros offset' Hoffset'. rewrite Hrun in Hoffset'. simpl in Hoffset'.
  assert (offset' = offset) as -> by congruence.
  apply raises_lift. intros e He.
  rewrite assign_row_same in He; [done|].
  unfold frombuffer. rewrite length_map. by apply clip_sequence_length.
Qed.

(** [__getitem__] returns on every batch index it accepts, once an
    epoch has been built. *)
Lemma grp_getitem_serves g (h : nat -> S) batch_index :
  built g ->
  Forall (drawable (sequence_length g) 1) (samples g) ->
  Forall (fun n => n <= 2 ^ 31) (sample_lengths g) ->
  (1 <= kmer g <= sequence_length g)%nat ->
  - Z.of_nat (batches_per_epoch g) <= batch_index < Z.of_nat (batches_per_epoch g) ->
  exists item, getitem batch_index (h, g) = (Ok item, (h, g)).
Proof.
  intros Hbuilt Hdata Hfit Hk Hb.
  pose proof (built_reachable g Hbuilt) as Hg.
  assert (Hnat : forall b : nat, (b < batches_per_epoch g)%nat ->
                   exists item, getitem (Z.of_nat b) (h, g) = (Ok item, (h, g))).
  { clear batch_index Hb. intros b Hb.
    enough (Hno : raises_in (fun _ => False) (getitem (Z.of_nat b)) (h, g)).
    { rewrite (readonly_run _ (h, g) (sample_getitem_readonly (Z.of_nat b))).
      destruct (getitem (Z.of_nat b) (h, g)).1 as [item|e] eqn:Hout.
      - by exists item.
      - destruct (Hno e Hout). }
    pose proof (grp_reachable_inv g Hg) as (_ & ((Hsi & _) & _)).
    unfold getitem.
    apply raises_bind;
      [apply sample_generate_batch_readonly
      |by apply grp_generate_batch_serves|].
    intros batch Hbatch.
    assert (Hsubs : Forall (group_extent (subsample_length g) (sequence_length g))
                      batch).
    { pose proof (readonly_run _ (h, g)
                    (sample_generate_batch_readonly (Z.of_nat b))) as Hrun.
      rewrite Hbatch in Hrun.
      by apply sample_generate_batch_shape in Hrun as [_ ?]. }
    destruct (sample_batch_to_kmers_total (h, g) batch Hsubs Hk) as (x & Hx).
    unfold post_process_batch.
    apply raises_bind; [readonly | apply raises_gets | intros mode _].
    destruct (np_index_nonneg (sample_indices g) (Z.of_nat b))
      as (srow & Hsrow & _); [destruct Hsi; lia|].
    destruct mode as [[]|];
      (apply raises_bind;
       [apply sample_batch_to_kmers_readonly
       |intros e He; rewrite Hx in He; done
       |intros x' _]); try apply raises_ret.
    apply raises_bind; [readonly | apply raises_gets | intros rows [= <-]].
    apply raises_bind; [readonly | | intros ids _; apply raises_ret].
    apply raises_lift. intros e He. congruence. }
  destruct (Z.ltb_spec batch_index 0) as [Hneg|Hpos].
  - rewrite grp_getitem_negative by (done || lia).
    destruct (Hnat (Z.to_nat (batch_index + Z.of_nat (batches_per_epoch g))))
      as (item & Hitem); [lia|].
    rewrite Z2Nat.id in Hitem by lia. by exists item.
  - destruct (Hnat (Z.to_nat batch_index)) as (item & Hitem); [lia|].
    rewrite Z2Nat.id in Hitem by lia. by exists item.
Qed.
End service.
End SampleService.

Lemma balance_lengths_bound bal (archives : list archive) lengths bound :
  balance_lengths bal (map archive_len archives) = Ok lengths ->
  Forall (fun a => archive_len a <= bound) archives ->
  Forall (fun n => n <= bound) lengths.
Proof.
  intros Hbal Hall. rewrite Forall_forall in Hall.
  assert (Hmap : forall n, In n (map archive_len archives) -> n <= bound).
  { intros n (a & <- & Ha)%in_map_iff. by apply Hall. }
  apply Forall_forall. intros n Hn. destruct bal.
  - apply balance_lengths_true in Hbal as (m & Hmin & ->).
    apply list_elem_of_In, elem_of_replicate in Hn as [-> _].
    apply np_min_spec in Hmin as [Hm _]. by apply Hmap, list_elem_of_In.
  - injection Hbal as <-. by apply Hmap.
Qed.

Lemma drawable_fewer window group group' a :
  (group' <= group)%nat -> drawable window group a -> drawable window group' a.
Proof. intros Hle [Hfit Hkeys]. split; [lia | done]. Qed.

Lemma sample_a_servable : drawable 4 1 sample_a.
Proof. apply (drawable_fewer 4 2); [lia | exact sample_a_drawable]. Qed.

Lemma sample_b_servable : drawable 4 1 sample_b.
Proof. apply (drawable_fewer 4 2); [lia | exact sample_b_drawable]. Qed.

(** ** Determinism of method bodies *)

Section determinism.
Context {S Self : Type} (rng_of : Self -> nat) (erase : Self -> Self).

Local Abbreviation M := (M S Self).

(** Two runs correspond when the generator objects agree on everything
    but the reference [rng], and the two referenced
    [numpy.random.Generator] objects are in the same state. *)
Definition corresponds (st1 st2 : (nat -> S) * Self) : Prop :=
  erase st1.2 = erase st2.2 /\ st1.1 (rng_of st1.2) = st2.1 (rng_of st2.2).

(** A run touches no generator object of the store but its own. *)
Definition framed (st st' : (nat -> S) * Self) : Prop :=
  rng_of st'.2 = rng_of st.2 /\
  forall x, x <> rng_of st.2 -> st'.1 x = st.1 x.

(** A body whose outcome is a function of [self] and of the state of
    [self.rng] alone. *)
Definition deterministic {A} (m : M A) : Prop :=
  (forall st1 st2, corresponds st1 st2 ->
                   (m st1).1 = (m st2).1 /\ corresponds (m st1).2 (m st2).2) /\
  (forall st, framed st (m st).2).

Lemma framed_refl st : framed st st.
Proof. by split. Qed.

Lemma framed_trans st1 st2 st3 : framed st1 st2 -> framed st2 st3 -> framed st1 st3.
Proof.
  intros [E1 H1] [E2 H2]. split; [congruence|].
  intros x Hx. rewrite H2 by congruence. by apply H1.
Qed.

Lemma deterministic_ret {A} (a : A) : deterministic (mret a : M A).
Proof. split; [by intros st1 st2 Hc | intros st; apply framed_refl]. Qed.

Lemma deterministic_lift {A} (r : result A) : deterministic (lift r : M A).
Proof. split; [by intros st1 st2 Hc | intros st; apply framed_refl]. Qed.

Lemma deterministic_gets {A} (f : Self -> A) :
  (forall g1 g2, erase g1 = erase g2 -> f g1 = f g2) ->
  deterministic (gets f : M A).
Proof.
  intros Hf. split; [|intros st; apply framed_refl].
  intros st1 st2 [He Hs]. split; [|by split].
  unfold gets. simpl. f_equal. by apply Hf.
Qed.

Lemma deterministic_modify (f : Self -> Self) :
  (forall g1 g2, erase g1 = erase g2 -> erase (f g1) = erase (f g2)) ->
  (forall g, rng_of (f g) = rng_of g) ->
  deterministic (modify f : M unit).
Proof.
  intros Hf Hr. split.
  - intros [h1 g1] [h2 g2] [He Hs]. simpl in *. split; [done|].
    split; simpl; [by apply Hf | by rewrite !Hr].
  - intros [h g]. split; simpl; [by apply Hr | done].
Qed.

Lemma deterministic_draw {A} (op : S -> result A * S) :
  deterministic (draw rng_of op : M A).
Proof.
  split.
  - intros [h1 g1] [h2 g2] [He Hs]. unfold draw. simpl in *. rewrite Hs.
    destruct (op (h2 (rng_of g2))) as [x s']. simpl. split; [done|].
    split; simpl; [done|]. by rewrite !fn_lookup_insert.
  - intros [h g]. unfold draw. simpl.
    destruct (op (h (rng_of g))) as [x s']. split; simpl; [done|].
    intros y Hy. by rewrite fn_lookup_insert_ne.
Qed.

Lemma deterministic_bind {A B} (m : M A) (k : A -> M B) :
  deterministic m -> (forall a, deterministic (k a)) -> deterministic (m ≫= k).
Proof.
  intros [Hm Hfm] Hk. split.
  - intros st1 st2 Hc. unfold mbind, M_bind.
    destruct (Hm st1 st2 Hc) as [Hr Hc'].
    destruct (m st1) as [[a|e] st1'], (m st2) as [[a'|e'] st2'];
      simpl in *; try done.
    + injection Hr as <-. by apply (Hk a).
    + split; [congruence | done].
  - intros st. unfold mbind, M_bind. specialize (Hfm st).
    destruct (m st) as [[a|e] st']; simpl in *; [|done].
    eapply framed_trans; [exact Hfm|]. apply (Hk a).
Qed.

Lemma deterministic_mapM {A B} (f : A -> M B) (l : list A) :
  (forall x, deterministic (f x)) -> deterministic (mapM f l).
Proof.
  intros Hf. induction l as [|x l IH].
  - apply deterministic_ret.
  - change (mapM f (x :: l))
      with (f x ≫= fun y => mapM f l ≫= fun ys => mret (y :: ys)).
    apply deterministic_bind; [apply Hf|]. intros y.
    apply deterministic_bind; [apply IH|]. intros ys. apply deterministic_ret.
Qed.

Lemma deterministic_for_each (l : list nat) (body : nat -> M unit) :
  (forall x, deterministic (body x)) -> deterministic (for_each l body).
Proof.
  intros Hf. induction l as [|x l IH]; simpl.
  - apply deterministic_ret.
  - apply deterministic_bind; [apply Hf | by intros _].
Qed.
End determinism.

Ltac deterministic :=
  repeat first
    [ apply deterministic_ret
    | apply deterministic_lift
    | apply deterministic_draw
    | apply deterministic_bind; [|intros ?]
    | apply deterministic_mapM; intros ?
    | apply deterministic_for_each; intros ?
    | match goal with
      | |- deterministic _ _ (match ?x with _ => _ end) => destruct x
      end ].

(** The generator object without its reference to the random generator. *)
Definition sequence_erase (g : DnaSequenceGenerator.t) : DnaSequenceGenerator.t :=
  DnaSequenceGenerator.Build
    (DnaSequenceGenerator.samples g) (DnaSequenceGenerator.sample_lengths g)
    (DnaSequenceGenerator.num_samples g) (DnaSequenceGenerator.sequence_length g)
    (DnaSequenceGenerator.kmer g) (DnaSequenceGenerator.augment g)
    (DnaSequenceGenerator.batch_size g) (DnaSequenceGenerator.batches_per_epoch g)
    (DnaSequenceGenerator.balance g) (DnaSequenceGenerator.labels g) 0
    (DnaSequenceGenerator.sample_indices g) (DnaSequenceGenerator.sequence_indices g)
    (DnaSequenceGenerator.augment_offsets g).

Definition sample_erase (g : DnaSampleGenerator.t) : DnaSampleGenerator.t :=
  DnaSampleGenerator.Build
    (DnaSampleGenerator.subsample_length g)
    (DnaSampleGenerator.samples g) (DnaSampleGenerator.sample_lengths g)
    (DnaSampleGenerator.num_samples g) (DnaSampleGenerator.sequence_length g)
    (DnaSampleGenerator.kmer g) (DnaSampleGenerator.augment g)
    (DnaSampleGenerator.batch_size g) (DnaSampleGenerator.batches_per_epoch g)
    (DnaSampleGenerator.balance g) (DnaSampleGenerator.labels g) 0
    (DnaSampleGenerator.sample_indices g) (DnaSampleGenerator.sequence_indices g)
    (DnaSampleGenerator.augment_offsets g).

Ltac deterministic_fields :=
  repeat first
    [ progress deterministic
    | match goal with
      | |- deterministic _ _ (gets ?F) =>
          apply deterministic_gets;
          let g1 := fresh "g" in let g2 := fresh "g" in let E := fresh "E" in
          intros g1 g2 E; exact (f_equal F E)
      | |- deterministic _ _ (modify ?F) =>
          apply deterministic_modify;
          [ let g1 := fresh "g" in let g2 := fresh "g" in let E := fresh "E" in
            intros g1 g2 E; exact (f_equal F E)
          | done ]
      end ].

Section deterministic_methods.
Context {S : Type} `{Generator S}.

Lemma sequence_shuffle_deterministic :
  deterministic DnaSequenceGenerator.rng sequence_erase
    (DnaSequenceGenerator.shuffle (S := S)).
Proof. unfold DnaSequenceGenerator.shuffle. deterministic_fields. Qed.

Lemma sequence_getitem_deterministic batch_index :
  deterministic DnaSequenceGenerator.rng sequence_erase
    (DnaSequenceGenerator.getitem (S := S) batch_index).
Proof.
  unfold DnaSequenceGenerator.getitem, DnaSequenceGenerator.generate_batch,
    DnaSequenceGenerator.post_process_batch, DnaSequenceGenerator.batch_to_kmers,
    DnaSequenceGenerator.augment_offset_fn,
    DnaSequenceGenerator.compute_augmented_offset.
  deterministic_fields.
Qed.

Lemma sample_shuffle_deterministic :
  deterministic DnaSampleGenerator.rng sample_erase
    (DnaSampleGenerator.shuffle (S := S)).
Proof.
  unfold DnaSampleGenerator.shuffle, for_range, DnaSampleGenerator.draw_keys,
    DnaSampleGenerator.store_keys.
  deterministic_fields.
Qed.

Lemma sample_getitem_deterministic batch_index :
  deterministic DnaSampleGenerator.rng sample_erase
    (DnaSampleGenerator.getitem (S := S) batch_index).
Proof.
  unfold DnaSampleGenerator.getitem, DnaSampleGenerator.generate_batch,
    DnaSampleGenerator.post_process_batch, DnaSampleGenerator.batch_to_kmers,
    DnaSampleGenerator.super_batch_to_kmers,
    DnaSampleGenerator.augment_offset_fn,
    DnaSampleGenerator.compute_augmented_offset.
  deterministic_fields.
Qed.
End deterministic_methods.

(** ** Sessions of two generators *)

Section sessions.
Context {S Self Item : Type} (rng_of : Self -> nat) (erase : Self -> Self).
Context (epoch_end : M S Self unit) (getitem : Z -> M S Self Item).

(** The object and the store after [n] calls of [on_epoch_end], whether
    they return or raise. *)
Definition epochs (n : nat) (st : (nat -> S) * Self) : (nat -> S) * Self :=
  Nat.iter n (fun st => (epoch_end st).2) st.

(** Two generator objects in one store, each called at every epoch
    boundary, the first then the second. *)
Definition lockstep_step (w : (nat -> S) * Self * Self) : (nat -> S) * Self * Self :=
  let st1 := (epoch_end (w.1.1, w.1.2)).2 in
  let st2 := (epoch_end (st1.1, w.2)).2 in
  (st2.1, st1.2, st2.2).

Definition lockstep (n : nat) (w : (nat -> S) * Self * Self) : (nat -> S) * Self * Self :=
  Nat.iter n lockstep_step w.

(** Two constructor outcomes, each with its own store: both raise the
    same exception, or both return and serve the same output at every
    batch index after any number of epoch boundaries. *)
Definition sessions_agree (run1 run2 : result Self * (nat -> S)) : Prop :=
  match run1, run2 with
  | (Ok g1, h1), (Ok g2, h2) =>
      forall n batch_index,
        (getitem batch_index (epochs n (h1, g1))).1
        = (getitem batch_index (epochs n (h2, g2))).1
  | (Raise e1, _), (Raise e2, _) => e1 = e2
  | _, _ => False
  end.

(** The same for two constructor calls [new1] then [new2] on one store
    [h], the two objects stepped together afterwards. *)
Definition shared_sessions_agree
    (new1 new2 : (nat -> S) -> result Self * (nat -> S)) (h : nat -> S) : Prop :=
  match new1 h with
  | (Ok g1, h') =>
      match new2 h' with
      | (Ok g2, h'') =>
          forall n batch_index,
            (getitem batch_index ((lockstep n (h'', g1, g2)).1.1,
                                  (lockstep n (h'', g1, g2)).1.2)).1
            = (getitem batch_index ((lockstep n (h'', g1, g2)).1.1,
                                    (lockstep n (h'', g1, g2)).2)).1
      | (Raise _, _) => False
      end
  | (Raise e1, h') => (new2 h').1 = Raise e1
  end.

Hypothesis epoch_end_deterministic : deterministic rng_of erase epoch_end.
Hypothesis getitem_deterministic :
  forall batch_index, deterministic rng_of erase (getitem batch_index).

Lemma epochs_correspond n st1 st2 :
  corresponds rng_of erase st1 st2 ->
  corresponds rng_of erase (epochs n st1) (epochs n st2).
Proof.
  intros Hc. induction n as [|n IH]; [done|]. simpl.
  by apply epoch_end_deterministic.
Qed.

Lemma epochs_items n st1 st2 batch_index :
  corresponds rng_of erase st1 st2 ->
  (getitem batch_index (epochs n st1)).1 = (getitem batch_index (epochs n st2)).1.
Proof.
  intros Hc. apply getitem_deterministic. by apply epochs_correspond.
Qed.

(** Two objects of one store that agree but for their distinct random
    generators, which are in the same state. *)
Definition paired (w : (nat -> S) * Self * Self) : Prop :=
  erase w.1.2 = erase w.2 /\ rng_of w.1.2 <> rng_of w.2 /\
  w.1.1 (rng_of w.1.2) = w.1.1 (rng_of w.2).

Lemma lockstep_step_paired w : paired w -> paired (lockstep_step w).
Proof.
  destruct w as [[h g1] g2]. intros (He & Hne & Hs). simpl in *.
  unfold lockstep_step. simpl.
  destruct epoch_end_deterministic as [Hdet Hframe].
  pose proof (Hframe (h, g1)) as [Hr1 Hf1].
  destruct (epoch_end (h, g1)) as [out1 [h1 g1']] eqn:Hrun1. simpl in *.
  assert (Hc : corresponds rng_of erase (h, g1) (h1, g2)).
  { split; [done|]. simpl. rewrite Hf1 by congruence. done. }
  pose proof (Hdet _ _ Hc) as [_ [He' Hs']].
  pose proof (Hframe (h1, g2)) as [Hr2 Hf2].
  rewrite Hrun1 in He', Hs'.
  destruct (epoch_end (h1, g2)) as [out2 [h2 g2']] eqn:Hrun2. simpl in *.
  unfold paired. simpl. split; [done|]. split; [congruence|].
  rewrite <- Hs'. apply Hf2. congruence.
Qed.

Lemma lockstep_paired n w : paired w -> paired (lockstep n w).
Proof.
  intros Hp. induction n as [|n IH]; [done|]. simpl.
  by apply lockstep_step_paired.
Qed.

Lemma lockstep_items n w batch_index :
  paired w ->
  (getitem batch_index ((lockstep n w).1.1, (lockstep n w).1.2)).1
  = (getitem batch_index ((lockstep n w).1.1, (lockstep n w).2)).1.
Proof.
  intros Hp. apply (lockstep_paired n) in Hp as (He & _ & Hs).
  apply getitem_deterministic. by split.
Qed.
End sessions.

Section seeded_generators.
Context {S : Type} `{Generator S}.

Lemma sequence_init_deterministic samples window k cols rows aug bal mode r1 r2
      (h1 h2 : nat -> S) :
  h1 r1 = h2 r2 ->
  match DnaSequenceGenerator.init samples window k cols rows aug bal mode r1 h1,
        DnaSequenceGenerator.init samples window k cols rows aug bal mode r2 h2 with
  | (Ok g1, h1'), (Ok g2, h2') =>
      corresponds DnaSequenceGenerator.rng sequence_erase (h1', g1) (h2', g2) /\
      DnaSequenceGenerator.rng g1 = r1 /\ DnaSequenceGenerator.rng g2 = r2 /\
      (forall x, x <> r1 -> h1' x = h1 x) /\ (forall x, x <> r2 -> h2' x = h2 x)
  | (Raise e1, h1'), (Raise e2, h2') =>
      e1 = e2 /\ (forall x, x <> r1 -> h1' x = h1 x)
  | _, _ => False
  end.
Proof.
  intros Hs. unfold DnaSequenceGenerator.init.
  destruct (balance_lengths bal (map archive_len samples)) as [lens|e]; [|done].
  match goal with
  | |- context [DnaSequenceGenerator.shuffle (h1, ?a)] => set (self1 := a)
  end.
  match goal with
  | |- context [DnaSequenceGenerator.shuffle (h2, ?a)] => set (self2 := a)
  end.
  destruct (sequence_shuffle_deterministic (S := S)) as [Hdet Hframe].
  assert (Hc : corresponds DnaSequenceGenerator.rng sequence_erase
                 (h1, self1) (h2, self2)) by (by split).
  destruct (Hdet _ _ Hc) as [Hout Hc'].
  pose proof (Hframe (h1, self1)) as [Hr1 Hf1].
  pose proof (Hframe (h2, self2)) as [Hr2 Hf2].
  destruct (DnaSequenceGenerator.shuffle (h1, self1)) as [[[]|e1] [h1' g1]],
           (DnaSequenceGenerator.shuffle (h2, self2)) as [[[]|e2] [h2' g2]];
    simpl in *; try done.
  split; [congruence | done].
Qed.

Lemma sample_init_deterministic samples group window k cols rows aug bal mode r1 r2
      (h1 h2 : nat -> S) :
  h1 r1 = h2 r2 ->
  match DnaSampleGenerator.init samples group window k cols rows aug bal mode r1 h1,
        DnaSampleGenerator.init samples group window k cols rows aug bal mode r2 h2 with
  | (Ok g1, h1'), (Ok g2, h2') =>
      corresponds DnaSampleGenerator.rng sample_erase (h1', g1) (h2', g2) /\
      DnaSampleGenerator.rng g1 = r1 /\ DnaSampleGenerator.rng g2 = r2 /\
      (forall x, x <> r1 -> h1' x = h1 x) /\ (forall x, x <> r2 -> h2' x = h2 x)
  | (Raise e1, h1'), (Raise e2, h2') =>
      e1 = e2 /\ (forall x, x <> r1 -> h1' x = h1 x)
  | _, _ => False
  end.
Proof.
  intros Hs. unfold DnaSampleGenerator.init.
  destruct (balance_lengths bal (map archive_len samples)) as [lens|e]; [|done].
  match goal with
  | |- context [DnaSampleGenerator.shuffle (h1, ?a)] => set (self1 := a)
  end.
  match goal with
  | |- context [DnaSampleGenerator.shuffle (h2, ?a)] => set (self2 := a)
  end.
  destruct (sample_shuffle_deterministic (S := S)) as [Hdet Hframe].
  assert (Hc : corresponds DnaSampleGenerator.rng sample_erase
                 (h1, self1) (h2, self2)) by (by split).
  destruct (Hdet _ _ Hc) as [Hout Hc'].
  pose proof (Hframe (h1, self1)) as [Hr1 Hf1].
  pose proof (Hframe (h2, self2)) as [Hr2 Hf2].
  destruct (DnaSampleGenerator.shuffle (h1, self1)) as [[[]|e1] [h1' g1]],
           (DnaSampleGenerator.shuffle (h2, self2)) as [[[]|e2] [h2' g2]];
    simpl in *; try done.
  split; [congruence | done].
Qed.
End seeded_generators.

(** ** Identically seeded generators *)

Section seeded_sessions.
Context {S : Type} `{Generator S}.

Lemma sequence_separate_sessions samples window k cols rows aug bal mode r1 r2
      (h1 h2 : nat -> S) :
  h1 r1 = h2 r2 ->
  match DnaSequenceGenerator.init samples window k cols rows aug bal mode r1 h1,
        DnaSequenceGenerator.init samples window k cols rows aug bal mode r2 h2 with
  | (Ok g1, h1'), (Ok g2, h2') =>
      forall n batch_index,
        (DnaSequenceGenerator.getitem batch_index
           (epochs DnaSequenceGenerator.on_epoch_end n (h1', g1))).1
        = (DnaSequenceGenerator.getitem batch_index
             (epochs DnaSequenceGenerator.on_epoch_end n (h2', g2))).1
  | (Raise e1, _), (Raise e2, _) => e1 = e2
  | _, _ => False
  end.
Proof.
  intros Hs.
  pose proof (sequence_init_deterministic samples window k cols rows aug bal mode
                r1 r2 h1 h2 Hs) as Hinit.
  destruct (DnaSequenceGenerator.init samples window k cols rows aug bal mode r1 h1)
    as [[g1|e1] h1'],
    (DnaSequenceGenerator.init samples window k cols rows aug bal mode r2 h2)
    as [[g2|e2] h2']; try done; [|by destruct Hinit].
  destruct Hinit as (Hc & _). intros n batch_index.
  eapply epochs_items; [| |exact Hc].
  - apply sequence_shuffle_deterministic.
  - intros b. apply sequence_getitem_deterministic.
Qed.

Lemma sample_separate_sessions samples group window k cols rows aug bal mode r1 r2
      (h1 h2 : nat -> S) :
  h1 r1 = h2 r2 ->
  match DnaSampleGenerator.init samples group window k cols rows aug bal mode r1 h1,
        DnaSampleGenerator.init samples group window k cols rows aug bal mode r2 h2 with
  | (Ok g1, h1'), (Ok g2, h2') =>
      forall n batch_index,
        (DnaSampleGenerator.getitem batch_index
           (epochs DnaSampleGenerator.on_epoch_end n (h1', g1))).1
        = (DnaSampleGenerator.getitem batch_index
             (epochs DnaSampleGenerator.on_epoch_end n (h2', g2))).1
  | (Raise e1, _), (Raise e2, _) => e1 = e2
  | _, _ => False
  end.
Proof.
  intros Hs.
  pose proof (sample_init_deterministic samples group window k cols rows aug bal mode
                r1 r2 h1 h2 Hs) as Hinit.
  destruct (DnaSampleGenerator.init samples group window k cols rows aug bal mode r1 h1)
    as [[g1|e1] h1'],
    (DnaSampleGenerator.init samples group window k cols rows aug bal mode r2 h2)
    as [[g2|e2] h2']; try done; [|by destruct Hinit].
  destruct Hinit as (Hc & _). intros n batch_index.
  eapply epochs_items; [| |exact Hc].
  - apply sample_shuffle_deterministic.
  - intros b. apply sample_getitem_deterministic.
Qed.

Lemma sequence_shared_sessions samples window k cols rows aug bal mode r1 r2
      (h : nat -> S) :
  r1 <> r2 -> h r1 = h r2 ->
  match DnaSequenceGenerator.init samples window k cols rows aug bal mode r1 h with
  | (Ok g1, h') =>
      match DnaSequenceGenerator.init samples window k cols rows aug bal mode r2 h' with
      | (Ok g2, h'') =>
          forall n batch_index,
            let w := lockstep DnaSequenceGenerator.on_epoch_end n (h'', g1, g2) in
            (DnaSequenceGenerator.getitem batch_index (w.1.1, w.1.2)).1
            = (DnaSequenceGenerator.getitem batch_index (w.1.1, w.2)).1
      | (Raise _, _) => False
      end
  | (Raise e1, h') =>
      (DnaSequenceGenerator.init samples window k cols rows aug bal mode r2 h').1
      = Raise e1
  end.
Proof.
  intros Hne Hs.
  pose proof (fun h2 => sequence_init_deterministic samples window k cols rows aug bal
                mode r1 r2 h h2) as Hinit.
  destruct (DnaSequenceGenerator.init samples window k cols rows aug bal mode r1 h)
    as [[g1|e1] h'] eqn:Hrun1.
  - assert (Hs' : h r1 = h' r2).
    { specialize (Hinit h Hs).
      destruct (DnaSequenceGenerator.init samples window k cols rows aug bal mode r2 h)
        as [[g2|e2] h2']; [|done].
      destruct Hinit as (_ & _ & _ & Hf & _). rewrite Hf by congruence. done. }
    specialize (Hinit h' Hs').
    destruct (DnaSequenceGenerator.init samples window k cols rows aug bal mode r2 h')
      as [[g2|e2] h'']; [|done].
    destruct Hinit as ((He & Hst) & Hr1 & Hr2 & _ & Hf2). simpl in He, Hst.
    intros n batch_index. cbv zeta.
    apply (lockstep_items DnaSequenceGenerator.rng sequence_erase).
    + apply sequence_shuffle_deterministic.
    + intros b. apply sequence_getitem_deterministic.
    + unfold paired. simpl. split; [done|]. split; [congruence|].
      rewrite <- Hst, Hr1. apply Hf2. done.
  - assert (Hs' : h r1 = h' r2).
    { specialize (Hinit h Hs).
      destruct (DnaSequenceGenerator.init samples window k cols rows aug bal mode r2 h)
        as [[g2|e2] h2']; [done|].
      destruct Hinit as (_ & Hf). rewrite Hf by congruence. done. }
    specialize (Hinit h' Hs').
    destruct (DnaSequenceGenerator.init samples window k cols rows aug bal mode r2 h')
      as [[g2|e2] h'']; [done|].
    destruct Hinit as (-> & _). done.
Qed.

Lemma sample_shared_sessions samples group window k cols rows aug bal mode r1 r2
      (h : nat -> S) :
  r1 <> r2 -> h r1 = h r2 ->
  match DnaSampleGenerator.init samples group window k cols rows aug bal mode r1 h with
  | (Ok g1, h') =>
      match DnaSampleGenerator.init samples group window k cols rows aug bal mode r2 h' with
      | (Ok g2, h'') =>
          forall n batch_index,
            let w := lockstep DnaSampleGenerator.on_epoch_end n (h'', g1, g2) in
            (DnaSampleGenerator.getitem batch_index (w.1.1, w.1.2)).1
            = (DnaSampleGenerator.getitem batch_index (w.1.1, w.2)).1
      | (Raise _, _) => False
      end
  | (Raise e1, h') =>
      (DnaSampleGenerator.init samples group window k cols rows aug bal mode r2 h').1
      = Raise e1
  end.
Proof.
  intros Hne Hs.
  pose proof (fun h2 => sample_init_deterministic samples group window k cols rows aug
                bal mode r1 r2 h h2) as Hinit.
  destruct (DnaSampleGenerator.init samples group window k cols rows aug bal mode r1 h)
    as [[g1|e1] h'] eqn:Hrun1.
  - assert (Hs' : h r1 = h' r2).
    { specialize (Hinit h Hs).
      destruct (DnaSampleGenerator.init samples group window k cols rows aug bal mode r2 h)
        as [[g2|e2] h2']; [|done].
      destruct Hinit as (_ & _ & _ & Hf & _). rewrite Hf by congruence. done. }
    specialize (Hinit h' Hs').
    destruct (DnaSampleGenerator.init samples group window k cols rows aug bal mode r2 h')
      as [[g2|e2] h'']; [|done].
    destruct Hinit as ((He & Hst) & Hr1 & Hr2 & _ & Hf2). simpl in He, Hst.
    intros n batch_index. cbv zeta.
    apply (lockstep_items DnaSampleGenerator.rng sample_erase).
    + apply sample_shuffle_deterministic.
    + intros b. apply sample_getitem_deterministic.
    + unfold paired. simpl. split; [done|]. split; [congruence|].
      rewrite <- Hst, Hr1. apply Hf2. done.
  - assert (Hs' : h r1 = h' r2).
    { specialize (Hinit h Hs).
      destruct (DnaSampleGenerator.init samples group window k cols rows aug bal mode r2 h)
        as [[g2|e2] h2']; [done|].
      destruct Hinit as (_ & Hf). rewrite Hf by congruence. done. }
    specialize (Hinit h' Hs').
    destruct (DnaSampleGenerator.init samples group window k cols rows aug bal mode r2 h')
      as [[g2|e2] h'']; [done|].
    destruct Hinit as (-> & _). done.
Qed.
End seeded_sessions.

(** ** Determinism of seeded generators *)

Section seeded_claim.
Context {S : Type} `{Generator S}.

(** C2.  Two generators of the same class built over the same archives
    with the same configuration, each with a random generator object of
    its own ([r1], [r2]) whose state is the same at construction
    (identically seeded), behave alike: both constructors raise the same
    exception, or both return and [__getitem__] gives the same outcome
    (the same batch and labels, or the same exception) at every batch
    index after any number [n] of [on_epoch_end] calls.  Stated for
    [DnaSequenceGenerator] and [DnaSampleGenerator], with the two
    generator objects in separate stores, and in one store as two distinct
    objects, stepped together at each epoch boundary. *)
Theorem seeded_generators_identical_batches :
  (forall samples window k cols rows aug bal mode r1 r2 (h1 h2 : nat -> S),
      h1 r1 = h2 r2 ->
      sessions_agree DnaSequenceGenerator.on_epoch_end DnaSequenceGenerator.getitem
        (DnaSequenceGenerator.init samples window k cols rows aug bal mode r1 h1)
        (DnaSequenceGenerator.init samples window k cols rows aug bal mode r2 h2)) /\
  (forall samples group window k cols rows aug bal mode r1 r2 (h1 h2 : nat -> S),
      h1 r1 = h2 r2 ->
      sessions_agree DnaSampleGenerator.on_epoch_end DnaSampleGenerator.getitem
        (DnaSampleGenerator.init samples group window k cols rows aug bal mode r1 h1)
        (DnaSampleGenerator.init samples group window k cols rows aug bal mode r2 h2)) /\
  (forall samples window k cols rows aug bal mode r1 r2 (h : nat -> S),
      r1 <> r2 -> h r1 = h r2 ->
      shared_sessions_agree
        DnaSequenceGenerator.on_epoch_end DnaSequenceGenerator.getitem
        (DnaSequenceGenerator.init samples window k cols rows aug bal mode r1)
        (DnaSequenceGenerator.init samples window k cols rows aug bal mode r2) h) /\
  (forall samples group window k cols rows aug bal mode r1 r2 (h : nat -> S),
      r1 <> r2 -> h r1 = h r2 ->
      shared_sessions_agree
        DnaSampleGenerator.on_epoch_end DnaSampleGenerator.getitem
        (DnaSampleGenerator.init samples group window k cols rows aug bal mode r1)
        (DnaSampleGenerator.init samples group window k cols rows aug bal mode r2) h).
Proof.
  split; [|split; [|split]].
  - intros. by apply sequence_separate_sessions.
  - intros. by apply sample_separate_sessions.
  - intros. by apply sequence_shared_sessions.
  - intros. by apply sample_shared_sessions.
Qed.
End seeded_claim.

Lemma seeded_generators_identical_batches_witness :
  sessions_agree DnaSequenceGenerator.on_epoch_end DnaSequenceGenerator.getitem
    (DnaSequenceGenerator.init [sample_a; sample_b] 4 2 3 2 true true
       (Some SampleIds) 0%nat (fun _ => 7))
    (DnaSequenceGenerator.init [sample_a; sample_b] 4 2 3 2 true true
       (Some SampleIds) 1%nat (fun r => if decide (r = 1%nat) then 7 else 0)) /\
  shared_sessions_agree DnaSampleGenerator.on_epoch_end DnaSampleGenerator.getitem
    (DnaSampleGenerator.init [sample_a; sample_b] 2 4 2 3 2 true true
       (Some SampleIds) 0%nat)
    (DnaSampleGenerator.init [sample_a; sample_b] 2 4 2 3 2 true true
       (Some SampleIds) 1%nat) (fun _ => 7).
Proof.
  destruct (seeded_generators_identical_batches (S := Z))
    as (Hseq & _ & _ & Hgrp).
  split.
  - apply Hseq. reflexivity.
  - apply Hgrp; [lia | reflexivity].
Defined.

(** * Further properties *)

(** ** K-mer codes determine the window *)

(** The code of a slice of base codes, read as a numeral in base 5. *)
Lemma kmer_code_slice k window i :
  (2 <= k <= 27)%nat -> Forall base_code window ->
  (i + k <= length window)%nat ->
  dot64 (drop i window) (rev (kmer_kernel k))
  = dot (rev (weights k)) (take k (drop i window)).
Proof.
  intros Hk Hcodes Hi.
  assert (Hsl : Forall base_code (take k (drop i window)))
    by (by apply Forall_take, Forall_drop).
  pose proof (dot_rev_weights_range k (take k (drop i window))) as Hr.
  rewrite length_take, length_drop in Hr.
  specialize (Hr ltac:(lia) Hsl).
  rewrite kmer_kernel_weights by lia.
  rewrite <- dot64_take_l, length_rev, weights_length.
  rewrite dot64_exact.
  - apply dot_comm.
  - by apply base_codes_nonneg.
  - apply rev_weights_nonneg.
  - rewrite dot_comm. pose proof (pow5_27_lt k). lia.
Qed.

(** Two slices of base codes with the same code are the same slice. *)
Lemma dot_rev_weights_inj k s1 s2 :
  length s1 = k -> length s2 = k ->
  Forall base_code s1 -> Forall base_code s2 ->
  dot (rev (weights k)) s1 = dot (rev (weights k)) s2 -> s1 = s2.
Proof.
  revert s1 s2. induction k as [|k IH]; intros s1 s2 Hl1 Hl2 Hc1 Hc2 Heq.
  - destruct s1, s2; done.
  - destruct s1 as [|d1 s1]; [done|]. destruct s2 as [|d2 s2]; [done|].
    inversion Hc1 as [|? ? Hd1 Hc1']; subst.
    inversion Hc2 as [|? ? Hd2 Hc2']; subst.
    simpl in Hl1, Hl2.
    rewrite weights_succ, rev_app_distr in Heq. simpl in Heq.
    pose proof (dot_rev_weights_range k s1 ltac:(lia) Hc1') as Hr1.
    pose proof (dot_rev_weights_range k s2 ltac:(lia) Hc2') as Hr2.
    assert (Hd : d1 = d2) by (unfold base_code in *; nia).
    subst d2. f_equal. apply IH; [lia | lia | done | done | lia].
Qed.

(** A list is determined by its slices of length [k]. *)
Lemma slices_determine {A} (k : nat) (x y : list A) :
  (1 <= k <= length x)%nat -> length x = length y ->
  (forall i, (i + k <= length x)%nat -> take k (drop i x) = take k (drop i y)) ->
  x = y.
Proof.
  intros Hk Hlen Hall. apply list_eq. intros j.
  destruct (decide (j < length x)%nat) as [Hj|Hj].
  - set (i := Nat.min j (length x - k)).
    assert (Hi : (i + k <= length x)%nat) by lia.
    pose proof (f_equal (fun l => l !! (j - i)%nat) (Hall i Hi)) as Hl.
    simpl in Hl. rewrite !lookup_take_lt, !lookup_drop in Hl by lia.
    replace (i + (j - i))%nat with j in Hl by lia. done.
  - rewrite !lookup_ge_None_2 by lia. done.
Qed.

(** X1: the encoder loses nothing.  Two windows of base codes, each at
    least [kmer] long, that encode to the same k-mer codes are the same
    window ([1 <= kmer <= 27], the codes being exact in int64). *)
Theorem to_kmers_injective (k : nat) (x y : list Z) :
  (1 <= k <= 27)%nat ->
  Forall base_code x -> Forall base_code y ->
  (k <= length x)%nat -> (k <= length y)%nat ->
  to_kmers k x = to_kmers k y -> x = y.
Proof.
  intros Hk Hx Hy Hlx Hly Heq.
  destruct (decide (k = 1%nat)) as [->|Hne].
  { unfold to_kmers in Heq. simpl in Heq. congruence. }
  rewrite !to_kmers_convolve in Heq by lia.
  injection Heq as Heq.
  assert (Hlen : length x = length y).
  { apply (f_equal length) in Heq.
    rewrite !correlate_valid_length, length_rev, kmer_kernel_length in Heq. lia. }
  apply (slices_determine k); [lia | done |]. intros i Hi.
  apply (dot_rev_weights_inj k).
  - rewrite length_take, length_drop. lia.
  - rewrite length_take, length_drop. lia.
  - by apply Forall_take, Forall_drop.
  - by apply Forall_take, Forall_drop.
  - rewrite <- !kmer_code_slice by (done || lia).
    apply (f_equal (fun l => l !! i)) in Heq.
    rewrite !correlate_valid_lookup in Heq
      by (rewrite length_rev, kmer_kernel_length; lia).
    congruence.
Qed.

Lemma to_kmers_injective_witness : [1; 2; 3; 4] = [1; 2; 3; 4].
Proof.
  apply (to_kmers_injective 2 [1; 2; 3; 4] [1; 2; 3; 4]).
  - lia.
  - repeat constructor; unfold base_code; lia.
  - repeat constructor; unfold base_code; lia.
  - simpl. lia.
  - simpl. lia.
  - reflexivity.
Defined.

(** ** [batch_to_kmers] and the range of [kmer] *)

Lemma assign_row_mismatch {A} n (v : list A) :
  length v <> n -> length v <> 1%nat -> assign_row n v = Raise ValueError.
Proof.
  intros Hn H1. unfold assign_row. destruct (decide _); [done|].
  by destruct v as [|x [|y v]].
Qed.

Section kmer_range.
Context {S : Type} `{Generator S}.

(** The step of [batch_to_kmers] on one window, for a [kmer] outside
    [1 .. sequence_length]: with [kmer = 0] the window is assigned to a
    row one longer than itself; with [kmer = sequence_length + 1]
    [np.convolve] slides the window along the kernel and returns two
    codes for a row of extent 0. *)
Lemma kmer_row_mismatch (Self : Type) (window k : nat) (sequence : list Z)
      (st : (nat -> S) * Self) :
  length sequence = window -> (2 <= window)%nat ->
  k = 0%nat \/ k = Datatypes.S window ->
  ((codes ← lift (to_kmers k sequence);
    row ← lift (assign_row (Z.to_nat (Z.of_nat window - Z.of_nat k + 1)) codes);
    mret (map f64_of_int row)) : M S Self (list Z)) st = (Raise ValueError, st).
Proof.
  intros Hlen Hwin [->| ->].
  - erewrite bind_run; [|reflexivity].
    apply bind_raise. unfold lift. rewrite assign_row_mismatch; [done|lia|lia].
  - erewrite bind_run.
    2: { unfold lift, to_kmers. destruct (Nat.ltb_spec 1 (Datatypes.S window)); [|lia].
         rewrite np_convolve_valid_short by (rewrite kmer_kernel_length; lia).
         reflexivity. }
    apply bind_raise. unfold lift. rewrite assign_row_mismatch; [done| |];
      rewrite correlate_valid_length, length_rev, kmer_kernel_length; lia.
Qed.

(** X2: [DnaSequenceGenerator.batch_to_kmers], on a batch of one window
    at least, each [sequence_length >= 2] long, returns exactly when
    [1 <= kmer <= sequence_length]; for [kmer = 0] and for
    [kmer > sequence_length] it raises [ValueError]. *)
Theorem batch_to_kmers_kmer_range (st : (nat -> S) * DnaSequenceGenerator.t)
        (row : list Z) (rest : list (list Z)) :
  (2 <= DnaSequenceGenerator.sequence_length st.2)%nat ->
  Forall (fun r => length r = DnaSequenceGenerator.sequence_length st.2)
         (row :: rest) ->
  ((1 <= DnaSequenceGenerator.kmer st.2
    <= DnaSequenceGenerator.sequence_length st.2)%nat ->
   exists x, DnaSequenceGenerator.batch_to_kmers (row :: rest) st = (Ok x, st)) /\
  (~ (1 <= DnaSequenceGenerator.kmer st.2
      <= DnaSequenceGenerator.sequence_length st.2)%nat ->
   DnaSequenceGenerator.batch_to_kmers (row :: rest) st = (Raise ValueError, st)).
Proof.
  intros Hwin Hrows. split.
  - intros Hk. by apply sequence_batch_to_kmers_total.
  - intros Hk. unfold DnaSequenceGenerator.batch_to_kmers.
    erewrite bind_run; [|reflexivity].
    erewrite bind_run; [|reflexivity].
    destruct (Z.ltb_spec (Z.of_nat (DnaSequenceGenerator.sequence_length st.2)
                          - Z.of_nat (DnaSequenceGenerator.kmer st.2) + 1) 0);
      [done|].
    apply mapM_head_raise. apply kmer_row_mismatch; [|done|lia].
    by inversion Hrows.
Qed.
End kmer_range.

Lemma batch_to_kmers_kmer_range_witness :
  exists x,
    DnaSequenceGenerator.batch_to_kmers [[1; 2; 3; 4]; [0; 0; 0; 0]]
      (fun _ => 7, sequence_example) = (Ok x, (fun _ => 7, sequence_example)).
Proof.
  destruct (batch_to_kmers_kmer_range (S := Z) (fun _ => 7, sequence_example)
              [1; 2; 3; 4] [[0; 0; 0; 0]]) as [Hin _].
  - vm_compute. lia.
  - repeat constructor.
  - apply Hin. vm_compute. lia.
Defined.

(** ** The rows of a batch *)

Lemma py_slice_in_range {A} (s : list A) a b :
  0 <= a <= b -> b <= Z.of_nat (length s) ->
  py_slice s a b = take (Z.to_nat (b - a)) (drop (Z.to_nat a) s).
Proof.
  intros Hab Hb. unfold py_slice.
  destruct (Z.ltb_spec a 0); [lia|]. destruct (Z.ltb_spec b 0); [lia|].
  by rewrite !Z.min_l by lia.
Qed.

Lemma py_slice_elem {A} (s : list A) a b x : x ∈ py_slice s a b -> x ∈ s.
Proof.
  unfold py_slice. intros Hx.
  eapply elem_of_sublist; [exact Hx|].
  etrans; [apply sublist_take | apply sublist_drop].
Qed.

Lemma py_slice_length {A} (s : list A) a b :
  (length (py_slice s a b) <= length s)%nat.
Proof. unfold py_slice. rewrite length_take, length_drop. lia. Qed.

(** What a row of [batch] holds after
    [batch[i] = np.frombuffer(self.clip_sequence(sequence, offset))]: the
    [sequence_length] bases of [sequence] from [offset] on when the
    sequence is long enough, and one base of the sequence, repeated, when
    it is shorter (the assignment broadcasts a slice of one base, and
    refuses any other). *)
Definition window_row (sequence_length : nat) (sequence : list byte) (offset : Z)
    (row : list Z) : Prop :=
  ((sequence_length <= length sequence)%nat ->
   0 <= offset <= Z.of_nat (length sequence) - Z.of_nat sequence_length /\
   row = frombuffer (take sequence_length (drop (Z.to_nat offset) sequence))) /\
  ((length sequence < sequence_length)%nat ->
   exists base, base ∈ frombuffer sequence /\ row = replicate sequence_length base).

Lemma assign_clip_window_row window (sequence : list byte) offset row :
  ((window <= length sequence)%nat ->
   0 <= offset <= Z.of_nat (length sequence) - Z.of_nat window) ->
  assign_row window (frombuffer (clip_sequence window sequence offset)) = Ok row ->
  window_row window sequence offset row.
Proof.
  intros Hoff Hrow. split.
  - intros Hlong. specialize (Hoff Hlong). split; [done|].
    unfold clip_sequence in Hrow.
    rewrite py_slice_in_range in Hrow by lia.
    replace (Z.to_nat (offset + Z.of_nat window - offset)) with window in Hrow by lia.
    rewrite assign_row_same in Hrow; [congruence|].
    unfold frombuffer. rewrite length_map, length_take, length_drop. lia.
  - intros Hshort. unfold assign_row in Hrow.
    pose proof (py_slice_length sequence offset (offset + Z.of_nat window)) as Hle.
    fold (clip_sequence window sequence offset) in Hle.
    destruct (decide _) as [Hlen|_].
    { unfold frombuffer in Hlen. rewrite length_map in Hlen. lia. }
    destruct (frombuffer (clip_sequence window sequence offset))
      as [|base [|]] eqn:Hclip; try done.
    injection Hrow as <-. exists base. split; [|done].
    assert (Hin : base ∈ frombuffer (clip_sequence window sequence offset))
      by (rewrite Hclip; by left).
    unfold frombuffer in *.
    apply list_elem_of_fmap in Hin as (c & -> & Hc).
    apply list_elem_of_fmap. exists c. split; [done|]. by eapply py_slice_elem.
Qed.

Module SequenceRows.
Import DnaSequenceGenerator SequenceFacts.

Section rows.
Context {S : Type} `{GeneratorSpec S}.

(** Slot [i] of batch [b]: the archive, the key, the sequence stored
    under it and the clip offset, as [generate_batch] calls for it. *)
Definition slot (g : t) (h : nat -> S) (b i : nat) (a : Z) (sequence : list byte)
    (offset : Z) : Prop :=
  exists sample key,
    cell (sample_indices g) b i = Some a /\
    0 <= a < Z.of_nat (num_samples g) /\
    samples g !! Z.to_nat a = Some sample /\
    cell (sequence_indices g) b i = Some key /\
    archive_get sample key = Ok sequence /\
    (augment_offset_fn Keyword (Z.of_nat (length sequence))
       (Z.of_nat b, Z.of_nat i) (h, g)).1 = Ok offset.

Lemma seq_generate_batch_steps g (h : nat -> S) (b : nat) batch st' :
  reachable g -> (b < batches_per_epoch g)%nat ->
  generate_batch (Z.of_nat b) (h, g) = (Ok batch, st') ->
  length batch = batch_size g /\
  forall i row, batch !! i = Some row ->
    (i < batch_size g)%nat /\
    exists a sequence offset,
      slot g h b i a sequence offset /\
      assign_row (sequence_length g)
        (frombuffer (clip_sequence (sequence_length g) sequence offset)) = Ok row.
Proof.
  intros Hg Hb Hrun.
  pose proof (seq_reachable_inv g Hg) as (Hc & (Hsi & Hrange & Hqi & _) & Hk).
  destruct Hc as [Hn _].
  pose proof (sequence_generate_batch_shape _ _ _ _ Hrun) as [Hlen _].
  split; [done|]. simpl in Hlen.
  unfold generate_batch in Hrun.
  apply bind_ok_inv in Hrun as (rows1 & st1 & [= <- <-] & Hrun).
  apply bind_ok_inv in Hrun as (srow & st1 & Hs & Hrun).
  injection Hs as Hsrow <-.
  apply bind_ok_inv in Hrun as (rows2 & st1 & [= <- <-] & Hrun).
  apply bind_ok_inv in Hrun as (qrow & st1 & Hq & Hrun).
  injection Hq as Hqrow <-.
  apply bind_ok_inv in Hrun as (cols & st1 & [= <- <-] & Hrun).
  apply bind_ok_inv in Hrun as (window & st1 & [= <- <-] & Hrun).
  apply mapM_readonly_ok in Hrun as [_ Hall]; [|intros; readonly].
  apply np_index_nat_lookup in Hsrow, Hqrow. simpl in Hsrow, Hqrow.
  intros i row Hrow.
  destruct (Forall2_lookup_r _ _ _ _ _ Hall Hrow) as (i' & Hi' & Hbody).
  apply lookup_seq in Hi' as [-> Hi]. simpl in Hbody.
  match type of Hbody with
  | (?m ?st).1 = _ => destruct (m st) as [r st2] eqn:Hm
  end.
  simpl in Hbody. subst r.
  apply bind_ok_inv in Hm as (a & st3 & Ha & Hm). injection Ha as Ha <-.
  apply bind_ok_inv in Hm as (archives & st3 & [= <- <-] & Hm).
  apply bind_ok_inv in Hm as (sample & st3 & Hsample & Hm).
  injection Hsample as Hsample <-.
  apply bind_ok_inv in Hm as (key & st3 & Hkey & Hm). injection Hkey as Hkey <-.
  apply bind_ok_inv in Hm as (sequence & st3 & Hget & Hm).
  injection Hget as Hget <-.
  apply bind_ok_inv in Hm as (offset & st3 & Hoff & Hm).
  injection Hm as Hassign _.
  apply np_index_nat_lookup in Ha, Hkey.
  assert (Hcell : cell (sample_indices g) b i = Some a)
    by (apply cell_Some; by exists srow).
  assert (Har : 0 <= a < Z.of_nat (num_samples g))
    by exact (cell_Forall _ _ b i a Hrange Hcell).
  assert (Hsl : samples g !! Z.to_nat a = Some sample).
  { destruct (np_index_nonneg (samples g) a) as (sample' & Hs' & Hl'); [lia|].
    simpl in Hsample. congruence. }
  split; [lia|]. exists a, sequence, offset. split; [|done].
  exists sample, key. split; [done|]. split; [done|]. split; [done|].
  split; [apply cell_Some; by exists qrow|]. split; [done|].
  by rewrite Hoff.
Qed.

Lemma seq_generate_batch_rows g (h : nat -> S) (b : nat) batch st' :
  reachable g -> (b < batches_per_epoch g)%nat ->
  generate_batch (Z.of_nat b) (h, g) = (Ok batch, st') ->
  length batch = batch_size g /\
  forall i row, batch !! i = Some row ->
    exists a sequence offset,
      slot g h b i a sequence offset /\
      window_row (sequence_length g) sequence offset row.
Proof.
  intros Hg Hb Hrun.
  destruct (seq_generate_batch_steps g h b batch st' Hg Hb Hrun) as [Hlen Hsteps].
  split; [done|]. intros i row Hrow.
  destruct (Hsteps i row Hrow) as (Hi & a & sequence & offset & Hslot & Hassign).
  exists a, sequence, offset. split; [done|].
  apply assign_clip_window_row; [|done]. intros Hlong.
  destruct Hslot as (sample & key & _ & _ & _ & _ & _ & Hoff).
  pose proof (readonly_run _ (h, g)
                (sequence_augment_offset_fn_readonly Keyword
                   (Z.of_nat (length sequence)) (Z.of_nat b, Z.of_nat i))) as Hrun'.
  rewrite Hoff in Hrun'.
  exact (seq_offset_in_window g h Keyword (Z.of_nat b) i
           (Z.of_nat (length sequence)) offset (h, g)
           Hg ltac:(lia) Hi ltac:(lia) Hrun').
Qed.

Lemma seq_getitem_inv g (h : nat -> S) batch_index x label st' :
  getitem batch_index (h, g) = (Ok (x, label), st') ->
  st' = (h, g) /\
  exists batch,
    generate_batch batch_index (h, g) = (Ok batch, (h, g)) /\
    batch_to_kmers batch (h, g) = (Ok x, (h, g)) /\
    match labels g with
    | Some SampleIds =>
        exists ids, np_index (sample_indices g) batch_index = Ok ids /\
                    label = Some (SampleIdLabels ids)
    | Some OneMer => label = Some (OneMerLabels batch)
    | Some KMer => label = Some (KMerLabels x)
    | None => label = None
    end.
Proof.
  intros Hrun.
  pose proof (readonly_run _ (h, g) (sequence_getitem_readonly batch_index)) as Hro.
  rewrite Hrun in Hro. injection Hro as ->. split; [done|].
  unfold getitem in Hrun.
  apply bind_ok_inv in Hrun as (batch & st1 & Hgen & Hpost).
  pose proof (readonly_run _ (h, g) (sequence_generate_batch_readonly batch_index))
    as Hro.
  rewrite Hgen in Hro. injection Hro as ->.
  exists batch. split; [done|].
  unfold post_process_batch in Hpost.
  apply bind_ok_inv in Hpost as (mode & st1 & [= <- <-] & Hpost).
  assert (Hkm : forall y st2, batch_to_kmers batch (h, g) = (Ok y, st2) -> st2 = (h, g)).
  { intros y st2 Hy.
    pose proof (readonly_run _ (h, g) (sequence_batch_to_kmers_readonly batch)) as Hro.
    rewrite Hy in Hro. by injection Hro as ->. }
  destruct (labels g) as [[]|];
    apply bind_ok_inv in Hpost as (y & st2 & Hy & Hpost);
    pose proof (Hkm y st2 Hy) as ->.
  - apply bind_ok_inv in Hpost as (rows & st3 & [= <- <-] & Hpost).
    apply bind_ok_inv in Hpost as (ids & st3 & Hids & Hpost).
    injection Hids as Hids <-. injection Hpost as <- <-.
    split; [done|]. by exists ids.
  - injection Hpost as <- <-. by split.
  - injection Hpost as <- <-. by split.
  - injection Hpost as <- <-. by split.
Qed.

Lemma seq_batch_to_kmers_rows (st st' : (nat -> S) * t) batch x :
  (1 <= kmer st.2 <= sequence_length st.2)%nat ->
  Forall (fun row => length row = sequence_length st.2) batch ->
  batch_to_kmers batch st = (Ok x, st') ->
  Forall2 (fun row feat => exists codes, to_kmers (kmer st.2) row = Ok codes /\
                                         feat = map f64_of_int codes) batch x.
Proof.
  intros Hk Hrows Hrun. unfold batch_to_kmers in Hrun.
  apply bind_ok_inv in Hrun as (window & st1 & [= <- <-] & Hrun).
  apply bind_ok_inv in Hrun as (k & st1 & [= <- <-] & Hrun).
  destruct (_ <? 0); [done|].
  apply mapM_readonly_ok in Hrun as [_ Hall]; [|intros; readonly].
  clear st'. induction Hall as [|row feat batch x Hrow _ IH]; [constructor|].
  inversion Hrows as [|? ? Hlen Hrows']; subst.
  constructor; [|by apply IH].
  destruct (to_kmers_length (kmer st.2) row ltac:(lia)) as (codes & Hcodes & Hl).
  exists codes. split; [done|].
  unfold mbind, M_bind, lift in Hrow. simpl in Hrow.
  rewrite Hcodes in Hrow. simpl in Hrow.
  rewrite assign_row_same in Hrow by lia. simpl in Hrow. congruence.
Qed.
End rows.
End SequenceRows.

Lemma frombuffer_range (b : list byte) :
  Forall (fun v => 0 <= v < 256) (frombuffer b).
Proof.
  apply Forall_forall. intros v (c & <- & _)%in_map_iff.
  pose proof (Byte.to_N_bounded c). lia.
Qed.

Lemma f64_of_int_bytes (row : list Z) :
  Forall (fun v => 0 <= v < 256) row -> map f64_of_int row = row.
Proof.
  induction 1 as [|v row Hv _ IH]; [done|]. simpl.
  rewrite IH, f64_of_int_small by lia. done.
Qed.

Lemma window_row_range window sequence offset row :
  window_row window sequence offset row -> Forall (fun v => 0 <= v < 256) row.
Proof.
  intros [Hlong Hshort].
  destruct (decide (window <= length sequence)%nat) as [Hl|Hl].
  - destruct (Hlong Hl) as [_ ->]. apply frombuffer_range.
  - destruct (Hshort ltac:(lia)) as (base & Hbase & ->).
    pose proof (frombuffer_range sequence) as Hall.
    rewrite Forall_forall in Hall. apply list_elem_of_In, Hall in Hbase.
    apply Forall_forall. intros v Hv.
    by apply list_elem_of_In, elem_of_replicate in Hv as [-> _].
Qed.

Section sequence_rows.
Context {S : Type} `{GeneratorSpec S}.

(** X3: what [DnaSequenceGenerator.__getitem__] serves.  When
    [__getitem__(b)] returns, with [1 <= kmer <= sequence_length], it
    returns [batch_size] rows of features, and row [i] is the k-mer
    encoding (converted to float64) of a row of bases cut from the
    sequence that the epoch tables name for slot [(b, i)]: the sequence
    stored under key [sequence_indices[b, i]] in archive
    [samples[sample_indices[b, i]]], from the slot's clip offset on when
    it is [sequence_length] long at least; a shorter sequence gives one of
    its bases repeated (numpy broadcasts the assignment of one base). *)
Theorem sequence_rows_are_windows (g : DnaSequenceGenerator.t) (h : nat -> S)
        (b : nat) x label st' :
  SequenceFacts.reachable g ->
  (b < DnaSequenceGenerator.batches_per_epoch g)%nat ->
  (1 <= DnaSequenceGenerator.kmer g <= DnaSequenceGenerator.sequence_length g)%nat ->
  DnaSequenceGenerator.getitem (Z.of_nat b) (h, g) = (Ok (x, label), st') ->
  length x = DnaSequenceGenerator.batch_size g /\
  forall i feat, x !! i = Some feat ->
    exists a sequence offset row codes,
      SequenceRows.slot g h b i a sequence offset /\
      window_row (DnaSequenceGenerator.sequence_length g) sequence offset row /\
      to_kmers (DnaSequenceGenerator.kmer g) row = Ok codes /\
      feat = map f64_of_int codes.
Proof.
  intros Hg Hb Hk Hrun.
  apply SequenceRows.seq_getitem_inv in Hrun as (-> & batch & Hgen & Hkm & _).
  pose proof (sequence_generate_batch_shape _ _ _ _ Hgen) as [_ Hshape].
  destruct (SequenceRows.seq_generate_batch_rows g h b batch _ Hg Hb Hgen)
    as [Hlen Hrows].
  pose proof (SequenceRows.seq_batch_to_kmers_rows (h, g) (h, g) batch x Hk Hshape Hkm)
    as Hall.
  split; [apply Forall2_length in Hall as <-; done|].
  intros i feat Hfeat.
  destruct (Forall2_lookup_r _ _ _ _ _ Hall Hfeat) as (row & Hrow & codes & Hc & ->).
  destruct (Hrows i row Hrow) as (a & sequence & offset & Hslot & Hwin).
  by exists a, sequence, offset, row, codes.
Qed.

Lemma seq_getitem_labels (g : DnaSequenceGenerator.t) (h : nat -> S)
        (b : nat) x label st' :
  SequenceFacts.reachable g ->
  (b < DnaSequenceGenerator.batches_per_epoch g)%nat ->
  DnaSequenceGenerator.getitem (Z.of_nat b) (h, g) = (Ok (x, label), st') ->
  match DnaSequenceGenerator.labels g with
  | Some SampleIds =>
      exists ids,
        label = Some (SampleIdLabels ids) /\
        DnaSequenceGenerator.sample_indices g !! b = Some ids /\
        length ids = DnaSequenceGenerator.batch_size g /\
        Forall (fun a => 0 <= a < Z.of_nat (DnaSequenceGenerator.num_samples g)) ids
  | Some OneMer =>
      exists batch,
        label = Some (OneMerLabels batch) /\
        DnaSequenceGenerator.generate_batch (Z.of_nat b) (h, g)
        = (Ok batch, (h, g)) /\
        (DnaSequenceGenerator.kmer g = 1%nat ->
         (1 <= DnaSequenceGenerator.sequence_length g)%nat -> x = batch)
  | Some KMer => label = Some (KMerLabels x)
  | None => label = None
  end.
Proof.
  intros Hg Hb Hrun.
  apply SequenceRows.seq_getitem_inv in Hrun as (-> & batch & Hgen & Hkm & Hlabel).
  pose proof (SequenceFacts.seq_reachable_inv g Hg) as (_ & (Hsi & Hrange & _) & _).
  destruct (DnaSequenceGenerator.labels g) as [[]|]; try done.
  - destruct Hlabel as (ids & Hids & ->). exists ids.
    apply np_index_nat_lookup in Hids.
    split; [done|]. split; [done|].
    split; [by eapply table_shape_lookup|].
    by eapply Forall_lookup_1 in Hrange.
  - exists batch. split; [done|]. split; [done|]. intros Hk1 Hwin.
    pose proof (sequence_generate_batch_shape _ _ _ _ Hgen) as [_ Hshape].
    destruct (SequenceRows.seq_generate_batch_rows g h b batch _ Hg Hb Hgen)
      as [_ Hrows].
    pose proof (SequenceRows.seq_batch_to_kmers_rows (h, g) (h, g) batch x
                  ltac:(simpl; lia) Hshape Hkm) as Hall.
    simpl in Hall. rewrite Hk1 in Hall.
    apply list_eq_Forall2, Forall2_same_length_lookup.
    apply Forall2_same_length_lookup in Hall as [Hlen Hall].
    split; [done|]. intros i feat row Hfeat Hrow.
    destruct (Hall i row feat Hrow Hfeat) as (codes & [= <-] & ->).
    destruct (Hrows i row Hrow) as (a & sequence & offset & _ & Hcut).
    apply f64_of_int_bytes. by eapply window_row_range.
Qed.
End sequence_rows.

Lemma sequence_rows_are_windows_witness :
  length [[12; 12; 12]; [23; 17; 11]; [18; 16; 8]]
  = DnaSequenceGenerator.batch_size sequence_example /\
  forall i feat,
    [[12; 12; 12]; [23; 17; 11]; [18; 16; 8]] !! i = Some feat ->
    exists a sequence offset row codes,
      SequenceRows.slot sequence_example sequence_example_run.2 0 i a sequence offset /\
      window_row (DnaSequenceGenerator.sequence_length sequence_example)
        sequence offset row /\
      to_kmers (DnaSequenceGenerator.kmer sequence_example) row = Ok codes /\
      feat = map f64_of_int codes.
Proof.
  apply (sequence_rows_are_windows (S := Z) sequence_example sequence_example_run.2
           0 _ (Some (SampleIdLabels [1; 0; 1]))
           (sequence_example_run.2, sequence_example)).
  - exact sequence_example_reachable.
  - vm_compute. lia.
  - vm_compute. lia.
  - by vm_compute.
Defined.

Module SampleRows.
Import DnaSampleGenerator SampleFacts.

Section rows.
Context {S : Type} `{GeneratorSpec S}.

(** Sequence [j] of slot [i] of batch [b]: the slot's archive, the key,
    the sequence stored under it and the clip offset, as [generate_batch]
    calls for it. *)
Definition slot (g : t) (h : nat -> S) (b i j : nat) (a : Z) (sequence : list byte)
    (offset : Z) : Prop :=
  exists sample key,
    cell (sample_indices g) b i = Some a /\
    0 <= a < Z.of_nat (num_samples g) /\
    samples g !! Z.to_nat a = Some sample /\
    cell3 (sequence_indices g) b i j = Some key /\
    archive_get sample key = Ok sequence /\
    (augment_offset_fn Positional (Z.of_nat (length sequence))
       (Z.of_nat b, Z.of_nat i, Z.of_nat j) (h, g)).1 = Ok offset.

Lemma grp_generate_batch_rows g (h : nat -> S) (b : nat) batch st' :
  reachable g -> (b < batches_per_epoch g)%nat ->
  generate_batch (Z.of_nat b) (h, g) = (Ok batch, st') ->
  forall i sub, batch !! i = Some sub ->
    exists a,
      forall j row, sub !! j = Some row ->
        exists sequence offset,
          slot g h b i j a sequence offset /\
          window_row (sequence_length g) sequence offset row.
Proof.
  intros Hg Hb Hrun.
  pose proof (grp_reachable_inv g Hg) as (Hc & (Hsi & Hrange) & (Hqi & Hrows) & _).
  destruct Hc as [Hn _].
  unfold generate_batch in Hrun.
  apply bind_ok_inv in Hrun as (rows1 & st1 & [= <- <-] & Hrun).
  apply bind_ok_inv in Hrun as (srow & st1 & Hs & Hrun).
  injection Hs as Hsrow <-.
  apply bind_ok_inv in Hrun as (rows2 & st1 & [= <- <-] & Hrun).
  apply bind_ok_inv in Hrun as (plane & st1 & Hq & Hrun).
  injection Hq as Hplane <-.
  apply bind_ok_inv in Hrun as (cols & st1 & [= <- <-] & Hrun).
  apply bind_ok_inv in Hrun as (group & st1 & [= <- <-] & Hrun).
  apply bind_ok_inv in Hrun as (window & st1 & [= <- <-] & Hrun).
  apply mapM_readonly_ok in Hrun as [_ Hall]; [|intros; readonly].
  apply np_index_nat_lookup in Hsrow, Hplane. simpl in Hsrow, Hplane.
  intros i sub Hsub.
  destruct (Forall2_lookup_r _ _ _ _ _ Hall Hsub) as (i' & Hi' & Hbody).
  apply lookup_seq in Hi' as [-> Hi]. simpl in Hbody.
  match type of Hbody with
  | (?m ?st).1 = _ => destruct (m st) as [r st2] eqn:Hm
  end.
  simpl in Hbody. subst r.
  apply bind_ok_inv in Hm as (a & st3 & Ha & Hm). injection Ha as Ha <-.
  apply bind_ok_inv in Hm as (archives & st3 & [= <- <-] & Hm).
  apply bind_ok_inv in Hm as (sample & st3 & Hsample & Hm).
  injection Hsample as Hsample <-.
  apply mapM_readonly_ok in Hm as [_ Hsubrows]; [|intros; readonly].
  apply np_index_nat_lookup in Ha.
  assert (Hcell : cell (sample_indices g) b i = Some a)
    by (apply cell_Some; by exists srow).
  assert (Har : 0 <= a < Z.of_nat (num_samples g))
    by exact (cell_Forall _ _ b i a Hrange Hcell).
  assert (Hsl : samples g !! Z.to_nat a = Some sample).
  { destruct (np_index_nonneg (samples g) a) as (sample' & Hs' & Hl'); [lia|].
    simpl in Hsample. congruence. }
  exists a. intros j row Hrow.
  destruct (Forall2_lookup_r _ _ _ _ _ Hsubrows Hrow) as (j' & Hj' & Hstep).
  apply lookup_seq in Hj' as [-> Hj]. simpl in Hstep.
  match type of Hstep with
  | (?m ?st).1 = _ => destruct (m st) as [r st4] eqn:Hm
  end.
  simpl in Hstep. subst r.
  apply bind_ok_inv in Hm as (key & st5 & Hkey & Hm). injection Hkey as Hkey <-.
  apply bind_ok_inv in Hm as (sequence & st5 & Hget & Hm).
  injection Hget as Hget <-.
  apply bind_ok_inv in Hm as (offset & st5 & Hoff & Hm).
  injection Hm as Hassign _.
  apply np_index2_cell in Hkey.
  exists sequence, offset. split.
  - exists sample, key. split; [done|]. split; [done|]. split; [done|].
    split; [unfold cell3; by rewrite Hplane|]. split; [done|].
    by rewrite Hoff.
  - apply assign_clip_window_row; [|done]. intros Hlong.
    destruct (grp_offset_in_window g h (Z.of_nat b) i j (Z.of_nat (length sequence))
                Hg ltac:(lia) Hi Hj ltac:(lia)) as (offset' & Hrun' & Hrange' & _).
    rewrite Hrun' in Hoff. injection Hoff as <- _. done.
Qed.

Lemma grp_getitem_inv g (h : nat -> S) batch_index x label st' :
  getitem batch_index (h, g) = (Ok (x, label), st') ->
  st' = (h, g) /\
  exists batch,
    generate_batch batch_index (h, g) = (Ok batch, (h, g)) /\
    batch_to_kmers batch (h, g) = (Ok x, (h, g)) /\
    match labels g with
    | Some SampleIds =>
        exists ids, np_index (sample_indices g) batch_index = Ok ids /\
                    label = Some (SampleIdLabels ids)
    | Some OneMer => label = Some (OneMerLabels batch)
    | Some KMer => label = Some (KMerLabels x)
    | None => label = None
    end.
Proof.
  intros Hrun.
  pose proof (readonly_run _ (h, g) (sample_getitem_readonly batch_index)) as Hro.
  rewrite Hrun in Hro. injection Hro as ->. split; [done|].
  unfold getitem in Hrun.
  apply bind_ok_inv in Hrun as (batch & st1 & Hgen & Hpost).
  pose proof (readonly_run _ (h, g) (sample_generate_batch_readonly batch_index))
    as Hro.
  rewrite Hgen in Hro. injection Hro as ->.
  exists batch. split; [done|].
  unfold post_process_batch in Hpost.
  apply bind_ok_inv in Hpost as (mode & st1 & [= <- <-] & Hpost).
  assert (Hkm : forall y st2, batch_to_kmers batch (h, g) = (Ok y, st2) -> st2 = (h, g)).
  { intros y st2 Hy.
    pose proof (readonly_run _ (h, g) (sample_batch_to_kmers_readonly batch)) as Hro.
    rewrite Hy in Hro. by injection Hro as ->. }
  destruct (labels g) as [[]|];
    apply bind_ok_inv in Hpost as (y & st2 & Hy & Hpost);
    pose proof (Hkm y st2 Hy) as ->.
  - apply bind_ok_inv in Hpost as (rows & st3 & [= <- <-] & Hpost).
    apply bind_ok_inv in Hpost as (ids & st3 & Hids & Hpost).
    injection Hids as Hids <-. injection Hpost as <- <-.
    split; [done|]. by exists ids.
  - injection Hpost as <- <-. by split.
  - injection Hpost as <- <-. by split.
  - injection Hpost as <- <-. by split.
Qed.

Lemma super_batch_to_kmers_rows (st st' : (nat -> S) * t) sub codes :
  (1 <= kmer st.2 <= sequence_length st.2)%nat ->
  Forall (fun row => length row = sequence_length st.2) sub ->
  super_batch_to_kmers sub st = (Ok codes, st') ->
  Forall2 (fun row feat => exists out, to_kmers (kmer st.2) row = Ok out /\
                                       feat = map f64_of_int out) sub codes.
Proof.
  intros Hk Hrows Hrun. unfold super_batch_to_kmers in Hrun.
  apply bind_ok_inv in Hrun as (window & st1 & [= <- <-] & Hrun).
  apply bind_ok_inv in Hrun as (k & st1 & [= <- <-] & Hrun).
  destruct (_ <? 0); [done|].
  apply mapM_readonly_ok in Hrun as [_ Hall]; [|intros; readonly].
  clear st'. induction Hall as [|row feat sub codes Hrow _ IH]; [constructor|].
  inversion Hrows as [|? ? Hlen Hrows']; subst.
  constructor; [|by apply IH].
  destruct (to_kmers_length (kmer st.2) row ltac:(lia)) as (out & Hout & Hl).
  exists out. split; [done|].
  unfold mbind, M_bind, lift in Hrow. simpl in Hrow.
  rewrite Hout in Hrow. simpl in Hrow.
  rewrite assign_row_same in Hrow by lia. simpl in Hrow. congruence.
Qed.

Lemma grp_batch_to_kmers_rows (st st' : (nat -> S) * t) batch x :
  (1 <= kmer st.2 <= sequence_length st.2)%nat ->
  Forall (group_extent (subsample_length st.2) (sequence_length st.2)) batch ->
  batch_to_kmers batch st = (Ok x, st') ->
  Forall2 (Forall2 (fun row feat => exists out, to_kmers (kmer st.2) row = Ok out /\
                                                feat = map f64_of_int out)) batch x.
Proof.
  intros Hk Hsubs Hrun. unfold batch_to_kmers in Hrun.
  apply bind_ok_inv in Hrun as (window & st1 & [= <- <-] & Hrun).
  apply bind_ok_inv in Hrun as (k & st1 & [= <- <-] & Hrun).
  apply bind_ok_inv in Hrun as (group & st1 & [= <- <-] & Hrun).
  destruct (_ <? 0); [done|].
  apply mapM_readonly_ok in Hrun as [_ Hall];
    [|intros; apply readonly_bind;
      [apply sample_super_batch_to_kmers_readonly | intros; readonly]].
  clear st'. induction Hall as [|sub grp batch x Hsub _ IH]; [constructor|].
  inversion Hsubs as [|? ? [Hlen Hrows] Hsubs']; subst.
  constructor; [|by apply IH].
  match type of Hsub with
  | (?m st).1 = _ => destruct (m st) as [r st2] eqn:Hm
  end.
  simpl in Hsub. subst r.
  apply bind_ok_inv in Hm as (codes & st3 & Hsuper & Hassign).
  pose proof (super_batch_to_kmers_rows _ _ _ _ Hk Hrows Hsuper) as Hcodes.
  unfold lift in Hassign. injection Hassign as Hassign _.
  rewrite assign_row_same in Hassign.
  - by injection Hassign as <-.
  - apply Forall2_length in Hcodes. lia.
Qed.
End rows.
End SampleRows.

Section sample_rows.
Context {S : Type} `{GeneratorSpec S}.

(** X5: what [DnaSampleGenerator.__getitem__] serves.  When
    [__getitem__(b)] returns, with [1 <= kmer <= sequence_length], it
    returns [batch_size] groups of [subsample_length] rows of features;
    the rows of group [i] all come from one archive,
    [samples[sample_indices[b, i]]], and row [j] is the k-mer encoding
    (converted to float64) of a row of bases cut from the sequence stored
    under key [sequence_indices[b, i, j]] in that archive, from the clip
    offset of [(b, i, j)] on when it is [sequence_length] long at least;
    a shorter sequence gives one of its bases repeated. *)
Theorem sample_rows_are_windows (g : DnaSampleGenerator.t) (h : nat -> S)
        (b : nat) x label st' :
  SampleFacts.reachable g ->
  (b < DnaSampleGenerator.batches_per_epoch g)%nat ->
  (1 <= DnaSampleGenerator.kmer g <= DnaSampleGenerator.sequence_length g)%nat ->
  DnaSampleGenerator.getitem (Z.of_nat b) (h, g) = (Ok (x, label), st') ->
  length x = DnaSampleGenerator.batch_size g /\
  forall i grp, x !! i = Some grp ->
    length grp = DnaSampleGenerator.subsample_length g /\
    exists a,
      forall j feat, grp !! j = Some feat ->
        exists sequence offset row codes,
          SampleRows.slot g h b i j a sequence offset /\
          window_row (DnaSampleGenerator.sequence_length g) sequence offset row /\
          to_kmers (DnaSampleGenerator.kmer g) row = Ok codes /\
          feat = map f64_of_int codes.
Proof.
  intros Hg Hb Hk Hrun.
  apply SampleRows.grp_getitem_inv in Hrun as (-> & batch & Hgen & Hkm & _).
  pose proof (sample_generate_batch_shape _ _ _ _ Hgen) as [Hlen Hshape].
  pose proof (SampleRows.grp_generate_batch_rows g h b batch _ Hg Hb Hgen) as Hrows.
  pose proof (SampleRows.grp_batch_to_kmers_rows (h, g) (h, g) batch x Hk Hshape Hkm)
    as Hall.
  split; [apply Forall2_length in Hall as <-; done|].
  intros i grp Hgrp.
  destruct (Forall2_lookup_r _ _ _ _ _ Hall Hgrp) as (sub & Hsub & Hsubs).
  split.
  { apply Forall2_length in Hsubs as <-.
    eapply Forall_lookup_1 in Hshape as [? _]; done. }
  destruct (Hrows i sub Hsub) as (a & Ha). exists a. intros j feat Hfeat.
  destruct (Forall2_lookup_r _ _ _ _ _ Hsubs Hfeat) as (row & Hrow & codes & Hc & ->).
  destruct (Ha j row Hrow) as (sequence & offset & Hslot & Hwin).
  by exists sequence, offset, row, codes.
Qed.

Lemma grp_getitem_labels (g : DnaSampleGenerator.t) (h : nat -> S)
      (b : nat) x label st' :
  SampleFacts.reachable g ->
  (b < DnaSampleGenerator.batches_per_epoch g)%nat ->
  DnaSampleGenerator.getitem (Z.of_nat b) (h, g) = (Ok (x, label), st') ->
  match DnaSampleGenerator.labels g with
  | Some SampleIds =>
      exists ids,
        label = Some (SampleIdLabels ids) /\
        DnaSampleGenerator.sample_indices g !! b = Some ids /\
        length ids = DnaSampleGenerator.batch_size g /\
        Forall (fun a => 0 <= a < Z.of_nat (DnaSampleGenerator.num_samples g)) ids
  | Some OneMer =>
      exists batch,
        label = Some (OneMerLabels batch) /\
        DnaSampleGenerator.generate_batch (Z.of_nat b) (h, g)
        = (Ok batch, (h, g)) /\
        (DnaSampleGenerator.kmer g = 1%nat ->
         (1 <= DnaSampleGenerator.sequence_length g)%nat -> x = batch)
  | Some KMer => label = Some (KMerLabels x)
  | None => label = None
  end.
Proof.
  intros Hg Hb Hrun.
  apply SampleRows.grp_getitem_inv in Hrun as (-> & batch & Hgen & Hkm & Hlabel).
  pose proof (SampleFacts.grp_reachable_inv g Hg) as (_ & (Hsi & Hrange) & _).
  destruct (DnaSampleGenerator.labels g) as [[]|]; try done.
  - destruct Hlabel as (ids & Hids & ->). exists ids.
    apply np_index_nat_lookup in Hids.
    split; [done|]. split; [done|].
    split; [by eapply table_shape_lookup|].
    by eapply Forall_lookup_1 in Hrange.
  - exists batch. split; [done|]. split; [done|]. intros Hk1 Hwin.
    pose proof (sample_generate_batch_shape _ _ _ _ Hgen) as [_ Hshape].
    pose proof (SampleRows.grp_generate_batch_rows g h b batch _ Hg Hb Hgen) as Hrows.
    pose proof (SampleRows.grp_batch_to_kmers_rows (h, g) (h, g) batch x
                  ltac:(simpl; lia) Hshape Hkm) as Hall.
    simpl in Hall. rewrite Hk1 in Hall.
    apply list_eq_Forall2, Forall2_same_length_lookup.
    apply Forall2_same_length_lookup in Hall as [Hlen Hall].
    split; [done|]. intros i grp sub Hgrp Hsub.
    specialize (Hall i sub grp Hsub Hgrp).
    destruct (Hrows i sub Hsub) as (a & Ha).
    apply list_eq_Forall2, Forall2_same_length_lookup.
    apply Forall2_same_length_lookup in Hall as [Hlen' Hall].
    split; [done|]. intros j feat row Hfeat Hrow.
    destruct (Hall j row feat Hrow Hfeat) as (codes & [= <-] & ->).
    destruct (Ha j row Hrow) as (sequence & offset & _ & Hcut).
    apply f64_of_int_bytes. by eapply window_row_range.
Qed.

(** X4: the labels of [__getitem__], by [DnaLabelType], in both
    classes.  [SampleIds]: row [b] of [sample_indices], that is, for each
    row (or group) of the batch the index of the archive it was drawn
    from, within [0 .. num_samples - 1]; [OneMer]: the batch of bases that
    [generate_batch] returns, which for [kmer = 1] equals the features;
    [KMer]: the features themselves; no label type: no label. *)
Theorem getitem_labels_by_type :
  (forall (g : DnaSequenceGenerator.t) (h : nat -> S) (b : nat) x label st',
      SequenceFacts.reachable g ->
      (b < DnaSequenceGenerator.batches_per_epoch g)%nat ->
      DnaSequenceGenerator.getitem (Z.of_nat b) (h, g) = (Ok (x, label), st') ->
      match DnaSequenceGenerator.labels g with
      | Some SampleIds =>
          exists ids,
            label = Some (SampleIdLabels ids) /\
            DnaSequenceGenerator.sample_indices g !! b = Some ids /\
            length ids = DnaSequenceGenerator.batch_size g /\
            Forall (fun a => 0 <= a < Z.of_nat (DnaSequenceGenerator.num_samples g))
                   ids
      | Some OneMer =>
          exists batch,
            label = Some (OneMerLabels batch) /\
            DnaSequenceGenerator.generate_batch (Z.of_nat b) (h, g)
            = (Ok batch, (h, g)) /\
            (DnaSequenceGenerator.kmer g = 1%nat ->
             (1 <= DnaSequenceGenerator.sequence_length g)%nat -> x = batch)
      | Some KMer => label = Some (KMerLabels x)
      | None => label = None
      end) /\
  (forall (g : DnaSampleGenerator.t) (h : nat -> S) (b : nat) x label st',
      SampleFacts.reachable g ->
      (b < DnaSampleGenerator.batches_per_epoch g)%nat ->
      DnaSampleGenerator.getitem (Z.of_nat b) (h, g) = (Ok (x, label), st') ->
      match DnaSampleGenerator.labels g with
      | Some SampleIds =>
          exists ids,
            label = Some (SampleIdLabels ids) /\
            DnaSampleGenerator.sample_indices g !! b = Some ids /\
            length ids = DnaSampleGenerator.batch_size g /\
            Forall (fun a => 0 <= a < Z.of_nat (DnaSampleGenerator.num_samples g))
                   ids
      | Some OneMer =>
          exists batch,
            label = Some (OneMerLabels batch) /\
            DnaSampleGenerator.generate_batch (Z.of_nat b) (h, g)
            = (Ok batch, (h, g)) /\
            (DnaSampleGenerator.kmer g = 1%nat ->
             (1 <= DnaSampleGenerator.sequence_length g)%nat -> x = batch)
      | Some KMer => label = Some (KMerLabels x)
      | None => label = None
      end).
Proof.
  split.
  - intros. by eapply seq_getitem_labels.
  - intros. by eapply grp_getitem_labels.
Qed.
End sample_rows.

Lemma sample_rows_are_windows_witness :
  length [[[16; 8; 18]; [12; 12; 12]]; [[7; 13; 19]; [17; 11; 5]];
          [[16; 8; 18]; [12; 12; 12]]]
  = DnaSampleGenerator.batch_size sample_example /\
  forall i grp,
    [[[16; 8; 18]; [12; 12; 12]]; [[7; 13; 19]; [17; 11; 5]];
     [[16; 8; 18]; [12; 12; 12]]] !! i = Some grp ->
    length grp = DnaSampleGenerator.subsample_length sample_example /\
    exists a,
      forall j feat, grp !! j = Some feat ->
        exists sequence offset row codes,
          SampleRows.slot sample_example sample_example_run.2 0 i j a sequence offset /\
          window_row (DnaSampleGenerator.sequence_length sample_example)
            sequence offset row /\
          to_kmers (DnaSampleGenerator.kmer sample_example) row = Ok codes /\
          feat = map f64_of_int codes.
Proof.
  apply (sample_rows_are_windows (S := Z) sample_example sample_example_run.2
           0 _ (Some (SampleIdLabels [1; 0; 1]))
           (sample_example_run.2, sample_example)).
  - exact (SampleFacts.built_reachable _ sample_example_built).
  - vm_compute. lia.
  - vm_compute. lia.
  - by vm_compute.
Defined.

Lemma getitem_labels_by_type_witness :
  exists ids,
    (Some (SampleIdLabels [1; 0; 1]) : option (label DnaSequenceGenerator.features
                                                    DnaSequenceGenerator.batch))
    = Some (SampleIdLabels ids) /\
    DnaSequenceGenerator.sample_indices sequence_example !! 0%nat = Some ids /\
    length ids = DnaSequenceGenerator.batch_size sequence_example /\
    Forall (fun a => 0 <= a < Z.of_nat (DnaSequenceGenerator.num_samples
                                          sequence_example)) ids.
Proof.
  exact (proj1 (getitem_labels_by_type (S := Z))
           sequence_example sequence_example_run.2
           0%nat [[12; 12; 12]; [23; 17; 11]; [18; 16; 8]]
           (Some (SampleIdLabels [1; 0; 1]))
           (sequence_example_run.2, sequence_example)
           sequence_example_reachable
           ltac:(vm_compute; lia) ltac:(by vm_compute)).
Defined.

(** ** The first epoch *)

(** The row of the epoch tables that a batch index of the range reads:
    numpy counts a negative index from the end. *)
Definition batch_row (rows : nat) (batch_index : Z) : nat :=
  Z.to_nat (batch_index mod Z.of_nat rows).

Lemma batch_row_range rows batch_index :
  - Z.of_nat rows <= batch_index < Z.of_nat rows ->
  (batch_row rows batch_index < rows)%nat /\
  Z.of_nat (batch_row rows batch_index)
  = if batch_index <? 0 then batch_index + Z.of_nat rows else batch_index.
Proof.
  intros Hb. unfold batch_row.
  pose proof (Z.mod_pos_bound batch_index (Z.of_nat rows) ltac:(lia)) as Hmod.
  split; [lia|]. rewrite Z2Nat.id by lia.
  destruct (Z.ltb_spec batch_index 0).
  - symmetry. apply Z.mod_unique with (q := -1); lia.
  - apply Z.mod_small. lia.
Qed.

Section served_rows.
Context {S : Type} `{GeneratorSpec S}.

Lemma seq_getitem_row (g : DnaSequenceGenerator.t) (h : nat -> S) batch_index :
  SequenceFacts.reachable g ->
  - Z.of_nat (DnaSequenceGenerator.batches_per_epoch g) <= batch_index
    < Z.of_nat (DnaSequenceGenerator.batches_per_epoch g) ->
  DnaSequenceGenerator.getitem batch_index (h, g)
  = DnaSequenceGenerator.getitem
      (Z.of_nat (batch_row (DnaSequenceGenerator.batches_per_epoch g) batch_index))
      (h, g).
Proof.
  intros Hg Hb. destruct (batch_row_range _ _ Hb) as [_ ->].
  destruct (Z.ltb_spec batch_index 0); [|done].
  apply SequenceFacts.seq_getitem_negative; [done | lia].
Qed.

Lemma grp_getitem_row (g : DnaSampleGenerator.t) (h : nat -> S) batch_index :
  SampleFacts.reachable g ->
  - Z.of_nat (DnaSampleGenerator.batches_per_epoch g) <= batch_index
    < Z.of_nat (DnaSampleGenerator.batches_per_epoch g) ->
  DnaSampleGenerator.getitem batch_index (h, g)
  = DnaSampleGenerator.getitem
      (Z.of_nat (batch_row (DnaSampleGenerator.batches_per_epoch g) batch_index))
      (h, g).
Proof.
  intros Hg Hb. destruct (batch_row_range _ _ Hb) as [_ ->].
  destruct (Z.ltb_spec batch_index 0); [|done].
  apply SampleFacts.grp_getitem_negative; [done | lia].
Qed.

(** The batch that [DnaSequenceGenerator.__getitem__] returns from the
    tables, on archives that hold their sequences. *)
Lemma seq_getitem_served (g : DnaSequenceGenerator.t) (h : nat -> S) (b : nat) :
  SequenceFacts.reachable g ->
  DnaSequenceGenerator.augment g = true ->
  Forall (drawable (DnaSequenceGenerator.sequence_length g) 1)
         (DnaSequenceGenerator.samples g) ->
  (1 <= DnaSequenceGenerator.kmer g <= DnaSequenceGenerator.sequence_length g)%nat ->
  (b < DnaSequenceGenerator.batches_per_epoch g)%nat ->
  exists x label,
    DnaSequenceGenerator.getitem (Z.of_nat b) (h, g) = (Ok (x, label), (h, g)) /\
    length x = DnaSequenceGenerator.batch_size g /\
    forall i feat, x !! i = Some feat ->
      length feat = (DnaSequenceGenerator.sequence_length g
                     - DnaSequenceGenerator.kmer g + 1)%nat /\
      exists a sequence offset row codes,
        SequenceRows.slot g h b i a sequence offset /\
        window_row (DnaSequenceGenerator.sequence_length g) sequence offset row /\
        to_kmers (DnaSequenceGenerator.kmer g) row = Ok codes /\
        feat = map f64_of_int codes.
Proof.
  intros Hg Haug Hdata Hk Hb.
  destruct (SequenceService.seq_getitem_serves g h (Z.of_nat b) Hg Haug Hdata Hk
              ltac:(lia)) as ([x label] & Hrun).
  exists x, label. split; [done|].
  pose proof (sequence_getitem_shape _ _ _ _ _ Hrun) as [Hlen Hext].
  apply SequenceRows.seq_getitem_inv in Hrun as (_ & batch & Hgen & Hkm & _).
  pose proof (sequence_generate_batch_shape _ _ _ _ Hgen) as [_ Hshape].
  destruct (SequenceRows.seq_generate_batch_rows g h b batch _ Hg Hb Hgen)
    as [_ Hrows].
  pose proof (SequenceRows.seq_batch_to_kmers_rows (h, g) (h, g) batch x Hk Hshape Hkm)
    as Hall.
  split; [done|]. intros i feat Hfeat. split.
  { eapply Forall_lookup_1 in Hext; [|exact Hfeat]. simpl in Hext. lia. }
  destruct (Forall2_lookup_r _ _ _ _ _ Hall Hfeat) as (row & Hrow & codes & Hc & ->).
  destruct (Hrows i row Hrow) as (a & sequence & offset & Hslot & Hwin).
  by exists a, sequence, offset, row, codes.
Qed.

(** The same for the groups of [DnaSampleGenerator.__getitem__]. *)
Lemma grp_getitem_served (g : DnaSampleGenerator.t) (h : nat -> S) (b : nat) :
  SampleFacts.built g ->
  Forall (drawable (DnaSampleGenerator.sequence_length g) 1)
         (DnaSampleGenerator.samples g) ->
  Forall (fun n => n <= 2 ^ 31) (DnaSampleGenerator.sample_lengths g) ->
  (1 <= DnaSampleGenerator.kmer g <= DnaSampleGenerator.sequence_length g)%nat ->
  (b < DnaSampleGenerator.batches_per_epoch g)%nat ->
  exists x label,
    DnaSampleGenerator.getitem (Z.of_nat b) (h, g) = (Ok (x, label), (h, g)) /\
    length x = DnaSampleGenerator.batch_size g /\
    forall i grp, x !! i = Some grp ->
      length grp = DnaSampleGenerator.subsample_length g /\
      exists a,
        forall j feat, grp !! j = Some feat ->
          length feat = (DnaSampleGenerator.sequence_length g
                         - DnaSampleGenerator.kmer g + 1)%nat /\
          exists sequence offset row codes,
            SampleRows.slot g h b i j a sequence offset /\
            window_row (DnaSampleGenerator.sequence_length g) sequence offset row /\
            to_kmers (DnaSampleGenerator.kmer g) row = Ok codes /\
            feat = map f64_of_int codes.
Proof.
  intros Hbuilt Hdata Hfit Hk Hb.
  pose proof (SampleFacts.built_reachable g Hbuilt) as Hg.
  destruct (SampleService.grp_getitem_serves g h (Z.of_nat b) Hbuilt Hdata Hfit Hk
              ltac:(lia)) as ([x label] & Hrun).
  exists x, label. split; [done|].
  pose proof (sample_getitem_shape _ _ _ _ _ Hrun) as [Hxlen Hext].
  apply SampleRows.grp_getitem_inv in Hrun as (_ & batch & Hgen & Hkm & _).
  pose proof (sample_generate_batch_shape _ _ _ _ Hgen) as [Hlen Hshape].
  pose proof (SampleRows.grp_generate_batch_rows g h b batch _ Hg Hb Hgen) as Hrows.
  pose proof (SampleRows.grp_batch_to_kmers_rows (h, g) (h, g) batch x Hk Hshape Hkm)
    as Hall.
  split; [done|]. intros i grp Hgrp.
  destruct (Forall2_lookup_r _ _ _ _ _ Hall Hgrp) as (sub & Hsub & Hsubs).
  eapply Forall_lookup_1 in Hext as [Hglen Hgext]; [|exact Hgrp].
  split; [done|].
  destruct (Hrows i sub Hsub) as (a & Ha). exists a. intros j feat Hfeat. split.
  { eapply Forall_lookup_1 in Hgext; [|exact Hfeat]. simpl in Hgext. lia. }
  destruct (Forall2_lookup_r _ _ _ _ _ Hsubs Hfeat) as (row & Hrow & codes & Hc & ->).
  destruct (Ha j row Hrow) as (sequence & offset & Hslot & Hwin).
  by exists sequence, offset, row, codes.
Qed.

(** C10: when [__init__] of either class returns, the tables of the
    first epoch have their full extent, [(batches_per_epoch, batch_size)]
    (and [subsample_length] keys per cell in [DnaSampleGenerator]), and
    [__getitem__] on any batch index of the range finds every table entry
    it reads.  On archives that hold their sequences under the keys
    [0 .. len-1], one at least, each [sequence_length] long at least, and
    with [1 <= kmer <= sequence_length], [DnaSampleGenerator.__getitem__]
    (archives of [2^31] sequences at most, the keys being stored as
    int32) and, with [augment], [DnaSequenceGenerator.__getitem__] return
    the batch of the table row: [batch_size] rows (groups of
    [subsample_length] rows) of [sequence_length - kmer + 1] codes, each
    the encoding of the window of the slot's sequence.  In
    [DnaSequenceGenerator] built without [augment], [__getitem__] serves
    no batch that has a slot: it raises [TypeError] on such archives
    ([KeyError] or [TypeError] on any), the tables being built all the
    same.  The extents hold in every state that later calls of
    [on_epoch_end] leave. *)
Theorem constructor_builds_first_epoch :
  (forall samples window k cols rows aug bal mode r (h h' : nat -> S) g,
      DnaSequenceGenerator.init samples window k cols rows aug bal mode r h
      = (Ok g, h') ->
      table_shape rows cols (DnaSequenceGenerator.sample_indices g) /\
      table_shape rows cols (DnaSequenceGenerator.sequence_indices g) /\
      (forall (h0 : nat -> S) batch_index e,
          - Z.of_nat rows <= batch_index < Z.of_nat rows ->
          (DnaSequenceGenerator.getitem batch_index (h0, g)).1 = Raise e ->
          e = KeyError \/ e = ValueError \/ (e = TypeError /\ aug = false)) /\
      (aug = true ->
       Forall (drawable window 1) samples -> (1 <= k <= window)%nat ->
       forall (h0 : nat -> S) batch_index,
         - Z.of_nat rows <= batch_index < Z.of_nat rows ->
         exists x label,
           DnaSequenceGenerator.getitem batch_index (h0, g)
           = (Ok (x, label), (h0, g)) /\
           length x = cols /\
           forall i feat, x !! i = Some feat ->
             length feat = (window - k + 1)%nat /\
             exists a sequence offset row codes,
               SequenceRows.slot g h0 (batch_row rows batch_index) i a sequence offset /\
               window_row window sequence offset row /\
               to_kmers k row = Ok codes /\
               feat = map f64_of_int codes) /\
      (aug = false -> (1 <= cols)%nat ->
       forall (h0 : nat -> S) batch_index,
         - Z.of_nat rows <= batch_index < Z.of_nat rows ->
         exists e,
           DnaSequenceGenerator.getitem batch_index (h0, g) = (Raise e, (h0, g)) /\
           (e = KeyError \/ e = TypeError) /\
           (Forall (drawable window 1) samples -> e = TypeError))) /\
  (forall g, SequenceFacts.reachable g ->
             table_shape (DnaSequenceGenerator.batches_per_epoch g)
               (DnaSequenceGenerator.batch_size g)
               (DnaSequenceGenerator.sample_indices g) /\
             table_shape (DnaSequenceGenerator.batches_per_epoch g)
               (DnaSequenceGenerator.batch_size g)
               (DnaSequenceGenerator.sequence_indices g)) /\
  (forall samples group window k cols rows aug bal mode r (h h' : nat -> S) g,
      DnaSampleGenerator.init samples group window k cols rows aug bal mode r h
      = (Ok g, h') ->
      table_shape rows cols (DnaSampleGenerator.sample_indices g) /\
      table_shape rows cols (DnaSampleGenerator.sequence_indices g) /\
      Forall (Forall (fun keys => length keys = group))
             (DnaSampleGenerator.sequence_indices g) /\
      (forall (h0 : nat -> S) batch_index e,
          - Z.of_nat rows <= batch_index < Z.of_nat rows ->
          (DnaSampleGenerator.getitem batch_index (h0, g)).1 = Raise e ->
          e = KeyError \/ e = ValueError) /\
      (Forall (drawable window 1) samples ->
       Forall (fun a => archive_len a <= 2 ^ 31) samples ->
       (1 <= k <= window)%nat ->
       forall (h0 : nat -> S) batch_index,
         - Z.of_nat rows <= batch_index < Z.of_nat rows ->
         exists x label,
           DnaSampleGenerator.getitem batch_index (h0, g)
           = (Ok (x, label), (h0, g)) /\
           length x = cols /\
           forall i grp, x !! i = Some grp ->
             length grp = group /\
             exists a,
               forall j feat, grp !! j = Some feat ->
                 length feat = (window - k + 1)%nat /\
                 exists sequence offset row codes,
                   SampleRows.slot g h0 (batch_row rows batch_index) i j a
                     sequence offset /\
                   window_row window sequence offset row /\
                   to_kmers k row = Ok codes /\
                   feat = map f64_of_int codes)) /\
  (forall g, SampleFacts.reachable g ->
             table_shape (DnaSampleGenerator.batches_per_epoch g)
               (DnaSampleGenerator.batch_size g)
               (DnaSampleGenerator.sample_indices g) /\
             table_shape (DnaSampleGenerator.batches_per_epoch g)
               (DnaSampleGenerator.batch_size g)
               (DnaSampleGenerator.sequence_indices g) /\
             Forall (Forall (fun keys =>
                               length keys = DnaSampleGenerator.subsample_length g))
                    (DnaSampleGenerator.sequence_indices g)).
Proof.
  split; [|split; [|split]].
  - intros samples window k cols rows aug bal mode r h h' g Hinit.
    pose proof (SequenceFacts.reach_init _ _ _ _ _ _ _ _ _ _ _ _ Hinit) as Hg.
    apply SequenceFacts.seq_init_post in Hinit
      as ((<- & <- & <- & <- & <- & <- & _) & _ & (Hsi & _ & Hqi & _) & _).
    split; [done|]. split; [done|]. split; [|split].
    + intros h0 b e Hb He.
      destruct (SequenceFacts.seq_getitem_raises g h0 b Hg Hb e He)
        as [[->| ->]|[-> Haug]]; auto.
    + intros Haug Hdata Hk h0 b Hb.
      rewrite (seq_getitem_row g h0 b Hg Hb).
      destruct (batch_row_range _ _ Hb) as [Hrow _].
      by apply seq_getitem_served.
    + intros Haug Hcols h0 b Hb.
      by apply SequenceService.seq_getitem_refused.
  - intros g (_ & (Hsi & _ & Hqi & _) & _)%SequenceFacts.seq_reachable_inv.
    by split.
  - intros samples group window k cols rows aug bal mode r h h' g Hinit.
    pose proof (SampleFacts.state_init _ _ _ _ _ _ _ _ _ _ _ _ _ Hinit) as Hg.
    pose proof (SampleFacts.built_inv g Hg) as ([_ Hbal] & _).
    apply SampleFacts.grp_init_post in Hinit
      as ((<- & <- & <- & <- & <- & <- & _) & _ & ((Hsi & _) & (Hqi & Hrows) & _) & _).
    split; [done|]. split; [done|]. split; [done|]. split.
    + intros h0 b e Hb He.
      by apply (SampleFacts.grp_getitem_raises g h0 b
                  (SampleFacts.built_reachable g Hg) Hb e).
    + intros Hdata Hfit Hk h0 b Hb.
      rewrite (grp_getitem_row g h0 b (SampleFacts.built_reachable g Hg) Hb).
      destruct (batch_row_range _ _ Hb) as [Hrow _].
      apply grp_getitem_served; try done.
      by eapply balance_lengths_bound.
  - intros g (_ & (Hsi & _) & (Hqi & Hrows) & _)%SampleFacts.grp_reachable_inv.
    by split.
Qed.
End served_rows.

Lemma constructor_builds_first_epoch_witness :
  (table_shape 2 3 (DnaSequenceGenerator.sample_indices sequence_example) /\
   table_shape 2 3 (DnaSequenceGenerator.sequence_indices sequence_example) /\
   exists x label,
     DnaSequenceGenerator.getitem (-1) (fun _ => 0, sequence_example)
     = (Ok (x, label), (fun _ => 0, sequence_example)) /\
     length x = 3%nat /\
     forall i feat, x !! i = Some feat ->
       length feat = (4 - 2 + 1)%nat /\
       exists a sequence offset row codes,
         SequenceRows.slot sequence_example (fun _ => 0) (batch_row 2 (-1)) i
           a sequence offset /\
         window_row 4 sequence offset row /\
         to_kmers 2 row = Ok codes /\
         feat = map f64_of_int codes) /\
  (table_shape 2 3 (DnaSequenceGenerator.sample_indices plain_example) /\
   table_shape 2 3 (DnaSequenceGenerator.sequence_indices plain_example) /\
   DnaSequenceGenerator.getitem 1 (fun _ => 0, plain_example)
   = (Raise TypeError, (fun _ => 0, plain_example))).
Proof.
  destruct (constructor_builds_first_epoch (S := Z)) as [Hseq _].
  assert (Hdata : Forall (drawable 4 1) [sample_a; sample_b]).
  { apply Forall_cons; [exact sample_a_servable|].
    apply Forall_cons; [exact sample_b_servable|]. apply Forall_nil. }
  split.
  - destruct (Hseq [sample_a; sample_b] 4%nat 2%nat 3%nat 2%nat true true
                (Some SampleIds) 0%nat (fun _ => 7) sequence_example_run.2
                sequence_example) as (Hsi & Hqi & _ & Hserved & _).
    + by vm_compute.
    + split; [done|]. split; [done|].
      apply Hserved; [done | exact Hdata | lia | lia].
  - destruct (Hseq [sample_a; sample_b] 4%nat 2%nat 3%nat 2%nat false false
                None 0%nat (fun _ => 7) plain_example_run.2
                plain_example) as (Hsi & Hqi & _ & _ & Hrefused).
    + by vm_compute.
    + split; [done|]. split; [done|].
      destruct (Hrefused eq_refl ltac:(lia) (fun _ => 0) 1 ltac:(lia))
        as (e & Hrun & _ & He).
      by rewrite Hrun, (He Hdata).
Defined.

(** ** Keys and archives *)

Section own_archive.
Context {S : Type} `{GeneratorSpec S}.

(** X6: every key of the epoch tables addresses a sequence of the
    archive of its own slot, with or without [balance]: in
    [DnaSequenceGenerator], when no archive is empty, the key of slot
    [(b, i)] is below the length of archive [sample_indices[b, i]]; in
    [DnaSampleGenerator], after a shuffle that returned and for archives
    of [2^31] sequences at most, so are all the keys of the slot. *)
Theorem keys_within_own_archive :
  (forall (g : DnaSequenceGenerator.t) b i a key,
      SequenceFacts.reachable g ->
      Forall (fun s => 1 <= archive_len s) (DnaSequenceGenerator.samples g) ->
      cell (DnaSequenceGenerator.sample_indices g) b i = Some a ->
      cell (DnaSequenceGenerator.sequence_indices g) b i = Some key ->
      exists sample,
        0 <= a /\ DnaSequenceGenerator.samples g !! Z.to_nat a = Some sample /\
        0 <= key < archive_len sample) /\
  (forall (g : DnaSampleGenerator.t) b i a row,
      SampleFacts.built g ->
      Forall (fun s => archive_len s <= 2 ^ 31) (DnaSampleGenerator.samples g) ->
      cell (DnaSampleGenerator.sample_indices g) b i = Some a ->
      cell (DnaSampleGenerator.sequence_indices g) b i = Some row ->
      exists sample,
        0 <= a /\ DnaSampleGenerator.samples g !! Z.to_nat a = Some sample /\
        Forall (fun key => 0 <= key < archive_len sample) row).
Proof.
  split.
  - intros g b i a key Hg Hpos Ha Hkey.
    pose proof (SequenceFacts.seq_reachable_inv g Hg)
      as ([Hn Hbal] & (_ & Hrange & _) & Hk).
    pose proof (cell_Forall _ _ b i a Hrange Ha) as Har. simpl in Har.
    destruct (np_index_nonneg (DnaSequenceGenerator.samples g) a)
      as (sample & Hsample & Hl); [lia|].
    destruct (Hk b i a key Ha Hkey) as (len & u & Hlen & Hu & ->).
    destruct (effective_length_within _ _ _ _ _ _ Hbal Hpos Hlen Hsample) as [Hl1 Hl2].
    pose proof (unit_product_trunc u len Hu Hl1) as [_ Hkr].
    exists sample. split; [lia|]. split; [done | lia].
  - intros g b i a row Hg Hfit Ha Hrow.
    pose proof (SampleFacts.built_inv g Hg) as (Hc & ((_ & Hrange) & _) & _).
    pose proof (SampleFacts.grp_configured_static g Hc) as [_ Hlens].
    destruct Hc as [Hn Hbal].
    pose proof (cell_Forall _ _ b i a Hrange Ha) as Har. simpl in Har.
    destruct (np_index_nonneg (DnaSampleGenerator.samples g) a)
      as (sample & Hsample & Hl); [lia|].
    destruct (np_index_nonneg (DnaSampleGenerator.sample_lengths g) a)
      as (len & Hlen & _); [lia|].
    pose proof (balance_lengths_bound _ _ _ _ Hbal Hfit) as Hfit'.
    destruct (SampleFacts.group_keys g b i a row len Hg Hfit' Ha Hrow Hlen)
      as (_ & _ & Hkeys).
    exists sample. split; [lia|]. split; [done|].
    eapply Forall_impl; [|exact Hkeys]. simpl. intros key Hkey.
    enough (len <= archive_len sample) by lia.
    apply np_index_ok_elem in Hsample as Hin.
    destruct (DnaSampleGenerator.balance g).
    + apply balance_lengths_true in Hbal as (m & Hmin & Hv).
      rewrite Hv in Hlen.
      apply np_index_ok_elem, elem_of_replicate in Hlen as [-> _].
      apply np_min_spec in Hmin as [_ Hle].
      rewrite Forall_forall in Hle. apply Hle, in_map. by apply list_elem_of_In.
    + injection Hbal as Hv. rewrite <- Hv, np_index_fmap, Hsample in Hlen.
      injection Hlen as <-. lia.
Qed.
End own_archive.

Lemma keys_within_own_archive_witness :
  exists sample,
    0 <= 1 /\ DnaSequenceGenerator.samples sequence_example !! Z.to_nat 1 = Some sample /\
    0 <= 0 < archive_len sample.
Proof.
  destruct (keys_within_own_archive (S := Z)) as [Hseq _].
  apply (Hseq sequence_example 0%nat 0%nat 1 0 sequence_example_reachable).
  - apply Forall_cons; [by vm_compute|]. apply Forall_cons; [by vm_compute|].
    apply Forall_nil.
  - by vm_compute.
  - by vm_compute.
Defined.

(** ** Constructors and epoch boundaries that return *)

Lemma balance_lengths_lower bal (archives : list archive) lengths bound :
  balance_lengths bal (map archive_len archives) = Ok lengths ->
  Forall (fun a => bound <= archive_len a) archives ->
  Forall (fun n => bound <= n) lengths.
Proof.
  intros Hbal Hall. rewrite Forall_forall in Hall.
  assert (Hmap : forall n, In n (map archive_len archives) -> bound <= n).
  { intros n (a & <- & Ha)%in_map_iff. by apply Hall. }
  apply Forall_forall. intros n Hn. destruct bal.
  - apply balance_lengths_true in Hbal as (m & Hmin & ->).
    apply list_elem_of_In, elem_of_replicate in Hn as [-> _].
    apply np_min_spec in Hmin as [Hm _]. by apply Hmap, list_elem_of_In.
  - injection Hbal as <-. by apply Hmap.
Qed.

Lemma balance_lengths_nonempty bal (lengths : list Z) :
  lengths <> [] -> exists v, balance_lengths bal lengths = Ok v.
Proof.
  intros Hne. unfold balance_lengths. destruct bal; [|by eexists].
  destruct lengths; [done|]. by eexists.
Qed.

Module SequenceReturns.
Import DnaSequenceGenerator SequenceFacts.

Section returns.
Context {S : Type} `{GeneratorSpec S}.

Lemma seq_shuffle_returns (h : nat -> S) g :
  static_ok g -> 1 <= Z.of_nat (num_samples g) <= 2 ^ 31 ->
  exists st', shuffle (h, g) = (Ok tt, st').
Proof.
  intros [Hn Hlen] Hcount.
  unfold shuffle, mbind, M_bind, gets, modify, draw, lift. simpl.
  set (rows := batches_per_epoch g). set (cols := batch_size g).
  pose proof (integers_ok (Z.of_nat (num_samples g)) (rows * cols) (h (rng g))
                ltac:(lia)) as Hok.
  destruct (rng_integers _ _ _) as [[flat|e] s1] eqn:Hint; [|done]. simpl.
  pose proof (integers_range _ _ _ flat ltac:(by rewrite Hint)) as [Hflat Hrange].
  destruct (fancy_index_ok (sample_lengths g) (reshape rows cols flat))
    as (lengths & -> & Hlens).
  { rewrite Hlen. by apply reshape_Forall. }
  rewrite fn_lookup_insert.
  destruct (rng_uniform (rows * cols) s1) as [us s2]. simpl.
  destruct (augment g); simpl.
  - rewrite fn_lookup_insert.
    destruct (rng_uniform (rows * cols) s2) as [us' s3]. simpl. by eexists.
  - by eexists.
Qed.

Lemma seq_init_returns samples window k cols rows aug bal mode r (h : nat -> S) :
  1 <= Z.of_nat (length samples) <= 2 ^ 31 ->
  exists g h', init samples window k cols rows aug bal mode r h = (Ok g, h').
Proof.
  intros Hcount. unfold init.
  destruct (balance_lengths_nonempty bal (map archive_len samples)) as [lens Hbal].
  { destruct samples; [simpl in Hcount; lia | done]. }
  rewrite Hbal.
  match goal with
  | |- context [shuffle (h, ?g0)] => set (self := g0)
  end.
  destruct (seq_shuffle_returns h self) as ([h' g'] & Hrun).
  - split; [done|]. simpl. apply balance_lengths_length in Hbal.
    by rewrite Hbal, length_map.
  - done.
  - rewrite Hrun. by exists g', h'.
Qed.

Lemma seq_epoch_returns g (h : nat -> S) :
  reachable g -> 1 <= Z.of_nat (num_samples g) <= 2 ^ 31 ->
  exists st', on_epoch_end (h, g) = (Ok tt, st').
Proof.
  intros (Hc & _)%seq_reachable_inv Hcount.
  apply seq_shuffle_returns; [by apply seq_configured_static | done].
Qed.
End returns.
End SequenceReturns.

Module SampleReturns.
Import DnaSampleGenerator SampleFacts.

Section returns.
Context {S : Type} `{GeneratorSpec S}.

Lemma draw_keys_returns (h : nat -> S) g picked lengths (x j : nat) st1 :
  loop_frame h g picked st1 ->
  table_shape (batches_per_epoch g) (batch_size g) picked ->
  (x < batches_per_epoch g)%nat -> (j < batch_size g)%nat ->
  Forall2 (Forall2 (fun a len => np_index (sample_lengths g) a = Ok len))
          picked lengths ->
  Forall (fun n => Z.of_nat (subsample_length g) <= n) (sample_lengths g) ->
  exists st2, draw_keys lengths x j st1 = (Ok tt, st2).
Proof.
  destruct st1 as [h1 g1].
  intros Hframe Hshape Hx Hj Hlens Hfit.
  pose proof Hframe as (Hcfg & Hpicked & Hoff & Hseq & Hheap). simpl in *.
  pose proof Hcfg as (Egs & _ & Elens & _ & _ & _ & _ & Ebs & Erows & _ & _ & Erng).
  unfold draw_keys, store_keys, mbind, M_bind, lift, gets, draw, modify. simpl.
  pose proof (table_shape_Forall2 _ _ _ _ _ Hlens Hshape) as Hlshape.
  destruct (cell_shape _ _ _ x j Hlshape Hx Hj) as [n Hn].
  pose proof Hn as Hidx. apply np_index2_cell in Hidx. rewrite Hidx. simpl.
  destruct (cell_Forall2_r _ _ _ _ _ _ Hlens Hn) as (a & Ha & Hlen).
  assert (Hge : Z.of_nat (subsample_length g1) <= n).
  { rewrite Egs. rewrite Forall_forall in Hfit.
    apply Hfit, list_elem_of_In. by eapply np_index_ok_elem. }
  pose proof (choice_ok n (subsample_length g1) (h1 (rng g1)) Hge) as Hok.
  destruct (rng_choice n (subsample_length g1) (h1 (rng g1)))
    as [[keys|e] s'] eqn:Hch; [|done]. simpl.
  pose proof (choice_range _ _ _ keys ltac:(by rewrite Hch)) as (Hklen & _).
  rewrite assign_row_same by (by rewrite length_map). simpl. by eexists.
Qed.

Lemma loops_return (h : nat -> S) g picked lengths st0 :
  loop_frame h g picked st0 ->
  table_shape (batches_per_epoch g) (batch_size g) picked ->
  Forall2 (Forall2 (fun a len => np_index (sample_lengths g) a = Ok len))
          picked lengths ->
  Forall (fun n => Z.of_nat (subsample_length g) <= n) (sample_lengths g) ->
  exists st', for_range (batches_per_epoch g)
                (fun i => for_range (batch_size g)
                            (fun j => draw_keys lengths i j)) st0 = (Ok tt, st').
Proof.
  intros Hframe Hshape Hlens Hfit. unfold for_range.
  pose proof (for_each_inv
                (fun _ st => loop_frame h g picked st) (fun _ => False)
                (seq 0 (batches_per_epoch g))
                (fun i => for_each (seq 0 (batch_size g))
                            (fun j => draw_keys lengths i j)) st0 Hframe) as Houter.
  simpl in Houter.
  match type of Houter with
  | ?Q -> _ => assert (Hstep : Q)
  end.
  { intros _ x st1 Hx%list_elem_of_In%in_seq Hf1.
    pose proof (for_each_inv
                  (fun _ st => loop_frame h g picked st) (fun _ => False)
                  (seq 0 (batch_size g))
                  (fun j => draw_keys lengths x j) st1 Hf1) as Hinner.
    simpl in Hinner.
    match type of Hinner with
    | ?Q -> _ => assert (Hstep' : Q)
    end.
    { intros _ j st2 Hj%list_elem_of_In%in_seq Hf2.
      pose proof (store_step h g picked lengths x j st2 Hf2
                    ltac:(lia) ltac:(lia) Hlens) as Hcell.
      destruct (draw_keys_returns h g picked lengths x j st2 Hf2 Hshape
                  ltac:(lia) ltac:(lia) Hlens Hfit) as (st3 & Hrun).
      rewrite Hrun in Hcell |- *. by destruct Hcell. }
    specialize (Hinner Hstep').
    by destruct (for_each (seq 0 (batch_size g)) _ st1) as [[[]|e] st2]. }
  specialize (Houter Hstep).
  destruct (for_each (seq 0 (batches_per_epoch g)) _ st0) as [[[]|e] st'];
    [by eexists | done].
Qed.

Lemma grp_shuffle_returns (h : nat -> S) g :
  static_ok g -> seq_shape g ->
  1 <= Z.of_nat (num_samples g) <= 2 ^ 31 ->
  Forall (fun n => Z.of_nat (subsample_length g) <= n) (sample_lengths g) ->
  exists st', shuffle (h, g) = (Ok tt, st').
Proof.
  intros [Hn Hlen] Hseq Hcount Hfit.
  unfold shuffle.
  unfold mbind at 1 2 3 4 5 6 7 8 9, M_bind at 1 2 3 4 5 6 7 8 9.
  unfold gets, modify, draw, lift. simpl.
  set (rows := batches_per_epoch g). set (cols := batch_size g).
  set (group := subsample_length g).
  pose proof (integers_ok (Z.of_nat (num_samples g)) (rows * cols) (h (rng g))
                ltac:(lia)) as Hok.
  destruct (rng_integers _ _ _) as [[flat|e] s1] eqn:Hint; [|done]. simpl.
  pose proof (integers_range _ _ _ flat ltac:(by rewrite Hint)) as [Hflat Hrange].
  destruct (fancy_index_ok (sample_lengths g) (reshape rows cols flat))
    as (lengths & -> & Hlens).
  { rewrite Hlen. by apply reshape_Forall. }
  pose proof (reshape_shape rows cols flat Hflat) as Hpicked.
  set (g0 := set_sample_indices (reshape rows cols flat) g).
  assert (Hframe : loop_frame h g (reshape rows cols flat)
                     (<[rng g := s1]> h, g0)).
  { split; [by repeat split|]. split; [done|]. split; [done|].
    split; [exact Hseq|]. intros x Hx. simpl. by rewrite fn_lookup_insert_ne. }
  destruct (loops_return h g _ lengths _ Hframe Hpicked Hlens Hfit)
    as ([h1 g1] & Hrun).
  fold rows cols in Hrun.
  rewrite (bind_run _ _ _ _ _ Hrun).
  unfold mbind, M_bind. simpl.
  destruct (augment g1); simpl.
  - destruct (rng_uniform _ _) as [us s3]. simpl. by eexists.
  - by eexists.
Qed.

Lemma grp_init_returns samples group window k cols rows aug bal mode r
      (h : nat -> S) :
  1 <= Z.of_nat (length samples) <= 2 ^ 31 ->
  Forall (fun a => Z.of_nat group <= archive_len a) samples ->
  exists g h', init samples group window k cols rows aug bal mode r h = (Ok g, h').
Proof.
  intros Hcount Hfit. unfold init.
  destruct (balance_lengths_nonempty bal (map archive_len samples)) as [lens Hbal].
  { destruct samples; [simpl in Hcount; lia | done]. }
  rewrite Hbal.
  match goal with
  | |- context [shuffle (h, ?g0)] => set (self := g0)
  end.
  destruct (grp_shuffle_returns h self) as ([h' g'] & Hrun).
  - split; [done|]. simpl. apply balance_lengths_length in Hbal.
    by rewrite Hbal, length_map.
  - apply replicate3_shape.
  - done.
  - simpl. by eapply balance_lengths_lower.
  - rewrite Hrun. by exists g', h'.
Qed.

Lemma grp_epoch_returns g (h : nat -> S) :
  reachable g -> 1 <= Z.of_nat (num_samples g) <= 2 ^ 31 ->
  Forall (fun a => Z.of_nat (subsample_length g) <= archive_len a) (samples g) ->
  exists st', on_epoch_end (h, g) = (Ok tt, st').
Proof.
  intros (Hc & _ & Hseq & _)%grp_reachable_inv Hcount Hfit.
  apply grp_shuffle_returns; [by apply grp_configured_static | done | done |].
  destruct Hc as [_ Hbal]. by eapply balance_lengths_lower.
Qed.
End returns.
End SampleReturns.

Section returning.
Context {S : Type} `{GeneratorSpec S}.

(** X7: when the constructors and [on_epoch_end] return.
    [DnaSequenceGenerator(samples, ...)] returns a generator for every
    list of 1 to [2^31] archives, whatever their lengths and the other
    arguments, and so does every later [on_epoch_end].
    [DnaSampleGenerator(samples, subsample_length, ...)] and its
    [on_epoch_end] return when, in addition, every archive holds
    [subsample_length] sequences at least.  With [balance] and no archive
    both constructors raise [ValueError] ([np.min] of an empty array). *)
Theorem constructors_and_epochs_return :
  (forall samples window k cols rows aug bal mode r (h : nat -> S),
      1 <= Z.of_nat (length samples) <= 2 ^ 31 ->
      exists g h',
        DnaSequenceGenerator.init samples window k cols rows aug bal mode r h
        = (Ok g, h')) /\
  (forall g (h : nat -> S),
      SequenceFacts.reachable g ->
      1 <= Z.of_nat (DnaSequenceGenerator.num_samples g) <= 2 ^ 31 ->
      exists st', DnaSequenceGenerator.on_epoch_end (h, g) = (Ok tt, st')) /\
  (forall samples group window k cols rows aug bal mode r (h : nat -> S),
      1 <= Z.of_nat (length samples) <= 2 ^ 31 ->
      Forall (fun a => Z.of_nat group <= archive_len a) samples ->
      exists g h',
        DnaSampleGenerator.init samples group window k cols rows aug bal mode r h
        = (Ok g, h')) /\
  (forall g (h : nat -> S),
      SampleFacts.reachable g ->
      1 <= Z.of_nat (DnaSampleGenerator.num_samples g) <= 2 ^ 31 ->
      Forall (fun a => Z.of_nat (DnaSampleGenerator.subsample_length g)
                       <= archive_len a) (DnaSampleGenerator.samples g) ->
      exists st', DnaSampleGenerator.on_epoch_end (h, g) = (Ok tt, st')) /\
  (forall window k cols rows aug mode r (h : nat -> S),
      DnaSequenceGenerator.init [] window k cols rows aug true mode r h
      = (Raise ValueError, h)) /\
  (forall group window k cols rows aug mode r (h : nat -> S),
      DnaSampleGenerator.init [] group window k cols rows aug true mode r h
      = (Raise ValueError, h)).
Proof.
  split; [|split; [|split; [|split; [|split]]]].
  - intros. by apply SequenceReturns.seq_init_returns.
  - intros. by apply SequenceReturns.seq_epoch_returns.
  - intros. by apply SampleReturns.grp_init_returns.
  - intros. by apply SampleReturns.grp_epoch_returns.
  - done.
  - done.
Qed.
End returning.

Lemma constructors_and_epochs_return_witness :
  (exists g h',
      DnaSampleGenerator.init [sample_a; sample_b] 2 4 2 3 2 true false
        (Some OneMer) 0 (fun _ => 7) = (Ok g, h')) /\
  (exists st',
      DnaSequenceGenerator.on_epoch_end (fun _ => 0, sequence_example) = (Ok tt, st')).
Proof.
  destruct (constructors_and_epochs_return (S := Z)) as (_ & Hepoch & Hgroup & _).
  split.
  - apply Hgroup.
    + simpl. lia.
    + apply Forall_cons; [by vm_compute|]. apply Forall_cons; [by vm_compute|].
      apply Forall_nil.
  - apply Hepoch; [exact sequence_example_reachable|].
    replace (DnaSequenceGenerator.num_samples sequence_example) with 2%nat
      by (by vm_compute).
    lia.
Defined.

(** ** What [on_epoch_end] leaves alone *)

Section epoch_frame.
Context {S : Type} `{GeneratorSpec S}.

(** X8: [on_epoch_end], whether it returns or raises, assigns nothing
    but the three epoch tables: the archives, the effective lengths and
    every configuration attribute of the generator keep their values (so
    [len(generator)] is the same before and after), and no random
    generator of the store other than [self.rng] is advanced.  In
    [DnaSequenceGenerator] an [on_epoch_end] that raises leaves the whole
    object as it was. *)
Theorem on_epoch_end_keeps_configuration :
  (forall (g g' : DnaSequenceGenerator.t) (h h' : nat -> S) out,
      SequenceFacts.reachable g ->
      DnaSequenceGenerator.on_epoch_end (h, g) = (out, (h', g')) ->
      SequenceFacts.same_config g g' /\
      (DnaSequenceGenerator.len (h', g')).1 = (DnaSequenceGenerator.len (h, g)).1 /\
      (forall x, x <> DnaSequenceGenerator.rng g -> h' x = h x) /\
      (is_ok out = false -> g' = g)) /\
  (forall (g g' : DnaSampleGenerator.t) (h h' : nat -> S) out,
      SampleFacts.reachable g ->
      DnaSampleGenerator.on_epoch_end (h, g) = (out, (h', g')) ->
      SampleFacts.same_config g g' /\
      (forall x, x <> DnaSampleGenerator.rng g -> h' x = h x) /\
      (is_ok out = false ->
       DnaSampleGenerator.augment_offsets g' = DnaSampleGenerator.augment_offsets g)).
Proof.
  split.
  - intros g g' h h' out (Hc & _)%SequenceFacts.seq_reachable_inv Hrun.
    destruct (SequenceFacts.seq_shuffle_post h g _ _ _
                (SequenceFacts.seq_configured_static g Hc) Hrun)
      as (Hcfg & Hframe & Hout).
    split; [done|]. split.
    { unfold DnaSequenceGenerator.len, gets. simpl.
      by destruct Hcfg as (_ & _ & _ & _ & _ & _ & _ & -> & _). }
    split; [done|]. by destruct out.
  - intros g g' h h' out (Hc & _ & Hseq & _)%SampleFacts.grp_reachable_inv Hrun.
    destruct (SampleFacts.grp_shuffle_post h g _ _ _
                (SampleFacts.grp_configured_static g Hc) Hseq Hrun)
      as (Hcfg & Hframe & _ & Hout).
    split; [done|]. split; [done|]. destruct out; [done|]. by destruct Hout.
Qed.
End epoch_frame.

Lemma on_epoch_end_keeps_configuration_witness :
  SequenceFacts.same_config sequence_example
    (DnaSequenceGenerator.on_epoch_end (fun _ => 0, sequence_example)).2.2 /\
  (DnaSequenceGenerator.len
     ((DnaSequenceGenerator.on_epoch_end (fun _ => 0, sequence_example)).2.1,
      (DnaSequenceGenerator.on_epoch_end (fun _ => 0, sequence_example)).2.2)).1
  = (DnaSequenceGenerator.len (fun _ => 0, sequence_example)).1.
Proof.
  destruct (on_epoch_end_keeps_configuration (S := Z)) as [Hseq _].
  destruct (Hseq sequence_example
              (DnaSequenceGenerator.on_epoch_end (fun _ => 0, sequence_example)).2.2
              (fun _ => 0)
              (DnaSequenceGenerator.on_epoch_end (fun _ => 0, sequence_example)).2.1
              (DnaSequenceGenerator.on_epoch_end (fun _ => 0, sequence_example)).1
              sequence_example_reachable) as (Hcfg & Hlen & _).
  - by destruct (DnaSequenceGenerator.on_epoch_end (fun _ => 0, sequence_example))
      as [? [? ?]].
  - by split.
Defined.

(** ** [compute_augmented_offset] without [augment] *)

Module SequenceOffsets.
Import DnaSequenceGenerator SequenceFacts.

Section offsets.
Context {S : Type} `{GeneratorSpec S}.

Lemma seq_shuffle_keeps_offsets (h : nat -> S) g r st' :
  augment g = false ->
  shuffle (h, g) = (r, st') -> augment_offsets st'.2 = augment_offsets g.
Proof.
  intros Haug.
  unfold shuffle, mbind, M_bind, gets, modify, draw, lift. simpl.
  destruct (rng_integers _ _ _) as [[flat|e] s1]; simpl; [|by intros [= <- <-]].
  destruct (mapM _ _) as [lengths|e]; simpl; [|by intros [= <- <-]].
  destruct (rng_uniform _ _) as [us s2]. simpl.
  rewrite Haug. simpl. by intros [= <- <-].
Qed.

Lemma seq_offsets_unset g :
  reachable g -> augment g = false -> augment_offsets g = None.
Proof.
  induction 1 as [samples window k cols rows aug bal mode r h h' g Hinit
                 |g h h' out g' Hg IH Hrun]; intros Haug.
  - pose proof (seq_init_post _ _ _ _ _ _ _ _ _ _ _ _ Hinit)
      as ((_ & _ & _ & _ & _ & Ea & _) & _).
    unfold init in Hinit.
    destruct (balance_lengths bal (map archive_len samples)) as [lens|]; [|done].
    match type of Hinit with
    | context [shuffle (h, ?g0)] => set (self := g0) in Hinit
    end.
    destruct (shuffle (h, self)) as [[[]|e] [h1 g1]] eqn:Hrun; [|done].
    injection Hinit as <- <-.
    apply seq_shuffle_keeps_offsets in Hrun; [done|].
    simpl. congruence.
  - pose proof (seq_reachable_inv g Hg) as (Hc & _).
    destruct (seq_shuffle_post h g _ _ _ (seq_configured_static g Hc) Hrun)
      as (Hcfg & _).
    assert (Ha : augment g = false).
    { destruct Hcfg as (_ & _ & _ & _ & _ & Ea & _). congruence. }
    unfold on_epoch_end in Hrun.
    apply seq_shuffle_keeps_offsets in Hrun; [|done].
    simpl in Hrun. rewrite Hrun. by apply IH.
Qed.
End offsets.
End SequenceOffsets.

Module SampleOffsets.
Import DnaSampleGenerator SampleFacts.

Section offsets.
Context {S : Type} `{GeneratorSpec S}.

Lemma grp_shuffle_keeps_offsets (h : nat -> S) g r st' :
  static_ok g -> seq_shape g -> augment g = false ->
  shuffle (h, g) = (r, st') -> augment_offsets st'.2 = augment_offsets g.
Proof.
  intros [Hn Hlen] Hseq Haug.
  unfold shuffle.
  unfold mbind at 1 2 3 4 5 6 7 8 9, M_bind at 1 2 3 4 5 6 7 8 9.
  unfold gets, modify, draw, lift. simpl.
  set (rows := batches_per_epoch g). set (cols := batch_size g).
  destruct (rng_integers _ _ _) as [[flat|e] s1] eqn:Hint; simpl;
    [|by intros [= <- <-]].
  pose proof (integers_range _ _ _ flat ltac:(by rewrite Hint)) as [Hflat Hrange].
  destruct (fancy_index_ok (sample_lengths g) (reshape rows cols flat))
    as (lengths & -> & Hlens).
  { rewrite Hlen. by apply reshape_Forall. }
  set (g0 := set_sample_indices (reshape rows cols flat) g).
  assert (Hframe : loop_frame h g (reshape rows cols flat)
                     (<[rng g := s1]> h, g0)).
  { split; [by repeat split|]. split; [done|]. split; [done|].
    split; [exact Hseq|]. intros x Hx. simpl. by rewrite fn_lookup_insert_ne. }
  pose proof (loops_post h g _ lengths _ Hframe Hlens) as Hloop.
  fold rows cols in Hloop.
  destruct (for_range rows _ _) as [[[]|e] [h1 g1]] eqn:Hrun.
  2:{ rewrite (bind_raise _ _ _ _ _ Hrun). intros [= <- <-].
      by destruct Hloop as (_ & _ & Hoff & _). }
  rewrite (bind_run _ _ _ _ _ Hrun).
  unfold mbind, M_bind. simpl.
  destruct Hloop as ((Hcfg & _ & Hoff & _) & _). simpl in Hoff.
  destruct Hcfg as (_ & _ & _ & _ & _ & _ & Ea & _). simpl in Ea.
  rewrite Ea, Haug. simpl. by intros [= <- <-].
Qed.

Lemma grp_offsets_unset fresh g :
  state fresh g -> augment g = false -> augment_offsets g = None.
Proof.
  induction 1 as [samples group window k cols rows aug bal mode r h h' g Hinit
                 |fresh g h h' out g' Hg IH Hrun]; intros Haug.
  - pose proof (grp_init_post _ _ _ _ _ _ _ _ _ _ _ _ _ Hinit)
      as ((_ & _ & _ & _ & _ & _ & Ea & _) & _).
    unfold init in Hinit.
    destruct (balance_lengths bal (map archive_len samples)) as [lens|] eqn:Hbal;
      [|done].
    match type of Hinit with
    | context [shuffle (h, ?g0)] => set (self := g0) in Hinit
    end.
    destruct (shuffle (h, self)) as [[[]|e] [h1 g1]] eqn:Hrun; [|done].
    injection Hinit as <- <-.
    apply grp_shuffle_keeps_offsets in Hrun; [done| | |].
    + split; [done|]. simpl. apply balance_lengths_length in Hbal.
      by rewrite Hbal, length_map.
    + apply replicate3_shape.
    + simpl. congruence.
  - pose proof (state_inv _ g Hg) as (Hc & (_ & Hseq & _) & _).
    destruct (grp_shuffle_post h g _ _ _ (grp_configured_static g Hc) Hseq Hrun)
      as (Hcfg & _).
    assert (Ha : augment g = false).
    { destruct Hcfg as (_ & _ & _ & _ & _ & _ & Ea & _). congruence. }
    unfold on_epoch_end in Hrun.
    apply grp_shuffle_keeps_offsets in Hrun;
      [|by apply grp_configured_static|done|done].
    simpl in Hrun. rewrite Hrun. by apply IH.
Qed.
End offsets.
End SampleOffsets.

Section unset_offsets.
Context {S : Type} `{GeneratorSpec S}.

(** X9: on a generator built without [augment], in both classes, no
    [shuffle] ever assigns the attribute [augment_offsets], neither the
    one of [__init__] nor the one of any later [on_epoch_end]:
    [compute_augmented_offset] raises [AttributeError] in every state of
    the generator, at every index and for every sequence length, and
    leaves the generator as it was. *)
Theorem compute_augmented_offset_needs_augment :
  (forall (g : DnaSequenceGenerator.t) (h : nat -> S) sequence_len augment_index,
      SequenceFacts.reachable g -> DnaSequenceGenerator.augment g = false ->
      DnaSequenceGenerator.augment_offsets g = None /\
      DnaSequenceGenerator.compute_augmented_offset sequence_len augment_index (h, g)
      = (Raise AttributeError, (h, g))) /\
  (forall (g : DnaSampleGenerator.t) (h : nat -> S) sequence_len augment_index,
      SampleFacts.reachable g -> DnaSampleGenerator.augment g = false ->
      DnaSampleGenerator.augment_offsets g = None /\
      DnaSampleGenerator.compute_augmented_offset sequence_len augment_index (h, g)
      = (Raise AttributeError, (h, g))).
Proof.
  split.
  - intros g h n ix Hg Haug.
    pose proof (SequenceOffsets.seq_offsets_unset g Hg Haug) as Hoff.
    split; [done|].
    unfold DnaSequenceGenerator.compute_augmented_offset, mbind, M_bind, gets, lift.
    simpl. by rewrite Hoff.
  - intros g h n ix [fresh Hg] Haug.
    pose proof (SampleOffsets.grp_offsets_unset fresh g Hg Haug) as Hoff.
    split; [done|].
    unfold DnaSampleGenerator.compute_augmented_offset, mbind, M_bind, gets, lift.
    simpl. by rewrite Hoff.
Qed.
End unset_offsets.

Lemma compute_augmented_offset_needs_augment_witness :
  DnaSequenceGenerator.augment_offsets plain_example = None /\
  DnaSequenceGenerator.compute_augmented_offset 6 (0, 0) (fun _ => 0, plain_example)
  = (Raise AttributeError, (fun _ => 0, plain_example)).
Proof.
  destruct (compute_augmented_offset_needs_augment (S := Z)) as [Hseq _].
  apply Hseq; [exact plain_example_reachable | by vm_compute].
Defined.

(** ** The encoder on windows of any length *)

(** X11: for [kmer >= 2] the encoder raises [ValueError] on an empty
    window, and on any other window it returns
    [max(len, kmer) - min(len, kmer) + 1] codes: [np.convolve] takes the
    longer of the window and the kernel first, so a window shorter than
    [kmer] is no error, it gives [kmer - len + 1] codes. *)
Theorem to_kmers_any_window (k : nat) (window : list Z) :
  (2 <= k)%nat ->
  (window = [] -> to_kmers k window = Raise ValueError) /\
  (window <> [] ->
   exists out, to_kmers k window = Ok out /\
               length out = (Nat.max (length window) k
                             - Nat.min (length window) k + 1)%nat).
Proof.
  intros Hk. unfold to_kmers. destruct (Nat.ltb_spec 1 k); [|lia]. split.
  - intros ->. apply np_convolve_valid_nil_l.
  - intros Hne.
    assert (0 < length window)%nat by (destruct window; [done | simpl; lia]).
    destruct (Nat.ltb_spec (length window) k) as [Hshort|Hlong].
    + rewrite np_convolve_valid_short by (rewrite kmer_kernel_length; lia).
      eexists. split; [done|].
      rewrite correlate_valid_length, length_rev, kmer_kernel_length. lia.
    + rewrite np_convolve_valid_long by (rewrite kmer_kernel_length; lia).
      eexists. split; [done|].
      rewrite correlate_valid_length, length_rev, kmer_kernel_length. lia.
Qed.

Lemma to_kmers_any_window_witness :
  ([1; 2] = [] -> to_kmers 4 [1; 2] = Raise ValueError) /\
  ([1; 2] <> [] ->
   exists out, to_kmers 4 [1; 2] = Ok out /\
               length out = (Nat.max (length [1%Z; 2%Z]) 4
                             - Nat.min (length [1%Z; 2%Z]) 4 + 1)%nat).
Proof. apply (to_kmers_any_window 4 [1; 2]). lia. Defined.

(** ** Slots that cannot be served *)

Lemma archive_get_empty (a : archive) key :
  archive_len a = 0 -> archive_get a key = Raise KeyError.
Proof.
  unfold archive_len, archive_get. intros Hsize.
  assert (Hempty : a = ∅) by (apply map_size_empty_iff; lia).
  by rewrite Hempty, lookup_empty.
Qed.

Section unserved.
Context {S : Type} `{GeneratorSpec S}.

(** X12: batches that [DnaSequenceGenerator.__getitem__] never returns.
    If some slot of batch [b] cannot be served, because its key is
    missing from its archive (always so when that archive is empty) or
    because the generator was built without [augment] (the keyword call
    of [augment_offset_fn] is refused), then [__getitem__(b)] raises and
    leaves the generator as it was.  With [augment] the exception is
    [KeyError] or [ValueError] (a slot before the missing key may hold a
    sequence that does not fit the window); without it, [KeyError] or
    [TypeError]. *)
Theorem unservable_slot_raises (g : DnaSequenceGenerator.t) (h : nat -> S)
        (b i : nat) a key sample :
  SequenceFacts.reachable g ->
  (b < DnaSequenceGenerator.batches_per_epoch g)%nat ->
  cell (DnaSequenceGenerator.sample_indices g) b i = Some a ->
  DnaSequenceGenerator.samples g !! Z.to_nat a = Some sample ->
  cell (DnaSequenceGenerator.sequence_indices g) b i = Some key ->
  archive_len sample = 0 \/
  archive_get sample key = Raise KeyError \/
  DnaSequenceGenerator.augment g = false ->
  exists e,
    DnaSequenceGenerator.getitem (Z.of_nat b) (h, g) = (Raise e, (h, g)) /\
    if DnaSequenceGenerator.augment g
    then e = KeyError \/ e = ValueError
    else e = KeyError \/ e = TypeError.
Proof.
  intros Hg Hb Ha Hsample Hkey Hbad.
  pose proof (SequenceFacts.seq_reachable_inv g Hg) as (_ & (Hsi & _ & _) & _).
  destruct (cell_shape_inv _ _ _ _ _ _ Hsi Ha) as [_ Hi].
  destruct (DnaSequenceGenerator.augment g) eqn:Haug.
  2: { destruct (SequenceService.seq_getitem_refused g h (Z.of_nat b) Hg Haug
                   ltac:(lia) ltac:(lia)) as (e & Hrun & He & _).
       by exists e. }
  rewrite (readonly_run _ (h, g) (sequence_getitem_readonly (Z.of_nat b))).
  destruct (DnaSequenceGenerator.getitem (Z.of_nat b) (h, g)).1
    as [[x label]|e] eqn:Hout.
  2: { exists e. split; [done|].
       destruct (SequenceFacts.seq_getitem_raises g h (Z.of_nat b) Hg ltac:(lia)
                   e Hout) as [He|[_ Hoff]]; [exact He | congruence]. }
  exfalso.
  pose proof (readonly_run _ (h, g) (sequence_getitem_readonly (Z.of_nat b))) as Hrun.
  rewrite Hout in Hrun.
  apply SequenceRows.seq_getitem_inv in Hrun as (_ & batch & Hgen & _).
  destruct (SequenceRows.seq_generate_batch_steps g h b batch _ Hg Hb Hgen)
    as [Hlen Hsteps].
  destruct (lookup_lt_is_Some_2 batch i) as [row Hrow]; [lia|].
  destruct (Hsteps i row Hrow)
    as (_ & a' & sequence & offset & (sample' & key' & Ha' & _ & Hs' & Hk' & Hget & Hoff)
        & Hassign).
  assert (a' = a) as -> by congruence.
  assert (sample' = sample) as -> by congruence.
  assert (key' = key) as -> by congruence.
  destruct Hbad as [Hempty|[Hmissing|Hoff']].
  - rewrite archive_get_empty in Hget by done. done.
  - congruence.
  - congruence.
Qed.
End unserved.

(** [DnaSequenceGenerator([a, empty], sequence_length=4, kmer=2,
    batch_size=3, batches_per_epoch=2, augment=True, rng=...)], the second
    archive holding no sequence. *)
Definition hollow_example_run : result DnaSequenceGenerator.t * (nat -> Z) :=
  DnaSequenceGenerator.init [sample_a; ∅] 4 2 3 2 true false None 0 (fun _ => 7).

Definition hollow_example : DnaSequenceGenerator.t :=
  match hollow_example_run.1 with
  | Ok g => g
  | Raise _ =>
      DnaSequenceGenerator.Build [] [] 0 0 0 false 0 0 false None 0 [] [] None
  end.

Lemma hollow_example_reachable : SequenceFacts.reachable hollow_example.
Proof.
  eapply (SequenceFacts.reach_init [sample_a; ∅] 4 2 3 2 true false
            None 0 (fun _ => 7) hollow_example_run.2).
  by vm_compute.
Qed.

(** The second slot of batch 1 draws from the empty archive. *)
Lemma unservable_slot_raises_witness :
  DnaSequenceGenerator.getitem (Z.of_nat 1) (fun _ => 0, hollow_example)
  = (Raise KeyError, (fun _ => 0, hollow_example)).
Proof.
  destruct (unservable_slot_raises (S := Z) hollow_example (fun _ => 0)
              1 1 1 0 ∅ hollow_example_reachable) as (e & Hrun & He).
  - vm_compute. lia.
  - by vm_compute.
  - by vm_compute.
  - by vm_compute.
  - left. by vm_compute.
  - rewrite Hrun. vm_compute in Hrun. by injection Hrun as <-.
Defined.

(** ** Features in float64 *)

Lemma to_kmers_codes_range k row codes :
  (1 <= k <= 27)%nat -> (k <= length row)%nat -> Forall base_code row ->
  to_kmers k row = Ok codes ->
  Forall (fun c => 0 <= c < 5 ^ Z.of_nat k) codes.
Proof.
  intros Hk Hlen Hrow Hcodes.
  destruct (decide (k = 1%nat)) as [->|Hne].
  { injection Hcodes as <-. eapply Forall_impl; [|exact Hrow].
    unfold base_code. simpl. lia. }
  rewrite to_kmers_convolve in Hcodes by lia. injection Hcodes as <-.
  apply Forall_lookup_2. intros i c Hc.
  assert (Hi : (i < length row - k + 1)%nat).
  { apply lookup_lt_Some in Hc.
    by rewrite correlate_valid_length, length_rev, kmer_kernel_length in Hc. }
  rewrite correlate_valid_lookup in Hc
    by (by rewrite length_rev, kmer_kernel_length).
  injection Hc as <-.
  rewrite kmer_code_slice by (done || lia).
  apply dot_rev_weights_range.
  - rewrite length_take, length_drop. lia.
  - by apply Forall_take, Forall_drop.
Qed.

Lemma f64_of_int_codes k codes :
  (k <= 22)%nat -> Forall (fun c => 0 <= c < 5 ^ Z.of_nat k) codes ->
  map f64_of_int codes = codes.
Proof.
  intros Hk. induction 1 as [|c codes Hc _ IH]; [done|]. simpl.
  assert (5 ^ Z.of_nat k <= 5 ^ 22) by (apply Z.pow_le_mono_r; lia).
  rewrite IH, f64_of_int_small by lia. done.
Qed.

(** A generator object with the given [kmer] and [sequence_length], for
    calling [batch_to_kmers], which reads nothing else. *)
Definition encoder_only (kmer sequence_length : nat) : DnaSequenceGenerator.t :=
  DnaSequenceGenerator.Build [] [] 0 sequence_length kmer false 0 0 false None 0
    [] [] None.

Section exact_features.
Context {S : Type} `{GeneratorSpec S}.

(** X13: the features are exact up to [kmer = 22], and no further.
    [batch_to_kmers] stores the int64 codes in a float64 array: for
    [1 <= kmer <= 22] (and [kmer <= sequence_length]) on windows of base
    codes it returns, for every window, exactly the codes of [to_kmers],
    each in [[0, 5^kmer)]; for [kmer = 23] two different windows of base
    codes get the same features, codes above [2^53] being rounded. *)
Theorem batch_to_kmers_exact_up_to_22 :
  (forall (st : (nat -> S) * DnaSequenceGenerator.t) b,
      (1 <= DnaSequenceGenerator.kmer st.2 <= 22)%nat ->
      (DnaSequenceGenerator.kmer st.2
       <= DnaSequenceGenerator.sequence_length st.2)%nat ->
      Forall (fun row => length row = DnaSequenceGenerator.sequence_length st.2 /\
                         Forall base_code row) b ->
      exists x,
        DnaSequenceGenerator.batch_to_kmers b st = (Ok x, st) /\
        Forall2 (fun row feat =>
                   to_kmers (DnaSequenceGenerator.kmer st.2) row = Ok feat /\
                   Forall (fun c => 0 <= c < 5 ^ Z.of_nat
                                                   (DnaSequenceGenerator.kmer st.2))
                          feat) b x) /\
  (forall h : nat -> S,
      replicate 22 4 ++ [0] <> replicate 22 4 ++ [1] /\
      Forall base_code (replicate 22 4 ++ [0]) /\
      Forall base_code (replicate 22 4 ++ [1]) /\
      (DnaSequenceGenerator.batch_to_kmers [replicate 22 4 ++ [0]]
         (h, encoder_only 23 23)).1
      = (DnaSequenceGenerator.batch_to_kmers [replicate 22 4 ++ [1]]
           (h, encoder_only 23 23)).1 /\
      is_ok (DnaSequenceGenerator.batch_to_kmers [replicate 22 4 ++ [0]]
               (h, encoder_only 23 23)).1 = true).
Proof.
  split.
  - intros st b Hk Hwin Hrows.
    assert (Hlens : Forall (fun row => length row
                                       = DnaSequenceGenerator.sequence_length st.2) b).
    { eapply Forall_impl; [|exact Hrows]. by intros row [? _]. }
    destruct (sequence_batch_to_kmers_total st b Hlens ltac:(lia)) as (x & Hx).
    exists x. split; [done|].
    pose proof (SequenceRows.seq_batch_to_kmers_rows st st b x ltac:(lia) Hlens Hx)
      as Hall.
    apply Forall2_same_length_lookup.
    apply Forall2_same_length_lookup in Hall as [Hlen Hall].
    split; [done|]. intros i row feat Hrow Hfeat.
    destruct (Hall i row feat Hrow Hfeat) as (codes & Hcodes & ->).
    eapply Forall_lookup_1 in Hrows as [Hl Hbase]; [|exact Hrow].
    pose proof (to_kmers_codes_range (DnaSequenceGenerator.kmer st.2) row codes
                  ltac:(lia) ltac:(lia) Hbase Hcodes)
      as Hrange.
    rewrite (f64_of_int_codes (DnaSequenceGenerator.kmer st.2)) by (lia || done).
    by split.
  - intros h. split; [by intros [=]%(f_equal (fun l => l !! 22%nat))|].
    split; [apply Forall_app; split; [|by repeat constructor];
            apply Forall_forall; intros c Hc;
            apply list_elem_of_In, elem_of_replicate in Hc as [-> _]; by unfold base_code|].
    split; [apply Forall_app; split; [|by repeat constructor];
            apply Forall_forall; intros c Hc;
            apply list_elem_of_In, elem_of_replicate in Hc as [-> _]; by unfold base_code|].
    split; by vm_compute.
Qed.
End exact_features.

Lemma batch_to_kmers_exact_up_to_22_witness :
  exists x,
    DnaSequenceGenerator.batch_to_kmers [[1; 2; 3; 4]] (fun _ => 7, sequence_example)
    = (Ok x, (fun _ => 7, sequence_example)) /\
    Forall2 (fun row feat =>
               to_kmers (DnaSequenceGenerator.kmer sequence_example) row = Ok feat /\
               Forall (fun c => 0 <= c < 5 ^ Z.of_nat
                                               (DnaSequenceGenerator.kmer
                                                  sequence_example)) feat)
            [[1; 2; 3; 4]] x.
Proof.
  destruct (batch_to_kmers_exact_up_to_22 (S := Z)) as [Hexact _].
  apply (Hexact (fun _ => 7, sequence_example) [[1; 2; 3; 4]]).
  - vm_compute. lia.
  - vm_compute. lia.
  - apply Forall_cons; [|apply Forall_nil]. split; [by vm_compute|].
    repeat constructor; unfold base_code; lia.
Defined.

(** * [find_dbs] *)

From stdpp Require Import sorting.

Local Open Scope Z_scope.

(** ** The file system under a path *)

(** What [os.walk] makes of a directory entry: a directory with its own
    entries ([Dir]); a symbolic link to a directory, or a directory that
    cannot be listed ([DirLink]: named among the directories, and nothing
    is yielded for it, [followlinks] being false and errors ignored); or
    anything else ([File]), which is named among the files.  The entries
    of a directory come in the order in which the operating system yields
    them. *)
Inductive node : Type :=
  | File : node
  | DirLink : node
  | Dir : forest -> node
with forest : Type :=
  | no_entries : forest
  | entry : string -> node -> forest -> forest.

Scheme node_forest_ind := Induction for node Sort Prop
  with forest_node_ind := Induction for forest Sort Prop.

Combined Scheme node_forest_mutind from node_forest_ind, forest_node_ind.

Fixpoint entries (es : forest) : list (string * node) :=
  match es with
  | no_entries => []
  | entry name n rest => (name, n) :: entries rest
  end.

(** [path.endswith("/")] for a non-empty path. *)
Definition ends_with_sep (a : string) : bool :=
  String.eqb (String.substring (String.length a - 1) 1 a) "/".

(** [os.path.join(a, b)] of [posixpath]. *)
Definition path_join (a b : string) : string :=
  if String.prefix "/" b then b
  else if decide (a = "") then b
  else if ends_with_sep a then a +:+ b
  else a +:+ "/" +:+ b.

Fixpoint dirnames (es : forest) : list string :=
  match es with
  | no_entries => []
  | entry name File rest => dirnames rest
  | entry name _ rest => name :: dirnames rest
  end.

Fixpoint filenames (es : forest) : list string :=
  match es with
  | no_entries => []
  | entry name File rest => name :: filenames rest
  | entry name _ rest => filenames rest
  end.

(** [os.walk(top)], top down: the triple of the directory, then the walks
    of its sub-directories in the order of [dirnames]. *)
Fixpoint walk_node (top : string) (n : node) : list (string * list string * list string) :=
  match n with
  | Dir es => (top, dirnames es, filenames es) :: walk_forest top es
  | _ => []
  end
with walk_forest (top : string) (es : forest) : list (string * list string * list string) :=
  match es with
  | no_entries => []
  | entry name n rest => walk_node (path_join top name) n ++ walk_forest top rest
  end.

(** [os.walk(path)] where [root] holds the entries of the directory that
    [path] names, and is [None] when [path] names no directory: the error
    of [os.scandir] is ignored and nothing is yielded. *)
Definition os_walk (top : string) (root : option forest)
  : list (string * list string * list string) :=
  match root with
  | Some es => walk_node top (Dir es)
  | None => []
  end.

(** The order of Python strings, by code point. *)
Definition str_le (a b : string) : Prop := String.leb a b = true.

#[global] Instance str_le_dec : RelDecision str_le :=
  fun a b => decide (String.leb a b = true).

(** [sorted(l)] on strings. *)
Definition py_sorted (l : list string) : list string := merge_sort str_le l.

Definition find_dbs (path : string) (root : option forest) : list string :=
  py_sorted
    (flat_map (fun '(d, _, fs) =>
                 flat_map (fun f => if decide (f = "data.mdb") then [d] else []) fs)
              (os_walk path root)).

(** ** Properties *)

Lemma string_compare_lt_trans s1 s2 s3 :
  String.compare s1 s2 = Lt -> String.compare s2 s3 = Lt ->
  String.compare s1 s3 = Lt.
Proof.
  revert s2 s3. induction s1 as [|a s1 IH]; intros [|b s2] [|c s3]; simpl; try done.
  unfold Ascii.compare.
  destruct (N.compare_spec (Ascii.N_of_ascii a) (Ascii.N_of_ascii b)),
           (N.compare_spec (Ascii.N_of_ascii b) (Ascii.N_of_ascii c)),
           (N.compare_spec (Ascii.N_of_ascii a) (Ascii.N_of_ascii c));
    try done; try lia.
  apply IH.
Qed.

Lemma str_le_cases a b : str_le a b <-> String.compare a b = Lt \/ a = b.
Proof.
  unfold str_le, String.leb. split.
  - destruct (String.compare a b) eqn:Hc; try done.
    + intros _. right. by apply String.compare_eq_iff.
    + intros _. by left.
  - intros [->| ->]; [done|].
    assert (Hb : String.compare b b = Eq); [|by rewrite Hb].
    pose proof (String.compare_antisym b b) as Hanti.
    by destruct (String.compare b b).
Qed.

#[global] Instance str_le_total : Total str_le.
Proof. intros a b. apply String.leb_total. Qed.

#[global] Instance str_le_trans : Transitive str_le.
Proof.
  intros a b c [Hab| ->]%str_le_cases [Hbc| ->]%str_le_cases; apply str_le_cases.
  - left. by eapply string_compare_lt_trans.
  - by left.
  - by left.
  - by right.
Qed.

#[global] Instance str_le_antisym : AntiSymm (=) str_le.
Proof. intros a b. apply String.leb_antisym. Qed.

(** [sorted] returns the one ascending arrangement of its argument. *)
Lemma py_sorted_unique l l' :
  StronglySorted str_le l' -> l' ≡ₚ l -> py_sorted l = l'.
Proof.
  intros Hs Hp. apply (StronglySorted_unique str_le).
  - apply StronglySorted_merge_sort; apply _.
  - done.
  - unfold py_sorted. by rewrite merge_sort_Permutation.
Qed.

(** The directories that [os.walk(top)] enters, with their entries:
    [top], and every directory reached from it through directories that
    are no symbolic links. *)
Inductive visited : string -> forest -> string -> forest -> Prop :=
  | visited_top top es : visited top es top es
  | visited_sub top es name sub d des :
      (name, Dir sub) ∈ entries es ->
      visited (path_join top name) sub d des ->
      visited top es d des.

Lemma walk_forest_entry top es name n :
  (name, n) ∈ entries es ->
  walk_node (path_join top name) n ⊆ walk_forest top es.
Proof.
  induction es as [|name' n' rest IH]; simpl; [by intros ?%not_elem_of_nil|].
  intros [[= -> ->]|Hin]%elem_of_cons t Ht; apply elem_of_app.
  - by left.
  - right. by apply IH.
Qed.

Lemma visited_walk top es d des :
  visited top es d des ->
  (d, dirnames des, filenames des) ∈ walk_node top (Dir es).
Proof.
  induction 1 as [top es|top es name sub d des Hin _ IH].
  - by left.
  - simpl. right. by eapply walk_forest_entry.
Qed.

Lemma walk_visited_mutual :
  (forall n top t, t ∈ walk_node top n ->
     exists es des, n = Dir es /\ visited top es t.1.1 des /\
                    t.1.2 = dirnames des /\ t.2 = filenames des) /\
  (forall es top t, t ∈ walk_forest top es ->
     exists name sub des,
       (name, Dir sub) ∈ entries es /\
       visited (path_join top name) sub t.1.1 des /\
       t.1.2 = dirnames des /\ t.2 = filenames des).
Proof.
  apply node_forest_mutind.
  - intros top t Ht. simpl in Ht. by apply not_elem_of_nil in Ht.
  - intros top t Ht. simpl in Ht. by apply not_elem_of_nil in Ht.
  - intros es IH top t [->|Ht]%elem_of_cons.
    + exists es, es. split; [done|]. split; [constructor | done].
    + destruct (IH top t Ht) as (name & sub & des & Hin & Hv & Hd & Hf).
      exists es, des. split; [done|]. split; [|done]. by eapply visited_sub.
  - intros top t Ht. simpl in Ht. by apply not_elem_of_nil in Ht.
  - intros name n IHn rest IHrest top t [Ht|Ht]%elem_of_app.
    + destruct (IHn _ t Ht) as (es & des & -> & Hv & Hd & Hf).
      exists name, es, des. split; [by left | done].
    + destruct (IHrest top t Ht) as (name' & sub & des & Hin & Hv & Hd & Hf).
      exists name', sub, des. split; [by right | done].
Qed.

Lemma filenames_entries es name :
  name ∈ filenames es <-> (name, File) ∈ entries es.
Proof.
  induction es as [|name' n rest IH]; simpl.
  - split; by intros ?%not_elem_of_nil.
  - destruct n; rewrite ?elem_of_cons, IH; split.
    + intros [->|?]; [by left | by right].
    + intros [[= ->]|?]; [by left | by right].
    + intros ?. by right.
    + by intros [[=]|?].
    + intros ?. by right.
    + by intros [[=]|?].
Qed.

(** ** Directory listings *)

(** A name without the separator. *)
Fixpoint sep_free (s : string) : bool :=
  match s with
  | EmptyString => true
  | String c s' => negb (String.eqb (String c "") "/") && sep_free s'
  end.

(** A name that a directory entry can bear. *)
Definition entry_name (s : string) : bool :=
  negb (String.eqb s "") && sep_free s.

Definition names (es : forest) : list string := map fst (entries es).

(** What a file system grants of the entries of a directory, and of those
    of the directories below it: each bears a name, and no two entries of
    one directory bear the same. *)
Fixpoint listed_node (n : node) : bool :=
  match n with
  | Dir es => listed es
  | _ => true
  end
with listed (es : forest) : bool :=
  match es with
  | no_entries => true
  | entry name n rest =>
      entry_name name && negb (existsb (String.eqb name) (names rest))
      && listed_node n && listed rest
  end.

(** The directories of the triples of a walk. *)
Definition walked (l : list (string * list string * list string)) : list string :=
  map (fun t => t.1.1) l.

(** What [os.path.join] puts before a name. *)
Definition joint (top : string) : string :=
  if decide (top = "") then ""
  else if ends_with_sep top then top
  else top +:+ "/".

(** Nothing, or what follows a name in a path. *)
Definition tail_ok (t : string) : Prop := t = "" \/ exists t', t = "/" +:+ t'.

Local Arguments String.append : simpl nomatch.

Lemma string_app_assoc (a b c : string) : (a +:+ b) +:+ c = a +:+ b +:+ c.
Proof. induction a as [|x a IH]; simpl; [done | by rewrite IH]. Qed.

Lemma string_app_nil_r (a : string) : a +:+ "" = a.
Proof. induction a as [|x a IH]; simpl; [done | by rewrite IH]. Qed.

Lemma string_length_app (a b : string) :
  String.length (a +:+ b) = (String.length a + String.length b)%nat.
Proof. induction a as [|x a IH]; simpl; [done | by rewrite IH]. Qed.

Lemma string_app_nonempty (a b : string) : b <> "" -> a +:+ b <> "".
Proof. by destruct a. Qed.

Lemma ends_with_sep_cons c s :
  s <> "" -> ends_with_sep (String c s) = ends_with_sep s.
Proof.
  destruct s as [|c' s]; [done|]. intros _. unfold ends_with_sep. simpl.
  by rewrite Nat.sub_0_r.
Qed.

Lemma entry_name_parts name :
  entry_name name = true -> name <> "" /\ sep_free name = true.
Proof.
  unfold entry_name. intros [Hne Hfree]%andb_prop. split; [|done].
  apply negb_true_iff in Hne. by apply String.eqb_neq.
Qed.

Lemma sep_free_end name :
  name <> "" -> sep_free name = true -> ends_with_sep name = false.
Proof.
  induction name as [|c s IH]; [done|]. intros _. simpl.
  intros [Hc Hs]%andb_prop. destruct s as [|c' s].
  - unfold ends_with_sep. simpl. by apply negb_true_iff.
  - rewrite ends_with_sep_cons by done. by apply IH.
Qed.

Lemma ends_with_sep_name a name :
  entry_name name = true -> ends_with_sep (a +:+ name) = false.
Proof.
  intros [Hne Hfree]%entry_name_parts. induction a as [|c a IH]; simpl.
  - by apply sep_free_end.
  - rewrite ends_with_sep_cons; [done | by apply string_app_nonempty].
Qed.

Lemma entry_name_prefix name :
  entry_name name = true -> String.prefix "/" name = false.
Proof.
  intros [Hne Hfree]%entry_name_parts. destruct name as [|c s]; [done|].
  destruct (String.prefix "/" (String c s)) eqn:Hp; [|done].
  apply String.prefix_correct in Hp. simpl in Hp, Hfree.
  injection Hp as -> _. by apply andb_prop in Hfree as [? _].
Qed.

Lemma path_join_name top name :
  entry_name name = true -> path_join top name = joint top +:+ name.
Proof.
  intros Hname. unfold path_join, joint.
  rewrite (entry_name_prefix name Hname).
  destruct (decide (top = "")); [done|].
  destruct (ends_with_sep top); [done|]. by rewrite string_app_assoc.
Qed.

Lemma joint_path_join top name :
  entry_name name = true ->
  joint (path_join top name) = joint top +:+ name +:+ "/".
Proof.
  intros Hname. rewrite (path_join_name top name Hname). unfold joint at 1.
  destruct (entry_name_parts name Hname) as [Hne _].
  destruct (decide _) as [Hempty|_].
  { by apply string_app_nonempty with (a := joint top) in Hne. }
  rewrite ends_with_sep_name by done. apply string_app_assoc.
Qed.

Lemma joint_length top : (String.length top <= String.length (joint top))%nat.
Proof.
  unfold joint. destruct (decide _) as [->|]; [done|].
  destruct (ends_with_sep top); [done|]. rewrite string_length_app. lia.
Qed.

Lemma name_tail_inj n1 t1 n2 t2 :
  sep_free n1 = true -> sep_free n2 = true -> tail_ok t1 -> tail_ok t2 ->
  n1 +:+ t1 = n2 +:+ t2 -> n1 = n2.
Proof.
  revert n2. induction n1 as [|c n1 IH]; intros [|c' n2]; simpl; try done.
  - intros _ [Hc _]%andb_prop [->|[t' ->]] _; [done|].
    intros [= <- _]. done.
  - intros [Hc _]%andb_prop _ _ [->|[t' ->]]; [done|].
    intros [= -> _]. done.
  - intros [_ H1]%andb_prop [_ H2]%andb_prop Ht1 Ht2 [= <- Heq].
    f_equal. by apply IH.
Qed.

Lemma not_existsb_names name l :
  negb (existsb (String.eqb name) l) = true -> name ∉ l.
Proof.
  intros Hno%negb_true_iff Hin.
  assert (Hex : existsb (String.eqb name) l = true); [|congruence].
  apply existsb_exists. exists name.
  split; [by apply list_elem_of_In | apply String.eqb_refl].
Qed.

(** Every directory that the walk of a listing enters lies under the
    name of the entry it was reached through. *)
Lemma walk_under_name :
  (forall n top name d,
      entry_name name = true -> listed_node n = true ->
      d ∈ walked (walk_node (path_join top name) n) ->
      exists t, d = joint top +:+ name +:+ t /\ tail_ok t) /\
  (forall es top d,
      listed es = true ->
      d ∈ walked (walk_forest top es) ->
      exists name t, name ∈ names es /\ entry_name name = true /\
                     d = joint top +:+ name +:+ t /\ tail_ok t).
Proof.
  apply node_forest_mutind.
  - intros top name d _ _ Hd. by apply not_elem_of_nil in Hd.
  - intros top name d _ _ Hd. by apply not_elem_of_nil in Hd.
  - intros es IH top name d Hname Hes [->|Hd]%elem_of_cons.
    + exists "". split; [|by left].
      by rewrite string_app_nil_r, path_join_name.
    + destruct (IH _ d Hes Hd) as (name' & t & _ & Hname' & -> & Ht).
      exists ("/" +:+ name' +:+ t). split; [|right; by eexists].
      rewrite joint_path_join by done. by rewrite !string_app_assoc.
  - intros top d _ Hd. by apply not_elem_of_nil in Hd.
  - intros name n IHn rest IHrest top d Hes Hd. simpl in Hes.
    apply andb_prop in Hes as [[[Hname Hfresh]%andb_prop Hn]%andb_prop Hrest].
    unfold walked in Hd. simpl in Hd. rewrite map_app in Hd.
    apply elem_of_app in Hd as [Hd|Hd].
    + destruct (IHn top name d Hname Hn Hd) as (t & -> & Ht).
      exists name, t. split; [by left | done].
    + destruct (IHrest top d Hrest Hd) as (name' & t & Hin & Hname' & -> & Ht).
      exists name', t. split; [by right | done].
Qed.

(** The walk of a listing enters no directory twice. *)
Lemma walk_NoDup :
  (forall n top, listed_node n = true -> NoDup (walked (walk_node top n))) /\
  (forall es top, listed es = true -> NoDup (walked (walk_forest top es))).
Proof.
  apply node_forest_mutind.
  - intros top _. constructor.
  - intros top _. constructor.
  - intros es IH top Hes. simpl. constructor; [|by apply IH].
    intros Hin.
    destruct (proj2 walk_under_name es top top Hes Hin)
      as (name & t & _ & [Hne _]%entry_name_parts & Heq & _).
    apply (f_equal String.length) in Heq.
    rewrite !string_length_app in Heq.
    pose proof (joint_length top). destruct name; [done|]. simpl in Heq. lia.
  - intros top _. constructor.
  - intros name n IHn rest IHrest top Hes. pose proof Hes as Hes'. simpl in Hes.
    apply andb_prop in Hes as [[[Hname Hfresh]%andb_prop Hn]%andb_prop Hrest].
    unfold walked. simpl. rewrite map_app. apply NoDup_app.
    split; [by apply IHn|]. split; [|by apply IHrest].
    intros d Hd Hd'.
    destruct (proj1 walk_under_name n top name d Hname Hn Hd) as (t & -> & Ht).
    destruct (proj2 walk_under_name rest top _ Hrest Hd')
      as (name' & t' & Hin & Hname' & Heq & Ht').
    apply String.app_inj in Heq.
    apply name_tail_inj in Heq; [|by apply entry_name_parts..|done|done].
    subst name'. by apply not_existsb_names in Hfresh.
Qed.

Lemma filenames_names es name : name ∈ filenames es -> name ∈ names es.
Proof.
  intros Hin%filenames_entries. unfold names.
  apply list_elem_of_fmap. by exists (name, File).
Qed.

Lemma filenames_NoDup es : listed es = true -> NoDup (filenames es).
Proof.
  induction es as [|name n rest IH]; [constructor|]. simpl.
  intros [[[_ Hfresh]%andb_prop _]%andb_prop Hrest]%andb_prop.
  apply not_existsb_names in Hfresh.
  destruct n; try by apply IH.
  constructor; [|by apply IH]. intros Hin. by apply filenames_names in Hin.
Qed.

Lemma listed_entry es name sub :
  listed es = true -> (name, Dir sub) ∈ entries es -> listed sub = true.
Proof.
  induction es as [|name' n rest IH]; simpl; [by intros _ ?%not_elem_of_nil|].
  intros [[_ Hn]%andb_prop Hrest]%andb_prop [[= -> <-]|Hin]%elem_of_cons.
  - done.
  - by apply IH.
Qed.

Lemma visited_listed top es d des :
  visited top es d des -> listed es = true -> listed des = true.
Proof.
  induction 1 as [top es|top es name sub d des Hin _ IH]; [done|].
  intros Hes. apply IH. by eapply listed_entry.
Qed.

Lemma pick_absent {A} (k : string) (d : A) fs :
  k ∉ fs -> flat_map (fun f => if decide (f = k) then [d] else []) fs = [].
Proof.
  induction fs as [|f fs IH]; [done|]. intros [Hne Hfs]%not_elem_of_cons. simpl.
  destruct (decide (f = k)); [done|]. by apply IH.
Qed.

Lemma pick_NoDup {A} (k : string) (d : A) fs :
  NoDup fs ->
  flat_map (fun f => if decide (f = k) then [d] else []) fs = [] \/
  flat_map (fun f => if decide (f = k) then [d] else []) fs = [d].
Proof.
  induction 1 as [|f fs Hf _ IH]; [by left|]. simpl.
  destruct (decide (f = k)) as [->|]; [|done].
  right. by rewrite pick_absent.
Qed.

Lemma flat_map_NoDup {A B} (F : A -> list B) (p : A -> B) l :
  NoDup (map p l) ->
  (forall x, x ∈ l -> F x = [] \/ F x = [p x]) ->
  NoDup (flat_map F l).
Proof.
  induction l as [|x l IH]; simpl; [constructor|].
  intros [Hx Hl]%NoDup_cons HF.
  assert (Hrest : NoDup (flat_map F l)).
  { apply IH; [done|]. intros y Hy. apply HF. by right. }
  destruct (HF x ltac:(by left)) as [-> | ->]; [done|]. simpl.
  constructor; [|done]. intros Hin. apply Hx.
  apply list_elem_of_In, in_flat_map in Hin as (y & Hy & Hin).
  apply list_elem_of_In in Hy.
  destruct (HF y ltac:(by right)) as [E|E]; rewrite E in Hin; [done|].
  destruct Hin as [<-|[]]. apply list_elem_of_fmap. by exists y.
Qed.

Lemma find_dbs_NoDup path es :
  listed es = true -> NoDup (find_dbs path (Some es)).
Proof.
  intros Hes. unfold find_dbs, py_sorted. rewrite merge_sort_Permutation.
  apply (flat_map_NoDup _ (fun t => t.1.1)).
  - apply (proj1 walk_NoDup (Dir es) path Hes).
  - intros [[d ds] fs] Ht.
    destruct (proj1 walk_visited_mutual _ _ _ Ht)
      as (es' & des & [= <-] & Hv & _ & Hfs). simpl in *. subst fs.
    apply pick_NoDup, filenames_NoDup. by eapply visited_listed.
Qed.

(** X10: [find_dbs(path)] returns, in ascending order, the paths of the
    directories that hold a file named [data.mdb], among [path] and the
    directories reached from it without following a symbolic link: each
    path is [os.path.join] of its parent's path with its name, a
    directory named [data.mdb] does not count, and a [path] that names no
    directory gives the empty list.  On a file system, where the entries
    of a directory bear distinct names without [/], each such directory
    comes once: the result is the one ascending list without repetition
    of these paths. *)
Theorem find_dbs_sorted_directories :
  (forall path root, StronglySorted str_le (find_dbs path root)) /\
  (forall path es d,
      d ∈ find_dbs path (Some es) <->
      exists des, visited path es d des /\ ("data.mdb", File) ∈ entries des) /\
  (forall path es,
      listed es = true ->
      NoDup (find_dbs path (Some es)) /\
      forall l,
        StronglySorted str_le l -> NoDup l ->
        (forall d, d ∈ l <->
                   exists des, visited path es d des /\
                               ("data.mdb", File) ∈ entries des) ->
        find_dbs path (Some es) = l) /\
  (forall path, find_dbs path None = []).
Proof.
  assert (Hmem : forall path es d,
             d ∈ find_dbs path (Some es) <->
             exists des, visited path es d des /\ ("data.mdb", File) ∈ entries des).
  { intros path es d. unfold find_dbs, py_sorted.
    rewrite merge_sort_Permutation, list_elem_of_In, in_flat_map. split.
    + intros ([[d' dirs] fs] & Ht%list_elem_of_In & Hd).
      apply in_flat_map in Hd as (f & Hf & Hd).
      destruct (decide (f = "data.mdb")) as [->|]; [|done].
      destruct Hd as [<-|[]].
      destruct (proj1 walk_visited_mutual _ _ _ Ht)
        as (es' & des & [= <-] & Hv & _ & Hfs). simpl in *. subst fs.
      exists des. split; [done|]. by apply filenames_entries, list_elem_of_In.
    + intros (des & Hv & Hfile).
      exists (d, dirnames des, filenames des).
      split; [by apply list_elem_of_In, visited_walk|].
      apply in_flat_map. exists "data.mdb".
      split; [by apply list_elem_of_In, filenames_entries|].
      destruct (decide _); [by left | done]. }
  assert (Hsorted : forall path root, StronglySorted str_le (find_dbs path root)).
  { intros path root. apply StronglySorted_merge_sort; apply _. }
  split; [done|]. split; [done|]. split; [|done].
  intros path es Hes.
  pose proof (find_dbs_NoDup path es Hes) as Hnodup.
  split; [done|]. intros l Hl Hnd Hin.
  apply (StronglySorted_unique str_le); [done..|].
  apply NoDup_Permutation; [done..|].
  intros d. by rewrite Hmem, Hin.
Qed.

(** A dataset directory: two samples, one of them with a nested sample, a
    symbolic link to a directory, a directory named [data.mdb] and a
    stray file. *)
Definition dataset_tree : forest :=
  entry "zeta" (Dir (entry "data.mdb" File (entry "lock.mdb" File no_entries)))
    (entry "alpha"
       (Dir (entry "data.mdb" File
               (entry "inner" (Dir (entry "data.mdb" File no_entries)) no_entries)))
       (entry "link" DirLink
          (entry "data.mdb" (Dir no_entries)
             (entry "notes.txt" File no_entries)))).

Example find_dbs_dataset_tree :
  find_dbs "data" (Some dataset_tree)
  = ["data/alpha"; "data/alpha/inner"; "data/zeta"].
Proof. by vm_compute. Qed.

Lemma find_dbs_sorted_directories_witness :
  "data/alpha/inner" ∈ find_dbs "data" (Some dataset_tree) /\
  NoDup (find_dbs "data" (Some dataset_tree)).
Proof.
  destruct find_dbs_sorted_directories as (_ & Hmem & Hone & _). split.
  - apply Hmem.
    exists (entry "data.mdb" File no_entries). split; [|by left].
    eapply (visited_sub "data" dataset_tree "alpha"); [right; by left|].
    eapply (visited_sub _ _ "inner"); [right; by left|].
    apply (visited_top "data/alpha/inner").
  - apply (Hone "data" dataset_tree). reflexivity.
Defined.
